(* ===== verification/_CoqProject ===== *)
-Q . S2P
Prelude.v
StdMap.v
StdAlgorithm.v
Timer.v
Events.v
CycleBuffer.v
CycleFrame.v
Connection.v
WorkQueue.v
Json.v
ConfigData.v
Config.v
ConfigSpec.v
Policy.v
Wire.v
Servant.v
Generated.v
Client.v
Server.v
AsyncNode.v
NodeSpec.v
Rendezvous.v
NetIO.v
Startup.v
Task.v
Heap.v
TcpChannel.v
Channel.v
Interface.v
Session.v
