(* ===== verification/Prelude.v ===== *)
(** * A model of the channel SDK (src/core) and its verification

    The SDK lets the nodes of a multi-party computation exchange messages.  A node
    reads a JSON document that describes the nodes of a task, finds out which of them
    it serves and which serve it, starts an Ice service for its clients, connects to
    its servers, and then sends and receives byte strings under message ids.

    ** Parts and files

    A call descends through these layers; each file models one of them, with the
    names of the C++ code.

    - [Session]: the Python module pyio (pybind11/io_channel.cc): sessions of calls on the
      one IoChannelImpl of a process, and the life of the channel objects it creates.
    - [Interface]: the interface IChannel (IChannel.h), programs against it, the class
      [IChannelIds] of what they rely on, and TcpChannel as its implementation.
    - [Channel]: IoChannelImpl (io_channel_impl.h/.cc), APIManager
      (pybind11/api_manager.h) and TcpChannel::Recv/Send: [CreateIoChannel] reads the
      document, looks up the node, computes its peers and initialises the network;
      [impl_Send] and [impl_Recv] are what Python calls.
    - [TcpChannel]: the C structures with node ids that a channel hands out, the
      process-wide caches that own them, the destructor (tcp_channel.h/.cc), over an
      explicit heap with a separation logic of its own ([Heap]).
    - [NetIO]: ViaNetIO (net_io.h/.cc), a node's connections, clients and service.
      [Startup]: its [init] as a list of actions (start the service, connect, send and
      await the flags or check the connections).  [Task]: the nodes of a task, each with
      its list; the rounds of their loops interleave, and the requests of one are
      dispatched to the servant of another.
    - [Client]: BaseClient and SyncClient (base_client, sync_client), connecting and
      the retry loop of a remote call.  [Server]: BaseServer, SyncServer, AsyncServer.
      [Rendezvous] relates the two.
    - [Servant]: IoChannelI and the dispatch generated from io_channel_ice.ice;
      [Wire]: the marshalling of its messages; [Generated]: the rest of the generated
      code (io_channel_ice.h/.cpp), the proxy's blocking and asynchronous calls, the
      user exception, callbacks, and the C++11 mapping (module [Cpp11]).
    - [WorkQueue] (WorkQueue.h/.cc): the queue and worker of the ASYNC_SERVER build.
      [AsyncNode]: servant, queues, workers, receivers and the connections they share,
      as one transition system, and as a client meets it.  [NodeSpec]: the abstract
      specification of a node, a stream of bytes per client and message id, with the
      class [NodeImpl] of its implementations; both builds are instances.
    - [Connection]: ClientConnection (client_connection.h/.cc), the messages waiting
      under each message id.  It is written against the class [MsgBuffer]; [MsgQueue]
      (default build) and the cycle buffer (USE_BUFFER) are its instances, and what is
      proved of connections is proved from [MsgBufferLaws].  Its condition variable is
      the number of notifications so far.
    - [CycleBuffer], [CycleFrame]: cycle_buffer.h/.cc, the byte ring and the framed
      messages in it.
    - [ConfigData], [Json], [Config], [ConfigSpec]: ChannelConfig (config.h/.cc), its
      records, the JSON values it reads, its parse functions, and what a loaded
      configuration satisfies.  [Policy]: the queries on it and GetPolicy.
    - [Events] (const.h): names, event messages and their formatting, FilterIllChar.
      [Timer] (simple_timer.h/.cc), with the float conversions the code makes.
    - [StdMap]: std::map and std::set with their iteration order.  [StdAlgorithm]: the
      binary searches of the generated dispatch.  [Prelude]: faults, the state and
      error monad, loops, Hoare triples, machine integers, memory blocks, C strings,
      tactics.

    ** How the code is represented

    A member function that changes its object is a function on a record, or a
    computation of [M S A := S -> result A * S]: a state change made before a throw
    stays.  [result] has the exceptions of the code and, as values, undefined
    behaviour and blocking for ever.  [int32_t] arithmetic whose overflow is undefined
    goes through [i32], conversions through [to_int] and [to_uint]; [float] and
    [double] are SpecFloat numbers of their width.  An array is a list of bytes, and
    [memcpy] checks both ranges.

    Time and other threads are explicit: a clock reading is an argument; a wait is cut
    into turns ([Connection.turn]: what is written meanwhile and how the wait ends); a
    remote call has a fate ([Client.fate]: lost, answered, carried out with the answer
    lost).  A function that loops until something happens consumes a list of such
    turns or attempts, so the list is its fuel; when it runs out the value is
    [Blocked], which no theorem treats as success, and [send_ends],
    [queue_recv_in_time] and [Startup.favourable] say when the list is long enough.
    Functions on one object that several threads call are steps of a relation
    ([Connection.sys_step], [WorkQueue.wstep]), one step for what runs under the object's
    lock.  In [Task] a loop takes one attempt or turn per tick; its value [Blocked] after
    that means that it goes on ([retry_by_rounds], [recv_by_rounds]).

    The build options are parameters: SSL_TYPE, USE_BUFFER, STATIC_CALL, ASYNC_SERVER;
    the servants of the builds exist side by side.  Code outside the repository is a
    parameter with the facts used of it: Ice's run time ([Client.IceClient],
    [Server.IceServer]), its encoding ([Wire.IceStream], [Generated.IceSlices] and
    [IceVariadic], whose laws [Encoding11] and [Slices11] satisfy), an invocation and the
    base classes of callbacks ([Generated.Outgoing], [Generated.Twoway]), rapidjson's
    parser and the file system ([Config.load]), the allocator ([TcpChannel]), the order
    of an unordered_map ([NetIO]).

    ** What is proved

    - Channels: a channel that is created has exactly the connections, clients and ids
      of the document's policy, and a message sent is the message received, by a node
      of either build ([Channel]); [init] is a barrier between the nodes ([NetIO]).
      The converse: a node of the task whose servers are described, and that has peers
      when there is a policy, gets its channel when Ice does its part and the peers
      answer and send their flags in time; any other node is answered by an event
      ([Startup.init_succeeds], [Channel]).  And the nodes of one document do so for each
      other: within the timeouts no interleaving makes a start throw, and as many rounds
      of the nodes as there are actions end with all of them started, a node that waits
      for a flag going on only when it is notified ([Task]).
    - Users: a Python session uses the channel it created last ([Session]); any program
      over IChannel can read the node ids, whatever it sends and receives ([Interface]).
    - Delivery: sending is at least once and ends ([Client]); connections and work
      queues lose, invent and reorder nothing in any interleaving; no receiver and no
      worker misses the notification for what it waits for ([Connection], [WorkQueue]); both servants store
      the same ([Servant]); messages are read back as written ([Wire]).
    - Builds: every build of a node, over either container of messages, implements the
      same streams ([NodeSpec]); the asynchronous node refines the synchronous one, by an
      abstraction function that writes what is queued to the connections
      ([AsyncNode.flush]), and a client cannot tell the two apart; once shut down it
      refuses every send, and the sender learns of it.  The two C++ mappings of the
      interface are interchangeable over run times that invoke alike, blocking, and on a
      twoway proxy with futures and with callbacks, and a
      call reports what the servant's callback was given, by exactly one call of its
      callback object ([Generated]).
    - The byte ring refines a queue of bytes, whatever wraps or grows, and framed
      messages round-trip ([CycleBuffer], [CycleFrame]).
    - Configuration: a document that is accepted yields coherent tables; the
      first of two descriptions is kept ([ConfigSpec.node_loop]); undescribed nodes are
      refused.  Servers and clients are computed exactly, the relation is symmetric between
      nodes, and queries are exact ([Policy]).  Client and server of one document
      meet at the same proxy ([Rendezvous]).
    - Memory: no getter or destructor of a channel uses freed memory, and no channel
      that is destroyed leaks ([TcpChannel]).
    - Names and events: identities are legal and distinct, except where the filter
      merges them; messages are cut at 511 characters ([Events]).
    - Where the code does something else than it means to, a theorem says what:
      overrun of a receive block, a timeout received as zero bytes, a replaced channel
      that is never destroyed, overflow and division by zero in a growing buffer,
      empty frames that stay, requests dropped after they were acknowledged, messages
      of unknown nodes acknowledged, an event that cannot be printed.

    ** What is not modelled

    The bodies of Ice, rapidjson, OpenSSL and pybind11; of the generated code, casts,
    comparisons, empty destructors and clones; the conversions between Python and C++
    values; console output; allocation failure and lengths no memory could hold; two
    threads inside the allocator at once.  In [Task] the nodes are synchronous ones and
    the start is shorter than the timeouts; what a timeout does that expires during a
    start is the subject of [send_ends] and [sync_timeout_undefined].  The end of a channel is
    in two parts that are not composed: what it frees of the node ids
    ([destroy_IoChannelImpl]) and how its clients and its service are shut down
    ([destroy_ViaNetIO]).  [node_destroy] is the loop of AsyncServer's destructor; after the
    [close()] behind it no request arrives. *)
From stdpp Require Export base tactics numbers list strings gmap.
From Stdlib Require Export ZArith Lia.
From Stdlib Require Import Strings.Byte Ascii.
#[global] Open Scope Z_scope.

(** * Outcomes of C++ code

    [fault] lists the ways a call leaves without returning a value. *)
Inductive fault :=
  | EventException (message : string)   (* event_exception.h *)
  | StringException (message : string)  (* [throw "key[...] not exist!"] *)
  | LengthError                         (* std::length_error *)
  | OutOfRange                          (* std::out_of_range *)
  | BadAlloc                            (* new[] with a negative length *)
  | AssertFailure (what : string)       (* assert / RAPIDJSON_ASSERT *)
  | IceException (what : string)        (* Ice::Exception and subclasses *)
  | UndefinedBehaviour (what : string)  (* no meaning given by the standard *)
  | Blocked (what : string).            (* waits for a condition that is false *)

Inductive result (A : Type) :=
  | Ok (a : A)
  | Err (e : fault).
Arguments Ok {A} a.
Arguments Err {A} e.

#[global] Instance byte_eq_dec : EqDecision Byte.byte := Byte.byte_eq_dec.
#[global] Instance fault_eq_dec : EqDecision fault.
Proof. solve_decision. Defined.
#[global] Instance result_eq_dec {A} `{EqDecision A} : EqDecision (result A).
Proof. solve_decision. Defined.

#[global] Instance result_ret : MRet result := fun A a => Ok a.
#[global] Instance result_bind : MBind result := fun A B f m =>
  match m with Ok a => f a | Err e => Err e end.
#[global] Instance result_fmap : FMap result := fun A B f m =>
  match m with Ok a => Ok (f a) | Err e => Err e end.

(** State passing with exceptions: a state change made before a throw stays. *)
Definition M (S A : Type) : Type := S -> result A * S.

#[global] Instance M_ret {S} : MRet (M S) := fun A a s => (Ok a, s).
#[global] Instance M_bind {S} : MBind (M S) := fun A B f m s =>
  match m s with
  | (Ok a, s') => f a s'
  | (Err e, s') => (Err e, s')
  end.
Definition throw {S A} (e : fault) : M S A := fun s => (Err e, s).
Definition lift {S A} (r : result A) : M S A := fun s => (r, s).
Definition gets {S A} (f : S -> A) : M S A := fun s => (Ok (f s), s).
Definition modify {S} (f : S -> S) : M S unit := fun s => (Ok tt, f s).

(** A [for] loop over a container: the body runs on the elements in order. *)
Fixpoint for_each {S A} (body : A -> M S unit) (l : list A) : M S unit :=
  match l with
  | [] => mret tt
  | a :: l' => body a ≫= fun _ => for_each body l'
  end.

Lemma bind_Ok {A B} (m : result A) (f : A -> result B) b :
  (m ≫= f) = Ok b <-> exists a, m = Ok a /\ f a = Ok b.
Proof. destruct m; cbn; [|naive_solver]. split; [by eexists|]. by intros (? & [= <-] & ?). Qed.

Lemma M_bind_Ok {S A B} (m : M S A) (f : A -> M S B) s b s' :
  (m ≫= f) s = (Ok b, s') <-> exists a s1, m s = (Ok a, s1) /\ f a s1 = (Ok b, s').
Proof.
  cbv [mbind M_bind]. destruct (m s) as [[a|e] s1]; [|naive_solver].
  split; [by do 2 eexists|]. by intros (? & ? & [= <- <-] & ?).
Qed.

Lemma for_each_app {S A} (body : A -> M S unit) l1 l2 s :
  for_each body (l1 ++ l2) s = (for_each body l1 ≫= fun _ => for_each body l2) s.
Proof.
  revert s; induction l1 as [|a l1 IH]; intros s; [done|].
  cbn. cbv [mbind M_bind]. destruct (body a s) as [[[]|e] s1]; [apply IH|done].
Qed.

(** A loop whose body skips some elements runs over the others. *)
Lemma for_each_filter {S A} (P : A -> Prop) `{!forall a, Decision (P a)} (body : A -> M S unit) l s :
  for_each (fun a => if decide (P a) then mret tt else body a) l s =
  for_each body (filter (fun a => ~ P a) l) s.
Proof.
  revert s; induction l as [|a l IH]; intros s; [done|].
  rewrite filter_cons. cbn. cbv [mbind M_bind]. case_decide; cbn.
  - rewrite decide_False by tauto. apply IH.
  - rewrite decide_True by done. cbn. cbv [mbind M_bind].
    destruct (body a s) as [[[]|e] s1]; [apply IH|done].
Qed.

(** Invariant rule of a loop. *)
Lemma for_each_inv {S A} (body : A -> M S unit) (I : S -> Prop) l s :
  (forall a s0 r s1, a ∈ l -> I s0 -> body a s0 = (r, s1) -> I s1) ->
  I s -> I (for_each body l s).2.
Proof.
  revert s; induction l as [|a l IH]; intros s Hb HI; [done|].
  cbn; cbv [mbind M_bind]. destruct (body a s) as [[[]|e] s1] eqn:E; cbn.
  - apply IH; [|eapply Hb; [|done..]; set_solver]. intros; eapply Hb; [|done..]; set_solver.
  - eapply Hb; [|done..]; set_solver.
Qed.

(** Partial correctness of a stateful call: what holds of the value and the state
    when it returns.  That it returns is stated apart, by equations. *)
Definition triple {S A} (P : S -> Prop) (m : M S A) (Q : A -> S -> Prop) : Prop :=
  forall s a s', P s -> m s = (Ok a, s') -> Q a s'.

Section triples.
Context {S : Type}.
Implicit Types P : S -> Prop.

Lemma triple_bind {A B} P (m : M S A) Q (f : A -> M S B) (R : B -> S -> Prop) :
  triple P m Q -> (forall a, triple (Q a) (f a) R) -> triple P (m ≫= f) R.
Proof. intros Hm Hf s b s' HP (a & s1 & E1 & E2)%M_bind_Ok. eapply Hf; [|done]. by eapply Hm. Qed.
Lemma triple_conseq {A} P P' (m : M S A) (Q Q' : A -> S -> Prop) :
  (forall s, P s -> P' s) -> (forall a s, Q' a s -> Q a s) -> triple P' m Q' -> triple P m Q.
Proof. intros HP HQ Hm s a s' H E. eapply HQ, Hm; [by apply HP|exact E]. Qed.
Lemma triple_and {A} P P' (m : M S A) (Q Q' : A -> S -> Prop) :
  triple P m Q -> triple P' m Q' -> triple (fun s => P s /\ P' s) m (fun a s => Q a s /\ Q' a s).
Proof. intros H1 H2 s a s' [? ?] E. split; [by eapply H1|by eapply H2]. Qed.
(** A call whose value does not matter, and that keeps [P]. *)
Lemma triple_seq {A B} P (m : M S A) (f : A -> M S B) Q :
  triple P m (fun _ => P) -> (forall a, triple P (f a) Q) -> triple P (m ≫= f) Q.
Proof. intros Hm Hf. eapply triple_bind; [apply Hm|apply Hf]. Qed.
Lemma triple_ret {A} P (a : A) : triple P (mret a) (fun _ => P).
Proof. by intros s x s' HP [= <- <-]. Qed.
Lemma triple_lift {A} P (r : result A) : triple P (lift r) (fun a s => P s /\ r = Ok a).
Proof. intros s x s' HP. cbv [lift]. by intros [= -> <-]. Qed.
Lemma triple_lift_any {A} P (r : result A) : triple P (lift r) (fun _ => P).
Proof. intros s x s' HP. cbv [lift]. by intros [= -> <-]. Qed.
Lemma triple_gets {A} P (f : S -> A) : triple P (gets f) (fun _ => P).
Proof. intros s x s' HP. cbv [gets]. by intros [= <- <-]. Qed.
Lemma triple_modify P (f : S -> S) : (forall s, P s -> P (f s)) -> triple P (modify f) (fun _ => P).
Proof. intros H s x s' HP. cbv [modify]. intros [= <- <-]. by apply H. Qed.
Lemma triple_for_each {A} P (body : A -> M S unit) l :
  (forall a, triple P (body a) (fun _ => P)) -> triple P (for_each body l) (fun _ => P).
Proof.
  intros Hb. induction l as [|a l IH]; cbn; [apply triple_ret|].
  by apply triple_seq; [apply Hb|intros []].
Qed.
(** A loop whose invariant speaks of the elements already handled. *)
Lemma triple_for_each_prefix {A} (I : list A -> S -> Prop) (body : A -> M S unit) l :
  (forall pre a post, l = pre ++ a :: post -> triple (I pre) (body a) (fun _ => I (pre ++ [a]))) ->
  triple (I []) (for_each body l) (fun _ => I l).
Proof.
  cut (forall post pre, l = pre ++ post ->
    (forall pre a post, l = pre ++ a :: post -> triple (I pre) (body a) (fun _ => I (pre ++ [a]))) ->
    triple (I pre) (for_each body post) (fun _ => I l)); [intros Hc; by apply (Hc l [])|].
  induction post as [|a post IH]; intros pre Hl Hb; cbn.
  - rewrite Hl, app_nil_r. apply triple_ret.
  - eapply triple_bind; [by eapply Hb|]. intros []. apply IH; [|done]. by rewrite <- app_assoc.
Qed.
Lemma triple_if {A} P (b : bool) (m1 m2 : M S A) Q :
  triple P m1 Q -> triple P m2 Q -> triple P (if b then m1 else m2) Q.
Proof. by destruct b. Qed.
Lemma triple_throw {A} P (e : fault) Q : triple P (throw (A:=A) e) Q.
Proof. by intros s a s' _ [=]. Qed.
Lemma triple_err {A} P (e : fault) Q : triple P (lift (A:=A) (Err e)) Q.
Proof. by intros s a s' _ [=]. Qed.
End triples.

(** Total correctness: the call returns, and then [Q] holds. *)
Definition total {S A} (P : S -> Prop) (m : M S A) (Q : A -> S -> Prop) : Prop :=
  forall s, P s -> exists a s', m s = (Ok a, s') /\ Q a s'.

Section totals.
Context {S : Type}.
Implicit Types P : S -> Prop.

Lemma total_bind {A B} P (m : M S A) Q (f : A -> M S B) (R : B -> S -> Prop) :
  total P m Q -> (forall a, total (Q a) (f a) R) -> total P (m ≫= f) R.
Proof.
  intros Hm Hf s HP. destruct (Hm s HP) as (a & s1 & E & HQ). destruct (Hf a s1 HQ) as (b & s2 & E2 & HR).
  exists b, s2. cbv [mbind M_bind]. by rewrite E.
Qed.
Lemma total_ret {A} P (a : A) : total P (mret a) (fun _ => P).
Proof. intros s HP. by exists a, s. Qed.
(** A loop whose invariant speaks of the elements already handled. *)
Lemma total_for_each_prefix {A} (I : list A -> S -> Prop) (body : A -> M S unit) l :
  (forall pre a post, l = pre ++ a :: post -> total (I pre) (body a) (fun _ => I (pre ++ [a]))) ->
  total (I []) (for_each body l) (fun _ => I l).
Proof.
  cut (forall post pre, l = pre ++ post ->
    (forall pre a post, l = pre ++ a :: post -> total (I pre) (body a) (fun _ => I (pre ++ [a]))) ->
    total (I pre) (for_each body post) (fun _ => I l)); [intros Hc; by apply (Hc l [])|].
  induction post as [|a post IH]; intros pre Hl Hb; cbn.
  - rewrite Hl, app_nil_r. apply total_ret.
  - eapply total_bind; [by eapply Hb|]. intros []. apply IH; [|done]. by rewrite <- app_assoc.
Qed.
End totals.

(** Two continuations that agree wherever the first call may leave. *)
Lemma M_bind_ext {S A B} (m : M S A) (f g : A -> M S B) s :
  (forall a s', m s = (Ok a, s') -> f a s' = g a s') -> (m ≫= f) s = (m ≫= g) s.
Proof. intros E. cbv [mbind M_bind]. destruct (m s) as [[a|e] s1]; [by apply E|done]. Qed.
Lemma M_bind_same {S A B} (m m' : M S A) (f : A -> M S B) s : m s = m' s -> (m ≫= f) s = (m' ≫= f) s.
Proof. intros E. cbv [mbind M_bind]. by rewrite E. Qed.
Lemma M_bind_gets {S A B} (f : S -> A) (k : A -> M S B) s : (gets f ≫= k) s = k (f s) s.
Proof. done. Qed.
Lemma M_bind_assoc {S A B C} (m : M S A) (f : A -> M S B) (g : B -> M S C) s :
  ((m ≫= f) ≫= g) s = (m ≫= fun a => f a ≫= g) s.
Proof. cbv [mbind M_bind]. by destruct (m s) as [[a|e] s1]. Qed.
Lemma for_each_app_bind {S A B} (body : A -> M S unit) l1 l2 (k : unit -> M S B) s :
  (for_each body (l1 ++ l2) ≫= k) s = (for_each body l1 ≫= fun _ => for_each body l2 ≫= k) s.
Proof. rewrite (M_bind_same _ _ _ _ (for_each_app body l1 l2 s)). apply M_bind_assoc. Qed.

(** A loop over the images of a list. *)
Lemma for_each_fmap {S A B} (body : B -> M S unit) (g : A -> B) l s :
  for_each body (g <$> l) s = for_each (fun a => body (g a)) l s.
Proof.
  revert s. induction l as [|a l IH]; intros s; [done|]. cbn. cbv [mbind M_bind].
  destruct (body (g a) s) as [[[]|] s1]; [apply IH|done].
Qed.

(** * Machine integers *)
Definition INT32_MAX : Z := 2 ^ 31 - 1.
Definition INT32_MIN : Z := - 2 ^ 31.
Definition INT64_MAX : Z := 2 ^ 63 - 1.
Definition UINT64_MAX : Z := 2 ^ 64 - 1.

(** Value of a signed 32-bit computation: overflow is undefined. *)
Definition i32 (z : Z) : result Z :=
  if (INT32_MIN <=? z) && (z <=? INT32_MAX) then Ok z
  else Err (UndefinedBehaviour "int32 overflow").

(** Conversions between widths (two's complement). *)
Definition to_uint (w z : Z) : Z := z mod 2 ^ w.
Definition to_int (w z : Z) : Z := (z + 2 ^ (w - 1)) mod 2 ^ w - 2 ^ (w - 1).
Abbreviation to_int32 := (to_int 32).
Abbreviation to_int64 := (to_int 64).
Abbreviation to_uint64 := (to_uint 64).
Abbreviation to_uint8 := (to_uint 8).

Lemma i32_ok z : INT32_MIN <= z <= INT32_MAX -> i32 z = Ok z.
Proof.
  intros H. unfold i32.
  assert ((INT32_MIN <=? z) && (z <=? INT32_MAX) = true) as ->; [|done].
  apply andb_true_iff; split; lia.
Qed.

Lemma i32_inv z z' : i32 z = Ok z' -> z' = z /\ INT32_MIN <= z <= INT32_MAX.
Proof.
  unfold i32. destruct (_ && _) eqn:E; [|done]. apply andb_true_iff in E. intros [= <-]. lia.
Qed.

Lemma to_int_id w z : 0 < w -> - 2 ^ (w - 1) <= z < 2 ^ (w - 1) -> to_int w z = z.
Proof.
  intros Hw Hz. unfold to_int.
  assert (2 ^ w = 2 * 2 ^ (w - 1)) as E.
  { rewrite <- (Z.pow_succ_r 2 (w - 1)) by lia. f_equal. lia. }
  rewrite Z.mod_small; lia.
Qed.

Lemma to_int32_id z : INT32_MIN <= z <= INT32_MAX -> to_int32 z = z.
Proof. unfold INT32_MIN, INT32_MAX. intros; apply to_int_id; lia. Qed.

Lemma to_uint_id w z : 0 <= z < 2 ^ w -> to_uint w z = z.
Proof. intros. by apply Z.mod_small. Qed.

(** * Memory blocks

    A block is a list of bytes; a pointer into it is an offset.  [memcpy]
    checks that both ranges lie in their blocks and that the length is not
    negative (a negative [int] becomes a huge [size_t]). *)
Definition splice {A} (l : list A) (i : nat) (xs : list A) : list A :=
  take i l ++ xs ++ drop (i + length xs) l.

Definition memcpy {A} (dst : list A) (doff : Z) (src : list A) (soff len : Z) : result (list A) :=
  if (0 <=? len) && (0 <=? doff) && (0 <=? soff)
     && (doff + len <=? Z.of_nat (length dst)) && (soff + len <=? Z.of_nat (length src))
  then Ok (splice dst (Z.to_nat doff) (take (Z.to_nat len) (drop (Z.to_nat soff) src)))
  else Err (UndefinedBehaviour "memcpy out of bounds").

Lemma memcpy_ok {A} (dst : list A) doff src soff len :
  0 <= len -> 0 <= doff -> 0 <= soff ->
  doff + len <= Z.of_nat (length dst) -> soff + len <= Z.of_nat (length src) ->
  memcpy dst doff src soff len =
    Ok (splice dst (Z.to_nat doff) (take (Z.to_nat len) (drop (Z.to_nat soff) src))).
Proof.
  intros. unfold memcpy.
  replace (_ && _) with true; [done|]. symmetry. repeat (apply andb_true_iff; split); lia.
Qed.

Lemma memcpy_inv {A} (dst : list A) doff src soff len dst' :
  memcpy dst doff src soff len = Ok dst' ->
  0 <= len /\ 0 <= doff /\ 0 <= soff /\
  doff + len <= Z.of_nat (length dst) /\ soff + len <= Z.of_nat (length src) /\
  dst' = splice dst (Z.to_nat doff) (take (Z.to_nat len) (drop (Z.to_nat soff) src)).
Proof.
  unfold memcpy. destruct (_ && _) eqn:E; [|done]. intros [= <-].
  repeat (apply andb_true_iff in E as [E ?]). repeat split; lia || done.
Qed.

Lemma length_splice {A} (l : list A) i xs :
  (i + length xs <= length l)%nat -> length (splice l i xs) = length l.
Proof. intros. unfold splice. rewrite !length_app, length_take, length_drop. lia. Qed.

Lemma splice_nil {A} (l : list A) i : (i <= length l)%nat -> splice l i [] = l.
Proof. intros. unfold splice. cbn. rewrite Nat.add_0_r. apply take_drop. Qed.

Lemma lookup_splice {A} (l : list A) i xs j :
  (i + length xs <= length l)%nat ->
  splice l i xs !! j =
    if decide (j < i)%nat then l !! j
    else if decide (j < i + length xs)%nat then xs !! (j - i)%nat
    else l !! j.
Proof.
  intros Hl. unfold splice.
  repeat case_decide.
  - rewrite lookup_app_l by (rewrite length_take; lia). by apply lookup_take_lt.
  - rewrite lookup_app_r by (rewrite length_take; lia). rewrite length_take.
    rewrite lookup_app_l by lia. f_equal. lia.
  - rewrite lookup_app_r by (rewrite length_take; lia). rewrite length_take.
    rewrite lookup_app_r by lia. rewrite lookup_drop. f_equal. lia.
Qed.

(** A block overwritten from its start by as many bytes as it holds. *)
Lemma splice_all {A} (l xs : list A) : length xs = length l -> splice l 0 xs = xs.
Proof.
  intros H. unfold splice. cbn. rewrite drop_ge by lia. apply app_nil_r.
Qed.

Lemma splice_app {A} (l xs ys : list A) :
  (length xs + length ys <= length l)%nat ->
  splice (splice l 0 xs) (length xs) ys = splice l 0 (xs ++ ys).
Proof.
  intros H. unfold splice. rewrite !take_0, !app_nil_l, take_app_length, length_app.
  rewrite <- (app_assoc xs ys). do 2 f_equal.
  rewrite drop_app_ge by lia. rewrite drop_drop. f_equal. lia.
Qed.

(** * C strings *)
(** [std::string(s.c_str())]: the characters before the first NUL. *)
Fixpoint c_str (s : string) : string :=
  match s with
  | EmptyString => EmptyString
  | String c s' => if Ascii.eqb c "000" then EmptyString else String c (c_str s')
  end.

Fixpoint no_nul (s : string) : bool :=
  match s with
  | EmptyString => true
  | String c s' => negb (Ascii.eqb c "000") && no_nul s'
  end.

Lemma c_str_id s : no_nul s = true -> c_str s = s.
Proof.
  induction s as [|c s IH]; cbn; [done|]. destruct (Ascii.eqb c "000"); cbn; [done|].
  intros H. by rewrite IH.
Qed.

Lemma c_str_no_nul s : no_nul (c_str s) = true.
Proof.
  induction s as [|c s IH]; cbn; [done|]. destruct (Ascii.eqb c "000") eqn:E; cbn; [done|].
  by rewrite E.
Qed.

Lemma append_nil_r s : s +:+ "" = s.
Proof. induction s as [|c s IH]; [done|]. unfold String.append in *; cbn. by f_equal. Qed.

Lemma append_cons c s t : String c s +:+ t = String c (s +:+ t).
Proof. done. Qed.

Lemma append_assoc s t u : (s +:+ t) +:+ u = s +:+ t +:+ u.
Proof. induction s as [|c s IH]; [done|]. by rewrite !append_cons, IH. Qed.

Lemma append_inj_l s t u : s +:+ t = s +:+ u -> t = u.
Proof. induction s as [|c s IH]; [done|]. rewrite !append_cons. intros [= H]. by apply IH. Qed.

Lemma no_nul_app s t : no_nul (s +:+ t) = no_nul s && no_nul t.
Proof.
  induction s as [|c s IH]; [done|]. rewrite append_cons. cbn. rewrite IH. by rewrite andb_assoc.
Qed.

Lemma c_str_app s t : no_nul s = true -> c_str (s +:+ t) = s +:+ c_str t.
Proof.
  induction s as [|c s IH]; cbn; [done|]. rewrite append_cons. cbn.
  destruct (Ascii.eqb c "000"); cbn; [done|]. intros H. by rewrite append_cons, IH.
Qed.

(** * Automation *)
Create HintDb channel.
#[export] Hint Resolve i32_ok to_int32_id memcpy_ok c_str_id c_str_no_nul : channel.

(** Split the boolean tests of the code into facts [lia] can use. *)
Ltac split_tests :=
  repeat match goal with
  | |- context [if ?a <=? ?b then _ else _] => destruct (Z.leb_spec a b)
  | |- context [if ?a <? ?b then _ else _] => destruct (Z.ltb_spec a b)
  | |- context [if ?a >=? ?b then _ else _] => rewrite (Z.geb_leb a b)
  | |- context [if ?a >? ?b then _ else _] => rewrite (Z.gtb_ltb a b)
  | |- context [if ?a =? ?b then _ else _] => destruct (Z.eqb_spec a b)
  end.

(** Walk through a call that keeps an invariant at each step. *)
Tactic Notation "keeps" "using" tactic3(step) :=
  repeat first
    [ step | apply triple_ret | apply triple_gets | apply triple_lift_any | apply triple_if
    | apply triple_for_each; intros ? | apply triple_seq; [|intros ?] ].

Tactic Notation "keeps" := keeps using fail.

(** Run a successful [memcpy] or [i32] whose side conditions are linear. *)
Ltac run_ok :=
  repeat (first
    [ rewrite memcpy_ok by lia
    | rewrite i32_ok by (unfold INT32_MIN, INT32_MAX in *; lia) ]; cbn [mbind result_bind]).
