(* ===== verification/StdMap.v ===== *)
(** [std::map<string, V>] and [std::set<string>].

    A map is a [gmap string V], a set a [gset string]; what the ordered
    containers add is the iteration order: ascending keys, by unsigned
    character ([iter_map], [iter_set]).  [insert]/[emplace] keep the value of a
    key that is already there, [operator[]] inserts a default one. *)
From S2P Require Import Prelude.
From stdpp Require Import sorting sets fin_sets fin_maps fin_map_dom.

Section ordered_containers.
Context {V : Type}.
Implicit Types (m : gmap string V) (s : gset string).

(** [m.insert(pair(k, v))] / [m.emplace(k, v)] *)
Definition map_emplace (k : string) (v : V) (m : gmap string V) : gmap string V :=
  match m !! k with Some _ => m | None => <[k := v]> m end.

(** [m[k]]: the value found or inserted, and the map afterwards. *)
Definition map_index (dflt : V) (k : string) (m : gmap string V) : V * gmap string V :=
  match m !! k with Some v => (v, m) | None => (dflt, <[k := dflt]> m) end.

Definition key_le (p q : string * V) : Prop := String.le p.1 q.1.
#[global] Instance key_le_dec : RelDecision key_le.
Proof. intros p q. apply String.le_dec. Defined.
#[global] Instance key_le_trans : Transitive key_le.
Proof. intros p q r. unfold key_le. intros. by transitivity q.1. Qed.
#[global] Instance key_le_total : Total key_le.
Proof. intros p q. apply (total String.le). Qed.

(** [for (auto& kv : m)] *)
Definition iter_map (m : gmap string V) : list (string * V) := merge_sort key_le (map_to_list m).
(** [for (auto& k : s)] *)
Definition iter_set (s : gset string) : list string := merge_sort String.le (elements s).

Lemma iter_map_perm m : iter_map m ≡ₚ map_to_list m.
Proof. apply merge_sort_Permutation. Qed.
Lemma iter_set_perm s : iter_set s ≡ₚ elements s.
Proof. apply merge_sort_Permutation. Qed.

Lemma elem_of_iter_map m k v : (k, v) ∈ iter_map m <-> m !! k = Some v.
Proof. rewrite iter_map_perm. apply elem_of_map_to_list. Qed.
Lemma elem_of_iter_set s k : k ∈ iter_set s <-> k ∈ s.
Proof. rewrite iter_set_perm. apply elem_of_elements. Qed.
Lemma length_iter_map m : length (iter_map m) = size m.
Proof. by rewrite iter_map_perm, length_map_to_list. Qed.
Lemma NoDup_iter_set s : NoDup (iter_set s).
Proof. rewrite iter_set_perm. apply NoDup_elements. Qed.
Lemma NoDup_fst_iter_map m : NoDup (iter_map m).*1.
Proof. rewrite iter_map_perm. apply NoDup_fst_map_to_list. Qed.

(** The elements come in ascending order of their keys. *)
Lemma iter_map_sorted m : StronglySorted key_le (iter_map m).
Proof. apply StronglySorted_merge_sort; apply _. Qed.
Lemma iter_set_sorted s : StronglySorted String.le (iter_set s).
Proof. apply StronglySorted_merge_sort; apply _. Qed.

Lemma StronglySorted_filter {A} (R : A -> A -> Prop) (P : A -> Prop) `{!forall a, Decision (P a)} l :
  StronglySorted R l -> StronglySorted R (filter P l).
Proof.
  induction 1 as [|a l _ IH Ha]; [constructor|]. rewrite filter_cons. case_decide; [|done].
  constructor; [done|]. rewrite Forall_forall in Ha |- *. intros b [_ Hb]%list_elem_of_filter. by apply Ha.
Qed.

(** Skipping elements of a set is iterating over the smaller set. *)
Lemma filter_iter_set (P : string -> Prop) `{!forall k, Decision (P k)} s s' :
  (forall k, k ∈ s' <-> P k /\ k ∈ s) -> filter P (iter_set s) = iter_set s'.
Proof.
  intros Hs. apply (StronglySorted_unique String.le).
  - apply StronglySorted_filter, iter_set_sorted.
  - apply iter_set_sorted.
  - apply NoDup_Permutation; [apply NoDup_filter, NoDup_iter_set|apply NoDup_iter_set|].
    intros k. by rewrite list_elem_of_filter, !elem_of_iter_set, Hs.
Qed.

(** The keys of a map, in the order of the iteration. *)
Lemma iter_map_keys m : (iter_map m).*1 = iter_set (dom m).
Proof.
  apply (StronglySorted_unique String.le).
  - pose proof (iter_map_sorted m) as Hs. induction Hs as [|a l _ IH Ha]; [constructor|].
    constructor; [done|]. apply Forall_fmap. eapply Forall_impl; [exact Ha|done].
  - apply iter_set_sorted.
  - apply NoDup_Permutation; [apply NoDup_fst_iter_map|apply NoDup_iter_set|].
    intros k. rewrite elem_of_iter_set, elem_of_dom, list_elem_of_fmap. split.
    + intros ([k' v] & -> & Hk%elem_of_iter_map). by eexists.
    + intros [v Hk]. exists (k, v). by rewrite elem_of_iter_map.
Qed.

Lemma lookup_emplace k v m j :
  map_emplace k v m !! j = if decide (j = k) then Some (default v (m !! k)) else m !! j.
Proof.
  unfold map_emplace. case_decide as Hj; subst.
  - destruct (m !! k) eqn:E; cbn; [done|]. by rewrite lookup_insert_eq.
  - destruct (m !! k) eqn:E; [done|]. by rewrite lookup_insert_ne.
Qed.

Lemma map_index_fst dflt k m : (map_index dflt k m).1 = default dflt (m !! k).
Proof. unfold map_index. by destruct (m !! k). Qed.
Lemma map_index_snd dflt k m j :
  (map_index dflt k m).2 !! j = if decide (j = k) then Some (default dflt (m !! k)) else m !! j.
Proof.
  unfold map_index. destruct (m !! k) eqn:E; cbn; case_decide; subst; try done.
  - by rewrite lookup_insert_eq.
  - by rewrite lookup_insert_ne.
Qed.
End ordered_containers.

Create Rewrite HintDb stdmap.
#[export] Hint Rewrite @map_index_fst @map_index_snd @lookup_emplace : stdmap.
