(* ===== verification/StdAlgorithm.v ===== *)
(** The searches of <algorithm> that the code uses on sorted arrays of strings:
    [lower_bound], [upper_bound], [equal_range], [binary_search].

    They halve the range the way the library does; on a sorted array they find
    exactly the elements equal to the value. *)
From S2P Require Import Prelude.
From stdpp Require Import sorting.
#[local] Open Scope nat_scope.

Section search.
Context {A : Type} (before : A -> bool).

(** The first position from [first] on, in [len] elements, where [before] fails:
    [while (len > 0)], halving.  Half of [len] is left at every turn, so [len] turns
    are enough. *)
Fixpoint partition_loop (fuel : nat) (l : list A) (first len : nat) : nat :=
  match fuel with
  | O => first
  | S fuel' =>
      if decide (len = 0) then first
      else
        let half := len / 2 in
        let middle := first + half in
        match l !! middle with
        | Some x => if before x then partition_loop fuel' l (S middle) (len - half - 1)
                    else partition_loop fuel' l first half
        | None => first
        end
  end.
Definition partition_point (l : list A) : nat := partition_loop (length l) l 0 (length l).

(** [before] holds exactly on an initial part of the list. *)
Definition partitioned (l : list A) : Prop :=
  forall i j x y, l !! i = Some x -> l !! j = Some y -> i <= j -> before y = true -> before x = true.

Lemma partition_loop_spec l fuel first len :
  partitioned l -> len <= fuel -> first + len <= length l ->
  (forall i x, l !! i = Some x -> i < first -> before x = true) ->
  (forall i x, l !! i = Some x -> first + len <= i -> before x = false) ->
  let p := partition_loop fuel l first len in
  p <= length l /\ forall i x, l !! i = Some x -> before x = bool_decide (i < p).
Proof.
  intros Hp. revert first len. induction fuel as [|fuel IH]; intros first len Hf Hl Hlo Hhi; cbn -[Nat.div].
  1: assert (len = 0) as -> by lia.
  2: destruct (decide (len = 0)) as [->|Hne].
  1-2: split; [lia|]; intros i x Hx; case_bool_decide; [by eapply Hlo|eapply Hhi; [done|lia]].
  set (half := len / 2). assert (half < len) as Hh by (apply Nat.div_lt; lia).
  destruct (l !! (first + half)) as [x|] eqn:Ex; [|apply lookup_ge_None in Ex; lia].
  destruct (before x) eqn:Eb.
  - apply IH; [lia|lia| |].
    + intros i y Hy Hi. eapply (Hp i (first + half)); [done..|lia|done].
    + intros i y Hy Hi. eapply Hhi; [done|lia].
  - apply IH; [lia|lia|done|].
    intros i y Hy Hi. destruct (before y) eqn:Ey; [|done].
    rewrite (Hp (first + half) i x y) in Eb; [done..|lia|done].
Qed.

Lemma partition_point_spec l :
  partitioned l -> partition_point l <= length l /\
  forall i x, l !! i = Some x -> before x = bool_decide (i < partition_point l).
Proof.
  intros Hp. apply partition_loop_spec; [done|lia|lia|lia|].
  intros i x Hx%lookup_lt_Some. lia.
Qed.
End search.

(** * Strings, ordered as [std::string] orders them *)
Definition str_less (a b : string) : bool := String.ltb a b.

Definition lower_bound (l : list string) (v : string) : nat := partition_point (fun x => str_less x v) l.
Definition upper_bound (l : list string) (v : string) : nat := partition_point (fun x => negb (str_less v x)) l.
Definition equal_range (l : list string) (v : string) : nat * nat := (lower_bound l v, upper_bound l v).
Definition binary_search (l : list string) (v : string) : bool :=
  match l !! lower_bound l v with Some x => negb (str_less v x) | None => false end.

(** A strictly ascending array. *)
Definition ascending (l : list string) : Prop :=
  forall i j x y, l !! i = Some x -> l !! j = Some y -> i < j -> str_less x y = true.

Lemma str_less_iff a b : str_less a b = true <-> String.le a b /\ a <> b.
Proof.
  unfold str_less, String.ltb, String.le, String.leb.
  destruct (String.compare a b) eqn:E; cbn; split; try naive_solver.
  - apply String.compare_eq_iff in E. naive_solver.
  - intros _. split; [done|]. intros ->. pose proof (String.compare_antisym b b) as H. rewrite E in H. done.
Qed.

Lemma str_less_false a b : str_less a b = false <-> String.le b a.
Proof.
  rewrite <- not_true_iff_false, str_less_iff. destruct (total String.le a b) as [Hab|Hba].
  - split; [|intros Hba [_ Hn]; apply Hn; by apply (anti_symm String.le)].
    intros Hn. destruct (decide (a = b)) as [->|Hne]; [done|tauto].
  - split; [done|]. intros _ [Hab Hn]. apply Hn. by apply (anti_symm String.le).
Qed.

Section sorted.
Context (l : list string) (Hl : ascending l).

Lemma ascending_le i j x y : l !! i = Some x -> l !! j = Some y -> i <= j -> String.le x y.
Proof.
  intros Hx Hy Hij. destruct (decide (i = j)) as [->|Hne]; [by simplify_eq|].
  apply (str_less_iff x y). eapply Hl; [done..|lia].
Qed.

Lemma lower_partitioned v : partitioned (fun x => str_less x v) l.
Proof.
  intros i j x y Hx Hy Hij [Hle Hne]%str_less_iff. pose proof (ascending_le i j x y Hx Hy Hij) as Hxy.
  apply str_less_iff. split; [by trans y|]. intros ->. apply Hne. by apply (anti_symm String.le).
Qed.
Lemma upper_partitioned v : partitioned (fun x => negb (str_less v x)) l.
Proof.
  intros i j x y Hx Hy Hij. rewrite !negb_true_iff, !str_less_false. intros ?.
  trans y; [by eapply ascending_le|done].
Qed.

Lemma lower_bound_spec v :
  lower_bound l v <= length l /\ forall i x, l !! i = Some x -> str_less x v = bool_decide (i < lower_bound l v).
Proof. apply (partition_point_spec _ l (lower_partitioned v)). Qed.
Lemma upper_bound_spec v :
  upper_bound l v <= length l /\ forall i x, l !! i = Some x -> negb (str_less v x) = bool_decide (i < upper_bound l v).
Proof. apply (partition_point_spec _ l (upper_partitioned v)). Qed.

(** A value that is there is found at its position, once. *)
Lemma equal_range_found i v : l !! i = Some v -> equal_range l v = (i, S i).
Proof.
  intros Hi. unfold equal_range.
  destruct (lower_bound_spec v) as [Hl1 Hp1]. destruct (upper_bound_spec v) as [Hl2 Hp2].
  revert Hl1 Hp1 Hl2 Hp2. generalize (lower_bound l v) as p. generalize (upper_bound l v) as q.
  intros q p Hl1 Hp1 Hl2 Hp2.
  assert (str_less v v = false) as Hvv by (by apply str_less_false).
  pose proof (Hp1 i v Hi) as H1. pose proof (Hp2 i v Hi) as H2. rewrite Hvv in H1, H2. cbn in H2.
  symmetry in H1, H2. apply bool_decide_eq_false in H1. apply bool_decide_eq_true in H2.
  assert (p = i) as ->.
  { destruct (decide (p < i)); [|lia]. destruct (lookup_lt_is_Some_2 l p) as [x Hx]; [lia|].
    pose proof (Hp1 p x Hx) as H3. rewrite bool_decide_false in H3 by lia.
    rewrite (Hl p i x v Hx Hi) in H3; [done|lia]. }
  assert (q = S i) as ->; [|done].
  destruct (decide (S i < q)); [|lia]. destruct (lookup_lt_is_Some_2 l (S i)) as [x Hx]; [lia|].
  pose proof (Hp2 (S i) x Hx) as H3. rewrite bool_decide_true in H3 by lia.
  rewrite (Hl i (S i) v x Hi Hx) in H3; [done|lia].
Qed.

(** For a value that is not there the range is empty. *)
Lemma equal_range_absent v : v ∉ l -> (equal_range l v).1 = (equal_range l v).2.
Proof.
  intros Hv. cbn.
  destruct (lower_bound_spec v) as [Hl1 Hp1]. destruct (upper_bound_spec v) as [Hl2 Hp2].
  revert Hl1 Hp1 Hl2 Hp2. generalize (lower_bound l v) as p. generalize (upper_bound l v) as q.
  intros q p Hl1 Hp1 Hl2 Hp2.
  assert (forall i x, l !! i = Some x -> (i < p <-> i < q)) as Hpq.
  { intros i x Hx. pose proof (Hp1 i x Hx) as H1. pose proof (Hp2 i x Hx) as H2.
    assert (str_less x v = negb (str_less v x)) as E.
    { assert (x <> v) by (intros ->; by apply Hv, (list_elem_of_lookup_2 _ _ _ Hx)).
      apply eq_true_iff_eq. rewrite negb_true_iff, str_less_iff, str_less_false. tauto. }
    rewrite E, H2 in H1. do 2 case_bool_decide; try done; lia. }
  destruct (Nat.lt_total p q) as [Hlt|[?|Hlt]]; [|done|].
  - destruct (lookup_lt_is_Some_2 l p) as [x Hx]; [lia|]. apply Hpq in Hx. lia.
  - destruct (lookup_lt_is_Some_2 l q) as [x Hx]; [lia|]. apply Hpq in Hx. lia.
Qed.

Lemma binary_search_spec v : binary_search l v = bool_decide (v ∈ l).
Proof.
  unfold binary_search. case_bool_decide as Hv.
  - apply list_elem_of_lookup_1 in Hv as [i Hi]. pose proof (equal_range_found i v Hi) as [= -> _]. rewrite Hi.
    by rewrite (proj2 (str_less_false v v)).
  - destruct (l !! lower_bound l v) as [x|] eqn:Ex; [|done].
    destruct (lower_bound_spec v) as [_ Hp].
    pose proof (Hp _ x Ex) as H1. rewrite bool_decide_false in H1 by lia.
    rewrite negb_false_iff, str_less_iff. apply str_less_false in H1. split; [done|].
    intros ->. by apply Hv, (list_elem_of_lookup_2 _ _ _ Ex).
Qed.
End sorted.

(** An array is ascending when its neighbours are. *)
Fixpoint ascendingb (l : list string) : bool :=
  match l with
  | x :: (y :: _) as l' => str_less x y && ascendingb l'
  | _ => true
  end.

Lemma str_less_trans a b c : str_less a b = true -> str_less b c = true -> str_less a c = true.
Proof.
  rewrite !str_less_iff. intros [Hab Hn] [Hbc _]. split; [by trans b|].
  intros ->. apply Hn. by apply (anti_symm String.le).
Qed.

Lemma ascendingb_cons x l :
  ascendingb (x :: l) = true -> ascendingb l = true /\ forall j y, l !! j = Some y -> str_less x y = true.
Proof.
  revert x. induction l as [|z l IH]; intros x; [done|]. intros [Hxz Hl]%andb_true_iff.
  split; [done|]. destruct (IH z Hl) as [_ Hz]. intros [|j] y Hy; cbn in Hy; [by simplify_eq|].
  eapply str_less_trans; [exact Hxz|]. by eapply Hz.
Qed.

Lemma ascendingb_ascending l : ascendingb l = true -> ascending l.
Proof.
  induction l as [|x l IH]; [done|]. intros [Hl Hx]%ascendingb_cons [|i] [|j] a b Ha Hb Hij; try lia; cbn in *.
  - simplify_eq. by eapply Hx.
  - eapply (IH Hl i j); [done..|lia].
Qed.
