(* ===== verification/Timer.v ===== *)
(** Floating-point values and the stop watch of simple_timer.h/.cc.

    [float] and [double] are IEEE binary32 and binary64 values, computed with
    the Standard Library's specification of rounding ([SpecFloat]); a time point
    of [steady_clock] is a number of nanoseconds. *)
From S2P Require Import Prelude.
From Stdlib Require Import SpecFloat.

(** * IEEE values *)
Abbreviation double := spec_float.
Abbreviation float := spec_float.

Definition double_of_Z (z : Z) : double := binary_normalize 53 1024 z 0 false.
Definition float_of_Z (z : Z) : float := binary_normalize 24 128 z 0 false.
Definition double_div : double -> double -> double := SFdiv 53 1024.
Definition float_mul : float -> float -> float := SFmul 24 128.

(** [static_cast<float>(d)] *)
Definition float_of_double (d : double) : float :=
  match d with
  | S754_finite s m e => binary_normalize 24 128 (cond_Zopp s (Zpos m)) e s
  | _ => d
  end.

(** Truncation toward zero, [None] for infinities and NaN. *)
Definition trunc (f : spec_float) : option Z :=
  match f with
  | S754_zero _ => Some 0
  | S754_finite s m e =>
      Some (cond_Zopp s (if 0 <=? e then Zpos m * 2 ^ e else Zpos m / 2 ^ (- e)))
  | _ => None
  end.

(** Conversion of a floating-point value to an unsigned integer of [w] bits:
    undefined when the truncated value does not fit. *)
Definition to_unsigned (w : Z) (f : spec_float) : result Z :=
  match trunc f with
  | Some z => if (0 <=? z) && (z <? 2 ^ w) then Ok z
              else Err (UndefinedBehaviour "float to integer out of range")
  | None => Err (UndefinedBehaviour "float to integer out of range")
  end.

Lemma to_unsigned_range w f z : to_unsigned w f = Ok z -> 0 <= z < 2 ^ w.
Proof.
  unfold to_unsigned. destruct (trunc f); [|done].
  destruct (_ && _) eqn:E; [|done]. intros [= <-]. apply andb_true_iff in E. lia.
Qed.

(** * SimpleTimer *)
Record SimpleTimer := mkTimer {
  stoped : bool;
  begin_ : Z; (* time points, nanoseconds of the steady clock *)
  end_ : Z }.

(** [start()]; the constructor calls it too.  [now] is the clock reading. *)
Definition start (now : Z) : SimpleTimer := mkTimer false now now.

(** [duration<double>(end - begin).count()]: seconds. *)
Definition seconds (ns : Z) : double := double_div (double_of_Z ns) (double_of_Z (10 ^ 9)).

Definition stop (now : Z) (t : SimpleTimer) : double * SimpleTimer :=
  let t' := mkTimer true (begin_ t) now in
  (seconds (end_ t' - begin_ t'), t').

(** The local [ending] of the four [elapse] functions. *)
Definition ending (now : Z) (t : SimpleTimer) : Z := if stoped t then end_ t else now.

Definition elapse (now : Z) (t : SimpleTimer) : double := seconds (ending now t - begin_ t).

(** [duration_cast] to a coarser unit truncates toward zero. *)
Definition ms_elapse (now : Z) (t : SimpleTimer) : Z := Z.quot (ending now t - begin_ t) 1000000.
Definition us_elapse (now : Z) (t : SimpleTimer) : Z := Z.quot (ending now t - begin_ t) 1000.
Definition ns_elapse (now : Z) (t : SimpleTimer) : Z := ending now t - begin_ t.

(** ** The readings agree with each other and freeze at [stop] *)
Lemma ms_elapse_start now t0 : t0 <= now -> ms_elapse now (start t0) = (now - t0) / 1000000.
Proof. intros. unfold ms_elapse, ending; cbn. apply Z.quot_div_nonneg; lia. Qed.

(** The millisecond reading reaches [k] exactly when [k] milliseconds have passed. *)
Lemma ms_elapse_ge now t0 k :
  t0 <= now -> (k <= ms_elapse now (start t0) <-> t0 + k * 1000000 <= now).
Proof.
  intros. rewrite ms_elapse_start by done.
  pose proof (Z.div_mod (now - t0) 1000000 ltac:(lia)).
  pose proof (Z.mod_pos_bound (now - t0) 1000000 ltac:(lia)). nia.
Qed.

Lemma timer_units now t :
  us_elapse now t = Z.quot (ns_elapse now t) 1000 /\
  ms_elapse now t = Z.quot (us_elapse now t) 1000.
Proof.
  split; [done|]. unfold ms_elapse, us_elapse. rewrite Z.quot_quot by lia. done.
Qed.

Lemma stop_freezes now1 now2 t :
  ns_elapse now2 (stop now1 t).2 = now1 - begin_ t.
Proof. done. Qed.

#[export] Hint Resolve ms_elapse_ge : channel.
