(* ===== verification/Events.v ===== *)
(** const.h: event codes, their messages, the exception they raise, and the
    names under which servants are registered and looked up. *)
From S2P Require Import Prelude StdMap Timer.
From stdpp Require Import pretty.
From Stdlib Require Import Ascii.

(** * Constants *)
Definition C_Servant_Adapter_Name := "IoChannel".
Definition C_Servant_Endpoints_Key := C_Servant_Adapter_Name +:+ ".Endpoints".
Definition C_Servant_AdapterId_Key := C_Servant_Adapter_Name +:+ ".AdapterId".
Definition C_Server_Proxy_Key := "IoChannel.Proxy".
Definition C_Servant_Id_Prefix := "IoChannel_".
Definition C_Servant_Adapter_Id_Prefix := "ChannelAdapter_".
Definition C_Glacier2_Router_Key := "Ice.Default.Router".
Definition C_IceGrid_Locator_Key := "Ice.Default.Locator".
Definition C_MAX_SIZE_KEY := "Ice.MessageSizeMax".

Definition C_EVENT_CODE_PARSE_FILE := "0402000".
Definition C_EVENT_CODE_NO_FIND_NID := "0402001".
Definition C_EVENT_CODE_NO_PUBLIC_IP := "0402002".
Definition C_EVENT_CODE_NO_GLACIER2 := "0402003".
Definition C_EVENT_CODE_NO_ICEGRID := "0402004".
Definition C_EVENT_CODE_INVALID_CERT := "0402005".
Definition C_EVENT_CODE_START_SERVICE := "0402006".
Definition C_EVENT_CODE_CREATE_CLIENT := "0402007".
Definition C_EVENT_CODE_INVALID_PROXY := "0402008".
Definition C_EVENT_CODE_CONNECT_TIMEOUT := "0402009".
Definition C_EVENT_CODE_SEND_DATA_TIMEOUT := "0402010".
Definition C_EVENT_CODE_RECV_DATA_TIMEOUT := "0402011".
Definition C_EVENT_CODE_NEITHER_CLIENT_SERVER := "0402012".

Definition C_MAP_EVENTS : gmap string string := list_to_map [
  (C_EVENT_CODE_PARSE_FILE, "Failed to parse the configuration file, Please check!");
  (C_EVENT_CODE_NO_FIND_NID, "No found NodeID:%s, get node info failed!");
  (C_EVENT_CODE_NO_PUBLIC_IP, "The service node:%s doesn't configure PUBLIC_IP, create io channel failed!");
  (C_EVENT_CODE_NO_GLACIER2, "The service node:%s doesn't configure Glacier2 info, create io channel failed!");
  (C_EVENT_CODE_NO_ICEGRID, "The service node:%s doesn't configure IceGrid info, create io channel failed!");
  (C_EVENT_CODE_INVALID_CERT, "Invalid certificate, node id:%s, create io channel failed!");
  (C_EVENT_CODE_START_SERVICE, "Start the service node:%s failed, reason:%s, create io channel failed!");
  (C_EVENT_CODE_CREATE_CLIENT, "Create the client node:%s failed, reason:%s, create io channel failed!");
  (C_EVENT_CODE_INVALID_PROXY, "Invalid proxy, node id:%s, create io channel failed!");
  (C_EVENT_CODE_CONNECT_TIMEOUT, "%s connect to remote nodeid:%s timeout, The timeout period is:%ldms, create io channel failed!");
  (C_EVENT_CODE_SEND_DATA_TIMEOUT, "Self nodeid:%s send data to nodeid:%s timeout, The timeout period is: %ldms, send data failed!");
  (C_EVENT_CODE_RECV_DATA_TIMEOUT, "Self nodeid:%s receive data from nodeid:%s timeout, The timeout period is: %ldms, receive data failed!");
  (C_EVENT_CODE_NEITHER_CLIENT_SERVER, "This node:%s is neither client nor server, please check connection policy!")].

(** * vsnprintf

    A variadic argument has the type it was passed with ([float] promotes to
    [double]); a directive that reads another type, or finds no argument, is
    undefined.  Only the directives of the messages are given a meaning. *)
Inductive va_arg :=
  | VaStr (s : string)      (* const char*, seen up to its NUL *)
  | VaLong (z : Z)          (* a 64-bit integer *)
  | VaDouble (d : double).

Inductive piece :=
  | Lit (c : ascii)   (* an ordinary character *)
  | DStr              (* %s *)
  | DLong             (* %ld *)
  | DOther.           (* any other directive *)

Fixpoint pieces (fmt : string) : list piece :=
  match fmt with
  | EmptyString => []
  | String c fmt1 =>
      if Ascii.eqb c "%" then
        match fmt1 with
        | String "s" fmt2 => DStr :: pieces fmt2
        | String "l" (String "d" fmt2) => DLong :: pieces fmt2
        | _ => [DOther]
        end
      else Lit c :: pieces fmt1
  end.

Definition bad_format {A} : result A := Err (UndefinedBehaviour "printf argument").

Fixpoint vformat (ps : list piece) (args : list va_arg) : result string :=
  match ps, args with
  | [], _ => Ok ""
  | Lit c :: ps', _ => r ← vformat ps' args; Ok (String c r)
  | DStr :: ps', VaStr s :: args' => r ← vformat ps' args'; Ok (c_str s +:+ r)
  | DLong :: ps', VaLong z :: args' => r ← vformat ps' args'; Ok (pretty (to_int64 z) +:+ r)
  | _, _ => bad_format
  end.

Fixpoint nul_pad (k : nat) (s : string) : string :=
  match k, s with
  | O, _ => EmptyString
  | S k', EmptyString => String "000" (nul_pad k' EmptyString)
  | S k', String c s' => String c (nul_pad k' s')
  end.

Definition nMaxLen : nat := 512.

(** The 512 characters of [strErrMsg]: at most 511 of the text, then NULs. *)
Definition vsnprintf (fmt : string) (args : list va_arg) : result string :=
  r ← vformat (pieces fmt) args; Ok (nul_pad nMaxLen (String.substring 0 (nMaxLen - 1) r)).

(** [HANDLE_EXCEPTION_EVENT(code, taskid, ...)] never returns a value. *)
Definition HANDLE_EXCEPTION_EVENT {A} (strEventCode taskid : string) (args : list va_arg) : result A :=
  match C_MAP_EVENTS !! strEventCode with
  | None => Err OutOfRange
  | Some strFmt => m ← vsnprintf strFmt args; Err (EventException m)
  end.

(** [e.what()] *)
Definition what (message : string) : string := c_str message.

(** * FilterIllChar and the names of servants *)
Definition C_Illegal_Strings := ":@/".

(** [-1 != s.find(c)] *)
Fixpoint find_char (c : ascii) (s : string) : bool :=
  match s with EmptyString => false | String d s' => Ascii.eqb c d || find_char c s' end.

Definition illegal (c : ascii) : bool := find_char c C_Illegal_Strings.

Fixpoint map_string (f : ascii -> ascii) (s : string) : string :=
  match s with EmptyString => EmptyString | String c s' => String (f c) (map_string f s') end.

(** The loop fills [buffer]; [strSource = buffer] stops at the first NUL. *)
Definition FilterIllChar (strSource : string) : string :=
  c_str (map_string (fun c => if illegal c then "_"%char else c) strSource).

(** [C_Servant_Id_Prefix + taskid + "_" + nodeid], filtered. *)
Definition servant_id (taskid nodeid : string) : string :=
  FilterIllChar (C_Servant_Id_Prefix +:+ taskid +:+ "_" +:+ nodeid).
Definition servant_adapter_id (taskid nodeid : string) : string :=
  FilterIllChar (C_Servant_Adapter_Id_Prefix +:+ taskid +:+ "_" +:+ nodeid).

(** * Lemmas *)

(** The arguments a format reads, by type. *)
Fixpoint args_ok (ps : list piece) (args : list va_arg) : bool :=
  match ps, args with
  | [], _ => true
  | Lit _ :: ps', _ => args_ok ps' args
  | DStr :: ps', VaStr _ :: args' | DLong :: ps', VaLong _ :: args' => args_ok ps' args'
  | _, _ => false
  end.

Definition lit_ok (p : piece) : bool :=
  match p with Lit c => negb (Ascii.eqb c "000") | _ => true end.

Lemma no_nul_pretty_N_go x s : no_nul s = true -> no_nul (pretty_N_go x s) = true.
Proof.
  revert s. induction (N.lt_wf_0 x) as [x _ IH]; intros s Hs.
  destruct (decide (x = 0)%N) as [->|Hx]; [by rewrite pretty_N_go_0|].
  rewrite pretty_N_go_step by lia. apply IH; [apply N.div_lt; lia|].
  cbn. rewrite Hs, andb_true_r. unfold pretty_N_char. by repeat case_match.
Qed.

Lemma no_nul_pretty (z : Z) : no_nul (pretty z) = true.
Proof.
  assert (forall x : N, no_nul (pretty x) = true) as HN.
  { intros x. unfold pretty, pretty_N. case_decide; [done|]. by apply no_nul_pretty_N_go. }
  unfold pretty, pretty_Z. destruct z; [done|apply HN|]. rewrite no_nul_app. cbn. apply (HN (N.pos p)).
Qed.

Lemma vformat_ok ps args :
  args_ok ps args = true -> forallb lit_ok ps = true ->
  exists text, vformat ps args = Ok text /\ no_nul text = true.
Proof.
  revert args. induction ps as [|p ps IH]; intros args Ha Hl; cbn in *; [by exists ""|].
  apply andb_true_iff in Hl as [Hp Hl].
  destruct p as [c| | |]; [|destruct args as [|[] args]; try done..|done].
  - destruct (IH args Ha Hl) as (t & -> & Ht). eexists; split; [done|]. cbn in *. by rewrite Hp, Ht.
  - destruct (IH args Ha Hl) as (t & -> & Ht). eexists; split; [done|].
    by rewrite no_nul_app, c_str_no_nul, Ht.
  - destruct (IH args Ha Hl) as (t & -> & Ht). eexists; split; [done|].
    by rewrite no_nul_app, no_nul_pretty, Ht.
Qed.

Lemma what_nul_pad k s : no_nul s = true -> (String.length s < k)%nat -> what (nul_pad k s) = s.
Proof.
  unfold what. revert k. induction s as [|c s IH]; intros k Hs Hk.
  - by destruct k; [cbn in Hk; lia|].
  - destruct k as [|k]; [cbn in Hk; lia|]. cbn in *. apply andb_true_iff in Hs as [Hc Hs].
    destruct (Ascii.eqb c "000"); [done|]. rewrite IH; [done..|lia].
Qed.

Lemma length_nul_pad k s : String.length (nul_pad k s) = k.
Proof. revert s. induction k as [|k IH]; intros [|c s]; cbn; auto. Qed.

Lemma substring_prefix k s :
  no_nul s = true ->
  no_nul (String.substring 0 k s) = true /\ (String.length (String.substring 0 k s) <= k)%nat.
Proof.
  revert s. induction k as [|k IH]; intros [|c s] Hs; cbn in *; try (split; [done|lia]).
  apply andb_true_iff in Hs as [Hc Hs]. destruct (IH s Hs) as [H1 H2]. rewrite Hc, H1. split; [done|lia].
Qed.

(** No message contains a NUL or a directive other than %s and %ld. *)
Lemma events_well_formed :
  map_Forall (fun _ fmt => forallb lit_ok (pieces fmt) = true) C_MAP_EVENTS.
Proof. by apply (bool_decide_unpack _); vm_compute. Qed.

Lemma handle_event_throws {A} code taskid args fmt :
  C_MAP_EVENTS !! code = Some fmt -> args_ok (pieces fmt) args = true ->
  exists text, vformat (pieces fmt) args = Ok text /\ no_nul text = true /\
    @HANDLE_EXCEPTION_EVENT A code taskid args =
      Err (EventException (nul_pad nMaxLen (String.substring 0 (nMaxLen - 1) text))).
Proof.
  intros Hc Ha. pose proof (events_well_formed _ _ Hc) as Hl.
  destruct (vformat_ok _ _ Ha Hl) as (t & E & Ht). exists t. split; [done|]. split; [done|].
  unfold HANDLE_EXCEPTION_EVENT, vsnprintf. by rewrite Hc, E.
Qed.

(** It always throws, whatever the arguments and the type it is used at. *)
Lemma handle_event_any code taskid args :
  exists e, forall A, HANDLE_EXCEPTION_EVENT (A:=A) code taskid args = Err e.
Proof.
  unfold HANDLE_EXCEPTION_EVENT.
  destruct (C_MAP_EVENTS !! code) as [fmt|]; [|by eexists].
  destruct (vsnprintf fmt args) as [m|e]; by eexists.
Qed.

(** ** Filtered names *)
Definition filter_char (c : ascii) : ascii := if illegal c then "_"%char else c.

Fixpoint all_chars (P : ascii -> bool) (s : string) : bool :=
  match s with EmptyString => true | String c s' => P c && all_chars P s' end.

(** A character a name may keep: not NUL and not one of ":@/". *)
Definition legal (c : ascii) : bool := negb (illegal c) && negb (Ascii.eqb c "000").

Lemma filter_unfold s : FilterIllChar s = c_str (map_string filter_char s).
Proof. done. Qed.

Lemma filter_char_legal c : negb (Ascii.eqb c "000") = true -> legal (filter_char c) = true.
Proof. unfold legal, filter_char. destruct (illegal c) eqn:E; [done|]. by rewrite E. Qed.

Lemma filter_char_id c : legal c = true -> filter_char c = c.
Proof. unfold legal, filter_char. by destruct (illegal c). Qed.

Lemma filter_char_nul c : Ascii.eqb (filter_char c) "000" = Ascii.eqb c "000".
Proof. unfold filter_char. destruct (illegal c) eqn:E; [|done]. symmetry.
  destruct (Ascii.eqb_spec c "000"); [by subst|done]. Qed.

Lemma FilterIllChar_cons c s :
  FilterIllChar (String c s) =
    if Ascii.eqb c "000" then "" else String (filter_char c) (FilterIllChar s).
Proof. rewrite !filter_unfold. cbn. by rewrite filter_char_nul. Qed.

Lemma FilterIllChar_legal s : all_chars legal (FilterIllChar s) = true.
Proof.
  induction s as [|c s IH]; [done|]. rewrite FilterIllChar_cons.
  destruct (Ascii.eqb c "000") eqn:E; [done|]. cbn. rewrite IH, andb_true_r.
  apply filter_char_legal. by rewrite E.
Qed.

Lemma FilterIllChar_id s : all_chars legal s = true -> FilterIllChar s = s.
Proof.
  induction s as [|c s IH]; [done|]. intros [Hc Hs]%andb_true_iff.
  rewrite FilterIllChar_cons, filter_char_id by done.
  unfold legal in Hc. destruct (Ascii.eqb c "000"); [by rewrite andb_false_r in Hc|]. by rewrite IH.
Qed.

Lemma FilterIllChar_app s t :
  no_nul s = true -> FilterIllChar (s +:+ t) = map_string filter_char s +:+ FilterIllChar t.
Proof.
  induction s as [|c s IH]; [done|]. intros [Hc Hs]%andb_true_iff.
  rewrite append_cons, FilterIllChar_cons. destruct (Ascii.eqb c "000"); [done|].
  by rewrite IH.
Qed.

Lemma servant_id_split taskid nodeid :
  no_nul taskid = true -> all_chars legal nodeid = true ->
  servant_id taskid nodeid =
    map_string filter_char (C_Servant_Id_Prefix +:+ taskid +:+ "_") +:+ nodeid.
Proof.
  intros Ht Hn. unfold servant_id.
  replace (C_Servant_Id_Prefix +:+ taskid +:+ "_" +:+ nodeid)
    with ((C_Servant_Id_Prefix +:+ taskid +:+ "_") +:+ nodeid) by (by rewrite !append_assoc).
  rewrite FilterIllChar_app by (rewrite !no_nul_app, Ht; done). by rewrite FilterIllChar_id.
Qed.

#[export] Hint Resolve FilterIllChar_legal FilterIllChar_id : channel.

(** * Properties *)

(** C34: raising an event whose arguments have the types its message reads always
    throws an EventException, whose what() is the formatted text cut at 511
    characters and whose stored message has exactly 512. *)
Theorem event_exception_message A code taskid args fmt :
  C_MAP_EVENTS !! code = Some fmt -> args_ok (pieces fmt) args = true ->
  exists text m, vformat (pieces fmt) args = Ok text /\
    @HANDLE_EXCEPTION_EVENT A code taskid args = Err (EventException m) /\
    what m = String.substring 0 511 text /\ String.length m = 512%nat.
Proof.
  intros Hc Ha. destruct (handle_event_throws (A:=A) code taskid args fmt Hc Ha) as (t & E & Ht & H).
  destruct (substring_prefix (nMaxLen - 1) t Ht) as [H1 H2].
  eexists t, _. split; [done|]. split; [exact H|]. split; [|apply length_nul_pad].
  apply what_nul_pad; [done|]. unfold nMaxLen in *. cbn in *. lia.
Qed.

Lemma event_exception_message_witness :
  exists text m,
    vformat (pieces "Self nodeid:%s send data to nodeid:%s timeout, The timeout period is: %ldms, send data failed!")
      [VaStr "p0"; VaStr "p1"; VaLong 5000] = Ok text /\
    @HANDLE_EXCEPTION_EVENT unit C_EVENT_CODE_SEND_DATA_TIMEOUT "t"
      [VaStr "p0"; VaStr "p1"; VaLong 5000] = Err (EventException m) /\
    what m = String.substring 0 511 text /\ String.length m = 512%nat.
Proof. apply event_exception_message; by vm_compute. Defined.

(** A message argument of another type than the directive reads is undefined
    behaviour: this is how [ViaNetIO::init] reports a receive timeout, passing the
    [float] [send_timeout_] to %ld. *)
Lemma recv_timeout_event_mismatch A taskid self remote (send_timeout : float) :
  @HANDLE_EXCEPTION_EVENT A C_EVENT_CODE_RECV_DATA_TIMEOUT taskid
    [VaStr self; VaStr remote; VaDouble send_timeout]
  = Err (UndefinedBehaviour "printf argument").
Proof. reflexivity. Qed.

(** FilterIllChar leaves only legal characters, changes nothing in a legal
    name, and is idempotent. *)
Lemma FilterIllChar_spec s :
  all_chars legal (FilterIllChar s) = true /\
  (all_chars legal s = true <-> FilterIllChar s = s) /\
  FilterIllChar (FilterIllChar s) = FilterIllChar s.
Proof.
  split; [apply FilterIllChar_legal|]. split; [split; [apply FilterIllChar_id|]|].
  - intros <-. apply FilterIllChar_legal.
  - apply FilterIllChar_id, FilterIllChar_legal.
Qed.

(** C35: the identities of servants are sound names.  An identity has only legal
    characters whatever the ids contain; and within a task, two legal node ids get
    the same servant identity exactly when they are equal. *)
Theorem servant_id_injective taskid nid1 nid2 :
  all_chars legal (servant_id taskid nid1) = true /\
  (no_nul taskid = true -> all_chars legal nid1 = true -> all_chars legal nid2 = true ->
   servant_id taskid nid1 = servant_id taskid nid2 <-> nid1 = nid2).
Proof.
  split; [apply FilterIllChar_legal|].
  intros Ht H1 H2. split; [|by intros ->]. rewrite !servant_id_split by done. apply append_inj_l.
Qed.

Lemma servant_id_injective_witness :
  servant_id "task:0x07" "p0" = servant_id "task:0x07" "p1" <-> "p0" = "p1".
Proof. by apply (servant_id_injective "task:0x07" "p0" "p1"). Defined.

(** Node ids that differ only in filtered characters share one servant identity
    (and so do different splits of an underscore between task and node). *)
Lemma servant_id_collision :
  servant_id "t" "a:b" = servant_id "t" "a/b" /\
  servant_id "t_1" "n" = servant_id "t" "1_n".
Proof. by vm_compute. Qed.
