(* ===== verification/CycleBuffer.v ===== *)
(** The circular byte buffer of cycle_buffer.h/.cc (built with USE_BUFFER).

    The record has the fields of the C++ struct.  Positions and sizes are
    [int32_t] values held in [Z]; every [memcpy] is bounds-checked, every signed
    computation that can leave its width goes through [i32].  A wait on the
    condition variable whose predicate is false is the outcome [Blocked]; the
    lock is held from there to the end of a call, so a call is one atomic
    transformation of the record. *)
From S2P Require Import Prelude Timer.
From Stdlib Require Import SpecFloat Strings.Byte.

Abbreviation char := Byte.byte.

Record cycle_buffer := mkBuffer {
  is_full_ : bool;
  is_empty_ : bool;
  r_pos_ : Z;
  w_pos_ : Z;
  n_ : Z;
  remain_space_ : Z;
  buffer_ : list char;
  timer_ : SimpleTimer }.

(** Readings of the steady clock during one call, in order. *)
Abbreviation clock := (nat -> Z).

Definition with_timer (t : SimpleTimer) (b : cycle_buffer) : cycle_buffer :=
  mkBuffer (is_full_ b) (is_empty_ b) (r_pos_ b) (w_pos_ b) (n_ b) (remain_space_ b)
    (buffer_ b) t.

(** ** Operations *)
Definition size (b : cycle_buffer) : Z := n_ b - remain_space_ b.
Definition remain_space (b : cycle_buffer) : Z := remain_space_ b.

(** Constructor: [new char[n]] has indeterminate contents ([init], of the length
    that was asked for) and throws for a negative length. *)
Definition make_cycle_buffer (init : nat -> char) (now : Z) (n : Z) : result cycle_buffer :=
  if n <? 0 then Err BadAlloc
  else Ok (mkBuffer false true 0 0 n n (init <$> seq 0 (Z.to_nat n)) (start now)).

Definition reset (b : cycle_buffer) : cycle_buffer :=
  mkBuffer false true 0 0 (n_ b) (n_ b) (buffer_ b) (timer_ b).

Definition can_read_len (b : cycle_buffer) (length : Z) : bool := n_ b - remain_space_ b >=? length.

Definition can_remove (now : Z) (b : cycle_buffer) (t : double) : bool :=
  (remain_space_ b =? n_ b) && SFltb t (elapse now (timer_ b)).

Definition empty (b : cycle_buffer) : bool := n_ b =? remain_space_ b.

(** [peek]: copy without consuming. Returns the caller's block and the length. *)
Definition peek (clk : clock) (b : cycle_buffer) (data : list char) (length : Z)
  : result (list char * Z * cycle_buffer) :=
  let b := with_timer (start (clk 0%nat)) b in
  if negb (n_ b - remain_space_ b >=? length) then Err (Blocked "peek") else
  let b := with_timer (start (clk 1%nat)) b in
  data' ← (if r_pos_ b >=? w_pos_ b then
             if r_pos_ b <=? n_ b - length then
               memcpy data 0 (buffer_ b) (r_pos_ b) length
             else
               let first_n := n_ b - r_pos_ b in
               d1 ← memcpy data 0 (buffer_ b) (r_pos_ b) first_n;
               memcpy d1 first_n (buffer_ b) 0 (length - first_n)
           else memcpy data 0 (buffer_ b) (r_pos_ b) length);
  Ok (data', length, with_timer (start (clk 2%nat)) b).

(** [read(char*, int32_t)] *)
Definition read (clk : clock) (b : cycle_buffer) (data : list char) (length : Z)
  : result (list char * Z * cycle_buffer) :=
  let b := with_timer (start (clk 0%nat)) b in
  if negb (n_ b - remain_space_ b >=? length) then Err (Blocked "read") else
  let b := with_timer (start (clk 1%nat)) b in
  '(data', r') ← (if r_pos_ b >=? w_pos_ b then
             if r_pos_ b <=? n_ b - length then
               d ← memcpy data 0 (buffer_ b) (r_pos_ b) length;
               r ← i32 (r_pos_ b + length);
               Ok (d, r)
             else
               let first_n := n_ b - r_pos_ b in
               d1 ← memcpy data 0 (buffer_ b) (r_pos_ b) first_n;
               d2 ← memcpy d1 first_n (buffer_ b) 0 (length - first_n);
               Ok (d2, length - first_n)
           else
             d ← memcpy data 0 (buffer_ b) (r_pos_ b) length;
             r ← i32 (r_pos_ b + length);
             Ok (d, r));
  remain' ← i32 (remain_space_ b + length);
  Ok (data', length,
      mkBuffer (is_full_ b) (is_empty_ b) r' (w_pos_ b) (n_ b) remain' (buffer_ b)
        (start (clk 2%nat))).

(** [realloc(int32_t)]: [fresh] are the indeterminate bytes of [new char[new_n]]. *)
Definition realloc (fresh : nat -> char) (b : cycle_buffer) (length : Z) : result cycle_buffer :=
  if remain_space_ b >=? length then Ok b else
  if n_ b =? 0 then Err (UndefinedBehaviour "division by zero") else
  k ← i32 (Z.quot length (n_ b) + 2);
  new_n ← i32 (n_ b * k);
  if new_n <? 0 then Err BadAlloc else
  let newbuffer_ := fresh <$> seq 0 (Z.to_nat new_n) in
  let havesize := size b in
  newbuffer_ ← (if w_pos_ b >? r_pos_ b then
      memcpy newbuffer_ 0 (buffer_ b) (r_pos_ b) havesize
    else
      let first_n := n_ b - r_pos_ b in
      nb ← memcpy newbuffer_ 0 (buffer_ b) (r_pos_ b) first_n;
      if havesize - first_n >? 0 then memcpy nb first_n (buffer_ b) 0 (havesize - first_n)
      else Ok nb);
  Ok (mkBuffer (is_full_ b) (is_empty_ b) 0 havesize new_n (new_n - havesize) newbuffer_ (timer_ b)).

(** [write(const char*, int32_t)] *)
Definition write (clk : clock) (fresh : nat -> char) (b : cycle_buffer) (data : list char) (length : Z)
  : result (Z * cycle_buffer) :=
  let b := with_timer (start (clk 0%nat)) b in
  b ← realloc fresh b length;
  if negb (remain_space_ b >=? length) then Err (Blocked "write") else
  let b := with_timer (start (clk 1%nat)) b in
  '(buf', w') ← (if w_pos_ b >=? r_pos_ b then
      if w_pos_ b <=? n_ b - length then
        u ← memcpy (buffer_ b) (w_pos_ b) data 0 length;
        w ← i32 (w_pos_ b + length);
        Ok (u, w)
      else
        let first_n := n_ b - w_pos_ b in
        u1 ← memcpy (buffer_ b) (w_pos_ b) data 0 first_n;
        u2 ← memcpy u1 0 data first_n (length - first_n);
        Ok (u2, length - first_n)
    else
      u ← memcpy (buffer_ b) (w_pos_ b) data 0 length;
      w ← i32 (w_pos_ b + length);
      Ok (u, w));
  remain' ← i32 (remain_space_ b - length);
  Ok (length,
      mkBuffer (is_full_ b) (is_empty_ b) (r_pos_ b) w' (n_ b) remain' buf' (start (clk 2%nat))).

(** ** Invariant and abstraction

    The live bytes are the [size] bytes found from [r_pos_] on, wrapping at
    [n_]; the abstract state of a buffer is that byte queue. *)
Record wf (b : cycle_buffer) : Prop := {
  wf_n : 0 < n_ b <= INT32_MAX;
  wf_len : Z.of_nat (length (buffer_ b)) = n_ b;
  wf_r : 0 <= r_pos_ b <= n_ b;
  wf_w : 0 <= w_pos_ b <= n_ b;
  wf_remain : 0 <= remain_space_ b <= n_ b;
  wf_pos : (r_pos_ b + size b - w_pos_ b) mod n_ b = 0 }.

Definition content (b : cycle_buffer) : list char :=
  let r := Z.to_nat (r_pos_ b) in
  take (Z.to_nat (size b)) (drop r (buffer_ b) ++ take r (buffer_ b)).

(** The write position is the end of the live bytes, up to a multiple of [n_]. *)
Lemma pos_cases b : wf b ->
  w_pos_ b = r_pos_ b + size b \/ w_pos_ b + n_ b = r_pos_ b + size b \/
  (w_pos_ b = n_ b /\ r_pos_ b = 0 /\ size b = 0) \/
  (w_pos_ b = 0 /\ r_pos_ b = n_ b /\ size b = n_ b).
Proof.
  intros [Hn _ Hr Hw Hm Hp]. unfold size in *.
  apply Z.mod_divide in Hp as [k Hk]; [|lia].
  assert (k = -1 \/ k = 0 \/ k = 1 \/ k = 2) by nia.
  destruct_or!; subst; nia.
Qed.

Lemma mod_pos_intro r s w n :
  0 < n -> (w = r + s \/ w + n = r + s \/ w = r + s + n \/ w + 2 * n = r + s) ->
  (r + s - w) mod n = 0.
Proof.
  intros Hn H. apply Z.mod_divide; [lia|].
  destruct_or! H; [exists 0|exists 1|exists (-1)|exists 2]; lia.
Qed.

Lemma length_content b : wf b -> Z.of_nat (length (content b)) = size b.
Proof.
  intros [Hn Hl Hr Hw Hm _]. unfold content, size in *.
  rewrite length_take, length_app, length_drop, length_take. lia.
Qed.

(** Position in the array of the [i]-th live byte. *)
Lemma lookup_content b i : wf b -> Z.of_nat i < size b ->
  content b !! i =
    if decide (r_pos_ b + Z.of_nat i < n_ b)
    then buffer_ b !! (Z.to_nat (r_pos_ b) + i)%nat
    else buffer_ b !! (Z.to_nat (r_pos_ b) + i - Z.to_nat (n_ b))%nat.
Proof.
  intros [Hn Hl Hr Hw Hm _] Hi. unfold content, size in *.
  rewrite lookup_take_lt by lia.
  case_decide.
  - rewrite lookup_app_l by (rewrite length_drop; lia). by rewrite lookup_drop.
  - rewrite lookup_app_r by (rewrite length_drop; lia).
    rewrite length_drop, lookup_take_lt by lia. f_equal. lia.
Qed.

(** Two byte lists that agree below a common length are equal. *)
Lemma list_eq_lt {A} (l1 l2 : list A) (k : nat) :
  length l1 = k -> length l2 = k ->
  (forall i, (i < k)%nat -> l1 !! i = l2 !! i) -> l1 = l2.
Proof.
  intros H1 H2 H. apply list_eq. intros i. destruct (decide (i < k)%nat); [by apply H|].
  rewrite !lookup_ge_None_2 by lia. done.
Qed.

(** The bytes that [read] and [peek] copy from the array. *)
Lemma content_prefix_flat b len :
  wf b -> 0 <= len <= size b -> r_pos_ b + len <= n_ b ->
  take (Z.to_nat len) (drop (Z.to_nat (r_pos_ b)) (buffer_ b)) = take (Z.to_nat len) (content b).
Proof.
  intros [Hn Hl Hr Hw Hm _] Hlen Hflat. unfold content, size in *.
  rewrite take_take. rewrite Nat.min_l by lia.
  rewrite take_app_le; [done|]. rewrite length_drop. lia.
Qed.

Lemma content_prefix_wrap b len :
  wf b -> 0 <= len <= size b -> n_ b <= r_pos_ b + len ->
  take (Z.to_nat (n_ b - r_pos_ b)) (drop (Z.to_nat (r_pos_ b)) (buffer_ b))
    ++ take (Z.to_nat (len - (n_ b - r_pos_ b))) (buffer_ b)
  = take (Z.to_nat len) (content b).
Proof.
  intros [Hn Hl Hr Hw Hm _] Hlen Hwrap. unfold content, size in *.
  rewrite take_take. rewrite Nat.min_l by lia.
  rewrite take_app_ge by (rewrite length_drop; lia).
  rewrite (take_ge (drop _ _)) by (rewrite length_drop; lia). f_equal.
  rewrite length_drop, take_take. f_equal. lia.
Qed.

(** Moving the read position drops a prefix of the queue. *)
Definition advance (b : cycle_buffer) (r len : Z) (t : SimpleTimer) : cycle_buffer :=
  mkBuffer (is_full_ b) (is_empty_ b) r (w_pos_ b) (n_ b) (remain_space_ b + len) (buffer_ b) t.

Lemma content_advance b r' len t :
  wf b -> 0 <= len <= size b -> 0 <= r' <= n_ b ->
  (r' = r_pos_ b + len \/ r' + n_ b = r_pos_ b + len \/ r' + 2 * n_ b = r_pos_ b + len) ->
  wf (advance b r' len t) /\ content (advance b r' len t) = drop (Z.to_nat len) (content b).
Proof.
  intros Hwf Hlen Hr' Er. pose proof (pos_cases b Hwf) as Hpos.
  assert (wf (advance b r' len t)) as Hwf'.
  { destruct Hwf as [Hn Hl Hr Hw Hm Hp].
    split; unfold size in *; cbn; try lia. apply mod_pos_intro; lia. }
  split; [done|].
  pose proof (length_content b Hwf) as L. pose proof (length_content _ Hwf') as L'.
  assert (size (advance b r' len t) = size b - len) as Es by (unfold size in *; cbn; lia).
  apply (list_eq_lt _ _ (Z.to_nat (size b - len))); [lia|rewrite length_drop; lia|].
  intros i Hi. rewrite lookup_drop, (lookup_content _ i), (lookup_content b) by (done || lia).
  destruct Hwf. cbn. repeat case_decide; try (f_equal; lia).
  all: exfalso; unfold size in *; lia.
Qed.

(** The two ways [read] and [peek] copy the first [len] live bytes out. *)
Lemma copy_out_flat b data len :
  wf b -> 0 <= len <= size b -> len <= Z.of_nat (length data) -> r_pos_ b + len <= n_ b ->
  memcpy data 0 (buffer_ b) (r_pos_ b) len = Ok (splice data 0 (take (Z.to_nat len) (content b))).
Proof.
  intros Hwf Hlen Hd Hf. pose proof Hwf as [Hn Hl Hr _ _ _].
  run_ok. by rewrite (content_prefix_flat b) by done.
Qed.

Lemma copy_out_wrap b data len :
  wf b -> 0 <= len <= size b -> len <= Z.of_nat (length data) -> n_ b <= r_pos_ b + len ->
  exists d1, memcpy data 0 (buffer_ b) (r_pos_ b) (n_ b - r_pos_ b) = Ok d1 /\
    memcpy d1 (n_ b - r_pos_ b) (buffer_ b) 0 (len - (n_ b - r_pos_ b))
    = Ok (splice data 0 (take (Z.to_nat len) (content b))).
Proof.
  intros Hwf Hlen Hd Hf. pose proof Hwf as [Hn Hl Hr _ Hm _]. unfold size in *.
  run_ok. eexists; split; [done|].
  set (xs := take (Z.to_nat (n_ b - r_pos_ b)) (drop (Z.to_nat (r_pos_ b)) (buffer_ b))).
  assert (length xs = Z.to_nat (n_ b - r_pos_ b)) as Lx.
  { unfold xs. rewrite length_take, length_drop. lia. }
  rewrite memcpy_ok; try lia.
  2: { rewrite length_splice by lia. lia. }
  rewrite <- (content_prefix_wrap b) by (done || unfold size; lia). fold xs.
  pose proof (splice_app data xs
    (take (Z.to_nat (len - (n_ b - r_pos_ b))) (buffer_ b))) as S.
  rewrite Lx, length_take in S. rewrite drop_0. f_equal. apply S. lia.
Qed.

(** ** Refinement: the buffer is a FIFO of bytes *)
Lemma read_spec clk b data len :
  wf b -> 0 <= len <= size b -> len <= Z.of_nat (length data) ->
  exists b', read clk b data len =
               Ok (splice data 0 (take (Z.to_nat len) (content b)), len, b') /\
             n_ b' = n_ b /\ wf b' /\ content b' = drop (Z.to_nat len) (content b).
Proof.
  intros Hwf Hlen Hd. pose proof (pos_cases b Hwf) as Hpos.
  pose proof Hwf as [Hn Hl Hr Hw Hm _].
  exists (advance b (if decide (r_pos_ b + len <= n_ b) then r_pos_ b + len
                     else len - (n_ b - r_pos_ b)) len (start (clk 2%nat))).
  split; [|split; [done|]].
  - unfold read; cbn -[memcpy]. unfold size in *.
    replace (n_ b - remain_space_ b >=? len) with true by lia. cbn -[memcpy].
    rewrite Z.geb_leb. case_decide; split_tests; try lia.
    1,2: rewrite copy_out_flat by (done || lia); cbn; run_ok; done.
    destruct (copy_out_wrap b data len) as (d1 & E1 & E2); try (done || unfold size; lia).
    rewrite E1; cbn. rewrite E2; cbn. run_ok. done.
  - unfold size in *. case_decide; apply content_advance; try done; unfold size; lia.
Qed.

Lemma peek_spec clk b data len :
  wf b -> 0 <= len <= size b -> len <= Z.of_nat (length data) ->
  peek clk b data len =
    Ok (splice data 0 (take (Z.to_nat len) (content b)), len, with_timer (start (clk 2%nat)) b).
Proof.
  intros Hwf Hlen Hd. pose proof (pos_cases b Hwf) as Hpos.
  pose proof Hwf as [Hn Hl Hr Hw Hm _].
  unfold peek; cbn -[memcpy]. unfold size in *.
  replace (n_ b - remain_space_ b >=? len) with true by lia. cbn -[memcpy].
  rewrite Z.geb_leb. split_tests.
  1,3: rewrite copy_out_flat by (done || unfold size; lia); done.
  destruct (copy_out_wrap b data len) as (d1 & E1 & E2); try (done || unfold size; lia).
  rewrite E1; cbn. by rewrite E2.
Qed.

(** Storing [len] bytes from [w_pos_] on, wrapping at [n_], appends them. *)
Definition append (b : cycle_buffer) (buf : list char) (w len : Z) (t : SimpleTimer) : cycle_buffer :=
  mkBuffer (is_full_ b) (is_empty_ b) (r_pos_ b) w (n_ b) (remain_space_ b - len) buf t.

Lemma content_append b buf' w' len data t :
  wf b -> 0 <= len <= remain_space_ b -> len <= Z.of_nat (length data) ->
  length buf' = length (buffer_ b) -> 0 <= w' <= n_ b ->
  (w' = w_pos_ b + len \/ w' + n_ b = w_pos_ b + len) ->
  (forall j, (j < length buf')%nat -> buf' !! j =
     if decide (w_pos_ b <= Z.of_nat j < w_pos_ b + len)
     then data !! (j - Z.to_nat (w_pos_ b))%nat
     else if decide (Z.of_nat j + n_ b < w_pos_ b + len)
     then data !! (j + Z.to_nat (n_ b) - Z.to_nat (w_pos_ b))%nat
     else buffer_ b !! j) ->
  wf (append b buf' w' len t) /\
  content (append b buf' w' len t) = content b ++ take (Z.to_nat len) data.
Proof.
  intros Hwf Hlen Hd Hl' Hw' Ew Hbuf. pose proof (pos_cases b Hwf) as Hpos.
  pose proof (length_content b Hwf) as L.
  assert (wf (append b buf' w' len t)) as Hwf'.
  { destruct Hwf as [Hn Hl Hr Hw Hm Hp].
    split; unfold size in *; cbn; try lia. apply mod_pos_intro; lia. }
  split; [done|]. pose proof (length_content _ Hwf') as L'.
  assert (size (append b buf' w' len t) = size b + len) as Es by (unfold size in *; cbn; lia).
  apply (list_eq_lt _ _ (Z.to_nat (size b + len)));
    [lia|rewrite length_app, length_take; unfold size in *; lia|].
  intros i Hi. rewrite (lookup_content _ i) by (done || lia). cbn.
  pose proof Hwf as [Hn Hl Hr Hw Hm _].
  destruct (decide (Z.of_nat i < size b)) as [Hs|Hs].
  - rewrite lookup_app_l, (lookup_content b) by (done || lia). unfold size in *.
    repeat case_decide; rewrite Hbuf by lia; repeat case_decide; try done; try lia.
  - rewrite lookup_app_r, lookup_take_lt by lia. unfold size in *.
    repeat case_decide; rewrite Hbuf by lia; repeat case_decide; try (f_equal; lia); try lia.
Qed.

(** A growth always leaves room for the bytes to write. *)
Lemma growth_fits n len have :
  0 < n -> 0 <= len -> have <= n -> len + have <= n * (Z.quot len n + 2).
Proof.
  intros Hn Hl Hh. rewrite Z.quot_div_nonneg by lia.
  pose proof (Z.div_mod len n ltac:(lia)). pose proof (Z.mod_pos_bound len n Hn). nia.
Qed.

Definition can_grow (b : cycle_buffer) (len : Z) : Prop :=
  n_ b * (Z.quot len (n_ b) + 2) <= INT32_MAX.

#[global] Instance can_grow_dec b len : Decision (can_grow b len).
Proof. apply Z.le_dec. Defined.

Lemma length_fresh (fresh : nat -> char) k : length (fresh <$> seq 0 k) = k.
Proof. rewrite length_fmap. apply length_seq. Qed.

(** The bytes [realloc] moves to the front of the new array. *)
Lemma realloc_copy b (nb : list char) :
  wf b -> n_ b <= Z.of_nat (length nb) ->
  exists nb',
    (if w_pos_ b >? r_pos_ b then memcpy nb 0 (buffer_ b) (r_pos_ b) (size b)
     else let first_n := n_ b - r_pos_ b in
       nb1 ← memcpy nb 0 (buffer_ b) (r_pos_ b) first_n;
       if size b - first_n >? 0 then memcpy nb1 first_n (buffer_ b) 0 (size b - first_n)
       else Ok nb1) = Ok nb' /\
    length nb' = length nb /\ take (Z.to_nat (size b)) nb' = content b.
Proof.
  intros Hwf Hnb. pose proof (pos_cases b Hwf) as Hpos.
  pose proof Hwf as [Hn Hl Hr Hw Hm _]. pose proof (length_content b Hwf) as L.
  assert (forall c : list char, length c = length (content b) ->
    length (splice nb 0 c) = length nb /\
    take (Z.to_nat (size b)) (splice nb 0 c) = c) as Hsp.
  { intros c Hc. unfold size in *. split; [apply length_splice; lia|].
    unfold splice. rewrite take_0, app_nil_l, take_app_le by lia. apply take_ge. lia. }
  rewrite Z.gtb_ltb. cbv zeta. destruct (Z.ltb_spec (r_pos_ b) (w_pos_ b)).
  - rewrite copy_out_flat by (done || unfold size in *; lia).
    eexists; split; [done|]. rewrite take_ge by lia. by apply Hsp.
  - rewrite (Z.gtb_ltb (size b - _)). destruct (Z.ltb_spec 0 (size b - (n_ b - r_pos_ b))).
    + destruct (copy_out_wrap b nb (size b)) as (d1 & E1 & E2); try (done || unfold size in *; lia).
      rewrite E1; cbn. rewrite E2. eexists; split; [done|]. rewrite take_ge by lia. by apply Hsp.
    + run_ok. eexists; split; [done|]. unfold size in *. split.
      { apply length_splice. rewrite length_take, length_drop. lia. }
      unfold splice. rewrite take_0, app_nil_l, take_app_le by (rewrite length_take, length_drop; lia).
      rewrite take_take, Nat.min_l by lia. unfold content, size.
      rewrite take_app_le by (rewrite length_drop; lia). done.
Qed.

Lemma realloc_spec fresh b len :
  wf b -> 0 <= len -> remain_space_ b < len -> can_grow b len ->
  exists b', realloc fresh b len = Ok b' /\ wf b' /\ content b' = content b /\
             len <= remain_space_ b' /\ 2 * n_ b <= n_ b'.
Proof.
  intros Hwf Hlen Hrem Hgrow. pose proof Hwf as [Hn Hl Hr Hw Hm _]. unfold can_grow in Hgrow.
  pose proof (growth_fits (n_ b) len (size b) ltac:(lia) Hlen ltac:(unfold size; lia)) as Hfit.
  assert (0 <= Z.quot len (n_ b)) by (apply Z.quot_pos; lia).
  unfold realloc. rewrite Z.geb_leb.
  destruct (Z.leb_spec len (remain_space_ b)); [lia|]. destruct (Z.eqb_spec (n_ b) 0); [lia|].
  rewrite (i32_ok (Z.quot _ _ + 2)) by (unfold INT32_MIN, INT32_MAX in *; nia). cbn [mbind result_bind].
  rewrite (i32_ok (n_ b * _)) by (unfold INT32_MIN, INT32_MAX in *; nia). cbn [mbind result_bind].
  destruct (Z.ltb_spec (n_ b * (Z.quot len (n_ b) + 2)) 0); [nia|].
  set (new_n := n_ b * (Z.quot len (n_ b) + 2)) in *.
  destruct (realloc_copy b (fresh <$> seq 0 (Z.to_nat new_n))) as (nb' & E & Lnb & Tnb).
  { done. } { rewrite length_fresh. unfold size in *. nia. }
  cbv zeta in E |- *. rewrite E. cbn [mbind result_bind].
  eexists; split; [done|]. rewrite length_fresh in Lnb. unfold size in *.
  assert (2 * n_ b <= new_n) by (unfold new_n; nia).
  split; [|split; [|cbn; lia]].
  - split; unfold size; cbn; try lia. apply mod_pos_intro; lia.
  - rewrite <- Tnb. unfold content, size; cbn. rewrite drop_0, app_nil_r. f_equal. lia.
Qed.

(** The three ways [write] stores the bytes, once there is room for them. *)
Lemma store_spec b data len t :
  wf b -> 0 <= len <= remain_space_ b -> len <= Z.of_nat (length data) ->
  exists buf' w',
    (if w_pos_ b >=? r_pos_ b then
      if w_pos_ b <=? n_ b - len then
        u ← memcpy (buffer_ b) (w_pos_ b) data 0 len;
        w ← i32 (w_pos_ b + len);
        Ok (u, w)
      else
        let first_n := n_ b - w_pos_ b in
        u1 ← memcpy (buffer_ b) (w_pos_ b) data 0 first_n;
        u2 ← memcpy u1 0 data first_n (len - first_n);
        Ok (u2, len - first_n)
    else
      u ← memcpy (buffer_ b) (w_pos_ b) data 0 len;
      w ← i32 (w_pos_ b + len);
      Ok (u, w)) = Ok (buf', w') /\
    wf (append b buf' w' len t) /\
    content (append b buf' w' len t) = content b ++ take (Z.to_nat len) data.
Proof.
  intros Hwf Hlen Hd. pose proof (pos_cases b Hwf) as Hpos.
  pose proof Hwf as [Hn Hl Hr Hw Hm _]. unfold size in *.
  assert (w_pos_ b + len <= n_ b -> exists u,
    memcpy (buffer_ b) (w_pos_ b) data 0 len = Ok u /\
    wf (append b u (w_pos_ b + len) len t) /\
    content (append b u (w_pos_ b + len) len t) = content b ++ take (Z.to_nat len) data) as Hflat.
  { intros Hf. run_ok. eexists; split; [done|]. rewrite drop_0.
    assert (length (take (Z.to_nat len) data) = Z.to_nat len) as Lt by (rewrite length_take; lia).
    assert (length (splice (buffer_ b) (Z.to_nat (w_pos_ b)) (take (Z.to_nat len) data))
            = length (buffer_ b)) as Ls by (apply length_splice; lia).
    apply content_append; try (done || lia). rewrite Ls. intros j Hj.
    rewrite lookup_splice by lia. rewrite Lt.
    repeat case_decide; try lia; try done. rewrite lookup_take_lt by lia. done. }
  rewrite Z.geb_leb. cbv zeta.
  destruct (Z.leb_spec (r_pos_ b) (w_pos_ b)).
  1: destruct (Z.leb_spec (w_pos_ b) (n_ b - len)).
  1,3: destruct (Hflat ltac:(lia)) as (u & -> & ?); cbn [mbind result_bind]; run_ok; eauto.
  run_ok. rewrite drop_0.
  set (xs := take (Z.to_nat (n_ b - w_pos_ b)) data).
  assert (length xs = Z.to_nat (n_ b - w_pos_ b)) as Lx by (unfold xs; rewrite length_take; lia).
  assert (length (splice (buffer_ b) (Z.to_nat (w_pos_ b)) xs) = length (buffer_ b)) as L1
    by (apply length_splice; lia).
  set (ys := take (Z.to_nat (len - (n_ b - w_pos_ b))) (drop (Z.to_nat (n_ b - w_pos_ b)) data)).
  assert (length ys = Z.to_nat (len - (n_ b - w_pos_ b))) as Ly
    by (unfold ys; rewrite length_take, length_drop; lia).
  rewrite memcpy_ok by lia. cbn [mbind result_bind]. fold ys.
  eexists _, _; split; [done|].
  apply content_append; try (done || lia).
  { rewrite length_splice by lia. done. }
  rewrite length_splice, L1 by lia. intros j Hj.
  rewrite lookup_splice, Ly by (rewrite L1; lia). rewrite lookup_splice, Lx by lia.
  repeat case_decide; try lia; try done; unfold xs, ys;
    rewrite lookup_take_lt by lia; rewrite ?lookup_drop; f_equal; lia.
Qed.

Lemma write_spec clk fresh b data len :
  wf b -> 0 <= len <= Z.of_nat (length data) ->
  len <= remain_space_ b \/ can_grow b len ->
  exists b', write clk fresh b data len = Ok (len, b') /\ wf b' /\
             content b' = content b ++ take (Z.to_nat len) data.
Proof.
  intros Hwf Hd Hg.
  assert (exists b1, realloc fresh (with_timer (start (clk 0%nat)) b) len = Ok b1 /\ wf b1 /\
            content b1 = content b /\ len <= remain_space_ b1) as (b1 & E1 & Hwf1 & Hc1 & Hr1).
  { assert (wf (with_timer (start (clk 0%nat)) b)) as Hwf0 by (by destruct Hwf; split).
    destruct (decide (len <= remain_space_ b)) as [Hf|Hf].
    - exists (with_timer (start (clk 0%nat)) b). split; [|done].
      unfold realloc; cbn. by replace (remain_space_ b >=? len) with true by lia.
    - destruct Hg as [|Hg]; [lia|].
      destruct (realloc_spec fresh (with_timer (start (clk 0%nat)) b) len) as (b1 & ? & ? & ? & ? & ?);
        [done|lia|cbn; lia|done|]. exists b1. done. }
  unfold write; cbv zeta. rewrite E1. cbn [mbind result_bind].
  replace (remain_space_ b1 >=? len) with true by lia. cbn [negb with_timer].
  destruct (store_spec (with_timer (start (clk 1%nat)) b1) data len (start (clk 2%nat)))
    as (buf' & w' & E & Hwf' & Hc'); cbn; try lia.
  { by destruct Hwf1; split. }
  cbn in E |- *. rewrite E. cbn. pose proof Hwf1 as [Hn _ _ _ Hm _].
  rewrite i32_ok by (unfold INT32_MIN, INT32_MAX in *; lia).
  eexists; split; [done|]. split; [exact Hwf'|]. rewrite <- Hc1. exact Hc'.
Qed.

(** ** The abstract queue and whole runs *)
Inductive buffer_op :=
  | OpWrite (data : list char)
  | OpRead (length : Z)
  | OpPeek (length : Z)
  | OpReset.

(** One call on the buffer; a reader passes a block of exactly [length] bytes. *)
Definition impl_step (clk : clock) (fresh : nat -> char) (b : cycle_buffer) (op : buffer_op)
  : result (list char * cycle_buffer) :=
  match op with
  | OpWrite data => '(_, b') ← write clk fresh b data (Z.of_nat (length data)); Ok ([], b')
  | OpRead len => '(d, _, b') ← read clk b (replicate (Z.to_nat len) x00) len; Ok (d, b')
  | OpPeek len => '(d, _, b') ← peek clk b (replicate (Z.to_nat len) x00) len; Ok (d, b')
  | OpReset => Ok ([], reset b)
  end.

(** What the calls mean on a queue of bytes. *)
Definition spec_step (q : list char) (op : buffer_op) : result (list char * list char) :=
  match op with
  | OpWrite data => Ok ([], q ++ data)
  | OpRead len => if Z.of_nat (length q) <? len then Err (Blocked "read")
                  else Ok (take (Z.to_nat len) q, drop (Z.to_nat len) q)
  | OpPeek len => if Z.of_nat (length q) <? len then Err (Blocked "peek")
                  else Ok (take (Z.to_nat len) q, q)
  | OpReset => Ok ([], [])
  end.

(** Outputs of a sequence of calls, up to the first call that does not return. *)
Fixpoint run {St} (step : St -> buffer_op -> result (list char * St)) (s : St) (ops : list buffer_op)
  : list (result (list char)) :=
  match ops with
  | [] => []
  | op :: ops' =>
      match step s op with
      | Ok (out, s') => Ok out :: run step s' ops'
      | Err e => [Err e]
      end
  end.

Definition op_ok (op : buffer_op) : bool :=
  match op with
  | OpRead len | OpPeek len => (0 <=? len) && (len <=? INT32_MAX)
  | _ => true
  end.

Definition written (ops : list buffer_op) : Z :=
  foldr (fun op acc => match op with OpWrite d => Z.of_nat (length d) + acc | _ => acc end) 0 ops.

Lemma written_nonneg ops : 0 <= written ops.
Proof. induction ops as [|[] ops IH]; cbn in *; unfold written in *; lia. Qed.

(** Growing stays within [int32_t] while the pending bytes and the new ones are
    at most a third of its range. *)
Lemma small_can_grow b len :
  wf b -> 0 <= len -> size b + len <= INT32_MAX / 3 ->
  len <= remain_space_ b \/ can_grow b len.
Proof.
  intros [Hn _ _ _ Hm _] Hlen Hs. unfold can_grow, size in *.
  destruct (decide (len <= remain_space_ b)); [by left|right].
  rewrite Z.quot_div_nonneg by lia.
  pose proof (Z.div_mod len (n_ b) ltac:(lia)). pose proof (Z.mod_pos_bound len (n_ b) ltac:(lia)).
  pose proof (Z.mul_div_le INT32_MAX 3 ltac:(lia)). nia.
Qed.

Lemma reset_spec b : wf b -> wf (reset b) /\ content (reset b) = [].
Proof.
  intros [Hn Hl Hr Hw Hm Hp]. split.
  - split; unfold size; cbn; try lia. apply mod_pos_intro; lia.
  - unfold content, size; cbn. by replace (n_ b - n_ b) with 0 by lia.
Qed.

Lemma make_spec init now n : 0 < n <= INT32_MAX ->
  exists b, make_cycle_buffer init now n = Ok b /\ wf b /\ content b = [].
Proof.
  intros Hn. unfold make_cycle_buffer. destruct (Z.ltb_spec n 0); [lia|].
  eexists; split; [done|]. split.
  - split; unfold size; cbn [n_ r_pos_ w_pos_ remain_space_ buffer_]; try lia.
    + rewrite length_fresh. lia.
    + apply mod_pos_intro; lia.
  - unfold content, size; cbn. by replace (n - n) with 0 by lia.
Qed.

(** One step of the simulation between the buffer and the queue. *)
Lemma step_simulates clk fresh b op :
  wf b -> op_ok op = true -> size b + written [op] <= INT32_MAX / 3 ->
  match impl_step clk fresh b op with
  | Ok (out, b') => spec_step (content b) op = Ok (out, content b') /\ wf b' /\
                    size b' <= size b + written [op]
  | Err e => spec_step (content b) op = Err e
  end.
Proof.
  intros Hwf Hop Hw. pose proof (length_content b Hwf) as L.
  destruct op as [data|len|len|]; cbn [impl_step spec_step op_ok written foldr] in *.
  - destruct (write_spec clk fresh b data (Z.of_nat (length data))) as (b' & -> & Hwf' & Hc');
      [done|lia|apply small_can_grow; lia || done|].
    cbn. rewrite Nat2Z.id, take_ge in Hc' by lia. split; [by rewrite Hc'|]. split; [done|].
    rewrite <- (length_content b' Hwf'), Hc', length_app. lia.
  - apply andb_true_iff in Hop as [H0 H1]. destruct (Z.ltb_spec (Z.of_nat (length (content b))) len).
    + unfold read; cbn. unfold size in L.
      by replace (n_ b - remain_space_ b >=? len) with false by lia.
    + destruct (read_spec clk b (replicate (Z.to_nat len) x00) len) as (b' & -> & _ & Hwf' & Hc');
        [done|lia|rewrite length_replicate; lia|].
      cbn. rewrite splice_all by (rewrite length_take, length_replicate; lia).
      rewrite Hc'. split; [done|]. split; [done|].
      rewrite <- (length_content b' Hwf'), Hc', length_drop. lia.
  - apply andb_true_iff in Hop as [H0 H1]. destruct (Z.ltb_spec (Z.of_nat (length (content b))) len).
    + unfold peek; cbn. unfold size in L.
      by replace (n_ b - remain_space_ b >=? len) with false by lia.
    + rewrite peek_spec by (done || rewrite ?length_replicate; lia).
      cbn. rewrite splice_all by (rewrite length_take, length_replicate; lia).
      split; [done|]. split; [by destruct Hwf; split|]. unfold size in *; cbn; lia.
  - destruct (reset_spec b Hwf) as [Hwf' Hc']. rewrite Hc'. split; [done|]. split; [done|].
    rewrite <- (length_content _ Hwf'), Hc'. unfold size in *; cbn. destruct Hwf; lia.
Qed.

Lemma run_simulates clk fresh ops b :
  wf b -> Forall (fun op => op_ok op = true) ops ->
  size b + written ops <= INT32_MAX / 3 ->
  run (impl_step clk fresh) b ops = run spec_step (content b) ops.
Proof.
  revert b. induction ops as [|op ops IH]; intros b Hwf Hops Hw; [done|].
  inversion Hops as [|? ? Hop Hops']; subst. cbn [run].
  assert (written (op :: ops) = written [op] + written ops) as E
    by (destruct op; unfold written; cbn; lia).
  pose proof (written_nonneg ops).
  pose proof (step_simulates clk fresh b op Hwf Hop ltac:(lia)) as Hs.
  destruct (impl_step clk fresh b op) as [[out b']|e].
  - destruct Hs as (-> & Hwf' & Hsz). f_equal. apply IH; [done..|lia].
  - by rewrite Hs.
Qed.

(** Whatever [realloc] returns has room for the bytes to write. *)
Lemma realloc_room fresh b len b' :
  wf b -> 0 <= len -> realloc fresh b len = Ok b' -> len <= remain_space_ b'.
Proof.
  intros [Hn _ _ _ Hm _] Hlen. unfold realloc. rewrite Z.geb_leb.
  destruct (Z.leb_spec len (remain_space_ b)); [by intros [= <-]|].
  destruct (Z.eqb_spec (n_ b) 0); [done|].
  intros (k & [-> _]%i32_inv & (m & [-> _]%i32_inv & Hr)%bind_Ok)%bind_Ok.
  destruct (_ <? 0); [done|]. apply bind_Ok in Hr as (nb & _ & [= <-]). cbn.
  pose proof (growth_fits (n_ b) len (size b) ltac:(lia) Hlen ltac:(unfold size; lia)). lia.
Qed.

(** A write that does not fit and whose grown size leaves [int32_t] does not return. *)
Lemma write_overflow clk fresh b data len :
  wf b -> remain_space_ b < len <= INT32_MAX ->
  INT32_MAX < n_ b * (Z.quot len (n_ b) + 2) ->
  write clk fresh b data len = Err (UndefinedBehaviour "int32 overflow").
Proof.
  intros [Hn _ _ _ Hm _] Hlen Ho. unfold write, realloc; cbv zeta. cbn [with_timer n_ remain_space_].
  replace (remain_space_ b >=? len) with false by lia.
  destruct (Z.eqb_spec (n_ b) 0); [lia|].
  destruct (i32 (Z.quot len (n_ b) + 2)) as [k|e] eqn:E; cbn.
  - apply i32_inv in E as [-> _]. unfold i32.
    destruct (_ <=? INT32_MAX) eqn:E2; [lia|]. by rewrite andb_false_r.
  - revert E. unfold i32. destruct (_ && _); [done|]. by intros [= <-].
Qed.

(** Conversely, calls that return did what the specifications say. *)
Lemma write_inv clk fresh b data len r b' :
  wf b -> 0 <= len <= Z.of_nat (length data) -> len <= INT32_MAX ->
  write clk fresh b data len = Ok (r, b') ->
  r = len /\ wf b' /\ content b' = content b ++ take (Z.to_nat len) data.
Proof.
  intros Hwf Hd Hm E.
  destruct (decide (len <= remain_space_ b \/ can_grow b len)) as [Hg|Hg].
  - destruct (write_spec clk fresh b data len Hwf Hd Hg) as (b1 & E1 & ? & ?). rewrite E in E1; by simplify_eq.
  - unfold can_grow in Hg. rewrite write_overflow in E by (done || lia). done.
Qed.

Lemma read_inv clk b data len d r b' :
  wf b -> read clk b data len = Ok (d, r, b') ->
  0 <= len <= size b /\ r = len /\ len <= Z.of_nat (length data) /\
  d = splice data 0 (take (Z.to_nat len) (content b)) /\
  wf b' /\ content b' = drop (Z.to_nat len) (content b).
Proof.
  intros Hwf E. assert (0 <= len <= size b /\ len <= Z.of_nat (length data)) as [Hlen Hd].
  { pose proof Hwf as [Hn Hl Hr Hw Hm _]. revert E. unfold read; cbv zeta. cbn [with_timer n_ remain_space_ r_pos_ w_pos_ buffer_].
    destruct (Z.geb_spec (n_ b - remain_space_ b) len) as [Hs|]; [|done]. cbn [negb]. fold (size b) in Hs.
    intros ([d0 r0] & Hc & _)%bind_Ok. revert Hc. rewrite Z.geb_leb. unfold size in *.
    destruct (_ <=? r_pos_ b); [destruct (r_pos_ b <=? _)|].
    1,3: intros (u & (?&?&?&?&?&_)%memcpy_inv & _)%bind_Ok; lia.
    intros (u & (?&?&?&?&?&->)%memcpy_inv & (v & (?&?&?&Hv&?&_)%memcpy_inv & _)%bind_Ok)%bind_Ok.
    rewrite length_splice in Hv by (rewrite length_take, length_drop; lia). lia. }
  destruct (read_spec clk b data len Hwf Hlen Hd) as (b1 & E1 & _ & ? & ?). rewrite E in E1; by simplify_eq.
Qed.

(** * Properties *)

(** C16: every sequence of write, read, peek and reset calls on a new buffer of any
    positive size gives exactly the outputs of the byte queue: bytes come out in
    the order they went in, across wrap-around and growth, and a reader blocks
    exactly when the queue is too short.  The bytes written in the run are
    bounded by a third of the int32_t range. *)
Theorem cycle_buffer_refines_fifo clk fresh init now n ops :
  0 < n <= INT32_MAX ->
  Forall (fun op => op_ok op = true) ops ->
  written ops <= INT32_MAX / 3 ->
  exists b, make_cycle_buffer init now n = Ok b /\
            run (impl_step clk fresh) b ops = run spec_step [] ops.
Proof.
  intros Hn Hops Hw. destruct (make_spec init now n Hn) as (b & E & Hwf & Hc).
  exists b. split; [done|]. rewrite <- Hc. apply run_simulates; [done..|].
  rewrite <- (length_content b Hwf), Hc. cbn. lia.
Qed.

Lemma cycle_buffer_refines_fifo_witness :
  exists b, make_cycle_buffer (fun _ => x00) 0 4 = Ok b /\
    run (impl_step (fun _ => 0) (fun _ => x00)) b
      [OpWrite [x01; x02; x03]; OpRead 2; OpWrite [x04; x05]; OpPeek 3;
       OpWrite [x06; x07]; OpRead 5; OpRead 1]
    = [Ok []; Ok [x01; x02]; Ok []; Ok [x03; x04; x05]; Ok [];
       Ok [x03; x04; x05; x06; x07]; Err (Blocked "read")].
Proof.
  apply (cycle_buffer_refines_fifo (fun _ => 0) (fun _ => x00) (fun _ => x00) 0 4
    [OpWrite [x01; x02; x03]; OpRead 2; OpWrite [x04; x05]; OpPeek 3;
     OpWrite [x06; x07]; OpRead 5; OpRead 1]).
  - by vm_compute.
  - repeat constructor.
  - by vm_compute.
Defined.

(** The predicate of the wait in write holds whenever it is evaluated (the branch
    commented "never enter here" is dead): no write on a well-formed buffer
    blocks, for any length and any bytes. *)
Lemma cycle_write_never_blocks clk fresh b data len what :
  wf b -> write clk fresh b data len <> Err (Blocked what).
Proof.
  intros Hwf. unfold write; cbv zeta.
  assert (wf (with_timer (start (clk 0%nat)) b)) as Hwf0 by (by destruct Hwf; split).
  destruct (realloc fresh _ len) as [b1|e] eqn:E.
  - assert (len <= remain_space_ b1) as Hr.
    { destruct (decide (0 <= len)); [by eapply realloc_room|].
      unfold realloc in E; cbn in E.
      replace (remain_space_ b >=? len) with true in E by (destruct Hwf; lia).
      injection E as <-. cbn. destruct Hwf; lia. }
    cbn [mbind result_bind]. replace (remain_space_ b1 >=? len) with true by lia.
    cbn [negb]. unfold memcpy, i32. repeat case_match; cbn in *; repeat case_match; simplify_eq/=; done.
  - intros H. cbn [mbind result_bind] in H. injection H as ->. revert E.
    unfold realloc, memcpy, i32. repeat (case_match; cbn in *; simplify_eq/=; try done).
Qed.

(** From every well-formed state, a write never blocks (the branch of its wait
    commented "never enter here" is dead), whatever its length and bytes; and
    when its bytes together with the pending ones fit in a third of the int32_t
    range, it returns its length, keeps the invariant and appends exactly those
    bytes. *)
Lemma cycle_write_appends clk fresh b data len :
  wf b ->
  (forall what, write clk fresh b data len <> Err (Blocked what)) /\
  (0 <= len <= Z.of_nat (length data) -> size b + len <= INT32_MAX / 3 ->
   exists b', write clk fresh b data len = Ok (len, b') /\ wf b' /\
              content b' = content b ++ take (Z.to_nat len) data).
Proof.
  intros Hwf. split; [intros what; by apply cycle_write_never_blocks|].
  intros Hd Hs. apply write_spec; [done|done|]. apply small_can_grow; [done|lia|done].
Qed.

(** C40: when the bytes do not fit and the grown size leaves the int32_t range,
    [n_ * ((length / n_) + 2)] overflows: the call has undefined behaviour. *)
Theorem cycle_write_overflow clk fresh b data len :
  wf b -> remain_space_ b < len <= INT32_MAX ->
  INT32_MAX < n_ b * (Z.quot len (n_ b) + 2) ->
  write clk fresh b data len = Err (UndefinedBehaviour "int32 overflow").
Proof. apply write_overflow. Qed.

Definition one_byte_buffer : cycle_buffer := mkBuffer false true 0 1 1 0 [x01] (start 0).

Lemma cycle_write_overflow_witness :
  write (fun _ => 0) (fun _ => x00) one_byte_buffer [] (INT32_MAX - 1)
  = Err (UndefinedBehaviour "int32 overflow").
Proof.
  apply (cycle_write_overflow (fun _ => 0) (fun _ => x00) one_byte_buffer [] (INT32_MAX - 1)).
  - by split; vm_compute.
  - by vm_compute.
  - by vm_compute.
Defined.

(** A buffer built with BUFFER_SIZE 0 has no size to grow from: the first
    non-empty write divides by zero. *)
Lemma cycle_zero_buffer_write clk fresh init now data len :
  0 < len ->
  (b ← make_cycle_buffer init now 0; write clk fresh b data len)
  = Err (UndefinedBehaviour "division by zero").
Proof.
  intros Hl. cbn. unfold write, realloc; cbn. by destruct (Z.geb_spec 0 len); [lia|].
Qed.
