(* ===== verification/CycleFrame.v ===== *)
(** Framed messages in the circular buffer: [can_read()] and
    [read(string& id, string& data)] of cycle_buffer.cc.

    A frame is a little-endian [int32_t] total length, one byte that counts
    itself and the id, the id, and the data.  A [std::string] is a list of
    [char]; unsigned comparisons and [size_t] subtractions wrap as in the code. *)
From S2P Require Import Prelude Timer CycleBuffer.
From Stdlib Require Import Strings.Byte.

(** * Bytes and integers *)
Definition Z_of_byte (b : char) : Z := Z.of_N (Byte.to_N b).
Definition byte_of_Z (z : Z) : char := default x00 (Byte.of_N (Z.to_N (z mod 256))).

Fixpoint le_decode (l : list char) : Z :=
  match l with
  | [] => 0
  | c :: l' => Z_of_byte c + 256 * le_decode l'
  end.

Fixpoint le_encode (k : nat) (z : Z) : list char :=
  match k with
  | O => []
  | S k' => byte_of_Z z :: le_encode k' (z / 256)
  end.

Lemma Z_of_byte_of_Z z : Z_of_byte (byte_of_Z z) = z mod 256.
Proof.
  unfold Z_of_byte, byte_of_Z. pose proof (Z.mod_pos_bound z 256 ltac:(lia)).
  destruct (Byte.of_N (Z.to_N (z mod 256))) as [c|] eqn:E; cbn.
  - apply Byte.to_of_N in E. rewrite E. lia.
  - apply Byte.of_N_None_iff in E. lia.
Qed.

Lemma length_le_encode k z : length (le_encode k z) = k.
Proof. revert z; induction k; intros; cbn; auto. Qed.

Lemma le_decode_encode k z : le_decode (le_encode k z) = z mod 256 ^ Z.of_nat k.
Proof.
  revert z; induction k as [|k IH]; intros z; cbn [le_encode le_decode].
  - cbn. by rewrite Z.mod_1_r.
  - rewrite Z_of_byte_of_Z, IH, Nat2Z.inj_succ, Z.pow_succ_r by lia.
    rewrite Z.rem_mul_r by lia. done.
Qed.

(** * The operations *)

(** [sizeof(int32_t) + sizeof(uint8_t)] *)
Definition header : Z := 5.

(** [*(int32_t* )p] on a little-endian machine; [p] must have four bytes. *)
Definition load_int32 (block : list char) (off : Z) : result Z :=
  d ← memcpy (replicate 4 x00) 0 block off 4;
  Ok (to_int32 (le_decode d)).

(** The four length bytes when they are copied out ([r_pos_ >= w_pos_]). *)
Definition copy_len (b : cycle_buffer) : result Z :=
  d ← (if to_uint64 (r_pos_ b) <=? to_uint64 (n_ b - 4) then
         memcpy (replicate 4 x00) 0 (buffer_ b) (r_pos_ b) 4
       else
         let remain_len := n_ b - r_pos_ b in
         d1 ← memcpy (replicate 4 x00) 0 (buffer_ b) (r_pos_ b) remain_len;
         memcpy d1 remain_len (buffer_ b) 0 (4 - remain_len));
  Ok (to_int32 (le_decode d)).

Definition can_read (b : cycle_buffer) : result bool :=
  if to_uint64 (n_ b - remain_space_ b) >? header then
    len ← (if r_pos_ b <? w_pos_ b then load_int32 (buffer_ b) (r_pos_ b) else copy_len b);
    Ok (n_ b - remain_space_ b >=? len)
  else Ok false.

(** [s.resize(n)] for a [size_t] [n]: a wrapped-around length is too long. *)
Definition resize (s : list char) (n : Z) : result (list char) :=
  if n >? INT64_MAX then Err LengthError
  else Ok (take (Z.to_nat n) s ++ replicate (Z.to_nat n - length s) x00).

(** The locals [len] and [tmp] of [read(string&, string&)]: [tmp] stays empty when
    the announced length is not there yet. *)
Definition fetch_frame (b : cycle_buffer) : result (Z * list char) :=
  if r_pos_ b <? w_pos_ b then
    len ← load_int32 (buffer_ b) (r_pos_ b);
    if n_ b - remain_space_ b >=? len then
      tmp ← resize [] (to_uint64 len);
      tmp ← memcpy tmp 0 (buffer_ b) (r_pos_ b) len;
      Ok (len, tmp)
    else Ok (len, [])
  else
    len ← copy_len b;
    if n_ b - remain_space_ b >=? len then
      tmp ← resize [] (to_uint64 len);
      if n_ b - r_pos_ b >=? len then
        tmp ← memcpy tmp 0 (buffer_ b) (r_pos_ b) len;
        Ok (len, tmp)
      else
        tmp ← memcpy tmp 0 (buffer_ b) (r_pos_ b) (n_ b - r_pos_ b);
        tmp ← memcpy tmp (n_ b - r_pos_ b) (buffer_ b) 0 (len - (n_ b - r_pos_ b));
        Ok (len, tmp)
    else Ok (len, []).

(** [read(string& id, string& data)]: returns the count, [id], [data] and the buffer. *)
Definition read_frame (b : cycle_buffer) (id data : list char)
  : result (Z * list char * list char * cycle_buffer) :=
  if to_uint64 (n_ b - remain_space_ b) >? header then
    '(len, tmp) ← fetch_frame b;
    if Z.of_nat (length tmp) >? header then
      (* a string's storage ends in a readable NUL *)
      let store := tmp ++ [x00] in
      let len2 := Z_of_byte (default x00 (store !! 4%nat)) in
      id ← resize id (to_uint64 (len2 - 1));
      id ← memcpy id 0 store 5 (Z.of_nat (length id));
      data ← resize data (to_uint64 (len - 4 - len2));
      data ← memcpy data 0 store (4 + len2) (Z.of_nat (length data));
      r' ← i32 (r_pos_ b + len);
      remain' ← i32 (remain_space_ b + len);
      Ok (Z.of_nat (length tmp), id, data,
          mkBuffer (is_full_ b) (is_empty_ b) (Z.rem r' (n_ b)) (w_pos_ b) (n_ b) remain'
            (buffer_ b) (timer_ b))
    else Ok (0, id, data, b)
  else Ok (0, id, data, b).

(** * A frame that was written is read back *)
Definition frame_len (id data : list char) : Z := 5 + Z.of_nat (length id) + Z.of_nat (length data).
Definition frame (id data : list char) : list char :=
  le_encode 4 (frame_len id data) ++ byte_of_Z (1 + Z.of_nat (length id)) :: id ++ data.

Lemma length_frame id data : Z.of_nat (length (frame id data)) = frame_len id data.
Proof.
  unfold frame, frame_len. rewrite length_app, length_le_encode. cbn [length].
  rewrite length_app. lia.
Qed.

(** Where the header is found does not matter: it is the first four live bytes. *)
Lemma header_len b :
  wf b -> header < size b ->
  (if r_pos_ b <? w_pos_ b then load_int32 (buffer_ b) (r_pos_ b) else copy_len b)
  = Ok (to_int32 (le_decode (take 4 (content b)))).
Proof.
  intros Hwf Hs. unfold header in Hs. pose proof (pos_cases b Hwf) as Hpos.
  pose proof (length_content b Hwf) as L. pose proof Hwf as [Hn Hl Hr Hw Hm _].
  assert (splice (replicate 4 x00) 0 (take 4 (content b)) = take 4 (content b)) as Hsp.
  { apply splice_all. rewrite length_take, length_replicate. lia. }
  unfold load_int32, copy_len. destruct (Z.ltb_spec (r_pos_ b) (w_pos_ b)).
  - rewrite copy_out_flat; [|done|lia|cbn; lia|unfold size in *; lia]. cbn [mbind result_bind].
    change (Z.to_nat 4) with 4%nat. by rewrite Hsp.
  - rewrite !to_uint_id by (unfold size, INT32_MAX in *; lia).
    destruct (Z.leb_spec (r_pos_ b) (n_ b - 4)).
    + rewrite copy_out_flat; [|done|lia|cbn; lia|lia]. cbn [mbind result_bind].
      change (Z.to_nat 4) with 4%nat. by rewrite Hsp.
    + destruct (copy_out_wrap b (replicate 4 x00) 4) as (d1 & E1 & E2); [done|lia|cbn; lia|lia|].
      cbv zeta. rewrite E1. cbn [mbind result_bind]. rewrite E2. cbn [mbind result_bind].
      change (Z.to_nat 4) with 4%nat. by rewrite Hsp.
Qed.

Lemma resize_ok s n : 0 <= n <= INT64_MAX ->
  exists s', resize s n = Ok s' /\ length s' = Z.to_nat n.
Proof.
  intros Hn. unfold resize. destruct (Z.gtb_spec n INT64_MAX); [lia|].
  eexists; split; [done|]. rewrite length_app, length_take, length_replicate. lia.
Qed.

(** Resizing a string and filling it leaves exactly the copied bytes. *)
Lemma resize_copy s (block xs : list char) off n :
  0 <= n <= INT64_MAX -> 0 <= off -> off + n <= Z.of_nat (length block) ->
  take (Z.to_nat n) (drop (Z.to_nat off) block) = xs ->
  exists s', resize s n = Ok s' /\ Z.of_nat (length s') = n /\ memcpy s' 0 block off n = Ok xs.
Proof.
  intros Hn Ho Hb Hx. destruct (resize_ok s n Hn) as (s' & E & L'). exists s'.
  split; [done|]. split; [lia|]. rewrite memcpy_ok by lia. rewrite Hx. f_equal.
  apply splice_all. subst xs. rewrite length_take, length_drop. lia.
Qed.

(** The bytes of the frame are the first [len] live bytes. *)
Lemma fetch_frame_spec b len :
  wf b -> 0 <= len <= size b ->
  (if r_pos_ b <? w_pos_ b then load_int32 (buffer_ b) (r_pos_ b) else copy_len b) = Ok len ->
  fetch_frame b = Ok (len, take (Z.to_nat len) (content b)).
Proof.
  intros Hwf Hlen Hh. pose proof (pos_cases b Hwf) as Hpos. pose proof Hwf as [Hn Hl Hr Hw Hm _].
  pose proof (length_content b Hwf) as L.
  assert ((n_ b - remain_space_ b >=? len) = true) as Hge by (unfold size in *; lia).
  assert (to_uint64 len = len) as Eu by (apply to_uint_id; unfold size, INT32_MAX in *; lia).
  destruct (resize_ok [] len) as (s' & E & L'); [unfold INT64_MAX, size, INT32_MAX in *; lia|].
  assert (splice s' 0 (take (Z.to_nat len) (content b)) = take (Z.to_nat len) (content b)) as Hsp.
  { apply splice_all. rewrite length_take. lia. }
  unfold fetch_frame. destruct (Z.ltb_spec (r_pos_ b) (w_pos_ b)).
  all: rewrite Hh; cbn [mbind result_bind]; rewrite Hge, Eu, E; cbn [mbind result_bind].
  - rewrite copy_out_flat by (done || unfold size in *; lia). cbn [mbind result_bind]. by rewrite Hsp.
  - rewrite Z.geb_leb. destruct (Z.leb_spec len (n_ b - r_pos_ b)).
    + rewrite copy_out_flat by (done || unfold size in *; lia). cbn [mbind result_bind]. by rewrite Hsp.
    + destruct (copy_out_wrap b s' len) as (d1 & E1 & E2); [done|lia|lia|lia|].
      rewrite E1. cbn [mbind result_bind]. rewrite E2. cbn [mbind result_bind]. by rewrite Hsp.
Qed.

(** Cutting a frame into its parts. *)
Lemma frame_parts id data tail :
  Z.of_nat (length id) <= 254 -> frame_len id data <= INT32_MAX ->
  let store := frame id data ++ tail in
  to_int32 (le_decode (take 4 store)) = frame_len id data /\
  Z_of_byte (default x00 (store !! 4%nat)) = 1 + Z.of_nat (length id) /\
  take (length id) (drop 5 store) = id /\
  take (length data) (drop (5 + length id) store) = data.
Proof.
  intros Hid Hlen store. unfold store, frame. rewrite <- !app_assoc.
  set (h := le_encode 4 (frame_len id data)).
  assert (length h = 4%nat) as Lh by apply length_le_encode.
  assert (drop 5 (h ++ (byte_of_Z (1 + Z.of_nat (length id)) :: id ++ data) ++ tail)
          = id ++ data ++ tail) as D5.
  { rewrite drop_app_ge by lia. rewrite Lh. cbn. by rewrite <- app_assoc. }
  repeat split.
  - rewrite take_app_le by lia. rewrite take_ge by lia. unfold h.
    rewrite le_decode_encode, Z.mod_small by (unfold frame_len, INT32_MAX in *; cbn; lia).
    apply to_int32_id. unfold frame_len, INT32_MIN in *. lia.
  - rewrite lookup_app_r by lia. rewrite Lh. cbn. rewrite Z_of_byte_of_Z, Z.mod_small; lia.
  - rewrite D5. rewrite take_app_le by lia. by apply take_ge.
  - rewrite <- drop_drop, D5, drop_app_length, take_app_le by lia. by apply take_ge.
Qed.

(** The read position after a frame. *)
Lemma frame_advance b len r' t :
  wf b -> 0 <= len <= size b -> r' = r_pos_ b + len ->
  wf (advance b (Z.rem r' (n_ b)) len t) /\
  content (advance b (Z.rem r' (n_ b)) len t) = drop (Z.to_nat len) (content b).
Proof.
  intros Hwf Hlen ->. pose proof Hwf as [Hn _ Hr _ Hm _]. unfold size in Hlen.
  rewrite Z.rem_mod_nonneg by lia.
  pose proof (Z.mod_pos_bound (r_pos_ b + len) (n_ b) ltac:(lia)).
  pose proof (Z.div_mod (r_pos_ b + len) (n_ b) ltac:(lia)).
  assert ((r_pos_ b + len) / n_ b = 0 \/ (r_pos_ b + len) / n_ b = 1 \/ (r_pos_ b + len) / n_ b = 2)
    by nia.
  apply content_advance; [done|unfold size; lia|lia|nia].
Qed.

(** A complete frame at the front of the queue: its length and its bytes. *)
Lemma frame_front b id0 data0 rest :
  wf b -> content b = frame id0 data0 ++ rest ->
  Z.of_nat (length id0) <= 254 -> header < frame_len id0 data0 <= INT32_MAX ->
  (to_uint64 (n_ b - remain_space_ b) >? header) = true /\
  (n_ b - remain_space_ b >=? frame_len id0 data0) = true /\
  0 <= frame_len id0 data0 <= size b /\
  (if r_pos_ b <? w_pos_ b then load_int32 (buffer_ b) (r_pos_ b) else copy_len b)
    = Ok (frame_len id0 data0) /\
  take (Z.to_nat (frame_len id0 data0)) (content b) = frame id0 data0.
Proof.
  intros Hwf Hc Hid Hpos. pose proof Hwf as [Hn _ _ _ Hm _].
  pose proof (length_content b Hwf) as L. rewrite Hc, length_app in L.
  pose proof (length_frame id0 data0) as Lf. unfold header in Hpos.
  destruct (frame_parts id0 data0 rest) as (Hlen & _); [done|lia|].
  pose proof (header_len b Hwf ltac:(unfold header; lia)) as Hh. rewrite Hc, Hlen in Hh.
  unfold header, size, INT32_MAX in *. repeat split; try lia; try done.
  - rewrite to_uint_id by lia. lia.
  - rewrite Hc, take_app_le by lia. apply take_ge. lia.
Qed.

(** The decoding of the copied frame into [id] and [data]. *)
Lemma frame_split id data id0 data0 :
  Z.of_nat (length id0) <= 254 -> frame_len id0 data0 <= INT32_MAX ->
  let store := frame id0 data0 ++ [x00] in
  let len2 := Z_of_byte (default x00 (store !! 4%nat)) in
  exists i1 d1,
    resize id (to_uint64 (len2 - 1)) = Ok i1 /\
    memcpy i1 0 store 5 (Z.of_nat (length i1)) = Ok id0 /\
    resize data (to_uint64 (frame_len id0 data0 - 4 - len2)) = Ok d1 /\
    memcpy d1 0 store (4 + len2) (Z.of_nat (length d1)) = Ok data0.
Proof.
  intros Hid Hlen store len2. pose proof (length_frame id0 data0) as Lf.
  destruct (frame_parts id0 data0 [x00] Hid Hlen) as (_ & Hl2 & Hi & Hdt).
  fold store in Hl2, Hi, Hdt. fold len2 in Hl2.
  assert (Z.of_nat (length store) = frame_len id0 data0 + 1) as Lst
    by (unfold store; rewrite length_app; cbn [length]; lia).
  clearbody store len2. subst len2. unfold frame_len in *.
  replace (1 + Z.of_nat (length id0) - 1) with (Z.of_nat (length id0)) by lia.
  replace (5 + Z.of_nat (length id0) + Z.of_nat (length data0) - 4 - (1 + Z.of_nat (length id0)))
    with (Z.of_nat (length data0)) by lia.
  replace (4 + (1 + Z.of_nat (length id0))) with (5 + Z.of_nat (length id0)) by lia.
  rewrite !to_uint_id by (unfold INT32_MAX in *; lia).
  destruct (resize_copy id store id0 5 (Z.of_nat (length id0))) as (i1 & Ei & Li & Ci);
    [unfold INT64_MAX; lia|lia|lia|by rewrite Nat2Z.id|].
  destruct (resize_copy data store data0 (5 + Z.of_nat (length id0)) (Z.of_nat (length data0)))
    as (d1 & Ed & Ld & Cd);
    [unfold INT64_MAX, INT32_MAX in *; lia|lia|lia
    |rewrite Nat2Z.id, Z2Nat.inj_add, Nat2Z.id by lia; exact Hdt|].
  exists i1, d1. by rewrite Li, Ld.
Qed.

Lemma read_frame_spec b id data id0 data0 rest :
  wf b -> content b = frame id0 data0 ++ rest ->
  Z.of_nat (length id0) <= 254 -> header < frame_len id0 data0 ->
  r_pos_ b + frame_len id0 data0 <= INT32_MAX ->
  exists b', read_frame b id data = Ok (frame_len id0 data0, id0, data0, b') /\
             wf b' /\ content b' = rest.
Proof.
  intros Hwf Hc Hid Hpos Hov. pose proof Hwf as [Hn _ Hr _ Hm _].
  destruct (frame_front b id0 data0 rest Hwf Hc Hid ltac:(lia)) as (Hg & Hge & Hsz & Hh & Ht).
  destruct (frame_split id data id0 data0 Hid ltac:(lia)) as (i1 & d1 & Ei & Ci & Ed & Cd).
  pose proof (length_frame id0 data0) as Lf.
  set (len := frame_len id0 data0) in *. set (f := frame id0 data0) in *.
  destruct (frame_advance b len (r_pos_ b + len) (timer_ b) Hwf Hsz eq_refl) as [Hwf' Hc'].
  eexists. split; [|split; [exact Hwf'|rewrite Hc', Hc, drop_app_ge by lia;
    replace (Z.to_nat len - length f)%nat with 0%nat by lia; done]].
  unfold read_frame. rewrite Hg.
  rewrite (fetch_frame_spec b len Hwf Hsz Hh), Ht. cbn [mbind result_bind].
  replace (Z.of_nat (length f) >? header) with true by lia.
  cbv zeta. rewrite Ei. cbn [mbind result_bind]. rewrite Ci. cbn [mbind result_bind].
  rewrite Ed. cbn [mbind result_bind]. rewrite Cd. cbn [mbind result_bind]. run_ok. by rewrite Lf.
Qed.

(** A frame with an empty id and empty data never leaves the buffer: can_read()
    announces it, and read() consumes nothing, so every frame behind it stays
    unreachable. *)
Lemma frame_empty_stuck b id data rest :
  wf b -> content b = frame [] [] ++ rest -> rest <> [] ->
  can_read b = Ok true /\ read_frame b id data = Ok (0, id, data, b).
Proof.
  intros Hwf Hc Hrest. pose proof (length_content b Hwf) as L.
  rewrite Hc, length_app in L. pose proof (length_frame [] []) as Lf.
  change (frame_len [] []) with 5 in Lf.
  assert (1 <= length rest)%nat by (destruct rest; cbn; [done|lia]).
  destruct (frame_parts [] [] rest) as (Hlen & _); [cbn; lia|by vm_compute|].
  pose proof (header_len b Hwf ltac:(unfold header; lia)) as Hh. rewrite Hc, Hlen in Hh.
  change (frame_len [] []) with 5 in Hh.
  assert ((to_uint64 (n_ b - remain_space_ b) >? header) = true) as Hg.
  { destruct Hwf as [Hn _ _ _ Hm _]. unfold header, size, INT32_MAX in *.
    rewrite to_uint_id by lia. lia. }
  split.
  - unfold can_read. rewrite Hg, Hh. cbn. f_equal. unfold size in L. lia.
  - unfold read_frame. rewrite Hg, (fetch_frame_spec b 5 Hwf ltac:(lia) Hh). cbn [mbind result_bind].
    rewrite length_take. destruct (Z.gtb_spec (Z.of_nat (Z.to_nat 5 `min` length (content b))) header);
      [unfold header in *; lia|done].
Qed.

(** * Properties *)

(** C31: a frame at the front of the queue, wherever it lies in the array (flat,
    wrapped inside the header or inside the body), is announced by can_read()
    and read back as exactly its id and data; the bytes behind it stay queued.
    The one exception is the frame with an empty id and empty data: it is
    announced and never consumed, so every frame behind it stays unreachable. *)
Theorem frame_roundtrip b id data id0 data0 rest :
  wf b -> content b = frame id0 data0 ++ rest ->
  Z.of_nat (length id0) <= 254 -> r_pos_ b + frame_len id0 data0 <= INT32_MAX ->
  (id0 ++ data0 <> [] ->
     can_read b = Ok true /\
     exists b', read_frame b id data = Ok (frame_len id0 data0, id0, data0, b') /\
                wf b' /\ content b' = rest) /\
  (id0 ++ data0 = [] -> rest <> [] -> can_read b = Ok true /\ read_frame b id data = Ok (0, id, data, b)).
Proof.
  intros Hwf Hc Hid Hov. split.
  - intros Hne. assert (header < frame_len id0 data0) as Hh.
    { unfold header, frame_len. destruct id0, data0; cbn in *; [done|lia..]. }
    split; [|by eapply read_frame_spec].
    destruct (frame_front b id0 data0 rest Hwf Hc Hid) as (Hg & Hge & _ & Hl & _).
    { destruct Hwf; lia. }
    unfold can_read. rewrite Hg, Hl. cbn. by rewrite Hge.
  - intros [-> ->]%app_nil. by apply frame_empty_stuck.
Qed.

(** A frame with id "a" and data "bc" whose header wraps around the array. *)
Definition framed_buffer : cycle_buffer :=
  mkBuffer false true 9 6 11 3 [x00; x00; x02; x61; x62; x63; xff; xff; xff; x08; x00] (start 0).

(** An empty frame with a byte behind it. *)
Definition stuck_buffer : cycle_buffer :=
  mkBuffer false true 0 6 8 2 [x05; x00; x00; x00; x01; x0a; xff; xff] (start 0).

Lemma frame_roundtrip_witness :
  (exists b', read_frame framed_buffer [] [] = Ok (8, [x61], [x62; x63], b') /\
              wf b' /\ content b' = []) /\
  can_read stuck_buffer = Ok true /\ read_frame stuck_buffer [] [] = Ok (0, [], [], stuck_buffer).
Proof.
  split.
  - apply (frame_roundtrip framed_buffer [] [] [x61] [x62; x63] []); [by split; vm_compute|by vm_compute..|done].
  - apply (frame_roundtrip stuck_buffer [] [] [] [] [x0a]); [by split; vm_compute|by vm_compute..|done|done].
Defined.
