(* ===== verification/Connection.v ===== *)
(** ClientConnection (client_connection.h/.cc): what a remote client sent to this
    node, kept per message id until it is received.

    The container behind a message id depends on the build: a queue of messages,
    or a [cycle_buffer] with USE_BUFFER.  [MsgBuffer] is what ClientConnection
    uses of it and [MsgBufferLaws] what it may rely on; the connection is modelled
    and verified once against that interface, and both builds are instances. *)
From S2P Require Import Prelude Timer CycleBuffer.
From Stdlib Require Import Strings.Byte.

Abbreviation bytes := (list char).

(** * Interface of the per-message container *)
Class MsgBuffer (B : Type) := {
  (** [make_shared<...>(buffer_size_)] *)
  mb_make : Z -> result B;
  (** [->write((const char* )data.data(), data.size())] / [->emplace(data)] *)
  mb_push : B -> bytes -> result B;
  (** [->empty()] *)
  mb_empty : B -> bool;
  (** the body of [recv] for a container that is not empty: the return value, the
      caller's block and the container, or [None] when there is not enough yet *)
  mb_take : B -> bytes -> Z -> result (option (Z * bytes * B)) }.

Class MsgBufferLaws (B : Type) `{MsgBuffer B} := {
  mb_wf : B -> Prop;
  (** the bytes received and not yet taken, in order *)
  mb_content : B -> bytes;
  (** buffer sizes the container can be built with, longest message it stores *)
  mb_size_ok : Z -> Prop;
  mb_limit : Z;
  mb_make_law sz b : mb_size_ok sz -> mb_make sz = Ok b -> mb_wf b /\ mb_content b = [];
  mb_push_law b d b' : mb_wf b -> Z.of_nat (length d) <= mb_limit -> mb_push b d = Ok b' ->
    mb_wf b' /\ mb_content b' = mb_content b ++ d /\ (d <> [] -> mb_empty b' = false);
  mb_take_law b data len ret data' b' : mb_wf b -> mb_take b data len = Ok (Some (ret, data', b')) ->
    mb_wf b' /\ exists out, mb_content b = out ++ mb_content b' /\
      ret = Z.of_nat (length out) /\ data' = splice data 0 out /\
      (length out <= length data)%nat;
  mb_empty_law b : mb_wf b -> mb_empty b = true -> mb_content b = [] }.

(** * The connection *)
Section connection.
Context {B : Type} `{MsgBuffer B}.

(** [cv_] is how often the condition variable was notified: a thread that began to
    wait on it at [n] has been notified since when [cv_] is above [n]. *)
Record ClientConnection := mkConn {
  recv_timeout_ : Z;               (* uint64_t, milliseconds *)
  nodeid_ : string;
  mapbuffer_ : gmap string B;
  buffer_size_ : Z;
  cv_ : nat }.

(** Constructor: [recv_timeout_] is not initialised, [t0] is what it happens to hold. *)
Definition make_ClientConnection (t0 : Z) (nodeid : string) : ClientConnection :=
  mkConn t0 nodeid ∅ (1024 * 8) 0.

Definition SetRecvTimeOut (t : Z) (c : ClientConnection) : ClientConnection :=
  mkConn t (nodeid_ c) (mapbuffer_ c) (buffer_size_ c) (cv_ c).
Definition SetBufferSize (sz : Z) (c : ClientConnection) : ClientConnection :=
  mkConn (recv_timeout_ c) (nodeid_ c) (mapbuffer_ c) sz (cv_ c).
Definition with_mapbuffer (m : gmap string B) (c : ClientConnection) : ClientConnection :=
  mkConn (recv_timeout_ c) (nodeid_ c) m (buffer_size_ c) (cv_ c).

(** [cv_.notify_all()] *)
Definition notify_all (c : ClientConnection) : ClientConnection :=
  mkConn (recv_timeout_ c) (nodeid_ c) (mapbuffer_ c) (buffer_size_ c) (S (cv_ c)).

(** [write]: under the lock, the data is stored and every waiting receiver notified. *)
Definition conn_write (c : ClientConnection) (msgid : string) (data : bytes)
  : result (bool * ClientConnection) :=
  m ← match mapbuffer_ c !! msgid with
      | None => b ← mb_make (buffer_size_ c); Ok (<[msgid := b]> (mapbuffer_ c))
      | Some _ => Ok (mapbuffer_ c)
      end;
  match m !! msgid with
  | None => Err (UndefinedBehaviour "null buffer")
  | Some b => b' ← mb_push b data; Ok (true, notify_all (with_mapbuffer (<[msgid := b']> m) c))
  end.

(** One turn of the loop of [recv]: with the lock held it either returns, or
    computes how long to wait on the condition variable. *)
Inductive recv_turn :=
  | RecvReturn (ret : Z) (data : bytes)
  | RecvWait (remain_time : Z).

Definition recv_remain (beg now : Z) (c : ClientConnection) : Z :=
  let elapsed := Z.quot (now - beg) 1000000 in
  to_int64 (to_uint64 (recv_timeout_ c - to_uint64 elapsed)).

Definition recv_iter (beg now : Z) (c : ClientConnection) (msgid : string) (data : bytes) (length : Z)
  : result (recv_turn * ClientConnection) :=
  let wait := Ok (RecvWait (recv_remain beg now c), c) in
  match mapbuffer_ c !! msgid with
  | Some b =>
      if negb (mb_empty b) then
        o ← mb_take b data length;
        match o with
        | Some (ret, data', b') =>
            Ok (RecvReturn ret data', with_mapbuffer (<[msgid := b']> (mapbuffer_ c)) c)
        | None => wait
        end
      else wait
  | None => wait
  end.

(** How a wait ends ([cv_status]). *)
Inductive wake := Timeout | NoTimeout.

(** What happens in one turn: the clock when the turn runs, the writes other
    threads complete while this one waits without the lock, and the wake-up. *)
Record turn := mkTurn {
  turn_now : Z;
  turn_writes : list (string * bytes);
  turn_wake : wake }.

Fixpoint conn_writes (c : ClientConnection) (ws : list (string * bytes)) : result ClientConnection :=
  match ws with
  | [] => Ok c
  | (msgid, data) :: ws' => '(_, c') ← conn_write c msgid data; conn_writes c' ws'
  end.

(** [recv]: runs along the turns; [None] while it is still waiting at the end of
    them.  The parameter [timeout] of the C++ function is not used by its body. *)
Fixpoint recv_loop (beg : Z) (c : ClientConnection) (msgid : string) (data : bytes) (length : Z)
    (turns : list turn) : result (option (Z * bytes) * ClientConnection) :=
  match turns with
  | [] => Ok (None, c)
  | t :: turns' =>
      '(o, c1) ← recv_iter beg (turn_now t) c msgid data length;
      match o with
      | RecvReturn ret data' => Ok (Some (ret, data'), c1)
      | RecvWait _ =>
          c2 ← conn_writes c1 (turn_writes t);
          match turn_wake t with
          | Timeout => Ok (Some (0, data), c2)
          | NoTimeout => recv_loop beg c2 msgid data length turns'
          end
      end
  end.

Definition recv (beg : Z) (c : ClientConnection) (msgid : string) (data : bytes) (length timeout : Z)
    (turns : list turn) : result (option (Z * bytes) * ClientConnection) :=
  recv_loop beg c msgid data length turns.
End connection.
Arguments ClientConnection B : clear implicits.

(** * Verification against the interface *)
Section verified.
Context {B : Type} `{MsgBufferLaws B}.
Implicit Types (c : ClientConnection B) (msgid : string) (data : bytes).

(** Bytes waiting under a message id. *)
Definition content_of (c : ClientConnection B) (msgid : string) : bytes :=
  match mapbuffer_ c !! msgid with Some b => mb_content b | None => [] end.

Definition conn_wf (c : ClientConnection B) : Prop :=
  mb_size_ok (buffer_size_ c) /\ map_Forall (fun _ b => mb_wf b) (mapbuffer_ c).

Lemma content_insert m b c k :
  content_of (with_mapbuffer (<[m := b]> (mapbuffer_ c)) c) k =
    if decide (k = m) then mb_content b else content_of c k.
Proof.
  unfold content_of; cbn. case_decide; subst; [by rewrite lookup_insert_eq|].
  by rewrite lookup_insert_ne.
Qed.

Lemma conn_wf_insert m b c :
  conn_wf c -> mb_wf b -> conn_wf (with_mapbuffer (<[m := b]> (mapbuffer_ c)) c).
Proof. intros [Hs Hf] Hb. split; [done|]. by apply map_Forall_insert_2. Qed.

(** [write] appends under its message id and touches no other one. *)
Lemma conn_write_spec c msgid data r c' :
  conn_wf c -> Z.of_nat (length data) <= mb_limit -> conn_write c msgid data = Ok (r, c') ->
  r = true /\ conn_wf c' /\
  (forall k, content_of c' k =
     if decide (k = msgid) then content_of c k ++ data else content_of c k) /\
  (data <> [] -> exists b, mapbuffer_ c' !! msgid = Some b /\ mb_empty b = false).
Proof.
  intros Hwf Hl. unfold conn_write. intros (m & Hm & Hw)%bind_Ok.
  assert (exists b, mb_wf b /\ mb_content b = content_of c msgid /\ m !! msgid = Some b /\
            (forall b', <[msgid := b']> m = <[msgid := b']> (mapbuffer_ c))) as (b & Hb & Hc & Hlk & Hins).
  { unfold content_of. destruct (mapbuffer_ c !! msgid) as [b|] eqn:E.
    - injection Hm as <-. exists b. split; [by apply (proj2 Hwf msgid b)|]. by rewrite E.
    - apply bind_Ok in Hm as (b & Hb & [= <-]).
      destruct (mb_make_law _ _ (proj1 Hwf) Hb) as [Hwb Hcb]. exists b. rewrite lookup_insert_eq.
      split; [done|]. split; [done|]. split; [done|]. intros b'. apply insert_insert_eq. }
  rewrite Hlk in Hw. apply bind_Ok in Hw as (b' & Hp & [= <- <-]).
  destruct (mb_push_law b data b' Hb Hl Hp) as (Hwb & Hcb & He). rewrite Hins.
  split; [done|]. split; [by apply conn_wf_insert|]. split.
  - intros k. etrans; [apply content_insert|]. case_decide; subst; [by rewrite Hcb, Hc|done].
  - intros Hd. exists b'. cbn. rewrite lookup_insert_eq. by split; [|apply He].
Qed.

(** A turn that returns hands out a prefix of what waits under its message id. *)
Lemma recv_iter_spec beg now c msgid data len o c' :
  conn_wf c -> recv_iter beg now c msgid data len = Ok (o, c') ->
  match o with
  | RecvReturn ret data' =>
      conn_wf c' /\ exists out,
        (forall k, content_of c k = (if decide (k = msgid) then out else []) ++ content_of c' k) /\
        ret = Z.of_nat (length out) /\ data' = splice data 0 out /\ (length out <= length data)%nat
  | RecvWait _ => c' = c
  end.
Proof.
  intros Hwf. unfold recv_iter.
  destruct (mapbuffer_ c !! msgid) as [b|] eqn:E; [|by intros [= <- <-]].
  destruct (mb_empty b); [by intros [= <- <-]|]. cbn [negb].
  intros (o' & Ht & Hr)%bind_Ok. destruct o' as [[[ret d] b']|]; [|by injection Hr as <- <-].
  injection Hr as <- <-. destruct (mb_take_law _ _ _ _ _ _ (proj2 Hwf msgid b E) Ht) as (Hb' & out & Hc & Hrest).
  split; [by apply conn_wf_insert|]. exists out. split; [|done].
  intros k. rewrite content_insert. case_decide; subst; [|done].
  unfold content_of. by rewrite E.
Qed.

(** ** Threads on one connection

    Servant threads write; any number of threads receive.  A receiver holds the
    lock for one turn at a time and gives it up while it waits. *)
Inductive thread :=
  | TRecv (msgid : string) (data : bytes) (len beg : Z)
  | TWaiting (msgid : string) (data : bytes) (len beg : Z)
  | TDone (msgid : string) (ret : Z) (data : bytes).

Record sys := mkSys { s_conn : ClientConnection B; s_threads : gmap nat thread }.

Inductive action :=
  | AWrite (msgid : string) (data : bytes)
  | AReturn (tid : nat) (msgid : string) (ret : Z) (data : bytes)
  | AInternal (tid : nat).

Inductive sys_step : sys -> action -> sys -> Prop :=
  | step_write c ts msgid data r c' :
      Z.of_nat (length data) <= mb_limit -> conn_write c msgid data = Ok (r, c') ->
      sys_step (mkSys c ts) (AWrite msgid data) (mkSys c' ts)
  | step_call c ts tid msgid data len beg :
      ts !! tid = None ->
      sys_step (mkSys c ts) (AInternal tid) (mkSys c (<[tid := TRecv msgid data len beg]> ts))
  | step_return c ts tid msgid data len beg now ret data' c' :
      ts !! tid = Some (TRecv msgid data len beg) ->
      recv_iter beg now c msgid data len = Ok (RecvReturn ret data', c') ->
      sys_step (mkSys c ts) (AReturn tid msgid ret data')
        (mkSys c' (<[tid := TDone msgid ret data']> ts))
  | step_wait c ts tid msgid data len beg now t c' :
      ts !! tid = Some (TRecv msgid data len beg) ->
      recv_iter beg now c msgid data len = Ok (RecvWait t, c') ->
      sys_step (mkSys c ts) (AInternal tid) (mkSys c' (<[tid := TWaiting msgid data len beg]> ts))
  | step_wake c ts tid msgid data len beg :
      ts !! tid = Some (TWaiting msgid data len beg) ->
      sys_step (mkSys c ts) (AInternal tid) (mkSys c (<[tid := TRecv msgid data len beg]> ts))
  | step_timeout c ts tid msgid data len beg :
      ts !! tid = Some (TWaiting msgid data len beg) ->
      sys_step (mkSys c ts) (AReturn tid msgid 0 data) (mkSys c (<[tid := TDone msgid 0 data]> ts)).

(** Sequences of steps, the last one first in the proof, and their trace. *)
Inductive sys_steps (s0 : sys) : list action -> sys -> Prop :=
  | steps_refl : sys_steps s0 [] s0
  | steps_snoc tr s a s' : sys_steps s0 tr s -> sys_step s a s' -> sys_steps s0 (tr ++ [a]) s'.

(** Bytes written, and bytes handed to receivers, under a message id. *)
Definition sent (k : string) (tr : list action) : bytes :=
  concat ((fun a => match a with
                    | AWrite m d => if decide (m = k) then d else []
                    | _ => [] end) <$> tr).
Definition delivered (k : string) (tr : list action) : bytes :=
  concat ((fun a => match a with
                    | AReturn _ m ret d => if decide (m = k) then take (Z.to_nat ret) d else []
                    | _ => [] end) <$> tr).

Lemma sent_snoc k tr a : sent k (tr ++ [a]) = sent k tr ++ sent k [a].
Proof. unfold sent. by rewrite fmap_app, concat_app. Qed.
Lemma delivered_snoc k tr a : delivered k (tr ++ [a]) = delivered k tr ++ delivered k [a].
Proof. unfold delivered. by rewrite fmap_app, concat_app. Qed.

Lemma take_splice_0 (data out : bytes) :
  (length out <= length data)%nat -> take (length out) (splice data 0 out) = out.
Proof. intros. unfold splice. rewrite take_0, app_nil_l. apply take_app_length. Qed.

(** One step moves bytes but neither loses, invents nor reorders any. *)
Lemma sys_step_conserves s a s' :
  conn_wf (s_conn s) -> sys_step s a s' ->
  conn_wf (s_conn s') /\
  forall k, content_of (s_conn s) k ++ sent k [a] = delivered k [a] ++ content_of (s_conn s') k.
Proof.
  intros Hwf Hst. destruct Hst as
    [c ts msgid data r c' Hl Hw|c ts|c ts tid msgid data len beg now ret data' c' _ Hr
    |c ts tid msgid data len beg now t c' _ Hr|c ts|c ts]; cbn [s_conn] in *.
  - destruct (conn_write_spec c msgid data r c' Hwf Hl Hw) as (_ & Hwf' & Hc & _).
    split; [done|]. intros k. rewrite Hc. unfold sent, delivered; cbn.
    repeat case_decide; simplify_eq; by rewrite ?app_nil_r.
  - split; [done|]. intros k. apply app_nil_r.
  - destruct (recv_iter_spec _ _ _ _ _ _ _ _ Hwf Hr) as (Hwf' & out & Hc & -> & -> & Ho).
    split; [done|]. intros k. rewrite (Hc k). unfold sent, delivered; cbn.
    rewrite !app_nil_r, Nat2Z.id, take_splice_0 by done.
    repeat case_decide; by simplify_eq.
  - pose proof (recv_iter_spec _ _ _ _ _ _ _ _ Hwf Hr) as ->.
    split; [done|]. intros k. apply app_nil_r.
  - split; [done|]. intros k. apply app_nil_r.
  - split; [done|]. intros k. unfold sent, delivered; cbn. rewrite !app_nil_r.
    by case_decide.
Qed.

Lemma sys_steps_conserve s0 tr s :
  conn_wf (s_conn s0) -> sys_steps s0 tr s ->
  conn_wf (s_conn s) /\
  forall k, content_of (s_conn s0) k ++ sent k tr = delivered k tr ++ content_of (s_conn s) k.
Proof.
  intros Hwf Hs. induction Hs as [|tr s a s' Hs [IHwf IH] Hst].
  - split; [done|]. intros k. apply app_nil_r.
  - destruct (sys_step_conserves s a s' IHwf Hst) as [Hwf' Hc]. split; [done|].
    intros k. rewrite sent_snoc, delivered_snoc, app_assoc, IH, <- !app_assoc. by rewrite Hc.
Qed.
(** ** Who is notified

    A receiver holds the lock from its check to its wait, and a write notifies all
    that wait.  [waiting_since] is where [cv_] was when each waiting receiver began. *)
Definition waiting_since (s : sys) (a : action) (s' : sys) (w : gmap nat nat) : gmap nat nat :=
  match a with
  | AWrite _ _ => w
  | AReturn tid _ _ _ => delete tid w
  | AInternal tid =>
      match s_threads s' !! tid with Some (TWaiting _ _ _ _) => <[tid := cv_ (s_conn s)]> w | _ => delete tid w end
  end.
Inductive cv_steps (s0 : sys) : list action -> sys -> gmap nat nat -> Prop :=
  | cv_refl : cv_steps s0 [] s0 ∅
  | cv_snoc tr s w a s' : cv_steps s0 tr s w -> sys_step s a s' -> cv_steps s0 (tr ++ [a]) s' (waiting_since s a s' w).

Lemma cv_steps_sys s0 tr s w : cv_steps s0 tr s w -> sys_steps s0 tr s.
Proof. induction 1; by econstructor. Qed.

(** A receive would go on waiting. *)
Definition nothing_for (c : ClientConnection B) (msgid : string) (data : bytes) (len : Z) : Prop :=
  match mapbuffer_ c !! msgid with Some b => mb_empty b = true \/ mb_take b data len = Ok None | None => True end.

Lemma nothing_waits beg now c msgid data len : nothing_for c msgid data len ->
  recv_iter beg now c msgid data len = Ok (RecvWait (recv_remain beg now c), c).
Proof.
  unfold nothing_for, recv_iter. destruct (mapbuffer_ c !! msgid) as [b|]; [|done].
  intros [->|E]; [done|]. rewrite E. by destruct (mb_empty b).
Qed.
Lemma waits_nothing beg now c msgid data len t c' : recv_iter beg now c msgid data len = Ok (RecvWait t, c') ->
  c' = c /\ nothing_for c msgid data len.
Proof.
  unfold nothing_for, recv_iter. destruct (mapbuffer_ c !! msgid) as [b|]; [|by intros [= _ <-]].
  destruct (mb_empty b); cbn [negb]; [intros [= _ <-]; tauto|].
  intros ([[[ret d] b']|] & E & [= <-])%bind_Ok. by auto.
Qed.
End verified.

(** A container that has not enough for a receive has not after another one either. *)
Class MsgBufferWaits (B : Type) `{MsgBufferLaws B} := {
  mb_wait_law b data len data2 len2 ret data' b' : mb_wf b -> mb_take b data len = Ok None ->
    mb_take b data2 len2 = Ok (Some (ret, data', b')) -> mb_empty b' = true \/ mb_take b' data len = Ok None }.

Section notified.
Context {B : Type} `{MsgBufferWaits B}.

(** Each waiting receiver was notified since it began to wait, or there is nothing for it. *)
Definition notified (s : sys) (w : gmap nat nat) : Prop := forall tid msgid data len beg,
  s_threads s !! tid = Some (TWaiting msgid data len beg) ->
  exists n, w !! tid = Some n /\ (n <= cv_ (s_conn s))%nat /\ (n = cv_ (s_conn s) -> nothing_for (s_conn s) msgid data len).

Lemma nothing_after_return beg now c msgid data len ret data' c' k data2 len2 :
  conn_wf c -> recv_iter beg now c msgid data len = Ok (RecvReturn ret data', c') ->
  cv_ c' = cv_ c /\ (nothing_for c k data2 len2 -> nothing_for c' k data2 len2).
Proof.
  intros Hwf. unfold recv_iter, nothing_for. destruct (mapbuffer_ c !! msgid) as [b|] eqn:E; [|done].
  destruct (mb_empty b) eqn:He; cbn [negb]; [done|].
  intros ([[[r d] b']|] & Ht & Hr)%bind_Ok; [|done]. injection Hr as _ _ <-. split; [done|].
  cbn. destruct (decide (msgid = k)) as [<-|Hk]; [|by rewrite lookup_insert_ne].
  rewrite lookup_insert_eq, E, He. intros [|Hn]; [done|]. by eapply mb_wait_law; [by apply (proj2 Hwf _ _ E)| |].
Qed.

Lemma conn_write_cv c msgid data r c' : conn_write c msgid data = Ok (r, c') -> cv_ c' = S (cv_ c).
Proof.
  unfold conn_write. intros (m & _ & Hw)%bind_Ok. destruct (m !! msgid); [|done]. by apply bind_Ok in Hw as (b' & _ & [= _ <-]).
Qed.

Lemma notified_step s w a s' : conn_wf (s_conn s) -> notified s w -> sys_step s a s' -> notified s' (waiting_since s a s' w).
Proof.
  intros Hwf Hn Hst. destruct Hst as
    [c ts msgid data r c' _ Hw|c ts tid|c ts tid msgid data len beg now ret data' c' _ Hr
    |c ts tid msgid data len beg now t c' _ Hr|c ts tid|c ts tid]; cbn [s_conn s_threads waiting_since] in *;
    intros tid0 k data0 len0 beg0; cbn [s_conn s_threads].
  - intros Et. destruct (Hn _ _ _ _ _ Et) as (n & En & Hle & _). exists n. cbn in Hle |- *. rewrite (conn_write_cv _ _ _ _ _ Hw).
    split; [done|]. split; lia.
  - rewrite lookup_insert_eq, lookup_insert_Some. intros [[_ [=]]|[Hne Et]]. rewrite lookup_delete_ne by done. by apply (Hn _ _ _ _ _ Et).
  - rewrite lookup_insert_Some. intros [[_ [=]]|[Hne Et]]. rewrite lookup_delete_ne by done.
    destruct (Hn _ _ _ _ _ Et) as (n & En & Hle & Hnth). exists n.
    destruct (nothing_after_return _ _ _ _ _ _ _ _ _ k data0 len0 Hwf Hr) as [-> Hk]. by auto.
  - apply waits_nothing in Hr as [-> Hnth]. rewrite lookup_insert_eq, lookup_insert_Some. intros [[<- [= -> -> -> ->]]|[Hne Et]].
    + rewrite lookup_insert_eq. by exists (cv_ c).
    + rewrite lookup_insert_ne by done. by apply (Hn _ _ _ _ _ Et).
  - rewrite lookup_insert_eq, lookup_insert_Some. intros [[_ [=]]|[Hne Et]]. rewrite lookup_delete_ne by done. by apply (Hn _ _ _ _ _ Et).
  - rewrite lookup_insert_Some. intros [[_ [=]]|[Hne Et]]. rewrite lookup_delete_ne by done. by apply (Hn _ _ _ _ _ Et).
Qed.

Lemma notified_steps s0 tr s w : conn_wf (s_conn s0) -> s_threads s0 = ∅ -> cv_steps s0 tr s w -> notified s w.
Proof.
  intros Hwf Hts Hs. induction Hs as [|tr s w a s' Hs IH Hst].
  - intros tid ????. by rewrite Hts, lookup_empty.
  - eapply notified_step; [|done..]. by eapply sys_steps_conserve, cv_steps_sys.
Qed.
End notified.

(** * The two builds *)

(** ** Without USE_BUFFER: [queue<bytes>]

    [recv] copies the whole front message into the caller's block, whatever the
    [length] that was asked for; past the end of the block this is undefined. *)
Module MsgQueue.
Abbreviation queue := (list bytes).

Definition emplace (q : queue) (data : bytes) : result queue := Ok (q ++ [data]).
Definition is_empty (q : queue) : bool := match q with [] => true | _ => false end.
Definition take_front (q : queue) (data : bytes) (length : Z) : result (option (Z * bytes * queue)) :=
  match q with
  | [] => Err (UndefinedBehaviour "front of an empty queue")
  | bytes_data :: q' =>
      let nSize := Z.of_nat (List.length bytes_data) in
      data' ← memcpy data 0 bytes_data 0 nSize;
      Ok (Some (nSize, data', q'))
  end.

#[global] Instance queue_buffer : MsgBuffer queue := {
  mb_make _ := Ok [];
  mb_push := emplace;
  mb_empty := is_empty;
  mb_take := take_front }.

Lemma take_front_inv q data len ret data' q' :
  take_front q data len = Ok (Some (ret, data', q')) ->
  exists d, q = d :: q' /\ ret = Z.of_nat (length d) /\ data' = splice data 0 d /\
            (length d <= length data)%nat.
Proof.
  destruct q as [|d q]; [done|]. cbn -[memcpy].
  intros (x & (_ & _ & _ & Hl & _ & ->)%memcpy_inv & [= <- <- <-])%bind_Ok.
  exists d. split; [done|]. split; [done|]. split; [|lia].
  by rewrite Nat2Z.id, drop_0, firstn_all.
Qed.

#[global] Program Instance queue_laws : MsgBufferLaws queue := {
  mb_wf _ := True;
  mb_content q := concat q;
  mb_size_ok _ := True;
  mb_limit := INT64_MAX }.
Next Obligation. cbn. by intros ? ? _ [= <-]. Qed.
Next Obligation.
  cbn. intros q d q' _ _ [= <-]. split; [done|]. rewrite concat_app. cbn. rewrite app_nil_r.
  split; [done|]. intros _. by destruct q.
Qed.
Next Obligation.
  cbn. intros q data len ret data' q' _ (d & -> & -> & -> & Hl)%take_front_inv.
  split; [done|]. by exists d.
Qed.
Next Obligation. cbn. by intros [|] _. Qed.

#[global] Instance queue_waits : MsgBufferWaits queue.
Proof. split. intros [|d q] data len data2 len2 ret data' b' _; cbn -[memcpy]; [done|]. by destruct (memcpy _ _ _ _ _). Qed.
End MsgQueue.

(** ** With USE_BUFFER: [cycle_buffer]

    [data.size()] and [length] are 64-bit and are narrowed to [int32_t].  The
    clock readings only set [timer_], which no operation used here reads. *)
Module MsgCycle.
Section msg_cycle.
Context (clk : clock) (fresh init : nat -> char) (now : Z).

Definition push (b : cycle_buffer) (data : bytes) : result cycle_buffer :=
  '(_, b') ← write clk fresh b data (to_int32 (Z.of_nat (length data))); Ok b'.
Definition take (b : cycle_buffer) (data : bytes) (length : Z)
  : result (option (Z * bytes * cycle_buffer)) :=
  if can_read_len b (to_int32 length) then
    '(data', ret, b') ← read clk b data (to_int32 length); Ok (Some (ret, data', b'))
  else Ok None.

Definition cycle_msg : MsgBuffer cycle_buffer := {|
  mb_make := make_cycle_buffer init now;
  mb_push := push;
  mb_empty := empty;
  mb_take := take |}.
#[local] Existing Instance cycle_msg.

Lemma nonempty_content b : wf b -> content b <> [] -> empty b = false.
Proof.
  intros Hwf Hc. pose proof (length_content b Hwf) as L. unfold empty, size in *.
  apply Z.eqb_neq. intros E. destruct (content b); cbn in *; [done|lia].
Qed.

#[program] Definition cycle_laws : MsgBufferLaws cycle_buffer := {|
  mb_wf := wf;
  mb_content := content;
  mb_size_ok sz := 0 < sz <= INT32_MAX;
  mb_limit := INT32_MAX |}.
Next Obligation.
  intros sz b Hsz E. destruct (make_spec init now sz Hsz) as (b1 & E1 & ? & ?).
  change (make_cycle_buffer init now sz = Ok b) in E. rewrite E1 in E. by simplify_eq.
Qed.
Next Obligation.
  intros b d b' Hwf Hl Hp. change (push b d = Ok b') in Hp.
  apply bind_Ok in Hp as ([r b1] & Hw & [= ->]).
  rewrite to_int32_id in Hw by (unfold INT32_MIN; lia).
  destruct (write_inv clk fresh b d (Z.of_nat (length d)) r b' Hwf ltac:(lia) Hl Hw) as (_ & Hwf' & Hc).
  rewrite Nat2Z.id, take_ge in Hc by lia. split; [done|]. split; [done|].
  intros Hd. apply (nonempty_content b' Hwf'). rewrite Hc. by intros [_ ?]%app_eq_nil.
Qed.
Next Obligation.
  intros b data len ret data' b' Hwf Ht. change (take b data len = Ok (Some (ret, data', b'))) in Ht.
  revert Ht. unfold take. destruct (can_read_len b _); [|done].
  intros ([[d r] b1] & Hr & [= -> -> ->])%bind_Ok.
  destruct (read_inv clk b data (to_int32 len) _ _ _ Hwf Hr) as (Hlen & -> & Hd & -> & Hwf' & Hc).
  split; [done|]. pose proof (length_content b Hwf) as L.
  exists (list.take (Z.to_nat (to_int32 len)) (content b)). rewrite length_take.
  split; [by rewrite Hc, take_drop|]. split; [lia|]. split; [done|lia].
Qed.
Next Obligation.
  intros b Hwf He. change (empty b = true) in He.
  pose proof (length_content b Hwf) as L. unfold empty, size in *. apply Z.eqb_eq in He. destruct (content b); cbn in *; [done|lia].
Qed.
#[local] Existing Instance cycle_laws.
Lemma cycle_waits : MsgBufferWaits cycle_buffer.
Proof.
  split. intros b data len data2 len2 ret data' b' Hwf. change (take b data len = Ok None -> take b data2 len2 = Ok (Some (ret, data', b')) ->
    empty b' = true \/ take b' data len = Ok None). unfold take.
  destruct (can_read_len b (to_int32 len)) eqn:Hl; [by intros ([[d r] b1] & _ & [=])%bind_Ok|]. intros _.
  destruct (can_read_len b (to_int32 len2)); [|done]. intros ([[d r] b1] & Hr & [= -> -> ->])%bind_Ok. right.
  destruct (read_inv clk b data2 (to_int32 len2) _ _ _ Hwf Hr) as (Hlen & _ & _ & _ & Hwf' & Hc).
  pose proof (length_content b Hwf) as L. pose proof (length_content b' Hwf') as L'. rewrite Hc, length_drop in L'.
  unfold can_read_len, size in *. replace (n_ b' - remain_space_ b' >=? to_int32 len) with false by lia. done.
Qed.
End msg_cycle.
End MsgCycle.

(** * Whole calls of recv *)
Section recv_calls.
Context {B : Type} `{MsgBufferLaws B}.
Implicit Types (c : ClientConnection B).

(** Bytes a list of writes adds under a message id. *)
Definition writes_for (k : string) (ws : list (string * bytes)) : bytes :=
  concat ((fun w => if decide (w.1 = k) then w.2 else []) <$> ws).

Definition writes_ok (ws : list (string * bytes)) : Prop :=
  Forall (fun w => Z.of_nat (length w.2) <= mb_limit) ws.

Lemma conn_writes_spec c ws c' :
  conn_wf c -> writes_ok ws -> conn_writes c ws = Ok c' ->
  conn_wf c' /\ forall k, content_of c' k = content_of c k ++ writes_for k ws.
Proof.
  revert c. induction ws as [|[m d] ws IH]; intros c Hwf Hok Hw.
  - injection Hw as <-. split; [done|]. intros k. by rewrite app_nil_r.
  - cbn in Hw. apply bind_Ok in Hw as ([r c1] & H1 & H2).
    inversion Hok as [|? ? Hd Hok']; subst.
    destruct (conn_write_spec c m d r c1 Hwf Hd H1) as (_ & Hwf1 & Hc1 & _).
    destruct (IH c1 Hwf1 Hok' H2) as [Hwf' Hc']. split; [done|].
    intros k. rewrite Hc', Hc1. unfold writes_for; cbn.
    repeat case_decide; simplify_eq; by rewrite <- ?app_assoc.
Qed.

(** What a finished call did: of the bytes that were waiting or arrived in its
    first [n] turns it took [out], put it at the start of the caller's block and
    returned its length. *)
Lemma recv_loop_spec beg turns c msgid data len ret data' c' :
  conn_wf c -> Forall (fun t => writes_ok (turn_writes t)) turns ->
  recv_loop beg c msgid data len turns = Ok (Some (ret, data'), c') ->
  exists n out, conn_wf c' /\ ret = Z.of_nat (length out) /\ data' = splice data 0 out /\
    (length out <= length data)%nat /\
    forall k, content_of c k ++ concat ((fun t => writes_for k (turn_writes t)) <$> list.take n turns)
              = (if decide (k = msgid) then out else []) ++ content_of c' k.
Proof.
  revert c. induction turns as [|t turns IH]; intros c Hwf Hok E; [done|].
  inversion Hok as [|? ? Ht Hok']; subst. cbn in E.
  apply bind_Ok in E as ([o c1] & Hi & E).
  pose proof (recv_iter_spec _ _ _ _ _ _ _ _ Hwf Hi) as Hs. destruct o as [r0 d0|w].
  - injection E as -> -> ->. destruct Hs as (Hwf' & out & Hc & -> & -> & Ho).
    exists 0%nat, out. split; [done|]. split; [done|]. split; [done|]. split; [done|].
    intros k. cbn. rewrite app_nil_r. apply Hc.
  - subst c1. apply bind_Ok in E as (c2 & Hw & E).
    destruct (conn_writes_spec c _ c2 Hwf Ht Hw) as [Hwf2 Hc2].
    destruct (turn_wake t).
    + injection E as <- <- <-. exists 1%nat, []. split; [done|]. split; [done|].
      split; [by rewrite splice_nil by lia|]. split; [cbn; lia|].
      intros k. cbn. rewrite app_nil_r, <- Hc2. by case_decide.
    + destruct (IH c2 Hwf2 Hok' E) as (n & out & ? & ? & ? & ? & Hc). exists (S n), out.
      split; [done|]. split; [done|]. split; [done|]. split; [done|].
      intros k. cbn. by rewrite <- Hc, Hc2, <- app_assoc.
Qed.
End recv_calls.

(** A turn of the default build that finds messages. *)
Lemma queue_iter_front beg now c msgid data len d q :
  mapbuffer_ c !! msgid = Some (d :: q) ->
  recv_iter (B:=MsgQueue.queue) beg now c msgid data len =
    data' ← memcpy data 0 d 0 (Z.of_nat (length d));
    Ok (RecvReturn (Z.of_nat (length d)) data', with_mapbuffer (<[msgid := q]> (mapbuffer_ c)) c).
Proof.
  intros Hq. unfold recv_iter. rewrite Hq. cbn -[memcpy]. by destruct (memcpy _ _ _ _ _).
Qed.

Lemma memcpy_whole (data d : bytes) :
  (length d <= length data)%nat -> memcpy data 0 d 0 (Z.of_nat (length d)) = Ok (splice data 0 d).
Proof. intros. rewrite memcpy_ok by lia. by rewrite Nat2Z.id, drop_0, firstn_all. Qed.

(** * Properties *)

(** C15: in every interleaving of writers and receivers on a new connection, and for
    every message id, the bytes written are exactly the bytes delivered followed
    by the bytes still waiting: nothing is lost, invented, reordered or moved to
    another message id, whatever times out. *)
Theorem connection_conserves_streams B `{MsgBufferLaws B} t0 nodeid sz tr s :
  mb_size_ok sz ->
  sys_steps (mkSys (SetBufferSize sz (make_ClientConnection t0 nodeid)) ∅) tr s ->
  forall msgid, sent msgid tr = delivered msgid tr ++ content_of (s_conn s) msgid.
Proof.
  intros Hsz Hs. refine (proj2 (sys_steps_conserve _ _ _ _ Hs)). split; [done|].
  apply map_Forall_empty.
Qed.

(** Two messages; the receive waits, is woken by the write and returns the first. *)
Lemma connection_conserves_streams_witness :
  exists s, sys_steps (mkSys (SetBufferSize (B:=MsgQueue.queue) 8192 (make_ClientConnection 0 "p1")) ∅)
    [AInternal 7; AInternal 7; AWrite "m" [x01]; AWrite "m" [x02; x03]; AInternal 7;
     AReturn 7 "m" 1 [x01; x00]] s /\
    sent "m" [AInternal 7; AInternal 7; AWrite "m" [x01]; AWrite "m" [x02; x03]; AInternal 7;
     AReturn 7 "m" 1 [x01; x00]] = [x01] ++ content_of (s_conn s) "m".
Proof.
  eexists. match goal with |- ?P /\ _ => assert P as Hs end.
  { eapply (steps_snoc _ [_; _; _; _; _]).
    1: eapply (steps_snoc _ [_; _; _; _]).
    1: eapply (steps_snoc _ [_; _; _]).
    1: eapply (steps_snoc _ [_; _]).
    1: eapply (steps_snoc _ [_]).
    1: eapply (steps_snoc _ []).
    1: apply steps_refl.
    - by eapply (step_call _ _ 7 "m" [x00; x00] 2 0).
    - by eapply step_wait with (now := 0).
    - by eapply step_write; vm_compute.
    - by eapply step_write; vm_compute.
    - by eapply step_wake.
    - by eapply step_return with (now := 1). }
  split; [exact Hs|].
  exact (connection_conserves_streams MsgQueue.queue 0 "p1" 8192 _ _ I Hs "m").
Defined.

(** A recv call that returns, along any turns of waiting, wake-ups and writes by
    other threads, has taken a prefix of the bytes of its message id, copied
    exactly those to the start of the caller's block and returned their number;
    a timeout takes nothing, and all other bytes are still waiting in order. *)
Lemma recv_accounts B `{MsgBufferLaws B} beg turns (c : ClientConnection B) msgid data len timeout ret data' c' :
  conn_wf c -> Forall (fun t => writes_ok (turn_writes t)) turns ->
  recv beg c msgid data len timeout turns = Ok (Some (ret, data'), c') ->
  exists n out, ret = Z.of_nat (length out) /\ data' = splice data 0 out /\
    (length out <= length data)%nat /\ conn_wf c' /\
    forall k, content_of c k ++ concat ((fun t => writes_for k (turn_writes t)) <$> take n turns)
              = (if decide (k = msgid) then out else []) ++ content_of c' k.
Proof.
  intros Hwf Hok E.
  destruct (recv_loop_spec beg turns c msgid data len ret data' c' Hwf Hok E) as (n & out & ?).
  by exists n, out; destruct_and?.
Qed.

Definition idle_connection : ClientConnection MsgQueue.queue :=
  mkConn 5000 "p1" {["m" := [[x01]]]} 8192 0.

(** In the default build, a receive on a message id with waiting messages returns
    the oldest one whole and removes it, whatever length was asked for. *)
Lemma queue_recv_returns_front beg c msgid data len timeout t turns d q :
  mapbuffer_ c !! msgid = Some (d :: q) -> (length d <= length data)%nat ->
  recv (B:=MsgQueue.queue) beg c msgid data len timeout (t :: turns)
  = Ok (Some (Z.of_nat (length d), splice data 0 d),
        with_mapbuffer (<[msgid := q]> (mapbuffer_ c)) c).
Proof.
  intros Hq Hl. unfold recv. cbn [recv_loop]. by rewrite (queue_iter_front _ _ _ _ _ _ _ _ Hq), memcpy_whole.
Qed.

(** C37: in the default build, a waiting message longer than the caller's block is
    copied past the end of the block: the length argument does not bound the copy. *)
Theorem queue_recv_overruns_block beg c msgid data len timeout t turns d q :
  mapbuffer_ c !! msgid = Some (d :: q) -> (length data < length d)%nat ->
  recv (B:=MsgQueue.queue) beg c msgid data len timeout (t :: turns)
  = Err (UndefinedBehaviour "memcpy out of bounds").
Proof.
  intros Hq Hl. unfold recv. cbn [recv_loop]. rewrite (queue_iter_front _ _ _ _ _ _ _ _ Hq).
  unfold memcpy. replace (0 + Z.of_nat (length d) <=? Z.of_nat (length data)) with false by lia.
  by rewrite andb_false_r.
Qed.

Lemma queue_recv_overruns_block_witness :
  recv (B:=MsgQueue.queue) 0 (mkConn 5000 "p1" {["m" := [[x01; x02]]]} 8192 0) "m" [x00] 1 (-1)
    [mkTurn 0 [] Timeout]
  = Err (UndefinedBehaviour "memcpy out of bounds").
Proof. eapply queue_recv_overruns_block; [done|cbn; lia]. Defined.

(** Messages waiting under a message id in the default build, and those that a
    list of writes adds. *)
Definition pending (c : ClientConnection MsgQueue.queue) (k : string) : list bytes :=
  default [] (mapbuffer_ c !! k).
Definition msgs_for (k : string) (ws : list (string * bytes)) : list bytes :=
  omap (fun w => if decide (w.1 = k) then Some w.2 else None) ws.

Lemma queue_write_pending c m d :
  exists c', conn_write (B:=MsgQueue.queue) c m d = Ok (true, c') /\
    forall k, pending c' k = pending c k ++ msgs_for k [(m, d)].
Proof.
  assert (exists c', conn_write (B:=MsgQueue.queue) c m d = Ok (true, c') /\
    mapbuffer_ c' = <[m := pending c m ++ [d]]> (mapbuffer_ c)) as (c' & E & Em).
  { unfold conn_write, pending. destruct (mapbuffer_ c !! m) as [q|] eqn:E; cbn.
    - rewrite E. by eexists.
    - rewrite lookup_insert_eq. eexists. split; [done|]. cbn. apply insert_insert_eq. }
  exists c'. split; [done|]. intros k. unfold pending at 1. rewrite Em. unfold msgs_for; cbn.
  case_decide; subst; [by rewrite lookup_insert_eq|].
  by rewrite lookup_insert_ne, app_nil_r.
Qed.

Lemma queue_writes_pending ws c :
  exists c', conn_writes (B:=MsgQueue.queue) c ws = Ok c' /\
    forall k, pending c' k = pending c k ++ msgs_for k ws.
Proof.
  revert c. induction ws as [|[m d] ws IH]; intros c.
  - exists c. split; [done|]. intros k. by rewrite app_nil_r.
  - destruct (queue_write_pending c m d) as (c1 & E1 & H1). destruct (IH c1) as (c2 & E2 & H2).
    exists c2. cbn. rewrite E1. cbn. split; [done|]. intros k. rewrite H2, H1, <- app_assoc.
    f_equal. unfold msgs_for; cbn. by case_decide.
Qed.

(** A receiver that is not timed out before a message for it has arrived returns the
    first one, at the latest in the turn after. *)
Lemma queue_recv_in_time beg c msgid data len timeout turns n t d ds :
  Forall (fun t => turn_wake t = NoTimeout) (take n turns) -> turns !! n = Some t ->
  pending c msgid ++ msgs_for msgid (concat (turn_writes <$> take n turns)) = d :: ds ->
  (length d <= length data)%nat ->
  exists c', recv (B:=MsgQueue.queue) beg c msgid data len timeout turns
    = Ok (Some (Z.of_nat (length d), splice data 0 d), c').
Proof.
  intros Hw Ht Hm Hl. unfold recv. revert c turns Hw Ht Hm.
  induction n as [|n IH]; intros c [|t0 turns] Hw Ht Hm; try done; cbn [recv_loop];
    (destruct (pending c msgid) as [|d0 q] eqn:Hp;
     [|injection Hm as -> _; unfold pending in Hp; destruct (mapbuffer_ c !! msgid) as [b|] eqn:E; [|done]; cbn in Hp; subst b;
       rewrite (queue_iter_front _ _ _ _ _ _ _ _ E), memcpy_whole by done; by eexists]).
  - done.
  - assert (exists w, recv_iter (B:=MsgQueue.queue) beg (turn_now t0) c msgid data len = Ok (RecvWait w, c)) as [w ->].
    { unfold recv_iter, pending in *. destruct (mapbuffer_ c !! msgid) as [b|]; [|by eexists].
      cbn in Hp. subst b. by eexists. }
    cbn in Hw. apply Forall_cons in Hw as [Hw0 Hw].
    cbn [mbind result_bind]. destruct (queue_writes_pending (turn_writes t0) c) as (c2 & -> & H2).
    cbn [mbind result_bind]. rewrite Hw0. apply IH; [done|done|].
    rewrite H2, Hp. cbn [app] in Hm |- *. rewrite <- Hm. cbn [take fmap list_fmap concat].
    unfold msgs_for. by rewrite omap_app.
Qed.

(** C30: No wake-up is lost.  In every interleaving of writers and receivers on a new
    connection, spurious wake-ups and timeouts included, a receiver that waits has been
    notified since it began to wait, unless its next turn would go on waiting: so
    when there is something for it, the write that brought it has woken it.  This
    holds for both builds. *)
Theorem no_receiver_sleeps_on B `{MsgBufferWaits B} t0 nodeid sz tr s w tid msgid data len beg :
  mb_size_ok sz ->
  cv_steps (mkSys (SetBufferSize sz (make_ClientConnection t0 nodeid)) ∅) tr s w ->
  s_threads s !! tid = Some (TWaiting msgid data len beg) ->
  exists n, w !! tid = Some n /\ (n <= cv_ (s_conn s))%nat /\
    (n = cv_ (s_conn s) -> forall now,
      recv_iter beg now (s_conn s) msgid data len = Ok (RecvWait (recv_remain beg now (s_conn s)), s_conn s)).
Proof.
  intros Hsz Hs Ht. apply notified_steps in Hs; [|split; [done|apply map_Forall_empty]|done].
  destruct (Hs tid msgid data len beg Ht) as (n & En & Hle & Hn). exists n. split_and!; [done..|].
  intros E now. by apply nothing_waits, Hn.
Qed.

(** A receiver waits, and a message comes. *)
Lemma no_receiver_sleeps_on_witness :
  exists s w n, cv_steps (mkSys (SetBufferSize (B:=MsgQueue.queue) 8192 (make_ClientConnection 0 "p1")) ∅)
      [AInternal 7; AInternal 7; AWrite "m" [x01]] s w /\ w !! 7%nat = Some n /\ (n < cv_ (s_conn s))%nat.
Proof.
  eexists _, _. match goal with |- exists n, ?P /\ _ => assert P as Hs end.
  { eapply (cv_snoc _ [_; _]).
    1: eapply (cv_snoc _ [_]).
    1: eapply (cv_snoc _ []).
    1: apply cv_refl.
    - by eapply (step_call _ _ 7 "m" [x00; x00] 2 0).
    - by eapply step_wait with (now := 0).
    - by eapply step_write; vm_compute. }
  destruct (@no_receiver_sleeps_on MsgQueue.queue _ _ MsgQueue.queue_waits 0 "p1" 8192 _ _ _ 7 "m" [x00; x00] 2 0 I Hs) as (n & En & Hle & Hn); [done|].
  exists n. split; [exact Hs|]. split; [exact En|]. apply Nat.lt_eq_cases in Hle as [Hlt|E]; [exact Hlt|].
  specialize (Hn E 0). vm_compute in Hn. discriminate Hn.
Defined.
