(* ===== verification/WorkQueue.v ===== *)
(** WorkQueue (WorkQueue.h/.cc, ASYNC_SERVER builds): one worker thread per remote
    node moves the messages of incoming requests into that node's connection.

    [run] keeps the monitor locked except inside [_monitor.wait()], so between two
    waits it is one atomic action; [add] and [destroy] are atomic too.  A request
    is answered through its callback, identified by a number. *)
From S2P Require Import Prelude Timer CycleBuffer Connection.
From Stdlib Require Import Strings.Byte.

Record CallbackEntry := mkEntry { _cb : nat; _msgid : string; _data : bytes }.

(** [ice_response(ret)] and [ice_exception(SendDataException())] *)
Inductive reply := IceResponse (ret : Z) | IceSendDataException.

(** Where the worker thread is: before its first turn, in [_monitor.wait()], done. *)
Inductive phase := Entering | Waiting | Exited.
#[global] Instance phase_eq_dec : EqDecision phase.
Proof. solve_decision. Defined.

Section work_queue.
Context {B : Type} `{MsgBuffer B}.

(** [ptr_client_conn_] is shared with the receiving side; its state is kept here. *)
Record WorkQueue := mkWQ {
  _callbacks : list CallbackEntry;
  _done : bool;
  ptr_client_conn_ : ClientConnection B;
  wq_nodeid_ : string }.

Definition make_WorkQueue (nodeid : string) (conn : ClientConnection B) : WorkQueue :=
  mkWQ [] false conn nodeid.

(** [add]: the replies made, whether the monitor is notified, the new state. *)
Definition add (w : WorkQueue) (cb : nat) (msgid : string) (data : bytes)
  : list (nat * reply) * bool * WorkQueue :=
  if negb (_done w) then
    let notify := bool_decide (length (_callbacks w) = 0%nat) in
    ([(cb, IceResponse 0)], notify,
     mkWQ (_callbacks w ++ [mkEntry cb msgid data]) (_done w) (ptr_client_conn_ w) (wq_nodeid_ w))
  else ([(cb, IceSendDataException)], false, w).

(** [destroy]: always notifies. *)
Definition destroy (w : WorkQueue) : WorkQueue :=
  mkWQ [] true (ptr_client_conn_ w) (wq_nodeid_ w).

(** The turns of the loop of [run] that find work: write the front, pop it. *)
Fixpoint drain (cbs : list CallbackEntry) (c : ClientConnection B) : result (ClientConnection B) :=
  match cbs with
  | [] => Ok c
  | entry :: cbs' => '(_, c') ← conn_write c (_msgid entry) (_data entry); drain cbs' c'
  end.

(** [run] from its start, or from a wake-up, to the next wait or to its end. *)
Definition run_locked (w : WorkQueue) : result (phase * list (nat * reply) * WorkQueue) :=
  if _done w then
    Ok (Exited, (fun p => (_cb p, IceSendDataException)) <$> _callbacks w, w)
  else
    c' ← drain (_callbacks w) (ptr_client_conn_ w);
    Ok (Waiting, [], mkWQ [] (_done w) c' (wq_nodeid_ w)).
End work_queue.
Arguments WorkQueue B : clear implicits.

(** * The worker and its clients as a transition system *)
Section system.
Context {B : Type} `{MsgBufferLaws B}.

Record wsys := mkW {
  w_queue : WorkQueue B;
  w_phase : phase;
  w_signal : bool;                   (* a notification the waiter has not consumed *)
  w_replies : list (nat * reply) }.

Inductive waction :=
  | WAdd (cb : nat) (msgid : string) (data : bytes)
  | WDestroy
  | WRun
  | WRecv (msgid : string) (ret : Z) (data : bytes).
#[global] Instance waction_eq_dec : EqDecision waction.
Proof. solve_decision. Defined.

(** [wstep_run] may also fire without a notification (a spurious wake-up);
    [wstep_recv] is a receiver taking from the shared connection. *)
Inductive wstep : wsys -> waction -> wsys -> Prop :=
  | wstep_add q ph sg rs cb msgid data :
      Z.of_nat (length data) <= mb_limit ->
      wstep (mkW q ph sg rs) (WAdd cb msgid data)
        (let '(r, notify, q') := add q cb msgid data in
         mkW q' ph (sg || notify && bool_decide (ph = Waiting)) (rs ++ r))
  | wstep_destroy q ph sg rs :
      wstep (mkW q ph sg rs) WDestroy
        (mkW (destroy q) ph (sg || bool_decide (ph = Waiting)) rs)
  | wstep_run q ph sg rs ph' r q' :
      ph <> Exited ->
      run_locked q = Ok (ph', r, q') ->
      wstep (mkW q ph sg rs) WRun (mkW q' ph' false (rs ++ r))
  | wstep_recv q ph sg rs beg now msgid data len ret data' c' :
      recv_iter beg now (ptr_client_conn_ q) msgid data len = Ok (RecvReturn ret data', c') ->
      wstep (mkW q ph sg rs) (WRecv msgid ret data')
        (mkW (mkWQ (_callbacks q) (_done q) c' (wq_nodeid_ q)) ph sg rs).

Inductive wsteps (s0 : wsys) : list waction -> wsys -> Prop :=
  | wsteps_refl : wsteps s0 [] s0
  | wsteps_snoc tr s a s' : wsteps s0 tr s -> wstep s a s' -> wsteps s0 (tr ++ [a]) s'.

(** The state an AsyncServer starts a worker in. *)
Definition wsys_init (nodeid : string) (c : ClientConnection B) : wsys :=
  mkW (make_WorkQueue nodeid c) Entering false [].

(** ** What a trace asks for *)
Definition destroyed (tr : list waction) : bool := bool_decide (WDestroy ∈ tr).

(** Replies owed to the requests of a trace: success until [destroy], then the
    exception. *)
Fixpoint owed (dead : bool) (tr : list waction) : list (nat * reply) :=
  match tr with
  | [] => []
  | WAdd cb _ _ :: tr' => (cb, if dead then IceSendDataException else IceResponse 0) :: owed dead tr'
  | WDestroy :: tr' => owed true tr'
  | _ :: tr' => owed dead tr'
  end.

(** Bytes of the requests that were accepted, taken out, and still queued. *)
Fixpoint accepted (k : string) (tr : list waction) : bytes :=
  match tr with
  | [] => []
  | WAdd _ m d :: tr' => (if decide (m = k) then d else []) ++ accepted k tr'
  | WDestroy :: _ => []
  | _ :: tr' => accepted k tr'
  end.
Definition taken (k : string) (tr : list waction) : bytes :=
  concat ((fun a => match a with
                    | WRecv m ret d => if decide (m = k) then take (Z.to_nat ret) d else []
                    | _ => [] end) <$> tr).
Definition queued (k : string) (cbs : list CallbackEntry) : bytes :=
  concat ((fun e => if decide (_msgid e = k) then _data e else []) <$> cbs).

#[local] Arguments queued : simpl never.
#[local] Arguments taken : simpl never.

Lemma destroyed_snoc tr a : destroyed (tr ++ [a]) = destroyed tr || bool_decide (a = WDestroy).
Proof. unfold destroyed. do 3 case_bool_decide; try done; set_solver. Qed.

Lemma owed_snoc tr a dead :
  owed dead (tr ++ [a]) = owed dead tr ++ owed (dead || destroyed tr) [a].
Proof.
  revert dead. induction tr as [|b tr IH]; intros dead; [by rewrite orb_false_r|].
  assert (destroyed (b :: tr) = bool_decide (b = WDestroy) || destroyed tr) as Ed.
  { unfold destroyed. do 3 case_bool_decide; try done; set_solver. }
  destruct b; cbn [app owed]; rewrite IH, Ed; cbn; try done. by rewrite orb_true_r.
Qed.

Lemma accepted_snoc k tr a :
  accepted k (tr ++ [a]) = accepted k tr ++ (if destroyed tr then [] else accepted k [a]).
Proof.
  induction tr as [|b tr IH]; [done|].
  assert (destroyed (b :: tr) = bool_decide (b = WDestroy) || destroyed tr) as Ed.
  { unfold destroyed. do 3 case_bool_decide; try done; set_solver. }
  destruct b; cbn [app accepted]; rewrite Ed, ?IH; cbn [bool_decide]; try done.
  by rewrite <- app_assoc.
Qed.

Lemma taken_snoc k tr a : taken k (tr ++ [a]) = taken k tr ++ taken k [a].
Proof. unfold taken. by rewrite fmap_app, concat_app. Qed.
Lemma queued_snoc k cbs e :
  queued k (cbs ++ [e]) = queued k cbs ++ (if decide (_msgid e = k) then _data e else []).
Proof. unfold queued. rewrite fmap_app, concat_app. cbn. by rewrite app_nil_r. Qed.

Lemma drain_spec cbs c c' :
  conn_wf c -> Forall (fun e => Z.of_nat (length (_data e)) <= mb_limit) cbs ->
  drain cbs c = Ok c' ->
  conn_wf c' /\ forall k, content_of c' k = content_of c k ++ queued k cbs.
Proof.
  revert c. induction cbs as [|e cbs IH]; intros c Hwf Hl Hd.
  - injection Hd as <-. split; [done|]. intros k. by rewrite app_nil_r.
  - cbn in Hd. apply bind_Ok in Hd as ([r c1] & Hw & Hd). inversion Hl; subst.
    destruct (conn_write_spec c _ _ r c1 Hwf ltac:(eassumption) Hw) as (_ & Hwf1 & Hc1 & _).
    destruct (IH c1 Hwf1 ltac:(done) Hd) as [Hwf' Hc']. split; [done|].
    intros k. rewrite Hc', Hc1. unfold queued; cbn.
    repeat case_decide; simplify_eq; by rewrite <- ?app_assoc.
Qed.

(** ** Invariant *)
Record winv (c0 : ClientConnection B) (tr : list waction) (s : wsys) : Prop := {
  winv_conn : conn_wf (ptr_client_conn_ (w_queue s));
  winv_len : Forall (fun e => Z.of_nat (length (_data e)) <= mb_limit) (_callbacks (w_queue s));
  winv_done : _done (w_queue s) = destroyed tr;
  winv_cleared : _done (w_queue s) = true -> _callbacks (w_queue s) = [];
  winv_signal : w_phase s = Waiting ->
    (_callbacks (w_queue s) <> [] \/ _done (w_queue s) = true) -> w_signal s = true;
  winv_replies : w_replies s = owed false tr;
  winv_bytes : forall k, exists dropped,
    content_of c0 k ++ accepted k tr =
      taken k tr ++ content_of (ptr_client_conn_ (w_queue s)) k
        ++ queued k (_callbacks (w_queue s)) ++ dropped /\
    (destroyed tr = false -> dropped = []) }.

Lemma owed_one dead a :
  owed dead [a] = match a with
                  | WAdd cb _ _ => [(cb, if dead then IceSendDataException else IceResponse 0)]
                  | _ => [] end.
Proof. by destruct a. Qed.

Ltac trace_snoc :=
  rewrite ?destroyed_snoc, ?owed_snoc, ?owed_one in *;
  repeat match goal with |- context [bool_decide (?a = WDestroy)] =>
    first [rewrite (bool_decide_false (a = WDestroy)) by done
          |rewrite (bool_decide_true (a = WDestroy)) by done] end;
  rewrite ?orb_false_r, ?orb_true_r, ?app_nil_r.

Lemma winv_add c0 tr q ph sg rs cb msgid data :
  Z.of_nat (length data) <= mb_limit -> winv c0 tr (mkW q ph sg rs) ->
  winv c0 (tr ++ [WAdd cb msgid data])
    (let '(r, notify, q') := add q cb msgid data in
     mkW q' ph (sg || notify && bool_decide (ph = Waiting)) (rs ++ r)).
Proof.
  intros Hl [Hc Hlen Hd Hcl Hsg Hr Hb]; cbn in *. unfold add.
  destruct (_done q) eqn:Eq; symmetry in Hd; cbn.
  - split; cbn; trace_snoc; rewrite ?Hd; try done.
    + intros _. by apply Hcl.
    + intros Hp _. by apply Hsg; [|right].
    + by rewrite Hr.
    + intros k. rewrite accepted_snoc, taken_snoc, Hd, app_nil_r. unfold taken at 2; cbn.
      rewrite app_nil_r. destruct (Hb k) as (dr & ? & ?). by exists dr.
  - split; cbn; trace_snoc; rewrite ?Hd; try done.
    + apply Forall_app; split; [done|]. by constructor.
    + intros Hp _. case_bool_decide as E; cbn.
      * by rewrite bool_decide_true, orb_true_r.
      * rewrite (Hsg Hp); [done|]. left. by destruct (_callbacks q).
    + by rewrite Hr.
    + intros k. destruct (Hb k) as (dr & He & Hdr). rewrite (Hdr Hd) in He.
      exists []. split; [|done].
      rewrite accepted_snoc, taken_snoc, Hd, queued_snoc, app_assoc, He. cbn.
      unfold taken at 2; cbn. by rewrite !app_nil_r, <- !app_assoc.
Qed.

Lemma winv_destroy c0 tr q ph sg rs :
  winv c0 tr (mkW q ph sg rs) ->
  winv c0 (tr ++ [WDestroy]) (mkW (destroy q) ph (sg || bool_decide (ph = Waiting)) rs).
Proof.
  intros [Hc Hlen Hd Hcl Hsg Hr Hb]; cbn in *. split; cbn; trace_snoc; try done.
  - intros Hp _. by rewrite bool_decide_true, orb_true_r.
  - intros k. destruct (Hb k) as (dr & He & _). exists (queued k (_callbacks q) ++ dr).
    split; [|done]. rewrite accepted_snoc, taken_snoc. cbn.
    unfold taken at 2; cbn. destruct (destroyed tr); by rewrite !app_nil_r, He.
Qed.

Lemma winv_run c0 tr q ph sg rs ph' r q' :
  run_locked q = Ok (ph', r, q') -> winv c0 tr (mkW q ph sg rs) ->
  winv c0 (tr ++ [WRun]) (mkW q' ph' false (rs ++ r)).
Proof.
  intros Hrun [Hc Hlen Hd Hcl Hsg Hr Hb]; cbn in *. unfold run_locked in Hrun.
  assert (forall k, accepted k (tr ++ [WRun]) = accepted k tr /\ taken k (tr ++ [WRun]) = taken k tr) as Hat.
  { intros k. rewrite accepted_snoc, taken_snoc. cbn. unfold taken at 2; cbn.
    by destruct (destroyed tr); rewrite !app_nil_r. }
  destruct (_done q) eqn:Ed.
  - injection Hrun as <- <- <-. split; cbn; trace_snoc; rewrite ?Ed; try done.
    + rewrite Hcl by done. cbn. by rewrite app_nil_r.
    + intros k. destruct (Hat k) as [-> ->]. apply Hb.
  - apply bind_Ok in Hrun as (c' & Hdr & [= <- <- <-]).
    destruct (drain_spec _ _ _ Hc Hlen Hdr) as [Hc' Hk].
    split; cbn; trace_snoc; rewrite ?Ed; try done.
    + intros _ [?|?]; done.
    + intros k. destruct (Hat k) as [-> ->]. destruct (Hb k) as (dr & He & Hn).
      exists dr. split; [|done]. rewrite He, Hk. unfold queued at 2; cbn. by rewrite <- !app_assoc.
Qed.

Lemma winv_recv c0 tr q ph sg rs beg now msgid data len ret data' c' :
  recv_iter beg now (ptr_client_conn_ q) msgid data len = Ok (RecvReturn ret data', c') ->
  winv c0 tr (mkW q ph sg rs) ->
  winv c0 (tr ++ [WRecv msgid ret data'])
    (mkW (mkWQ (_callbacks q) (_done q) c' (wq_nodeid_ q)) ph sg rs).
Proof.
  intros Hi [Hc Hlen Hd Hcl Hsg Hr Hb]; cbn in *.
  destruct (recv_iter_spec _ _ _ _ _ _ _ _ Hc Hi) as (Hwf' & out & Hk & -> & -> & Ho).
  split; cbn; trace_snoc; try done.
  intros k. destruct (Hb k) as (dr & He & Hn). exists dr. split; [|done].
  rewrite accepted_snoc, taken_snoc. cbn. unfold taken at 2; cbn.
  rewrite Nat2Z.id, take_splice_0 by done. destruct (destroyed tr); rewrite !app_nil_r, He, (Hk k);
    repeat case_decide; simplify_eq; by rewrite <- ?app_assoc.
Qed.

Lemma winv_steps nodeid c0 tr s :
  conn_wf c0 -> wsteps (wsys_init nodeid c0) tr s -> winv c0 tr s.
Proof.
  intros Hwf Hs. induction Hs as [|tr s a s' Hs IH Hst].
  - split; cbn; try done. intros k. exists []. split; [|done]. by rewrite !app_nil_r.
  - destruct Hst; eauto using winv_add, winv_destroy, winv_run, winv_recv.
Qed.
End system.

(** * Properties *)

(** C17: as long as a work queue has not been destroyed, and in every interleaving of
    requests, worker turns (with spurious wake-ups) and receivers, the bytes of
    the accepted requests of each message id are, in order, those already
    received, those in the connection and those still queued. *)
Theorem wq_delivers_in_order B `{MsgBufferLaws B} nodeid c0 tr s k :
  conn_wf c0 -> wsteps (wsys_init nodeid c0) tr s -> destroyed tr = false ->
  content_of c0 k ++ accepted k tr =
    taken k tr ++ content_of (ptr_client_conn_ (w_queue s)) k ++ queued k (_callbacks (w_queue s)).
Proof.
  intros Hwf Hs Hd. destruct (winv_bytes _ _ _ (winv_steps _ _ _ _ Hwf Hs) k) as (dr & E & Hn).
  by rewrite (Hn Hd), app_nil_r in E.
Qed.

(** C28: every request gets exactly one reply, in request order, over the whole life of
    the queue: success if it came before destroy(), the exception after it.  In
    particular the loop at the end of run() that would fail outstanding requests
    never replies to any. *)
Theorem wq_one_reply_each B `{MsgBufferLaws B} nodeid c0 tr s :
  conn_wf c0 -> wsteps (wsys_init nodeid c0) tr s -> w_replies s = owed false tr.
Proof. intros Hwf Hs. apply (winv_replies _ _ _ (winv_steps _ _ _ _ Hwf Hs)). Qed.

(** C29: no wake-up is lost: whenever the worker waits while there is work or the queue
    is destroyed, a notification is pending; so the worker never sleeps on a
    non-empty queue although add() only notifies on the empty one. *)
Theorem wq_no_lost_wakeup B `{MsgBufferLaws B} nodeid c0 tr s :
  conn_wf c0 -> wsteps (wsys_init nodeid c0) tr s -> w_phase s = Waiting ->
  _callbacks (w_queue s) <> [] \/ _done (w_queue s) = true -> w_signal s = true.
Proof. intros Hwf Hs. apply (winv_signal _ _ _ (winv_steps _ _ _ _ Hwf Hs)). Qed.

Definition wq_conn : ClientConnection MsgQueue.queue := mkConn 5000 "p1" ∅ 8192 0.

Lemma wq_conn_wf : conn_wf wq_conn.
Proof. split; [done|]. apply map_Forall_empty. Qed.

(** The worker starts, waits, two requests arrive, and it has not run yet. *)
Definition wq_trace : list waction := [WRun; WAdd 1 "m" [x01]; WAdd 2 "m" [x02]].
Definition wq_state : wsys :=
  mkW (mkWQ [mkEntry 1 "m" [x01]; mkEntry 2 "m" [x02]] false wq_conn "p1") Waiting true
    [(1%nat, IceResponse 0); (2%nat, IceResponse 0)].

Lemma wq_trace_steps : wsteps (wsys_init "p1" wq_conn) wq_trace wq_state.
Proof.
  change wq_trace with ([WRun; WAdd 1 "m" [x01]] ++ [WAdd 2 "m" [x02]]).
  eapply (wsteps_snoc _ _ _ _ wq_state).
  2: { eapply (wstep_add (mkWQ [mkEntry 1 "m" [x01]] false wq_conn "p1") Waiting true
         [(1%nat, IceResponse 0)] 2 "m" [x02]). by vm_compute. }
  change [WRun; WAdd 1 "m" [x01]] with ([WRun] ++ [WAdd 1 "m" [x01]]).
  eapply wsteps_snoc.
  2: { eapply (wstep_add (mkWQ [] false wq_conn "p1") Waiting false [] 1 "m" [x01]). by vm_compute. }
  change [WRun] with ([] ++ [WRun]). eapply wsteps_snoc; [apply wsteps_refl|].
  by eapply (wstep_run _ _ _ [] Waiting []).
Defined.

Lemma wq_delivers_in_order_witness :
  content_of wq_conn "m" ++ accepted "m" wq_trace =
    taken "m" wq_trace ++ content_of (ptr_client_conn_ (w_queue wq_state)) "m"
      ++ queued "m" (_callbacks (w_queue wq_state)).
Proof.
  apply (wq_delivers_in_order MsgQueue.queue "p1" wq_conn wq_trace wq_state "m").
  - apply wq_conn_wf.
  - apply wq_trace_steps.
  - done.
Defined.

Lemma wq_one_reply_each_witness : w_replies wq_state = owed false wq_trace.
Proof. exact (wq_one_reply_each MsgQueue.queue "p1" wq_conn wq_trace wq_state wq_conn_wf wq_trace_steps). Defined.

Lemma wq_no_lost_wakeup_witness : w_signal wq_state = true.
Proof.
  apply (wq_no_lost_wakeup MsgQueue.queue "p1" wq_conn wq_trace wq_state wq_conn_wf wq_trace_steps).
  - done.
  - by left.
Defined.

(** C36: destroy() drops requests that were already acknowledged: from every reachable
    state with queued requests, destroying the queue leaves their success replies
    in place and their bytes in neither the queue nor the connection. *)
Theorem wq_destroy_drops_acknowledged B `{MsgBufferLaws B} nodeid c0 tr s :
  conn_wf c0 -> wsteps (wsys_init nodeid c0) tr s -> destroyed tr = false ->
  let q' := destroy (w_queue s) in
  (forall e, e ∈ _callbacks (w_queue s) -> (_cb e, IceResponse 0) ∈ w_replies s) /\
  _callbacks q' = [] /\ ptr_client_conn_ q' = ptr_client_conn_ (w_queue s).
Proof.
  intros Hwf Hs Hd q'. split; [|done]. clear q'. revert Hd.
  induction Hs as [|tr s a s' Hs IH Hst]; [intros _ e He; cbn in He; set_solver|].
  rewrite destroyed_snoc. intros [Hd Ha]%orb_false_iff. specialize (IH Hd).
  pose proof (winv_done _ _ _ (winv_steps _ _ _ _ Hwf Hs)) as Hdone. rewrite Hd in Hdone.
  destruct Hst as [q ph sg rs cb msgid data Hl|q ph sg rs|q ph sg rs ph' r q' Hne Hr|]; cbn in *; [|done| |done].
  - unfold add. rewrite Hdone. cbn. intros e [He| ->%list_elem_of_singleton]%elem_of_app; set_solver.
  - unfold run_locked in Hr. rewrite Hdone in Hr. apply bind_Ok in Hr as (c' & _ & [= <- <- <-]).
    cbn. intros e He. set_solver.
Qed.

Lemma wq_destroy_drops_acknowledged_witness :
  (forall e, e ∈ _callbacks (w_queue wq_state) -> (_cb e, IceResponse 0) ∈ w_replies wq_state) /\
  _callbacks (destroy (w_queue wq_state)) = [] /\
  ptr_client_conn_ (destroy (w_queue wq_state)) = wq_conn.
Proof.
  exact (wq_destroy_drops_acknowledged MsgQueue.queue "p1" wq_conn wq_trace wq_state
           wq_conn_wf wq_trace_steps eq_refl).
Defined.
