(* ===== verification/Json.v ===== *)
(** JSON values as the configuration code sees them, and its accessors
    [GetString], [GetInt], [GetFloat], [GetBool] (config.cc).

    The rapidjson operations used have preconditions ([IsObject], [IsString],
    ...) which the library asserts: a violation is [AssertFailure] here. *)
From S2P Require Import Prelude Timer.

Inductive json :=
  | JNull
  | JBool (b : bool)
  | JInt (z : Z)          (* a number without fraction, 64 bits *)
  | JDouble (d : double)
  | JString (s : string)
  | JArray (l : list json)
  | JObject (ms : list (string * json)).

Definition IsArray (v : json) : bool := match v with JArray _ => true | _ => false end.
Definition IsObject (v : json) : bool := match v with JObject _ => true | _ => false end.
Definition IsString (v : json) : bool := match v with JString _ => true | _ => false end.

(** [FindMember]: the first member of that name. *)
Fixpoint find_member (ms : list (string * json)) (key : string) : option json :=
  match ms with
  | [] => None
  | (k, v) :: ms' => if decide (k = key) then Some v else find_member ms' key
  end.

Definition HasMember (v : json) (key : string) : result bool :=
  match v with
  | JObject ms => Ok (match find_member ms key with Some _ => true | None => false end)
  | _ => Err (AssertFailure "IsObject()")
  end.

(** [v[key]] *)
Definition json_member (v : json) (key : string) : result json :=
  match v with
  | JObject ms => match find_member ms key with
                  | Some x => Ok x
                  | None => Err (AssertFailure "member exists")
                  end
  | _ => Err (AssertFailure "IsObject()")
  end.

(** [MemberBegin()..MemberEnd()] and [Size()]/[operator[]] *)
Definition json_members (v : json) : result (list (string * json)) :=
  match v with JObject ms => Ok ms | _ => Err (AssertFailure "IsObject()") end.
Definition json_elements (v : json) : result (list json) :=
  match v with JArray l => Ok l | _ => Err (AssertFailure "IsArray()") end.

(** The value getters; a [const char*] becomes a [std::string] up to its NUL. *)
Definition as_string (v : json) : result string :=
  match v with JString s => Ok (c_str s) | _ => Err (AssertFailure "IsString()") end.
Definition as_int (v : json) : result Z :=
  match v with
  | JInt z => if (INT32_MIN <=? z) && (z <=? INT32_MAX) then Ok z else Err (AssertFailure "IsInt()")
  | _ => Err (AssertFailure "IsInt()")
  end.
Definition as_float (v : json) : result float :=
  match v with
  | JInt z => Ok (float_of_double (double_of_Z z))
  | JDouble d => Ok (float_of_double d)
  | _ => Err (AssertFailure "IsNumber()")
  end.
Definition as_bool (v : json) : result bool :=
  match v with JBool b => Ok b | _ => Err (AssertFailure "IsBool()") end.

(** * The accessors of config.cc *)
Definition if_key_not_exist_then_exit (must_exist : bool) (key : string) : result unit :=
  if must_exist then Err (StringException ("key[" +:+ key +:+ "] not exist!")) else Ok tt.

Definition GetString (v : json) (key default_value : string) (must_exist : bool) : result string :=
  has ← HasMember v key;
  if has : bool then x ← json_member v key; as_string x
  else _ ← if_key_not_exist_then_exit must_exist key; Ok (c_str default_value).

Definition GetInt (v : json) (key : string) (default_value : Z) (must_exist : bool) : result Z :=
  has ← HasMember v key;
  if has : bool then x ← json_member v key; as_int x
  else _ ← if_key_not_exist_then_exit must_exist key; Ok default_value.

Definition GetFloat (v : json) (key : string) (default_value : float) (must_exist : bool) : result float :=
  has ← HasMember v key;
  if has : bool then x ← json_member v key; as_float x
  else _ ← if_key_not_exist_then_exit must_exist key; Ok default_value.

Definition GetBool (v : json) (key : string) (default_value : bool) (must_exist : bool) : result bool :=
  has ← HasMember v key;
  if has : bool then x ← json_member v key; as_bool x
  else _ ← if_key_not_exist_then_exit must_exist key; Ok default_value.

(** All four have one shape. *)
Lemma get_shape {A} (conv : json -> result A) (dflt : A) v key must :
  (has ← HasMember v key;
   if has : bool then x ← json_member v key; conv x
   else _ ← if_key_not_exist_then_exit must key; Ok dflt) =
  match v with
  | JObject ms => match find_member ms key with
                  | Some x => conv x
                  | None => if must then Err (StringException ("key[" +:+ key +:+ "] not exist!"))
                            else Ok dflt
                  end
  | _ => Err (AssertFailure "IsObject()")
  end.
Proof. destruct v; try done. cbn. destruct (find_member ms key); [done|]. by destruct must. Qed.

Lemma GetString_spec v key dflt must :
  GetString v key dflt must =
  match v with
  | JObject ms => match find_member ms key with
                  | Some x => as_string x
                  | None => if must then Err (StringException ("key[" +:+ key +:+ "] not exist!"))
                            else Ok (c_str dflt)
                  end
  | _ => Err (AssertFailure "IsObject()")
  end.
Proof. apply (get_shape as_string (c_str dflt)). Qed.

Lemma GetInt_spec v key dflt must :
  GetInt v key dflt must =
  match v with
  | JObject ms => match find_member ms key with
                  | Some x => as_int x
                  | None => if must then Err (StringException ("key[" +:+ key +:+ "] not exist!"))
                            else Ok dflt
                  end
  | _ => Err (AssertFailure "IsObject()")
  end.
Proof. apply (get_shape as_int dflt). Qed.

(** A value obtained through a [const char*] has no NUL. *)
Lemma as_string_no_nul v s : as_string v = Ok s -> no_nul s = true.
Proof. destruct v; try done. intros [= <-]. apply c_str_no_nul. Qed.
