(* ===== verification/ConfigData.v ===== *)
(** ChannelConfig (config.h, config.cc): the nodes of a task, how to reach them and
    who connects to whom.

    The maps are the [std::map]s of the class (StdMap.v); a method that changes
    the object, also through [operator[]], runs in the state monad over
    [ChannelConfig].  SSL_TYPE is the build macro: the fields and assignments
    under [#if (2 == SSL_TYPE)] are used only when it is 2.  The file system and
    the JSON parser are parameters. *)
From S2P Require Import Prelude StdMap Timer Events Json.
From stdpp Require Import pretty.

(** * Data *)
Record Node := mkNode {
  DESC : string;
  NODE_ID : string;
  NAME : string;
  ADDRESS : string;
  PUBLIC_IP : string;
  VIA : string;
  GRICER2 : string;
  ICEGRID : string;
  CERT_DIR : string;
  CA_CERT_PATH : string;
  SERVER_KEY_PATH : string;
  SERVER_CERT_PATH : string;
  CLIENT_KEY_PATH : string;
  CLIENT_CERT_PATH : string;
  PASSWORD : string;
  SERVER_SIGN_KEY_PATH : string;
  SERVER_SIGN_CERT_PATH : string;
  SERVER_ENC_KEY_PATH : string;
  SERVER_ENC_CERT_PATH : string;
  CLIENT_SIGN_KEY_PATH : string;
  CLIENT_SIGN_CERT_PATH : string;
  CLIENT_ENC_KEY_PATH : string;
  CLIENT_ENC_CERT_PATH : string }.

Definition Node_default : Node := mkNode "" "" "" "" "" "" "" "" "" "" "" "" "" "" "" "" "" "" "" "" "" "" "".

Record IcePlugCfg := mkPlug { AppName_ : string; Ip_ : string; Port_ : string }.
Definition IcePlugCfg_default : IcePlugCfg := mkPlug "" "" "".
Definition GetInfo (p : IcePlugCfg) : string :=
  "AppName:" +:+ AppName_ p +:+ ", Address:" +:+ Ip_ p +:+ ":" +:+ Port_ p.

Record NodeInfo := mkNodeInfo {
  ni_id : string;
  ni_address : string;
  ni_public_ip_ : string;
  ni_via_address : string;
  ni_glacier2_info : IcePlugCfg;
  ni_ice_grid_info : IcePlugCfg;
  ni_ca_cert_path_ : string;
  ni_cert_dir_ : string;
  ni_server_key_path_ : string;
  ni_server_cert_path_ : string;
  ni_client_key_path_ : string;
  ni_client_cert_path_ : string;
  ni_password_ : string;
  ni_server_sign_key_path_ : string;
  ni_server_sign_cert_path_ : string;
  ni_server_enc_key_path_ : string;
  ni_server_enc_cert_path_ : string;
  ni_client_sign_key_path_ : string;
  ni_client_sign_cert_path_ : string;
  ni_client_enc_key_path_ : string;
  ni_client_enc_cert_path_ : string }.
Definition NodeInfo_default : NodeInfo :=
  mkNodeInfo "" "" "" "" IcePlugCfg_default IcePlugCfg_default "" "" "" "" "" "" "" "" "" "" "" "" "" "" "".

Record ViaInfo := mkViaInfo {
  vi_id : string;
  vi_via_address : string;
  vi_via : string;
  vi_glacier2_info : IcePlugCfg;
  vi_server_cert_path_ : string;
  vi_ca_cert_path_ : string;
  vi_cert_dir_ : string;
  vi_client_key_path_ : string;
  vi_client_cert_path_ : string;
  vi_password_ : string;
  vi_client_sign_key_path_ : string;
  vi_client_sign_cert_path_ : string;
  vi_client_enc_key_path_ : string;
  vi_client_enc_cert_path_ : string }.
Definition ViaInfo_default : ViaInfo :=
  mkViaInfo "" "" "" IcePlugCfg_default "" "" "" "" "" "" "" "" "" "".

(** [set<ViaInfo>] is ordered by [id]: at most one element per id, and [emplace]
    keeps the one that is there. *)
Abbreviation via_set := (gmap string ViaInfo).
Definition via_emplace (v : ViaInfo) (s : via_set) : via_set := map_emplace (vi_id v) v s.

Inductive NODE_TYPE := NODE_TYPE_INVALID | NODE_TYPE_DATA | NODE_TYPE_COMPUTE | NODE_TYPE_RESULT.
#[global] Instance NODE_TYPE_eq_dec : EqDecision NODE_TYPE.
Proof. solve_decision. Defined.
#[global] Instance IcePlugCfg_eq_dec : EqDecision IcePlugCfg.
Proof. solve_decision. Defined.
#[global] Instance Node_eq_dec : EqDecision Node.
Proof. solve_decision. Defined.

(** [data_P], [compute_P], [result_P] are the vectors [P] of [data_config_],
    [compute_config_] and [result_config_]; a NodeInfoConfig is its [node_]. *)
Record ChannelConfig := mkConfig {
  node_id_ : string;
  task_id_ : string;
  root_cert_ : string;
  log_level_ : Z;
  ping_time_ : float;
  send_timeout_ : float;
  conn_timeout_ : float;
  conn_sync_ : bool;
  cfg_buffer_size_ : Z;
  node_type_ : NODE_TYPE;
  node_info_config_ : gmap string Node;
  nodeid_to_via_ : gmap string string;
  via_to_address_ : gmap string string;
  nodeid_to_glacier2_ : gmap string string;
  nodeid_to_icegrid_ : gmap string string;
  glacier2_to_info_ : gmap string IcePlugCfg;
  icegrid_to_info_ : gmap string IcePlugCfg;
  data_nodes_ : list string;
  compute_nodes_ : gmap string Z;
  result_nodes_ : list string;
  task_nodes_ : gset string;
  data_P : list Node;
  compute_P : list Node;
  result_P : list Node;
  policy_type_ : string;
  map_policy_ : gmap string (gset string) }.

(** Member initialisers of the class. *)
Definition ChannelConfig_default : ChannelConfig :=
  mkConfig "" "" "" 0 (float_of_Z 1) (float_of_Z 5) (float_of_Z 5) false (1024 * 8) NODE_TYPE_INVALID
    ∅ ∅ ∅ ∅ ∅ ∅ ∅ [] ∅ [] ∅ [] [] [] "" ∅.

(** ** Assignments to members *)
Definition set_node_id (x : string) (c : ChannelConfig) : ChannelConfig :=
  mkConfig
    x (task_id_ c) (root_cert_ c) (log_level_ c) (ping_time_ c) (send_timeout_ c)
    (conn_timeout_ c) (conn_sync_ c) (cfg_buffer_size_ c) (node_type_ c) (node_info_config_ c)
    (nodeid_to_via_ c) (via_to_address_ c) (nodeid_to_glacier2_ c) (nodeid_to_icegrid_ c)
    (glacier2_to_info_ c) (icegrid_to_info_ c) (data_nodes_ c) (compute_nodes_ c)
    (result_nodes_ c) (task_nodes_ c) (data_P c) (compute_P c) (result_P c) (policy_type_ c)
    (map_policy_ c).
Definition set_task_id (x : string) (c : ChannelConfig) : ChannelConfig :=
  mkConfig
    (node_id_ c) x (root_cert_ c) (log_level_ c) (ping_time_ c) (send_timeout_ c)
    (conn_timeout_ c) (conn_sync_ c) (cfg_buffer_size_ c) (node_type_ c) (node_info_config_ c)
    (nodeid_to_via_ c) (via_to_address_ c) (nodeid_to_glacier2_ c) (nodeid_to_icegrid_ c)
    (glacier2_to_info_ c) (icegrid_to_info_ c) (data_nodes_ c) (compute_nodes_ c)
    (result_nodes_ c) (task_nodes_ c) (data_P c) (compute_P c) (result_P c) (policy_type_ c)
    (map_policy_ c).
Definition set_root_cert (x : string) (c : ChannelConfig) : ChannelConfig :=
  mkConfig
    (node_id_ c) (task_id_ c) x (log_level_ c) (ping_time_ c) (send_timeout_ c) (conn_timeout_ c)
    (conn_sync_ c) (cfg_buffer_size_ c) (node_type_ c) (node_info_config_ c) (nodeid_to_via_ c)
    (via_to_address_ c) (nodeid_to_glacier2_ c) (nodeid_to_icegrid_ c) (glacier2_to_info_ c)
    (icegrid_to_info_ c) (data_nodes_ c) (compute_nodes_ c) (result_nodes_ c) (task_nodes_ c)
    (data_P c) (compute_P c) (result_P c) (policy_type_ c) (map_policy_ c).
Definition set_log_level (x : Z) (c : ChannelConfig) : ChannelConfig :=
  mkConfig
    (node_id_ c) (task_id_ c) (root_cert_ c) x (ping_time_ c) (send_timeout_ c) (conn_timeout_ c)
    (conn_sync_ c) (cfg_buffer_size_ c) (node_type_ c) (node_info_config_ c) (nodeid_to_via_ c)
    (via_to_address_ c) (nodeid_to_glacier2_ c) (nodeid_to_icegrid_ c) (glacier2_to_info_ c)
    (icegrid_to_info_ c) (data_nodes_ c) (compute_nodes_ c) (result_nodes_ c) (task_nodes_ c)
    (data_P c) (compute_P c) (result_P c) (policy_type_ c) (map_policy_ c).
Definition set_ping_time (x : float) (c : ChannelConfig) : ChannelConfig :=
  mkConfig
    (node_id_ c) (task_id_ c) (root_cert_ c) (log_level_ c) x (send_timeout_ c) (conn_timeout_ c)
    (conn_sync_ c) (cfg_buffer_size_ c) (node_type_ c) (node_info_config_ c) (nodeid_to_via_ c)
    (via_to_address_ c) (nodeid_to_glacier2_ c) (nodeid_to_icegrid_ c) (glacier2_to_info_ c)
    (icegrid_to_info_ c) (data_nodes_ c) (compute_nodes_ c) (result_nodes_ c) (task_nodes_ c)
    (data_P c) (compute_P c) (result_P c) (policy_type_ c) (map_policy_ c).
Definition set_send_timeout (x : float) (c : ChannelConfig) : ChannelConfig :=
  mkConfig
    (node_id_ c) (task_id_ c) (root_cert_ c) (log_level_ c) (ping_time_ c) x (conn_timeout_ c)
    (conn_sync_ c) (cfg_buffer_size_ c) (node_type_ c) (node_info_config_ c) (nodeid_to_via_ c)
    (via_to_address_ c) (nodeid_to_glacier2_ c) (nodeid_to_icegrid_ c) (glacier2_to_info_ c)
    (icegrid_to_info_ c) (data_nodes_ c) (compute_nodes_ c) (result_nodes_ c) (task_nodes_ c)
    (data_P c) (compute_P c) (result_P c) (policy_type_ c) (map_policy_ c).
Definition set_conn_timeout (x : float) (c : ChannelConfig) : ChannelConfig :=
  mkConfig
    (node_id_ c) (task_id_ c) (root_cert_ c) (log_level_ c) (ping_time_ c) (send_timeout_ c) x
    (conn_sync_ c) (cfg_buffer_size_ c) (node_type_ c) (node_info_config_ c) (nodeid_to_via_ c)
    (via_to_address_ c) (nodeid_to_glacier2_ c) (nodeid_to_icegrid_ c) (glacier2_to_info_ c)
    (icegrid_to_info_ c) (data_nodes_ c) (compute_nodes_ c) (result_nodes_ c) (task_nodes_ c)
    (data_P c) (compute_P c) (result_P c) (policy_type_ c) (map_policy_ c).
Definition set_conn_sync (x : bool) (c : ChannelConfig) : ChannelConfig :=
  mkConfig
    (node_id_ c) (task_id_ c) (root_cert_ c) (log_level_ c) (ping_time_ c) (send_timeout_ c)
    (conn_timeout_ c) x (cfg_buffer_size_ c) (node_type_ c) (node_info_config_ c)
    (nodeid_to_via_ c) (via_to_address_ c) (nodeid_to_glacier2_ c) (nodeid_to_icegrid_ c)
    (glacier2_to_info_ c) (icegrid_to_info_ c) (data_nodes_ c) (compute_nodes_ c)
    (result_nodes_ c) (task_nodes_ c) (data_P c) (compute_P c) (result_P c) (policy_type_ c)
    (map_policy_ c).
Definition set_cfg_buffer_size (x : Z) (c : ChannelConfig) : ChannelConfig :=
  mkConfig
    (node_id_ c) (task_id_ c) (root_cert_ c) (log_level_ c) (ping_time_ c) (send_timeout_ c)
    (conn_timeout_ c) (conn_sync_ c) x (node_type_ c) (node_info_config_ c) (nodeid_to_via_ c)
    (via_to_address_ c) (nodeid_to_glacier2_ c) (nodeid_to_icegrid_ c) (glacier2_to_info_ c)
    (icegrid_to_info_ c) (data_nodes_ c) (compute_nodes_ c) (result_nodes_ c) (task_nodes_ c)
    (data_P c) (compute_P c) (result_P c) (policy_type_ c) (map_policy_ c).
Definition set_node_info_config (x : gmap string Node) (c : ChannelConfig) : ChannelConfig :=
  mkConfig
    (node_id_ c) (task_id_ c) (root_cert_ c) (log_level_ c) (ping_time_ c) (send_timeout_ c)
    (conn_timeout_ c) (conn_sync_ c) (cfg_buffer_size_ c) (node_type_ c) x (nodeid_to_via_ c)
    (via_to_address_ c) (nodeid_to_glacier2_ c) (nodeid_to_icegrid_ c) (glacier2_to_info_ c)
    (icegrid_to_info_ c) (data_nodes_ c) (compute_nodes_ c) (result_nodes_ c) (task_nodes_ c)
    (data_P c) (compute_P c) (result_P c) (policy_type_ c) (map_policy_ c).
Definition set_nodeid_to_via (x : gmap string string) (c : ChannelConfig) : ChannelConfig :=
  mkConfig
    (node_id_ c) (task_id_ c) (root_cert_ c) (log_level_ c) (ping_time_ c) (send_timeout_ c)
    (conn_timeout_ c) (conn_sync_ c) (cfg_buffer_size_ c) (node_type_ c) (node_info_config_ c) x
    (via_to_address_ c) (nodeid_to_glacier2_ c) (nodeid_to_icegrid_ c) (glacier2_to_info_ c)
    (icegrid_to_info_ c) (data_nodes_ c) (compute_nodes_ c) (result_nodes_ c) (task_nodes_ c)
    (data_P c) (compute_P c) (result_P c) (policy_type_ c) (map_policy_ c).
Definition set_via_to_address (x : gmap string string) (c : ChannelConfig) : ChannelConfig :=
  mkConfig
    (node_id_ c) (task_id_ c) (root_cert_ c) (log_level_ c) (ping_time_ c) (send_timeout_ c)
    (conn_timeout_ c) (conn_sync_ c) (cfg_buffer_size_ c) (node_type_ c) (node_info_config_ c)
    (nodeid_to_via_ c) x (nodeid_to_glacier2_ c) (nodeid_to_icegrid_ c) (glacier2_to_info_ c)
    (icegrid_to_info_ c) (data_nodes_ c) (compute_nodes_ c) (result_nodes_ c) (task_nodes_ c)
    (data_P c) (compute_P c) (result_P c) (policy_type_ c) (map_policy_ c).
Definition set_nodeid_to_glacier2 (x : gmap string string) (c : ChannelConfig) : ChannelConfig :=
  mkConfig
    (node_id_ c) (task_id_ c) (root_cert_ c) (log_level_ c) (ping_time_ c) (send_timeout_ c)
    (conn_timeout_ c) (conn_sync_ c) (cfg_buffer_size_ c) (node_type_ c) (node_info_config_ c)
    (nodeid_to_via_ c) (via_to_address_ c) x (nodeid_to_icegrid_ c) (glacier2_to_info_ c)
    (icegrid_to_info_ c) (data_nodes_ c) (compute_nodes_ c) (result_nodes_ c) (task_nodes_ c)
    (data_P c) (compute_P c) (result_P c) (policy_type_ c) (map_policy_ c).
Definition set_nodeid_to_icegrid (x : gmap string string) (c : ChannelConfig) : ChannelConfig :=
  mkConfig
    (node_id_ c) (task_id_ c) (root_cert_ c) (log_level_ c) (ping_time_ c) (send_timeout_ c)
    (conn_timeout_ c) (conn_sync_ c) (cfg_buffer_size_ c) (node_type_ c) (node_info_config_ c)
    (nodeid_to_via_ c) (via_to_address_ c) (nodeid_to_glacier2_ c) x (glacier2_to_info_ c)
    (icegrid_to_info_ c) (data_nodes_ c) (compute_nodes_ c) (result_nodes_ c) (task_nodes_ c)
    (data_P c) (compute_P c) (result_P c) (policy_type_ c) (map_policy_ c).
Definition set_glacier2_to_info (x : gmap string IcePlugCfg) (c : ChannelConfig) : ChannelConfig :=
  mkConfig
    (node_id_ c) (task_id_ c) (root_cert_ c) (log_level_ c) (ping_time_ c) (send_timeout_ c)
    (conn_timeout_ c) (conn_sync_ c) (cfg_buffer_size_ c) (node_type_ c) (node_info_config_ c)
    (nodeid_to_via_ c) (via_to_address_ c) (nodeid_to_glacier2_ c) (nodeid_to_icegrid_ c) x
    (icegrid_to_info_ c) (data_nodes_ c) (compute_nodes_ c) (result_nodes_ c) (task_nodes_ c)
    (data_P c) (compute_P c) (result_P c) (policy_type_ c) (map_policy_ c).
Definition set_icegrid_to_info (x : gmap string IcePlugCfg) (c : ChannelConfig) : ChannelConfig :=
  mkConfig
    (node_id_ c) (task_id_ c) (root_cert_ c) (log_level_ c) (ping_time_ c) (send_timeout_ c)
    (conn_timeout_ c) (conn_sync_ c) (cfg_buffer_size_ c) (node_type_ c) (node_info_config_ c)
    (nodeid_to_via_ c) (via_to_address_ c) (nodeid_to_glacier2_ c) (nodeid_to_icegrid_ c)
    (glacier2_to_info_ c) x (data_nodes_ c) (compute_nodes_ c) (result_nodes_ c) (task_nodes_ c)
    (data_P c) (compute_P c) (result_P c) (policy_type_ c) (map_policy_ c).
Definition set_data_nodes (x : list string) (c : ChannelConfig) : ChannelConfig :=
  mkConfig
    (node_id_ c) (task_id_ c) (root_cert_ c) (log_level_ c) (ping_time_ c) (send_timeout_ c)
    (conn_timeout_ c) (conn_sync_ c) (cfg_buffer_size_ c) (node_type_ c) (node_info_config_ c)
    (nodeid_to_via_ c) (via_to_address_ c) (nodeid_to_glacier2_ c) (nodeid_to_icegrid_ c)
    (glacier2_to_info_ c) (icegrid_to_info_ c) x (compute_nodes_ c) (result_nodes_ c)
    (task_nodes_ c) (data_P c) (compute_P c) (result_P c) (policy_type_ c) (map_policy_ c).
Definition set_compute_nodes (x : gmap string Z) (c : ChannelConfig) : ChannelConfig :=
  mkConfig
    (node_id_ c) (task_id_ c) (root_cert_ c) (log_level_ c) (ping_time_ c) (send_timeout_ c)
    (conn_timeout_ c) (conn_sync_ c) (cfg_buffer_size_ c) (node_type_ c) (node_info_config_ c)
    (nodeid_to_via_ c) (via_to_address_ c) (nodeid_to_glacier2_ c) (nodeid_to_icegrid_ c)
    (glacier2_to_info_ c) (icegrid_to_info_ c) (data_nodes_ c) x (result_nodes_ c) (task_nodes_ c)
    (data_P c) (compute_P c) (result_P c) (policy_type_ c) (map_policy_ c).
Definition set_result_nodes (x : list string) (c : ChannelConfig) : ChannelConfig :=
  mkConfig
    (node_id_ c) (task_id_ c) (root_cert_ c) (log_level_ c) (ping_time_ c) (send_timeout_ c)
    (conn_timeout_ c) (conn_sync_ c) (cfg_buffer_size_ c) (node_type_ c) (node_info_config_ c)
    (nodeid_to_via_ c) (via_to_address_ c) (nodeid_to_glacier2_ c) (nodeid_to_icegrid_ c)
    (glacier2_to_info_ c) (icegrid_to_info_ c) (data_nodes_ c) (compute_nodes_ c) x
    (task_nodes_ c) (data_P c) (compute_P c) (result_P c) (policy_type_ c) (map_policy_ c).
Definition set_task_nodes (x : gset string) (c : ChannelConfig) : ChannelConfig :=
  mkConfig
    (node_id_ c) (task_id_ c) (root_cert_ c) (log_level_ c) (ping_time_ c) (send_timeout_ c)
    (conn_timeout_ c) (conn_sync_ c) (cfg_buffer_size_ c) (node_type_ c) (node_info_config_ c)
    (nodeid_to_via_ c) (via_to_address_ c) (nodeid_to_glacier2_ c) (nodeid_to_icegrid_ c)
    (glacier2_to_info_ c) (icegrid_to_info_ c) (data_nodes_ c) (compute_nodes_ c)
    (result_nodes_ c) x (data_P c) (compute_P c) (result_P c) (policy_type_ c) (map_policy_ c).
Definition set_data_P (x : list Node) (c : ChannelConfig) : ChannelConfig :=
  mkConfig
    (node_id_ c) (task_id_ c) (root_cert_ c) (log_level_ c) (ping_time_ c) (send_timeout_ c)
    (conn_timeout_ c) (conn_sync_ c) (cfg_buffer_size_ c) (node_type_ c) (node_info_config_ c)
    (nodeid_to_via_ c) (via_to_address_ c) (nodeid_to_glacier2_ c) (nodeid_to_icegrid_ c)
    (glacier2_to_info_ c) (icegrid_to_info_ c) (data_nodes_ c) (compute_nodes_ c)
    (result_nodes_ c) (task_nodes_ c) x (compute_P c) (result_P c) (policy_type_ c)
    (map_policy_ c).
Definition set_compute_P (x : list Node) (c : ChannelConfig) : ChannelConfig :=
  mkConfig
    (node_id_ c) (task_id_ c) (root_cert_ c) (log_level_ c) (ping_time_ c) (send_timeout_ c)
    (conn_timeout_ c) (conn_sync_ c) (cfg_buffer_size_ c) (node_type_ c) (node_info_config_ c)
    (nodeid_to_via_ c) (via_to_address_ c) (nodeid_to_glacier2_ c) (nodeid_to_icegrid_ c)
    (glacier2_to_info_ c) (icegrid_to_info_ c) (data_nodes_ c) (compute_nodes_ c)
    (result_nodes_ c) (task_nodes_ c) (data_P c) x (result_P c) (policy_type_ c) (map_policy_ c).
Definition set_result_P (x : list Node) (c : ChannelConfig) : ChannelConfig :=
  mkConfig
    (node_id_ c) (task_id_ c) (root_cert_ c) (log_level_ c) (ping_time_ c) (send_timeout_ c)
    (conn_timeout_ c) (conn_sync_ c) (cfg_buffer_size_ c) (node_type_ c) (node_info_config_ c)
    (nodeid_to_via_ c) (via_to_address_ c) (nodeid_to_glacier2_ c) (nodeid_to_icegrid_ c)
    (glacier2_to_info_ c) (icegrid_to_info_ c) (data_nodes_ c) (compute_nodes_ c)
    (result_nodes_ c) (task_nodes_ c) (data_P c) (compute_P c) x (policy_type_ c) (map_policy_ c).
Definition set_policy_type (x : string) (c : ChannelConfig) : ChannelConfig :=
  mkConfig
    (node_id_ c) (task_id_ c) (root_cert_ c) (log_level_ c) (ping_time_ c) (send_timeout_ c)
    (conn_timeout_ c) (conn_sync_ c) (cfg_buffer_size_ c) (node_type_ c) (node_info_config_ c)
    (nodeid_to_via_ c) (via_to_address_ c) (nodeid_to_glacier2_ c) (nodeid_to_icegrid_ c)
    (glacier2_to_info_ c) (icegrid_to_info_ c) (data_nodes_ c) (compute_nodes_ c)
    (result_nodes_ c) (task_nodes_ c) (data_P c) (compute_P c) (result_P c) x (map_policy_ c).
Definition set_map_policy (x : gmap string (gset string)) (c : ChannelConfig) : ChannelConfig :=
  mkConfig
    (node_id_ c) (task_id_ c) (root_cert_ c) (log_level_ c) (ping_time_ c) (send_timeout_ c)
    (conn_timeout_ c) (conn_sync_ c) (cfg_buffer_size_ c) (node_type_ c) (node_info_config_ c)
    (nodeid_to_via_ c) (via_to_address_ c) (nodeid_to_glacier2_ c) (nodeid_to_icegrid_ c)
    (glacier2_to_info_ c) (icegrid_to_info_ c) (data_nodes_ c) (compute_nodes_ c)
    (result_nodes_ c) (task_nodes_ c) (data_P c) (compute_P c) (result_P c) (policy_type_ c) x.
