(* ===== verification/Config.v ===== *)
(** Parsing a configuration document into a ChannelConfig: [load], [parse] and the
    [parse_*] methods of config.cc. *)
From S2P Require Import Prelude StdMap Timer Events Json ConfigData.
From stdpp Require Import pretty.
From Stdlib Require Import Ascii.
#[local] Open Scope Z_scope.

Section config.
Context (SSL_TYPE : Z).
Definition gmssl : bool := 2 =? SSL_TYPE.

(** [dst.copy_from(node)] *)
Definition copy_from (dst node : Node) : Node :=
  mkNode
    (DESC node) (NODE_ID node) (NAME node) (ADDRESS node) (PUBLIC_IP node) (VIA node)
    (GRICER2 node) (ICEGRID node) (CERT_DIR node) (CA_CERT_PATH node) (SERVER_KEY_PATH node)
    (SERVER_CERT_PATH node) (CLIENT_KEY_PATH node) (CLIENT_CERT_PATH node) (PASSWORD node)
    (SERVER_SIGN_KEY_PATH (if gmssl then node else dst))
    (SERVER_SIGN_CERT_PATH (if gmssl then node else dst))
    (SERVER_ENC_KEY_PATH (if gmssl then node else dst))
    (SERVER_ENC_CERT_PATH (if gmssl then node else dst))
    (CLIENT_SIGN_KEY_PATH (if gmssl then node else dst))
    (CLIENT_SIGN_CERT_PATH (if gmssl then node else dst))
    (CLIENT_ENC_KEY_PATH (if gmssl then node else dst))
    (CLIENT_ENC_CERT_PATH (if gmssl then node else dst)).

(** One element of NODE_INFO. *)
Definition parse_node (ca_cert : string) (v : json) : result Node :=
  node_id_ ← GetString v "NODE_ID" "" false;
  address_ ← GetString v "ADDRESS" "" false;
  public_ip_ ← GetString v "PUBLIC_IP" "127.0.0.1" false;
  via_ ← GetString v "VIA" "" false;
  gricer2_ ← GetString v "GRICER2" "" false;
  icegrid_ ← GetString v "ICEGRID" "" false;
  cert_dir_ ← GetString v "CERT_DIR" "" false;
  server_key_path_ ← GetString v "SERVER_KEY" "" false;
  server_cert_path_ ← GetString v "SERVER_CERT" "" false;
  client_key_path_ ← GetString v "CLIENT_KEY" "" false;
  client_cert_path_ ← GetString v "CLIENT_CERT" "" false;
  password_ ← GetString v "PASSWORD" "" false;
  let cfg := mkNode "" node_id_ "" address_ public_ip_ via_ gricer2_ icegrid_ cert_dir_ ca_cert
    server_key_path_ server_cert_path_ client_key_path_ client_cert_path_ password_
    "" "" "" "" "" "" "" "" in
  if gmssl then
    server_sign_key_path_ ← GetString v "SERVER_SIGN_KEY" "" false;
    server_sign_cert_path_ ← GetString v "SERVER_SIGN_CERT" "" false;
    server_enc_key_path_ ← GetString v "SERVER_ENC_KEY" "" false;
    server_enc_cert_path_ ← GetString v "SERVER_ENC_CERT" "" false;
    client_sign_key_path_ ← GetString v "CLIENT_SIGN_KEY" "" false;
    client_sign_cert_path_ ← GetString v "CLIENT_SIGN_CERT" "" false;
    client_enc_key_path_ ← GetString v "CLIENT_ENC_KEY" "" false;
    client_enc_cert_path_ ← GetString v "CLIENT_ENC_CERT" "" false;
    Ok (mkNode "" node_id_ "" address_ public_ip_ via_ gricer2_ icegrid_ cert_dir_ ca_cert
      server_key_path_ server_cert_path_ client_key_path_ client_cert_path_ password_
      server_sign_key_path_ server_sign_cert_path_ server_enc_key_path_ server_enc_cert_path_
      client_sign_key_path_ client_sign_cert_path_ client_enc_key_path_ client_enc_cert_path_)
  else Ok cfg.
End config.

Abbreviation cfgM := (M ChannelConfig).

(** [doc.HasMember(key) && doc[key].IsArray()] and the like. *)
Definition has_such (kind : json -> bool) (doc : json) (key : string) : result bool :=
  has ← HasMember doc key;
  if has : bool then v ← json_member doc key; Ok (kind v) else Ok false.

(** The members APPNAME, IP and PORT of a plug-in's description; others are read
    and ignored. *)
Fixpoint parse_plug (cfg : IcePlugCfg) (ms : list (string * json)) : result IcePlugCfg :=
  match ms with
  | [] => Ok cfg
  | (n, v) :: ms' =>
      let name := c_str n in
      value ← as_string v;
      parse_plug
        (if decide ("APPNAME" = name) then mkPlug value (Ip_ cfg) (Port_ cfg)
         else if decide ("IP" = name) then mkPlug (AppName_ cfg) value (Port_ cfg)
         else if decide ("PORT" = name) then mkPlug (AppName_ cfg) (Ip_ cfg) value
         else cfg) ms'
  end.

(** One member of GRICER2_INFO or ICE_GRID_INFO: looked up again by name, skipped
    when it is not an object. *)
Definition parse_plug_member (table : json) (m : string * json) : result (option (string * IcePlugCfg)) :=
  let name := c_str m.1 in
  v ← json_member table name;
  if IsObject v then
    infos ← json_member table name;
    ms ← json_members infos;
    cfg ← parse_plug IcePlugCfg_default ms;
    Ok (Some (name, cfg))
  else Ok None.

Section parse.
Context (SSL_TYPE : Z).

Definition parse_node_entry (ca_cert : string) (v : json) : cfgM unit :=
  node ← lift (parse_node SSL_TYPE ca_cert v);
  modify (fun c =>
    set_node_info_config (map_emplace (NODE_ID node) node (node_info_config_ c))
    (set_nodeid_to_via (map_emplace (NODE_ID node) (VIA node) (nodeid_to_via_ c))
    (set_nodeid_to_glacier2 (map_emplace (NODE_ID node) (GRICER2 node) (nodeid_to_glacier2_ c))
    (set_nodeid_to_icegrid (map_emplace (NODE_ID node) (ICEGRID node) (nodeid_to_icegrid_ c)) c)))).

Definition parse_via_entry (m : string * json) : cfgM unit :=
  value ← lift (as_string m.2);
  modify (fun c => set_via_to_address (map_emplace (c_str m.1) value (via_to_address_ c)) c).

Definition parse_glacier2_entry (table : json) (m : string * json) : cfgM unit :=
  o ← lift (parse_plug_member table m);
  match o with
  | Some (name, cfg) =>
      modify (fun c => set_glacier2_to_info (map_emplace name cfg (glacier2_to_info_ c)) c)
  | None => mret tt
  end.

Definition parse_icegrid_entry (table : json) (m : string * json) : cfgM unit :=
  o ← lift (parse_plug_member table m);
  match o with
  | Some (name, cfg) =>
      modify (fun c => set_icegrid_to_info (map_emplace name cfg (icegrid_to_info_ c)) c)
  | None => mret tt
  end.

Definition parse_node_info (doc : json) : cfgM bool :=
  has ← lift (has_such IsArray doc "NODE_INFO");
  if has : bool then
    Nodes ← lift (json_member doc "NODE_INFO");
    root ← gets root_cert_;
    ca_cert ← lift (GetString doc "ROOT_CERT" (c_str root) false);
    nodes ← lift (json_elements Nodes);
    _ ← for_each (parse_node_entry ca_cert) nodes;
    has_via ← lift (has_such IsObject doc "VIA_INFO");
    _ ← (if has_via : bool then
           Vias ← lift (json_member doc "VIA_INFO");
           ms ← lift (json_members Vias);
           for_each parse_via_entry ms
         else mret tt);
    has_g ← lift (has_such IsObject doc "GRICER2_INFO");
    _ ← (if has_g : bool then
           list_glacier2 ← lift (json_member doc "GRICER2_INFO");
           ms ← lift (json_members list_glacier2);
           for_each (parse_glacier2_entry list_glacier2) ms
         else mret tt);
    has_i ← lift (has_such IsObject doc "ICE_GRID_INFO");
    _ ← (if has_i : bool then
           list_iceGrid ← lift (json_member doc "ICE_GRID_INFO");
           ms ← lift (json_members list_iceGrid);
           for_each (parse_icegrid_entry list_iceGrid) ms
         else mret tt);
    mret true
  else mret true.

(** [v.resize(n)] of a vector. *)
Definition resize_vec {A} (dflt : A) (n : nat) (l : list A) : list A :=
  take n l ++ replicate (n - length l) dflt.

(** [task_nodes_.find(nid) == end] then [insert]. *)
Definition add_task_node (nid : string) : cfgM unit :=
  modify (fun c => if decide (nid ∈ task_nodes_ c) then c
                   else set_task_nodes ({[nid]} ∪ task_nodes_ c) c).

(** The node information of [nid], copied into a slot that holds [dst]. *)
Definition copy_known_node (nid : string) (dst : Node) : cfgM Node :=
  c ← gets id;
  match node_info_config_ c !! nid with
  | Some node => mret (copy_from SSL_TYPE dst node)
  | None => lift (HANDLE_EXCEPTION_EVENT C_EVENT_CODE_NO_FIND_NID (task_id_ c) [VaStr nid])
  end.

(** Body of the loop of [parse_data]: element [i] of DATA_NODES. *)
Definition parse_data_entry (iv : nat * json) : cfgM unit :=
  let '(i, v) := iv in
  nid ← lift (as_string v);
  _ ← modify (fun c => set_data_nodes (<[i := nid]> (data_nodes_ c)) c);
  dst ← gets (fun c => default Node_default (data_P c !! i));
  node ← copy_known_node nid dst;
  _ ← modify (fun c => set_data_P (<[i := node]> (data_P c)) c);
  add_task_node nid.

Definition parse_data (doc : json) : cfgM bool :=
  has ← lift (has_such IsArray doc "DATA_NODES");
  if has : bool then
    Nodes ← lift (json_member doc "DATA_NODES");
    nodes ← lift (json_elements Nodes);
    let n := length nodes in
    _ ← modify (fun c => set_data_nodes (resize_vec "" n (data_nodes_ c)) c);
    _ ← modify (fun c => set_data_P (resize_vec Node_default n (data_P c)) c);
    _ ← for_each parse_data_entry (zip (seq 0 n) nodes);
    mret true
  else mret true.

Definition party_of (value : string) : Z :=
  if decide (value = "P0") then 0 else if decide (value = "P1") then 1
  else if decide (value = "P2") then 2 else -1.

Definition parse_party_entry (m : string * json) : cfgM unit :=
  value ← lift (as_string m.2);
  modify (fun c => set_compute_nodes (map_emplace (c_str m.1) (party_of value) (compute_nodes_ c)) c).

(** Body of the second loop of [parse_compute]: the [i]-th key of [compute_nodes_]. *)
Definition parse_compute_entry (ik : nat * string) : cfgM unit :=
  let '(i, nid) := ik in
  dst ← gets (fun c => default Node_default (compute_P c !! i));
  node ← copy_known_node nid dst;
  _ ← modify (fun c => set_compute_P (<[i := node]> (compute_P c)) c);
  add_task_node nid.

Definition parse_compute (doc : json) : cfgM bool :=
  has ← lift (has_such IsObject doc "COMPUTATION_NODES");
  if has : bool then
    Nodes ← lift (json_member doc "COMPUTATION_NODES");
    ms ← lift (json_members Nodes);
    _ ← for_each parse_party_entry ms;
    nodes ← gets compute_nodes_;
    _ ← modify (fun c => set_compute_P (resize_vec Node_default (size nodes) (compute_P c)) c);
    _ ← for_each parse_compute_entry (zip (seq 0 (size nodes)) (iter_map nodes).*1);
    mret true
  else mret true.

(** Body of the loop of [parse_result]: element [i] of RESULT_NODES. *)
Definition parse_result_entry (iv : nat * json) : cfgM unit :=
  let '(i, v) := iv in
  nid ← lift (as_string v);
  _ ← modify (fun c => set_result_nodes (<[i := nid]> (result_nodes_ c)) c);
  dst ← gets (fun c => default Node_default (result_P c !! i));
  node ← copy_known_node nid dst;
  _ ← modify (fun c => set_result_P (<[i := node]> (result_P c)) c);
  add_task_node nid.

Definition parse_result (doc : json) : cfgM bool :=
  has ← lift (has_such IsArray doc "RESULT_NODES");
  if has : bool then
    Nodes ← lift (json_member doc "RESULT_NODES");
    nodes ← lift (json_elements Nodes);
    let n := length nodes in
    _ ← modify (fun c => set_result_nodes (resize_vec "" n (result_nodes_ c)) c);
    _ ← modify (fun c => set_result_P (resize_vec Node_default n (result_P c)) c);
    _ ← for_each parse_result_entry (zip (seq 0 n) nodes);
    mret true
  else mret true.

(** The servers one node of the policy connects to. *)
Fixpoint parse_servers (nodeids : gset string) (l : list json) : result (gset string) :=
  match l with
  | [] => Ok nodeids
  | v :: l' => s ← as_string v; parse_servers ({[s]} ∪ nodeids) l'
  end.

Definition parse_policy_entry (dict_policy : json) (m : string * json) : cfgM unit :=
  let nodeid := c_str m.1 in
  v ← lift (json_member dict_policy nodeid);
  nodeids ← (if IsArray v then
               l ← lift (json_elements v);
               lift (parse_servers ∅ l)
             else mret ∅);
  modify (fun c => set_map_policy (map_emplace nodeid nodeids (map_policy_ c)) c).

Definition parse_policy (doc : json) : cfgM bool :=
  has ← lift (HasMember doc "POLICY");
  if has : bool then
    v ← lift (json_member doc "POLICY");
    if IsString v then
      s ← lift (GetString doc "POLICY" "all" false);
      _ ← modify (set_policy_type s);
      mret true
    else if IsObject v then
      ms ← lift (json_members v);
      _ ← for_each (parse_policy_entry v) ms;
      mret true
    else mret true
  else mret true.

(** [parse]: the scalar settings, then the tables; [log_level_] is a [uint8_t]. *)
Definition parse_settings (doc : json) : cfgM unit :=
  task_id ← lift (GetString doc "TASK_ID" "" false);
  _ ← modify (set_task_id task_id);
  root_cert ← lift (GetString doc "ROOT_CERT" "" false);
  _ ← modify (set_root_cert root_cert);
  log_level ← lift (GetInt doc "LOG_LEVEL" 2 false);
  _ ← modify (set_log_level (to_uint8 log_level));
  buffer_size ← lift (GetInt doc "BUFFER_SIZE" (8 * 1024) false);
  _ ← modify (set_cfg_buffer_size buffer_size);
  ping_time ← lift (GetFloat doc "PING_TIME" (float_of_Z 1) false);
  _ ← modify (set_ping_time ping_time);
  send_timeout ← lift (GetFloat doc "SEND_TIMEOUT" (float_of_Z 5) false);
  _ ← modify (set_send_timeout send_timeout);
  conn_timeout ← lift (GetFloat doc "CONNECT_TIMEOUT" (float_of_Z 5) false);
  _ ← modify (set_conn_timeout conn_timeout);
  conn_sync ← lift (GetBool doc "CONNECT_SYNC" false false);
  _ ← modify (set_conn_sync conn_sync);
  modify (fun c => if 2 <? log_level_ c then set_log_level 2 c else c).

Definition parse (doc : json) : cfgM bool :=
  _ ← parse_settings doc;
  _ ← parse_node_info doc;        (* a false result is only reported *)
  ok ← parse_data doc;
  if negb ok then mret false else
  ok ← parse_compute doc;
  if negb ok then mret false else
  ok ← parse_result doc;
  if negb ok then mret false else
  ok ← parse_policy doc;
  if negb ok then mret false else
  mret true.
End parse.

(** The lines of a file, joined: what the [getline] loop collects. *)
Fixpoint join_lines (s : string) : string :=
  match s with
  | EmptyString => EmptyString
  | String c s' => if Ascii.eqb c "010" then join_lines s' else String c (join_lines s')
  end.

(** ** Helpers on files *)
Section files.
(** [access(path, F_OK) == 0], and the contents of a file that can be opened. *)
Context (access : string -> bool) (open_file : string -> option string).

Definition is_file_exist (filepath : string) : bool :=
  match filepath with EmptyString => false | _ => access (c_str filepath) end.

(** [while (buf && ifile.get(ch)) buf.put(ch)], character by character. *)
Fixpoint copy_chars (ifile buf : string) : string :=
  match ifile with
  | EmptyString => buf
  | String ch ifile' => copy_chars ifile' (buf +:+ String ch EmptyString)
  end.
Definition get_file_contents (fpath : string) : string :=
  match open_file (c_str fpath) with
  | None => ""   (* "file is not exist" *)
  | Some text => copy_chars text ""
  end.

Lemma copy_chars_app ifile buf : copy_chars ifile buf = buf +:+ ifile.
Proof.
  revert buf. induction ifile as [|ch ifile IH]; intros buf; cbn.
  - induction buf as [|c buf IHb]; [done|]. unfold String.append; fold String.append. by f_equal.
  - rewrite IH. induction buf as [|c buf IHb]; [done|]. unfold String.append; fold String.append. by f_equal.
Qed.

(** The text as it is, line ends included; [load] drops those. *)
Lemma get_file_contents_exact fpath : get_file_contents fpath = default "" (open_file (c_str fpath)).
Proof. unfold get_file_contents. destruct (open_file _); [|done]. apply copy_chars_app. Qed.
End files.

Section load.
Context (SSL_TYPE : Z).
(** The contents of a file that can be opened, and rapidjson's parser. *)
Context (open_file : string -> option string) (Parse : string -> option json).

(** [load]: the argument names a file, or else is the document itself. *)
Definition load (node_id config_file : string) : cfgM bool :=
  _ ← modify (set_node_id node_id);
  let sjson := match open_file (c_str config_file) with
               | Some text => join_lines text
               | None => config_file
               end in
  match Parse (c_str sjson) with
  | None => mret false
  | Some doc => parse SSL_TYPE doc
  end.

(** The two constructors. *)
Definition make_ChannelConfig (node_id config_json : string) : result ChannelConfig :=
  match (ret ← load node_id config_json;
         if negb ret then lift (HANDLE_EXCEPTION_EVENT C_EVENT_CODE_PARSE_FILE "" []) else
         modify (set_node_id node_id)) ChannelConfig_default with
  | (Ok _, c) => Ok c
  | (Err e, _) => Err e
  end.

Definition make_ChannelConfig_no_id (config_json : string) : result ChannelConfig :=
  match (ret ← load "" config_json;
         if negb ret then lift (HANDLE_EXCEPTION_EVENT C_EVENT_CODE_PARSE_FILE "" []) else
         mret tt) ChannelConfig_default with
  | (Ok _, c) => Ok c
  | (Err e, _) => Err e
  end.
End load.
