(* ===== verification/ConfigSpec.v ===== *)
(** What a configuration that was loaded satisfies: the tables agree with each
    other, every node of the task is described, and a node that is not described
    makes the load fail. *)
From S2P Require Import Prelude StdMap Timer Events Json ConfigData Config.
From stdpp Require Import pretty.
From Stdlib Require Import Ascii.
#[local] Open Scope Z_scope.

(** * Reference definition: the descriptions of a list of ids

    The ids come one by one, each possibly the failure to read it; the first
    failure is the outcome. *)
Fixpoint resolve (N : gmap string Node) (task : string) (ids : list (result string)) : result (list Node) :=
  match ids with
  | [] => Ok []
  | r :: ids' =>
      nid ← r;
      match N !! nid with
      | Some n => ns ← resolve N task ids'; Ok (n :: ns)
      | None => HANDLE_EXCEPTION_EVENT C_EVENT_CODE_NO_FIND_NID task [VaStr nid]
      end
  end.

(** [ns] are the descriptions the table [N] has for [ids]. *)
Definition describes (N : gmap string Node) (ids : list string) (ns : list Node) : Prop :=
  Forall2 (fun k n => N !! k = Some n) ids ns.

Lemma resolve_inv N task rs ns :
  resolve N task rs = Ok ns -> exists ids, rs = Ok <$> ids /\ describes N ids ns.
Proof.
  unfold describes. revert ns. induction rs as [|r rs IH]; intros ns; cbn.
  { intros [= <-]. exists []. split; [done|constructor]. }
  intros (k & -> & H)%bind_Ok. destruct (N !! k) as [n|] eqn:E.
  - apply bind_Ok in H as (l & (ids & -> & Hd)%IH & [= <-]). exists (k :: ids).
    split; [done|]. by constructor.
  - by destruct (handle_event_any C_EVENT_CODE_NO_FIND_NID task [VaStr k]) as [m Em]; rewrite Em in H.
Qed.

Lemma resolve_Ok N task ids ns : describes N ids ns -> resolve N task (Ok <$> ids) = Ok ns.
Proof. induction 1 as [|k n ids ns E _ IH]; cbn; [done|]. by rewrite E, IH. Qed.

Lemma resolve_unknown N task pre nid post :
  (forall k, k ∈ pre -> is_Some (N !! k)) -> N !! nid = None ->
  resolve N task ((Ok <$> pre) ++ Ok nid :: post) =
    HANDLE_EXCEPTION_EVENT C_EVENT_CODE_NO_FIND_NID task [VaStr nid].
Proof.
  intros Hp Hn. induction pre as [|k pre IH]; cbn; [by rewrite Hn|].
  destruct (Hp k) as [n ->]; [set_solver|]. rewrite IH by set_solver.
  by destruct (handle_event_any C_EVENT_CODE_NO_FIND_NID task [VaStr nid]) as [m Em]; rewrite Em.
Qed.

(** * The loops over the nodes of the task *)
Section loops.
Context (SSL_TYPE : Z).

(** The fields under SSL_TYPE = 2 are unused in other builds. *)
Definition sm_blank (n : Node) : Prop :=
  SSL_TYPE = 2 \/
  SERVER_SIGN_KEY_PATH n = "" /\ SERVER_SIGN_CERT_PATH n = "" /\ SERVER_ENC_KEY_PATH n = "" /\
  SERVER_ENC_CERT_PATH n = "" /\ CLIENT_SIGN_KEY_PATH n = "" /\ CLIENT_SIGN_CERT_PATH n = "" /\
  CLIENT_ENC_KEY_PATH n = "" /\ CLIENT_ENC_CERT_PATH n = "".

(** Every description is stored under its own id. *)
Definition table_ok (N : gmap string Node) : Prop :=
  map_Forall (fun k n => NODE_ID n = k /\ sm_blank n) N.

Lemma copy_from_blank n : sm_blank n -> copy_from SSL_TYPE Node_default n = n.
Proof.
  unfold copy_from, sm_blank, gmssl. intros [->|H]; [by destruct n|].
  destruct n; cbn -[Z.eqb] in *. destruct_and!; subst. by destruct (2 =? SSL_TYPE).
Qed.

Lemma describes_ids N ids ns : table_ok N -> describes N ids ns -> NODE_ID <$> ns = ids.
Proof.
  intros HN. induction 1 as [|k n ids ns E _ IH]; cbn; [done|].
  f_equal; [|done]. by destruct (HN _ _ E).
Qed.

Lemma copy_known_node_spec nid c :
  table_ok (node_info_config_ c) ->
  copy_known_node SSL_TYPE nid Node_default c =
    (match node_info_config_ c !! nid with
     | Some n => Ok n
     | None => HANDLE_EXCEPTION_EVENT C_EVENT_CODE_NO_FIND_NID (task_id_ c) [VaStr nid]
     end, c).
Proof.
  intros HN. unfold copy_known_node, gets. cbv [mbind M_bind]. cbn.
  destruct (node_info_config_ c !! nid) as [n|] eqn:E; [|done].
  destruct (HN _ _ E) as [_ Hb]. by rewrite copy_from_blank.
Qed.

Lemma add_task_node_spec nid c :
  add_task_node nid c = (Ok tt, set_task_nodes ({[nid]} ∪ task_nodes_ c) c).
Proof.
  unfold add_task_node, modify. case_decide as H; [|done]. f_equal.
  assert ({[nid]} ∪ task_nodes_ c = task_nodes_ c) as -> by set_solver. by destruct c.
Qed.

(** What a loop that fills the slots from [P] on leaves behind. *)
Definition outcome (r : result (list Node)) : result unit :=
  match r with Ok _ => Ok tt | Err e => Err e end.

Lemma insert_slot {A} (pre post : list A) x y i :
  i = length pre -> <[i := y]> (pre ++ x :: post) = (pre ++ [y]) ++ post.
Proof. intros ->. rewrite insert_app_r_alt, Nat.sub_diag by done. by rewrite <- app_assoc. Qed.

Lemma add_id nid (ids : list string) (T : gset string) :
  {[nid]} ∪ (list_to_set ids ∪ T) = list_to_set (ids ++ [nid]) ∪ T.
Proof. rewrite list_to_set_app_L. cbn. set_solver. Qed.

(** ** The loop, for any of the three groups of nodes

    [st pre preP m] is the object when the ids [pre] have been handled, their
    descriptions being [preP], and [m] slots are left. *)
Section fill.
Context {X : Type} (read : X -> result string) (entry : nat * X -> cfgM unit).
Context (N : gmap string Node) (task : string) (HN : table_ok N).
Context (st : list string -> list Node -> nat -> ChannelConfig).
Context (Hentry : forall pre preP m x, length preP = length pre ->
  match read x with
  | Err e => exists c', entry (length pre, x) (st pre preP (S m)) = (Err e, c')
  | Ok nid =>
      match N !! nid with
      | Some n => entry (length pre, x) (st pre preP (S m)) = (Ok tt, st (pre ++ [nid]) (preP ++ [n]) m)
      | None => exists c', entry (length pre, x) (st pre preP (S m)) =
          (HANDLE_EXCEPTION_EVENT C_EVENT_CODE_NO_FIND_NID task [VaStr nid], c')
      end
  end).

Lemma fill_loop xs : forall pre preP,
  length preP = length pre ->
  exists c', for_each entry (zip (seq (length pre) (length xs)) xs) (st pre preP (length xs)) =
    (outcome (resolve N task (read <$> xs)), c') /\
    forall ns, resolve N task (read <$> xs) = Ok ns -> c' = st (pre ++ (NODE_ID <$> ns)) (preP ++ ns) 0.
Proof using HN Hentry.
  induction xs as [|x xs IH]; intros pre preP Hl.
  { eexists. split; [done|]. intros ns [= <-]. cbn. by rewrite !app_nil_r. }
  change (zip _ _) with ((length pre, x) :: zip (seq (S (length pre)) (length xs)) xs).
  cbn [for_each fmap list_fmap resolve length]. cbv [mbind M_bind result_bind].
  pose proof (Hentry pre preP (length xs) x Hl) as He.
  destruct (read x) as [nid|e]; [|destruct He as [c' ->]; by exists c'].
  destruct (N !! nid) as [n|] eqn:E.
  - rewrite He. destruct (HN _ _ E) as [Hid _].
    destruct (IH (pre ++ [nid]) (preP ++ [n])) as (c' & Hrun & Hfin).
    { rewrite !length_app. cbn. lia. }
    rewrite length_app, Nat.add_1_r in Hrun. exists c'. rewrite Hrun.
    destruct (resolve N task (read <$> xs)) as [l|e]; [|done]. split; [done|].
    intros ns [= <-]. rewrite (Hfin l eq_refl), fmap_cons, Hid. by rewrite <- !(assoc_L (++)).
  - destruct He as [c' ->]. exists c'.
    destruct (handle_event_any C_EVENT_CODE_NO_FIND_NID task [VaStr nid]) as [m Em].
    by rewrite !Em.
Qed.
End fill.

Lemma fresh_slot (pre : list string) (preP : list Node) m :
  length preP = length pre ->
  default Node_default ((preP ++ replicate (S m) Node_default) !! length pre) = Node_default.
Proof. intros H. by rewrite lookup_app_r, H, Nat.sub_diag by lia. Qed.

Definition data_state (c : ChannelConfig) (pre : list string) (preP : list Node) (m : nat) : ChannelConfig :=
  set_task_nodes (list_to_set pre ∪ task_nodes_ c)
    (set_data_P (preP ++ replicate m Node_default)
      (set_data_nodes (pre ++ replicate m "") c)).
Definition result_state (c : ChannelConfig) (pre : list string) (preP : list Node) (m : nat) : ChannelConfig :=
  set_task_nodes (list_to_set pre ∪ task_nodes_ c)
    (set_result_P (preP ++ replicate m Node_default)
      (set_result_nodes (pre ++ replicate m "") c)).
Definition compute_state (c : ChannelConfig) (pre : list string) (preP : list Node) (m : nat) : ChannelConfig :=
  set_task_nodes (list_to_set pre ∪ task_nodes_ c) (set_compute_P (preP ++ replicate m Node_default) c).

(** The end of an entry: the slot is filled when the node is known. *)
Ltac fill_slot c pre preP m nid :=
  rewrite fresh_slot, copy_known_node_spec by done;
  repeat match goal with
  | |- context [node_info_config_ ?d !! nid] =>
      lazymatch d with c => fail | _ => change (node_info_config_ d) with (node_info_config_ c) end
  end;
  destruct (node_info_config_ c !! nid) as [n|];
  [ rewrite add_task_node_spec; cbn [replicate]; rewrite ?(insert_slot pre) by done;
    unfold data_state, result_state, compute_state; rewrite <- add_id;
    by rewrite <- (insert_slot preP _ Node_default n (length pre)) by done
  | let e := fresh "e" in let Ee := fresh "Ee" in
    destruct (handle_event_any C_EVENT_CODE_NO_FIND_NID (task_id_ c) [VaStr nid]) as [e Ee];
    setoid_rewrite Ee; by eexists ].

Lemma data_entry c pre preP m x :
  table_ok (node_info_config_ c) -> length preP = length pre ->
  match as_string x with
  | Err e => exists c', parse_data_entry SSL_TYPE (length pre, x) (data_state c pre preP (S m)) = (Err e, c')
  | Ok nid =>
      match node_info_config_ c !! nid with
      | Some n => parse_data_entry SSL_TYPE (length pre, x) (data_state c pre preP (S m)) =
                    (Ok tt, data_state c (pre ++ [nid]) (preP ++ [n]) m)
      | None => exists c', parse_data_entry SSL_TYPE (length pre, x) (data_state c pre preP (S m)) =
          (HANDLE_EXCEPTION_EVENT C_EVENT_CODE_NO_FIND_NID (task_id_ c) [VaStr nid], c')
      end
  end.
Proof.
  intros Ht Hl. unfold parse_data_entry, lift, modify, gets. cbv [mbind M_bind].
  destruct (as_string x) as [nid|e]; [|by eexists].
  change (data_P (set_data_nodes _ (data_state c pre preP (S m)))) with (preP ++ replicate (S m) Node_default).
  change (data_nodes_ (data_state c pre preP (S m))) with (pre ++ replicate (S m) "").
  fill_slot c pre preP m nid.
Qed.

Lemma result_entry c pre preP m x :
  table_ok (node_info_config_ c) -> length preP = length pre ->
  match as_string x with
  | Err e => exists c', parse_result_entry SSL_TYPE (length pre, x) (result_state c pre preP (S m)) = (Err e, c')
  | Ok nid =>
      match node_info_config_ c !! nid with
      | Some n => parse_result_entry SSL_TYPE (length pre, x) (result_state c pre preP (S m)) =
                    (Ok tt, result_state c (pre ++ [nid]) (preP ++ [n]) m)
      | None => exists c', parse_result_entry SSL_TYPE (length pre, x) (result_state c pre preP (S m)) =
          (HANDLE_EXCEPTION_EVENT C_EVENT_CODE_NO_FIND_NID (task_id_ c) [VaStr nid], c')
      end
  end.
Proof.
  intros Ht Hl. unfold parse_result_entry, lift, modify, gets. cbv [mbind M_bind].
  destruct (as_string x) as [nid|e]; [|by eexists].
  change (result_P (set_result_nodes _ (result_state c pre preP (S m)))) with (preP ++ replicate (S m) Node_default).
  change (result_nodes_ (result_state c pre preP (S m))) with (pre ++ replicate (S m) "").
  fill_slot c pre preP m nid.
Qed.

Lemma compute_entry c pre preP m nid :
  table_ok (node_info_config_ c) -> length preP = length pre ->
  match node_info_config_ c !! nid with
  | Some n => parse_compute_entry SSL_TYPE (length pre, nid) (compute_state c pre preP (S m)) =
                (Ok tt, compute_state c (pre ++ [nid]) (preP ++ [n]) m)
  | None => exists c', parse_compute_entry SSL_TYPE (length pre, nid) (compute_state c pre preP (S m)) =
      (HANDLE_EXCEPTION_EVENT C_EVENT_CODE_NO_FIND_NID (task_id_ c) [VaStr nid], c')
  end.
Proof.
  intros Ht Hl. unfold parse_compute_entry, gets, modify. cbv [mbind M_bind].
  change (compute_P (compute_state c pre preP (S m))) with (preP ++ replicate (S m) Node_default).
  fill_slot c pre preP m nid.
Qed.

(** * The parsers of the three groups *)
Definition listed (ms : list (string * json)) (key : string) : list json :=
  match find_member ms key with Some (JArray l) => l | _ => [] end.
Definition members (ms : list (string * json)) (key : string) : list (string * json) :=
  match find_member ms key with Some (JObject l) => l | _ => [] end.

Lemma has_array ms key :
  has_such IsArray (JObject ms) key =
    Ok (match find_member ms key with Some (JArray _) => true | _ => false end).
Proof. cbn. destruct (find_member ms key) as [v|]; [|done]. by destruct v. Qed.
Lemma has_object ms key :
  has_such IsObject (JObject ms) key =
    Ok (match find_member ms key with Some (JObject _) => true | _ => false end).
Proof. cbn. destruct (find_member ms key) as [v|]; [|done]. by destruct v. Qed.

Definition done_when {A} (r : result A) : result bool := match r with Ok _ => Ok true | Err e => Err e end.

Lemma parse_data_spec ms c :
  table_ok (node_info_config_ c) -> data_nodes_ c = [] -> data_P c = [] ->
  let r := resolve (node_info_config_ c) (task_id_ c) (as_string <$> listed ms "DATA_NODES") in
  exists c', parse_data SSL_TYPE (JObject ms) c = (done_when r, c') /\
    forall ns, r = Ok ns -> c' = data_state c (NODE_ID <$> ns) ns 0.
Proof.
  intros Ht HN HP. cbv zeta. unfold parse_data, lift. cbv [mbind M_bind]. rewrite has_array.
  assert (data_state c (NODE_ID <$> []) [] 0 = c) as Hid.
  { unfold data_state. cbn. destruct c; cbn in *; subst. by rewrite union_empty_l_L. }
  unfold listed. cbn [json_member].
  destruct (find_member ms "DATA_NODES") as [v|]; [destruct v|];
    try (exists c; split; [done|]; cbn [fmap list_fmap resolve]; intros ns [= <-]; by rewrite Hid).
  destruct (fill_loop as_string (parse_data_entry SSL_TYPE) _ (task_id_ c) Ht (data_state c)
    (fun pre preP m x => data_entry c pre preP m x Ht) l [] [] eq_refl) as (c' & Hrun & Hfin).
  cbn [json_elements]. cbv beta iota delta [modify resize_vec mret M_ret].
  lazymatch goal with |- context [for_each _ _ ?c0] =>
    assert (c0 = data_state c [] [] (length l)) as -> end.
  { clear -HN HP. destruct c; cbn in *; subst. unfold data_state; cbn.
    by rewrite !take_nil, !Nat.sub_0_r, union_empty_l_L. }
  cbn [length] in Hrun. rewrite Hrun. exists c'. split; [by destruct (resolve _ _ _)|done].
Qed.
Lemma parse_result_spec ms c :
  table_ok (node_info_config_ c) -> result_nodes_ c = [] -> result_P c = [] ->
  let r := resolve (node_info_config_ c) (task_id_ c) (as_string <$> listed ms "RESULT_NODES") in
  exists c', parse_result SSL_TYPE (JObject ms) c = (done_when r, c') /\
    forall ns, r = Ok ns -> c' = result_state c (NODE_ID <$> ns) ns 0.
Proof.
  intros Ht HN HP. cbv zeta. unfold parse_result, lift. cbv [mbind M_bind]. rewrite has_array.
  assert (result_state c (NODE_ID <$> []) [] 0 = c) as Hid.
  { unfold result_state. cbn. destruct c; cbn in *; subst. by rewrite union_empty_l_L. }
  unfold listed. cbn [json_member].
  destruct (find_member ms "RESULT_NODES") as [v|]; [destruct v|];
    try (exists c; split; [done|]; cbn [fmap list_fmap resolve]; intros ns [= <-]; by rewrite Hid).
  destruct (fill_loop as_string (parse_result_entry SSL_TYPE) _ (task_id_ c) Ht (result_state c)
    (fun pre preP m x => result_entry c pre preP m x Ht) l [] [] eq_refl) as (c' & Hrun & Hfin).
  cbn [json_elements]. cbv beta iota delta [modify resize_vec mret M_ret].
  lazymatch goal with |- context [for_each _ _ ?c0] =>
    assert (c0 = result_state c [] [] (length l)) as -> end.
  { clear -HN HP. destruct c; cbn in *; subst. unfold result_state; cbn.
    by rewrite !take_nil, !Nat.sub_0_r, union_empty_l_L. }
  cbn [length] in Hrun. rewrite Hrun. exists c'. split; [by destruct (resolve _ _ _)|done].
Qed.

(** The parties, in the order of the document; the first failure is the outcome. *)
Fixpoint collect_parties (acc : gmap string Z) (ms : list (string * json)) : result (gmap string Z) :=
  match ms with
  | [] => Ok acc
  | (k, v) :: ms' => s ← as_string v; collect_parties (map_emplace (c_str k) (party_of s) acc) ms'
  end.

Lemma party_entry k v c :
  parse_party_entry (k, v) c =
    match as_string v with
    | Ok s => (Ok tt, set_compute_nodes (map_emplace (c_str k) (party_of s) (compute_nodes_ c)) c)
    | Err e => (Err e, c)
    end.
Proof. unfold parse_party_entry, lift. cbv [mbind M_bind fst snd]. by destruct (as_string v). Qed.

Lemma parties_loop ms c :
  exists c', for_each parse_party_entry ms c =
    (match collect_parties (compute_nodes_ c) ms with Ok _ => Ok tt | Err e => Err e end, c') /\
    forall m, collect_parties (compute_nodes_ c) ms = Ok m -> c' = set_compute_nodes m c.
Proof.
  revert c. induction ms as [|[k v] ms IH]; intros c; cbn [for_each collect_parties].
  { exists c. split; [done|]. intros m [= <-]. by destruct c. }
  cbv [mbind M_bind result_bind]. rewrite party_entry.
  destruct (as_string v) as [s|e]; [|by exists c].
  destruct (IH (set_compute_nodes (map_emplace (c_str k) (party_of s) (compute_nodes_ c)) c))
    as (c' & Hrun & Hfin). cbn in Hrun, Hfin. by exists c'.
Qed.

Lemma parse_compute_spec ms c :
  table_ok (node_info_config_ c) -> compute_nodes_ c = ∅ -> compute_P c = [] ->
  let r := (m ← collect_parties ∅ (members ms "COMPUTATION_NODES");
            ns ← resolve (node_info_config_ c) (task_id_ c) (Ok <$> (iter_map m).*1); Ok (m, ns)) in
  exists c', parse_compute SSL_TYPE (JObject ms) c = (done_when r, c') /\
    forall m ns, r = Ok (m, ns) -> c' = compute_state (set_compute_nodes m c) (NODE_ID <$> ns) ns 0.
Proof.
  intros Ht HN HP. cbv zeta. unfold parse_compute, lift. cbv [mbind M_bind]. rewrite has_object.
  assert (compute_state (set_compute_nodes ∅ c) (NODE_ID <$> []) [] 0 = c) as Hid.
  { unfold compute_state. cbn. destruct c; cbn in *; subst. by rewrite union_empty_l_L. }
  unfold members. cbn [json_member].
  destruct (find_member ms "COMPUTATION_NODES") as [v|]; [destruct v as [| | | | |l|l]|];
    try (exists c; cbn [collect_parties result_bind mbind];
         change (iter_map (∅ : gmap string Z)) with (@nil (string * Z)); split; [done|];
         cbn [fmap list_fmap resolve result_bind mbind]; intros m ns [= <- <-]; by rewrite Hid).
  cbn [json_members]. destruct (parties_loop l c) as (c1 & Hp & Hp'). rewrite HN in Hp, Hp'.
  rewrite Hp. destruct (collect_parties ∅ l) as [m|e]; [|by exists c1]. cbn [result_bind].
  rewrite (Hp' m eq_refl). set (c2 := set_compute_nodes m c).
  destruct (fill_loop Ok (parse_compute_entry SSL_TYPE) _ (task_id_ c) Ht (compute_state c2)
    (fun pre preP m' x => compute_entry c2 pre preP m' x Ht) (iter_map m).*1 [] [] eq_refl) as (c' & Hrun & Hfin).
  cbv beta iota delta [gets modify resize_vec mret M_ret].
  change (compute_nodes_ c2) with m. rewrite length_fmap, length_iter_map in Hrun.
  lazymatch goal with |- context [for_each _ _ ?c0] =>
    assert (c0 = compute_state c2 [] [] (base.size m)) as -> end.
  { unfold c2. clear -HP. destruct c; cbn in *; subst. unfold compute_state; cbn.
    by rewrite !take_nil, !Nat.sub_0_r, union_empty_l_L. }
  cbn [length] in Hrun. rewrite Hrun. exists c'.
  destruct (resolve _ _ _) as [ns|e]; [|done]. split; [done|]. intros ? ? [= <- <-]. by apply Hfin.
Qed.

(** * The tables *)
Lemma emplace_fmap {V W} (f : V -> W) k v (m : gmap string V) :
  map_emplace k (f v) (f <$> m) = f <$> map_emplace k v m.
Proof.
  unfold map_emplace. rewrite lookup_fmap. destruct (m !! k); cbn; [done|]. by rewrite fmap_insert.
Qed.

Record tables_agree (c : ChannelConfig) : Prop := {
  tables_ids : table_ok (node_info_config_ c);
  tables_via : nodeid_to_via_ c = VIA <$> node_info_config_ c;
  tables_glacier2 : nodeid_to_glacier2_ c = GRICER2 <$> node_info_config_ c;
  tables_icegrid : nodeid_to_icegrid_ c = ICEGRID <$> node_info_config_ c }.

Lemma parse_node_blank ca v n : parse_node SSL_TYPE ca v = Ok n -> sm_blank n.
Proof.
  unfold parse_node. intros H. repeat (apply bind_Ok in H as (? & _ & H)).
  unfold sm_blank. revert H. unfold gmssl. destruct (Z.eqb_spec 2 SSL_TYPE) as [<-|Hs]; [by left|].
  intros [= <-]. by right.
Qed.

Lemma emplace_table_ok n N : sm_blank n -> table_ok N -> table_ok (map_emplace (NODE_ID n) n N).
Proof.
  intros Hb Ht k n'. autorewrite with stdmap. case_decide; [|by apply Ht]. subst k.
  destruct (N !! NODE_ID n) as [n0|] eqn:E; cbn; intros [= <-]; [by apply Ht|done].
Qed.

(** What a fresh object has, before the groups are read. *)
Record before_groups (c : ChannelConfig) : Prop := {
  bg_tables : tables_agree c;
  bg_data : data_nodes_ c = [] /\ data_P c = [];
  bg_compute : compute_nodes_ c = ∅ /\ compute_P c = [];
  bg_result : result_nodes_ c = [] /\ result_P c = [];
  bg_task : task_nodes_ c = ∅;
  bg_policy : map_policy_ c = ∅;
  bg_log : 0 <= log_level_ c }.

Lemma before_groups_default : before_groups ChannelConfig_default.
Proof. by split. Qed.

Definition ready (c : ChannelConfig) : Prop := before_groups c /\ log_level_ c <= 2.

Lemma node_entry_keeps ca v : triple ready (parse_node_entry SSL_TYPE ca v) (fun _ => ready).
Proof.
  unfold parse_node_entry. eapply triple_bind; [apply triple_lift|]. intros n.
  intros s a s' [[[Ht Hd Hc Hr HT Hp Hl] Hlog] Hn] [= <- <-].
  destruct Ht as [Hi Hv Hg Hig]. split; [|done]. split; try done. split; cbn.
  - apply emplace_table_ok; [by eapply parse_node_blank|done].
  - by rewrite Hv, emplace_fmap.
  - by rewrite Hg, emplace_fmap.
  - by rewrite Hig, emplace_fmap.
Qed.

Ltac same_groups := intros c [[[? ? ? ?] ? ? ? ? ? ?] ?]; split; [split; [split|..]|]; done.

Lemma parse_node_info_keeps doc :
  triple ready (parse_node_info SSL_TYPE doc) (fun _ => ready).
Proof.
  unfold parse_node_info, parse_via_entry, parse_glacier2_entry, parse_icegrid_entry. 
  keeps using (first [apply node_entry_keeps | case_match]); apply triple_modify; same_groups.
Qed.

Lemma parse_settings_keeps doc :
  triple before_groups (parse_settings doc) (fun _ => ready).
Proof.
  unfold parse_settings. keeps;
    try (apply triple_modify; intros c [[? ? ? ?] ? ? ? ? ? ?]; split; [split|..]; try done;
         cbn; apply Z.mod_pos_bound; lia).
  intros c x c' [[? ? ? ?] ? ? ? ? ? ?] [= _ <-]. unfold ready. destruct (Z.ltb_spec 2 (log_level_ c));
    (split; [split; [split|..]|]); done || lia.
Qed.

(** * The configuration as a whole *)
Record config_wf (c : ChannelConfig) : Prop := {
  wf_tables : tables_agree c;
  wf_data : describes (node_info_config_ c) (data_nodes_ c) (data_P c);
  wf_compute : describes (node_info_config_ c) (iter_map (compute_nodes_ c)).*1 (compute_P c);
  wf_result : describes (node_info_config_ c) (result_nodes_ c) (result_P c);
  wf_task : task_nodes_ c = list_to_set (data_nodes_ c) ∪ dom (compute_nodes_ c) ∪ list_to_set (result_nodes_ c);
  wf_log : 0 <= log_level_ c <= 2 }.

Lemma described N task xs ns (HN : table_ok N) :
  resolve N task xs = Ok ns -> describes N (NODE_ID <$> ns) ns.
Proof. intros (ids & -> & Hd)%resolve_inv. by rewrite (describes_ids _ _ _ HN Hd). Qed.

Lemma dom_keys (m : gmap string Z) : list_to_set (iter_map m).*1 =@{gset string} dom m.
Proof.
  apply set_eq. intros k. rewrite elem_of_list_to_set, list_elem_of_fmap, elem_of_dom. split.
  - intros ([k' v] & -> & H%elem_of_iter_map). by eexists.
  - intros [v H]. exists (k, v). by rewrite elem_of_iter_map.
Qed.

Lemma data_stage ms :
  triple ready (parse_data SSL_TYPE (JObject ms))
    (fun _ c => exists c0 ns, before_groups c0 /\ log_level_ c0 <= 2 /\
       describes (node_info_config_ c0) (NODE_ID <$> ns) ns /\ c = data_state c0 (NODE_ID <$> ns) ns 0).
Proof.
  intros c ok c' [Hb Hl] Hrun. pose proof Hb as [[Hi ? ? ?] [? ?] ? ? ? ? ?].
  destruct (parse_data_spec ms c) as (c1 & E & Hfin); [done..|]. rewrite E in Hrun.
  destruct (resolve _ _ _) as [ns|e] eqn:Er; [|done]. injection Hrun as _ <-.
  exists c, ns. repeat (split; [done|]). split; [by eapply described|]. by apply Hfin.
Qed.

(** From the object after [parse_data] to the end of [parse_result]. *)
Lemma groups_stage ms c0 ns :
  before_groups c0 -> log_level_ c0 <= 2 -> describes (node_info_config_ c0) (NODE_ID <$> ns) ns ->
  triple (fun c => c = data_state c0 (NODE_ID <$> ns) ns 0)
    (_ ← parse_compute SSL_TYPE (JObject ms); parse_result SSL_TYPE (JObject ms)) (fun _ => config_wf).
Proof.
  intros [[Hi Hv Hg Hig] [Hd1 Hd2] [Hc1 Hc2] [Hr1 Hr2] HT Hp Hl] Hl2 Hdata c ok c3 ->.
  destruct (parse_compute_spec ms (data_state c0 (NODE_ID <$> ns) ns 0)) as (c1 & E1 & F1); [done..|].
  cbv [mbind M_bind]. rewrite E1. clear E1. cbv zeta in F1.
  change (node_info_config_ (data_state _ _ _ _)) with (node_info_config_ c0) in F1 |- *.
  change (task_id_ (data_state _ _ _ _)) with (task_id_ c0) in F1 |- *.
  destruct (collect_parties ∅ _) as [m|e]; [|done]. cbn [mbind result_bind] in F1 |- *.
  destruct (resolve (node_info_config_ c0) _ (Ok <$> _)) as [cs|e] eqn:Ec; [|done].
  specialize (F1 m cs eq_refl). subst c1. cbn [done_when result_bind mbind].
  apply resolve_inv in Ec as (ids & Hids & Hcs). apply list_fmap_eq_inj in Hids; [|by intros ?? [=]].
  subst ids. pose proof (describes_ids _ _ _ Hi Hcs) as Hcids.
  destruct (parse_result_spec ms (compute_state (set_compute_nodes m (data_state c0 (NODE_ID <$> ns) ns 0))
    (NODE_ID <$> cs) cs 0)) as (c2 & E2 & F2); [done..|]. rewrite E2.
  destruct (resolve _ _ _) as [rs|e] eqn:Er; [|done]. specialize (F2 rs eq_refl). subst c2.
  intros [= _ <-]. split.
  - done.
  - cbn. by rewrite !app_nil_r.
  - cbn. by rewrite !app_nil_r.
  - cbn. rewrite !app_nil_r. by eapply described.
  - cbn. rewrite HT, !app_nil_r, Hcids, dom_keys. set_solver.
  - done.
Qed.

Lemma parse_policy_keeps doc : triple config_wf (parse_policy doc) (fun _ => config_wf).
Proof.
  unfold parse_policy, parse_policy_entry.
  keeps; apply triple_modify; intros c [[? ? ? ?] ? ? ? ? ?]; split; [split|..]; done.
Qed.

Lemma set_node_id_wf nid c : config_wf c -> config_wf (set_node_id nid c).
Proof. intros [[? ? ? ?] ? ? ? ? ?]; split; [split|..]; done. Qed.

(** The groups and the policy, on an object of the document. *)
Lemma parse_groups_wf ms :
  triple ready
    (ok ← parse_data SSL_TYPE (JObject ms);
     if negb ok then mret false else
     ok ← parse_compute SSL_TYPE (JObject ms);
     if negb ok then mret false else
     ok ← parse_result SSL_TYPE (JObject ms);
     if negb ok then mret false else
     ok ← parse_policy (JObject ms);
     if negb ok then mret false else mret true)
    (fun ok c => ok = true -> config_wf c).
Proof.
  eapply triple_bind; [apply data_stage|]. intros ok1. destruct ok1; [|by intros c b c' _ [= <- _]].
  intros c b c' (c0 & ns & Hb & Hl & Hd & Hc) H. cbn [negb] in H.
  apply M_bind_Ok in H as (ok2 & c2 & E2 & H).
  destruct ok2; [|by injection H as <- _].
  apply M_bind_Ok in H as (ok3 & c3 & E3 & H). destruct ok3; [|by injection H as <- _].
  apply M_bind_Ok in H as (ok4 & c4 & E4 & H). intros _.
  assert (config_wf c3) as H3.
  { apply (groups_stage ms c0 ns Hb Hl Hd c true c3 Hc). apply M_bind_Ok. by exists true, c2. }
  assert (config_wf c4) as H4 by (by eapply parse_policy_keeps). by destruct ok4; injection H as _ <-.
Qed.

Lemma parse_wf doc : triple before_groups (parse SSL_TYPE doc) (fun ok c => ok = true -> config_wf c).
Proof.
  unfold parse. eapply triple_bind; [apply parse_settings_keeps|]. intros _x.
  destruct doc as [| | | | | |ms]; [by intros ? ? ? ? [=]..|].
  eapply triple_bind; [apply parse_node_info_keeps|]. intros _y. apply parse_groups_wf.
Qed.

(** ** One certificate authority

    Every description carries the root certificate of the document, which is also
    that of the object: the two ends of a connection agree on whether to use SSL. *)
Definition one_ca (c : ChannelConfig) : Prop :=
  map_Forall (fun _ n => CA_CERT_PATH n = root_cert_ c) (node_info_config_ c).

Lemma parse_node_ca ca v n : parse_node SSL_TYPE ca v = Ok n -> CA_CERT_PATH n = ca.
Proof.
  unfold parse_node. intros H. repeat (apply bind_Ok in H as (? & _ & H)).
  destruct (gmssl SSL_TYPE); [repeat (apply bind_Ok in H as (? & _ & H))|]; by injection H as <-.
Qed.

Lemma root_again doc r : GetString doc "ROOT_CERT" "" false = Ok r -> GetString doc "ROOT_CERT" (c_str r) false = Ok r.
Proof.
  rewrite !GetString_spec. destruct doc; try done. destruct (find_member ms "ROOT_CERT"); [done|].
  by intros [= <-].
Qed.

Definition root_read (doc : json) (c : ChannelConfig) : Prop :=
  node_info_config_ c = ∅ /\ GetString doc "ROOT_CERT" "" false = Ok (root_cert_ c).

Lemma parse_settings_root doc :
  triple (fun c => node_info_config_ c = ∅) (parse_settings doc) (fun _ => root_read doc).
Proof.
  unfold parse_settings. do 2 (apply triple_seq; [by keeps; apply triple_modify|intros ?]).
  eapply triple_bind; [apply triple_lift|]. intros r.
  eapply (triple_bind _ _ (fun _ => root_read doc)); [by intros c ? c' [? ?] [= <- <-]|]. intros ?.
  keeps; apply triple_modify; intros c []; try case_match; done.
Qed.

Lemma node_entry_ca ca v :
  triple (fun c => one_ca c /\ root_cert_ c = ca) (parse_node_entry SSL_TYPE ca v) (fun _ c => one_ca c /\ root_cert_ c = ca).
Proof.
  unfold parse_node_entry. eapply triple_bind; [apply triple_lift|]. intros n c ? c' [[Hc Hr] Hn] [= _ <-].
  split; [|done]. intros k n'. cbn. autorewrite with stdmap. case_decide; [|by apply Hc].
  intros [= <-]. destruct (node_info_config_ c !! NODE_ID n) as [n0|] eqn:E; cbn; [by apply (Hc _ _ E)|].
  rewrite Hr. by eapply parse_node_ca.
Qed.

Lemma parse_node_info_ca doc : triple (root_read doc) (parse_node_info SSL_TYPE doc) (fun _ => one_ca).
Proof.
  unfold parse_node_info, parse_via_entry, parse_glacier2_entry, parse_icegrid_entry.
  apply triple_seq; [apply triple_lift_any|]. intros has.
  apply triple_if; [|intros c ? c' [Hn _] [= _ <-]; unfold one_ca; rewrite Hn; apply map_Forall_empty].
  apply triple_seq; [apply triple_lift_any|]. intros Nodes.
  eapply (triple_bind _ _ (fun r c => root_read doc c /\ r = root_cert_ c)); [by intros c ? c' ? [= <- <-]|].
  intros r. eapply triple_bind; [apply triple_lift|]. intros ca.
  eapply (triple_conseq _ (fun c => one_ca c /\ root_cert_ c = ca) _ _ (fun _ c => one_ca c /\ root_cert_ c = ca)).
  - intros c [[[Hn Hr] ->] Hca]. rewrite (root_again _ _ Hr) in Hca. injection Hca as <-.
    split; [|done]. unfold one_ca. rewrite Hn. apply map_Forall_empty.
  - by intros ? ? [].
  - keeps using (first [apply node_entry_ca | case_match]); by apply triple_modify.
Qed.

(** The groups and the policy leave the descriptions alone. *)
Lemma groups_keep_ca doc :
  triple one_ca
    (ok ← parse_data SSL_TYPE doc;
     if negb ok then mret false else
     ok ← parse_compute SSL_TYPE doc;
     if negb ok then mret false else
     ok ← parse_result SSL_TYPE doc;
     if negb ok then mret false else
     ok ← parse_policy doc;
     if negb ok then mret false else mret true)
    (fun _ => one_ca).
Proof.
  unfold parse_data, parse_compute, parse_result, parse_policy, parse_data_entry, parse_party_entry,
    parse_compute_entry, parse_result_entry, parse_policy_entry, copy_known_node, add_task_node.
  keeps using (first [match goal with p : (_ * _)%type |- _ => destruct p end | case_match]);
    apply triple_modify; intros c Hc; try case_decide; done.
Qed.

Lemma parse_one_ca doc : triple (fun c => node_info_config_ c = ∅) (parse SSL_TYPE doc) (fun _ => one_ca).
Proof.
  unfold parse. eapply triple_bind; [apply parse_settings_root|]. intros _x.
  eapply triple_bind; [apply parse_node_info_ca|]. intros _y. apply groups_keep_ca.
Qed.

(** ** The node a configuration is loaded for

    Reading a document neither looks at nor changes [node_id_], so two nodes that
    read one document get the same configuration up to that field. *)
Definition ignores_id {A} (m : cfgM A) : Prop :=
  forall x c, m (set_node_id x c) = ((m c).1, set_node_id x (m c).2).

Lemma ignores_ret {A} (a : A) : ignores_id (mret a).
Proof. done. Qed.
Lemma ignores_lift {A} (r : result A) : ignores_id (lift r).
Proof. done. Qed.
Lemma ignores_bind {A B} (m : cfgM A) (f : A -> cfgM B) :
  ignores_id m -> (forall a, ignores_id (f a)) -> ignores_id (m ≫= f).
Proof.
  intros Hm Hf x c. cbv [mbind M_bind]. rewrite Hm. destruct (m c) as [[a|e] c1]; cbn; [apply Hf|done].
Qed.
Lemma ignores_gets {A} (f : ChannelConfig -> A) : (forall x c, f (set_node_id x c) = f c) -> ignores_id (gets f).
Proof. intros Hf x c. unfold gets. by rewrite Hf. Qed.
Lemma ignores_modify f : (forall x c, f (set_node_id x c) = set_node_id x (f c)) -> ignores_id (modify f).
Proof. intros Hf x c. unfold modify. by rewrite Hf. Qed.
Lemma ignores_for_each {A} (body : A -> cfgM unit) l : (forall a, ignores_id (body a)) -> ignores_id (for_each body l).
Proof. intros Hb. induction l as [|a l IH]; cbn; [apply ignores_ret|]. by apply ignores_bind. Qed.
Lemma ignores_copy nid dst : ignores_id (copy_known_node SSL_TYPE nid dst).
Proof.
  intros x c. unfold copy_known_node, gets. cbv [mbind M_bind id]. cbn.
  by destruct (node_info_config_ c !! nid).
Qed.

Ltac ignores :=
  repeat first
    [ match goal with p : (_ * _)%type |- _ => destruct p end
    | case_match | apply ignores_ret | apply ignores_lift | apply ignores_copy
    | apply ignores_gets; done | apply ignores_modify; intros; try case_decide; try case_match; done
    | apply ignores_for_each; intros ? | apply ignores_bind; [|intros ?] ].

Lemma parse_ignores_id doc : ignores_id (parse SSL_TYPE doc).
Proof.
  unfold parse, parse_settings, parse_node_info, parse_data, parse_compute, parse_result, parse_policy,
    parse_node_entry, parse_via_entry, parse_glacier2_entry, parse_icegrid_entry, parse_data_entry,
    parse_party_entry, parse_compute_entry, parse_result_entry, parse_policy_entry, add_task_node.
  ignores. apply ignores_modify. intros x c.
  change (log_level_ (set_node_id x c)) with (log_level_ c). by destruct (2 <? log_level_ c).
Qed.

(** ** The table of descriptions *)
Definition first_with_id (k : string) (ns : list Node) : option Node :=
  head (filter (fun n => NODE_ID n = k) ns).

Lemma node_loop ca vs ns c :
  Forall2 (fun v n => parse_node SSL_TYPE ca v = Ok n) vs ns ->
  exists c', for_each (parse_node_entry SSL_TYPE ca) vs c = (Ok tt, c') /\
    forall k, node_info_config_ c' !! k =
      match node_info_config_ c !! k with Some n => Some n | None => first_with_id k ns end.
Proof.
  intros HF. revert c. induction HF as [|v n vs ns Hn _ IH]; intros c.
  { exists c. split; [done|]. intros k. by destruct (_ !! k). }
  cbn [for_each]. cbv [mbind M_bind].
  assert (parse_node_entry SSL_TYPE ca v c = (Ok tt, snd (parse_node_entry SSL_TYPE ca v c))) as Hv.
  { unfold parse_node_entry, lift, modify. cbv [mbind M_bind]. by rewrite Hn. }
  rewrite Hv. set (c1 := snd _).
  destruct (IH c1) as (c' & Hrun & Hfin). exists c'. split; [done|]. intros k. rewrite Hfin.
  assert (node_info_config_ c1 = map_emplace (NODE_ID n) n (node_info_config_ c)) as ->.
  { unfold c1, parse_node_entry, lift, modify. cbv [mbind M_bind]. by rewrite Hn. }
  autorewrite with stdmap. unfold first_with_id. rewrite filter_cons.
  case_decide as Hk.
  - subst k. rewrite decide_True by done. by destruct (_ !! NODE_ID n).
  - by rewrite decide_False.
Qed.
End loops.

(** * Properties *)
Section properties.
Context (SSL_TYPE : Z) (open_file : string -> option string) (Parse : string -> option json).

Lemma load_wf node_id text c :
  load SSL_TYPE open_file Parse node_id text ChannelConfig_default = (Ok true, c) ->
  config_wf SSL_TYPE c /\ one_ca c.
Proof.
  unfold load, modify. cbv [mbind M_bind]. destruct (Parse _) as [doc|]; [|done]. intros H. split.
  - eapply parse_wf; [|exact H|done]. by split.
  - by eapply parse_one_ca; [|exact H].
Qed.

Lemma make_ChannelConfig_ok node_id text c :
  make_ChannelConfig SSL_TYPE open_file Parse node_id text = Ok c ->
  config_wf SSL_TYPE c /\ one_ca c /\ node_id_ c = node_id /\
  exists c0, load SSL_TYPE open_file Parse node_id text ChannelConfig_default = (Ok true, c0) /\ c = set_node_id node_id c0.
Proof.
  unfold make_ChannelConfig. cbv [mbind M_bind].
  destruct (load SSL_TYPE open_file Parse node_id text ChannelConfig_default) as [[ok|e] c'] eqn:E; [|done].
  destruct ok; cbn -[HANDLE_EXCEPTION_EVENT].
  - intros [= <-]. destruct (load_wf node_id text c' E) as [Hw Hc].
    split; [by apply set_node_id_wf|]. split; [done|]. split; [done|]. by exists c'.
  - destruct (handle_event_any C_EVENT_CODE_PARSE_FILE "" []) as [e Ee]. unfold lift. by rewrite Ee.
Qed.

Lemma same_document a b text ca cb :
  make_ChannelConfig SSL_TYPE open_file Parse a text = Ok ca ->
  make_ChannelConfig SSL_TYPE open_file Parse b text = Ok cb -> cb = set_node_id b ca.
Proof.
  intros Ha Hb. destruct (make_ChannelConfig_ok _ _ _ Ha) as (_ & _ & _ & c1 & E1 & ->).
  destruct (make_ChannelConfig_ok _ _ _ Hb) as (_ & _ & _ & c2 & E2 & ->).
  revert E1 E2. unfold load, modify. cbv [mbind M_bind]. destruct (Parse _) as [doc|]; [|done].
  rewrite !(parse_ignores_id SSL_TYPE doc). by intros [= _ <-] [= _ <-].
Qed.

(** C23: Whatever document the constructor accepts, the object it builds is
    coherent: every description is stored under its own id, carries the document's
    root certificate, and the id-to-VIA, id-to-Glacier2 and id-to-IceGrid tables
    are its projections; the vectors of data, compute and result nodes hold, in
    order, the description of each node that was listed; the nodes of the task are
    exactly the listed ones; the log level is 0, 1 or 2; and the object is that of
    the node it was built for. *)
Theorem loaded_config_coherent node_id text c :
  make_ChannelConfig SSL_TYPE open_file Parse node_id text = Ok c ->
  config_wf SSL_TYPE c /\ one_ca c /\ node_id_ c = node_id.
Proof. intros H. by destruct (make_ChannelConfig_ok node_id text c H) as (? & ? & ? & _). Qed.

(** C33: A document that lists a data node NODE_INFO does not describe is refused:
    the constructor throws the event "node id not found" for the first such
    node, whatever follows it. *)
Theorem undescribed_node_refused node_id text ms c1 c2 pre nid post :
  open_file (c_str text) = None -> Parse (c_str text) = Some (JObject ms) ->
  parse_settings (JObject ms) (set_node_id node_id ChannelConfig_default) = (Ok tt, c1) ->
  parse_node_info SSL_TYPE (JObject ms) c1 = (Ok true, c2) ->
  as_string <$> listed ms "DATA_NODES" = (Ok <$> pre) ++ Ok nid :: post ->
  (forall k, k ∈ pre -> is_Some (node_info_config_ c2 !! k)) -> node_info_config_ c2 !! nid = None ->
  make_ChannelConfig SSL_TYPE open_file Parse node_id text =
    HANDLE_EXCEPTION_EVENT C_EVENT_CODE_NO_FIND_NID (task_id_ c2) [VaStr nid].
Proof.
  intros Ho Hp E1 E2 Hl Hpre Hnid. unfold make_ChannelConfig, load, parse, modify.
  cbv [mbind M_bind]. rewrite Ho, Hp, E1, E2.
  assert (ready SSL_TYPE c2) as [[[Hi ? ? ?] [? ?] ? ? ? ? ?] ?].
  { eapply parse_node_info_keeps; [|exact E2]. eapply parse_settings_keeps; [|exact E1]. by split. }
  destruct (parse_data_spec SSL_TYPE ms c2) as (c3 & E3 & _); [done..|].
  rewrite E3, Hl, resolve_unknown by done.
  destruct (handle_event_any C_EVENT_CODE_NO_FIND_NID (task_id_ c2) [VaStr nid]) as [e Ee].
  by rewrite !Ee.
Qed.

End properties.

(** ** Examples *)
Definition node_json (nid address : string) : json :=
  JObject [("NODE_ID", JString nid); ("ADDRESS", JString address); ("VIA", JString "v")].
Definition sample_doc (data : list json) : list (string * json) :=
  [("TASK_ID", JString "t"); ("LOG_LEVEL", JInt 7);
   ("NODE_INFO", JArray [node_json "b" "1:2"; node_json "a" "3:4"; node_json "b" "5:6"]);
   ("DATA_NODES", JArray data); ("COMPUTATION_NODES", JObject [("b", JString "P1"); ("a", JString "P0")]);
   ("RESULT_NODES", JArray [JString "a"])].

Lemma loaded_config_coherent_witness :
  exists c, make_ChannelConfig 0 (fun _ => None) (fun _ => Some (JObject (sample_doc [JString "b"]))) "a" "{}" = Ok c /\
    (config_wf 0 c /\ one_ca c /\ node_id_ c = "a") /\ ADDRESS <$> data_P c = ["1:2"] /\ log_level_ c = 2.
Proof.
  eexists. split; [vm_compute; reflexivity|]. split; [|vm_compute; by split].
  apply (loaded_config_coherent 0 (fun _ => None) (fun _ => Some (JObject (sample_doc [JString "b"]))) "a" "{}").
  vm_compute. reflexivity.
Defined.

Lemma undescribed_node_refused_witness :
  make_ChannelConfig 0 (fun _ => None) (fun _ => Some (JObject (sample_doc [JString "b"; JString "z"]))) "a" "{}" =
    HANDLE_EXCEPTION_EVENT C_EVENT_CODE_NO_FIND_NID "t" [VaStr "z"].
Proof.
  refine (undescribed_node_refused 0 (fun _ => None) (fun _ => Some (JObject (sample_doc [JString "b"; JString "z"])))
    "a" "{}" (sample_doc [JString "b"; JString "z"]) _ _ ["b"] "z" [] _ _ _ _ _ _ _);
    [reflexivity|reflexivity|vm_compute; reflexivity|vm_compute; reflexivity|reflexivity| |vm_compute; reflexivity].
  intros k ->%list_elem_of_singleton. vm_compute. by eexists.
Defined.
