(* ===== verification/Policy.v ===== *)
(** Who talks to whom: the queries of ChannelConfig (config.cc) that tell a node
    its own description, its clients and its servers, and
    [IoChannelImpl::GetPolicy] (io_channel_impl.cc). *)
From S2P Require Import Prelude StdMap Timer Events Json ConfigData Config ConfigSpec.
From stdpp Require Import pretty.
From Stdlib Require Import Ascii.
#[local] Open Scope Z_scope.

(** * Looking a node up in the groups *)
(** [for (i = 0; i < P.size(); i++) if (node_id == P[i].NODE_ID) return ...] *)
Fixpoint find_node (node_id : string) (P : list Node) : option Node :=
  match P with
  | [] => None
  | n :: P' => if decide (node_id = NODE_ID n) then Some n else find_node node_id P'
  end.

Fixpoint node_index_from (node_id : string) (i : Z) (P : list Node) : Z :=
  match P with
  | [] => -1
  | n :: P' => if decide (node_id = NODE_ID n) then i else node_index_from node_id (i + 1) P'
  end.
Definition GetNodeIndex (node_id : string) (P : list Node) : Z := node_index_from node_id 0 P.

(** One element per position that holds the node. *)
Definition types_in (node_id : string) (t : NODE_TYPE) (P : list Node) : list NODE_TYPE :=
  flat_map (fun n => if decide (node_id = NODE_ID n) then [t] else []) P.
Definition GetNodeType (node_id : string) (c : ChannelConfig) : list NODE_TYPE :=
  types_in node_id NODE_TYPE_DATA (data_P c) ++
  types_in node_id NODE_TYPE_COMPUTE (compute_P c) ++
  types_in node_id NODE_TYPE_RESULT (result_P c).

Fixpoint isNodeType (vec_node_types : list NODE_TYPE) (nodeType : NODE_TYPE) : bool :=
  match vec_node_types with
  | [] => false
  | t :: ts => if decide (t = nodeType) then true else isNodeType ts nodeType
  end.

Definition GetNode (node_id : string) (c : ChannelConfig) : result Node :=
  match find_node node_id (data_P c) with
  | Some n => Ok n
  | None =>
      match find_node node_id (compute_P c) with
      | Some n => Ok n
      | None =>
          match find_node node_id (result_P c) with
          | Some n => Ok n
          | None => HANDLE_EXCEPTION_EVENT C_EVENT_CODE_NO_FIND_NID (task_id_ c) [VaStr node_id]
          end
      end
  end.

(** ** Printing *)
Definition newline : string := String "010"%char "".
Fixpoint nodes_text (i : Z) (P : list Node) : string :=
  match P with
  | [] => ""
  | n :: P' =>
      newline +:+ "        P" +:+ pretty i +:+ " NAME: " +:+ NAME n +:+
      newline +:+ "        P" +:+ pretty i +:+ " ADDRESS: " +:+ ADDRESS n +:+
      nodes_text (i + 1) P'
  end.
Definition to_string (P : list Node) : string := nodes_text 0 P +:+ newline.
Definition fmt_print (c : ChannelConfig) : string :=
  let rule := "=======================================" +:+ newline in
  rule +:+ "          node_id_: " +:+ node_id_ c +:+ newline +:+
  to_string (data_P c) +:+ to_string (compute_P c) +:+ to_string (result_P c) +:+ rule.

(** * Descriptions of the node itself and of its peers *)
(** [m[k]] where [m] is a field of the object: the key is inserted when missing. *)
Definition index_field {V} (get : ChannelConfig -> gmap string V)
    (set : gmap string V -> ChannelConfig -> ChannelConfig) (dflt : V) (k : string) : M ChannelConfig V :=
  fun c => let '(v, m) := map_index dflt k (get c) in (Ok v, set m c).

Section peers.
Context (SSL_TYPE : Z).

Definition CopyNodeInfo (node_info : NodeInfo) (nodeInfo : Node) : M ChannelConfig NodeInfo :=
  root_cert ← gets root_cert_;
  via_name ← index_field nodeid_to_via_ set_nodeid_to_via "" (NODE_ID nodeInfo);
  via_address ← index_field via_to_address_ set_via_to_address "" via_name;
  glacier2_name ← index_field nodeid_to_glacier2_ set_nodeid_to_glacier2 "" (NODE_ID nodeInfo);
  glacier2_info ← index_field glacier2_to_info_ set_glacier2_to_info IcePlugCfg_default glacier2_name;
  ice_grid_name ← index_field nodeid_to_icegrid_ set_nodeid_to_icegrid "" (NODE_ID nodeInfo);
  ice_grid_info ← index_field icegrid_to_info_ set_icegrid_to_info IcePlugCfg_default ice_grid_name;
  mret (mkNodeInfo (NODE_ID nodeInfo) (ADDRESS nodeInfo) (PUBLIC_IP nodeInfo) via_address
    glacier2_info ice_grid_info root_cert (CERT_DIR nodeInfo)
    (SERVER_KEY_PATH nodeInfo) (SERVER_CERT_PATH nodeInfo)
    (CLIENT_KEY_PATH nodeInfo) (CLIENT_CERT_PATH nodeInfo) (PASSWORD nodeInfo)
    (if gmssl SSL_TYPE then SERVER_SIGN_KEY_PATH nodeInfo else ni_server_sign_key_path_ node_info)
    (if gmssl SSL_TYPE then SERVER_SIGN_CERT_PATH nodeInfo else ni_server_sign_cert_path_ node_info)
    (if gmssl SSL_TYPE then SERVER_ENC_KEY_PATH nodeInfo else ni_server_enc_key_path_ node_info)
    (if gmssl SSL_TYPE then SERVER_ENC_CERT_PATH nodeInfo else ni_server_enc_cert_path_ node_info)
    (if gmssl SSL_TYPE then CLIENT_SIGN_KEY_PATH nodeInfo else ni_client_sign_key_path_ node_info)
    (if gmssl SSL_TYPE then CLIENT_SIGN_CERT_PATH nodeInfo else ni_client_sign_cert_path_ node_info)
    (if gmssl SSL_TYPE then CLIENT_ENC_KEY_PATH nodeInfo else ni_client_enc_key_path_ node_info)
    (if gmssl SSL_TYPE then CLIENT_ENC_CERT_PATH nodeInfo else ni_client_enc_cert_path_ node_info)).

Definition GetCertInfosFromNode (viaTmp : ViaInfo) (node : Node) : ViaInfo :=
  mkViaInfo (vi_id viaTmp) (vi_via_address viaTmp) (vi_via viaTmp) (vi_glacier2_info viaTmp)
    (if gmssl SSL_TYPE then CA_CERT_PATH node else SERVER_CERT_PATH node)
    (CA_CERT_PATH node) (CERT_DIR node)
    (CLIENT_KEY_PATH node) (CLIENT_CERT_PATH node) (PASSWORD node)
    (if gmssl SSL_TYPE then CLIENT_SIGN_KEY_PATH node else vi_client_sign_key_path_ viaTmp)
    (if gmssl SSL_TYPE then CLIENT_SIGN_CERT_PATH node else vi_client_sign_cert_path_ viaTmp)
    (if gmssl SSL_TYPE then CLIENT_ENC_KEY_PATH node else vi_client_enc_key_path_ viaTmp)
    (if gmssl SSL_TYPE then CLIENT_ENC_CERT_PATH node else vi_client_enc_cert_path_ viaTmp).

(** The object and the two sets passed by reference. *)
Definition peers : Type := ChannelConfig * gset string * via_set.
Definition on_config {A} (m : M ChannelConfig A) : M peers A := fun '(c, cl, sv) =>
  let '(r, c') := m c in (r, (c', cl, sv)).

Definition GetInfoByNodeId (node_id : string) : M peers bool :=
  found ← on_config (gets (fun c => node_info_config_ c !! node_id));
  task_id ← on_config (gets task_id_);
  match found with
  | None => lift (HANDLE_EXCEPTION_EVENT C_EVENT_CODE_NO_FIND_NID task_id [VaStr node_id])
  | Some node =>
      via ← on_config (index_field nodeid_to_via_ set_nodeid_to_via "" node_id);
      glacier2 ← on_config (index_field nodeid_to_glacier2_ set_nodeid_to_glacier2 "" node_id);
      info ← on_config (index_field glacier2_to_info_ set_glacier2_to_info IcePlugCfg_default glacier2);
      let viaTmp := GetCertInfosFromNode
        (mkViaInfo node_id (ADDRESS node) via info "" "" "" "" "" "" "" "" "" "") node in
      _ ← modify (fun '(c, cl, sv) => (c, {[node_id]} ∪ cl, via_emplace viaTmp sv));
      mret true
  end.

Definition GetAllNodeInfos (node_id : string) : M peers bool :=
  task_nodes ← on_config (gets task_nodes_);
  _ ← for_each (fun nid => if decide (node_id = nid) then mret tt
                           else _ ← GetInfoByNodeId nid; mret tt) (iter_set task_nodes);
  mret true.

(** One entry of the policy: the servers of the node itself, found with a
    scratch set of clients; another node that lists it is a client. *)
Definition policy_round (node_id : string) (m : string * gset string) : M peers unit :=
  _ ← (if decide (m.1 = node_id) then
         fun '(c, cl, sv) =>
           let '(r, (c', _, sv')) :=
             for_each (fun nid => _ ← GetInfoByNodeId nid; mret tt) (iter_set m.2) (c, ∅, sv) in
           (r, (c', cl, sv'))
       else mret tt);
  if decide (m.1 <> node_id /\ node_id ∈ m.2)
  then modify (fun '(c, cl, sv) => (c, {[m.1]} ∪ cl, sv))
  else mret tt.

Definition GetNodeInfos (node_id : string) : M peers bool :=
  policy ← on_config (gets map_policy_);
  if decide (size policy = O) then _ ← GetAllNodeInfos node_id; mret true
  else
    _ ← for_each (policy_round node_id) (iter_map policy);
    none ← gets (fun '(_, cl, sv) => bool_decide (cl = ∅ /\ sv = ∅));
    if none : bool
    then lift (HANDLE_EXCEPTION_EVENT C_EVENT_CODE_NEITHER_CLIENT_SERVER "" [VaStr node_id])
    else mret true.
End peers.

(** * [IoChannelImpl::GetPolicy] *)
Section get_policy.
Context (SSL_TYPE : Z) (open_file : string -> option string) (Parse : string -> option json).

Definition quote : string := String "034"%char "".

(** The ids of the servers, quoted and separated by commas. *)
Fixpoint server_ids (strSid : string) (l : list (string * ViaInfo)) : string :=
  match l with
  | [] => strSid
  | (_, v) :: l' =>
      let strSid := if decide (strSid = "") then strSid else strSid +:+ "," in
      server_ids (strSid +:+ quote +:+ vi_id v +:+ quote) l'
  end.

(** One task node: its entry is appended to [strPolicy]. *)
Definition policy_entry (nid : string) : M (ChannelConfig * string) unit := fun '(c, strPolicy) =>
  let strPolicy := (if decide (strPolicy = "") then strPolicy else strPolicy +:+ ",") +:+
                   quote +:+ nid +:+ quote +:+ ":" in
  match GetNodeInfos SSL_TYPE nid (c, ∅, ∅) with
  | (Err e, (c', _, _)) => (Err e, (c', strPolicy))
  | (Ok _, (c', _, serverInfos)) =>
      (Ok tt, (c', strPolicy +:+ "[" +:+ server_ids "" (iter_map serverInfos) +:+ "]"))
  end.

Definition GetPolicy (config_str : string) : result string :=
  config ← make_ChannelConfig_no_id SSL_TYPE open_file Parse config_str;
  match for_each policy_entry (iter_set (task_nodes_ config)) (config, "") with
  | (Err e, _) => Err e
  | (Ok _, (_, strPolicy)) => Ok ("{" +:+ strPolicy +:+ "}")
  end.
End get_policy.

(** * Observable equality of configurations

    [operator[]] leaves a default value behind; no query sees the difference. *)
Definition strip (c : ChannelConfig) : ChannelConfig :=
  set_nodeid_to_via ∅ (set_via_to_address ∅ (set_nodeid_to_glacier2 ∅
    (set_glacier2_to_info ∅ (set_nodeid_to_icegrid ∅ (set_icegrid_to_info ∅ c))))).

Definition same_table {V} (dflt : V) (m1 m2 : gmap string V) : Prop :=
  forall k, default dflt (m1 !! k) = default dflt (m2 !! k).

Record same_config (c c' : ChannelConfig) : Prop := {
  sc_rest : strip c = strip c';
  sc_via : same_table "" (nodeid_to_via_ c) (nodeid_to_via_ c');
  sc_address : same_table "" (via_to_address_ c) (via_to_address_ c');
  sc_glacier2 : same_table "" (nodeid_to_glacier2_ c) (nodeid_to_glacier2_ c');
  sc_glacier2_info : same_table IcePlugCfg_default (glacier2_to_info_ c) (glacier2_to_info_ c');
  sc_icegrid : same_table "" (nodeid_to_icegrid_ c) (nodeid_to_icegrid_ c');
  sc_icegrid_info : same_table IcePlugCfg_default (icegrid_to_info_ c) (icegrid_to_info_ c') }.

#[global] Instance same_table_equiv {V} (d : V) : Equivalence (same_table d).
Proof.
  split; unfold same_table; [done| |].
  - intros m1 m2 H k. by rewrite H.
  - intros m1 m2 m3 H1 H2 k. by rewrite H1.
Qed.
#[global] Instance same_config_equiv : Equivalence same_config.
Proof.
  split.
  - intros c. by split.
  - intros c c' []. by split.
  - intros c1 c2 c3 [] []. split; by etrans.
Qed.

(** Fields the relation does not mention are equal. *)
Lemma same_field {A} (f : ChannelConfig -> A) c c' :
  (forall d, f (strip d) = f d) -> same_config c c' -> f c = f c'.
Proof. intros Hf [H _ _ _ _ _ _]. by rewrite <- (Hf c), <- (Hf c'), H. Qed.
#[global] Instance node_info_config_same : Proper (same_config ==> eq) node_info_config_.
Proof. intros ??. by apply same_field. Qed.
#[global] Instance task_nodes_same : Proper (same_config ==> eq) task_nodes_.
Proof. intros ??. by apply same_field. Qed.
#[global] Instance task_id_same : Proper (same_config ==> eq) task_id_.
Proof. intros ??. by apply same_field. Qed.
#[global] Instance map_policy_same : Proper (same_config ==> eq) map_policy_.
Proof. intros ??. by apply same_field. Qed.

Lemma index_same {V} (d : V) k m : same_table d m (map_index d k m).2.
Proof. intros j. autorewrite with stdmap. case_decide; [|done]. by subst. Qed.

(** What [m[k]] reads, and that it changes nothing observable. *)
Definition reads {A} (m : M ChannelConfig A) (f : ChannelConfig -> A) : Prop :=
  forall c, exists c', m c = (Ok (f c), c') /\ same_config c c'.

Lemma index_reads {V} get set (d : V) k :
  (forall c m, same_table d (get c) m -> same_config c (set m c)) ->
  reads (index_field get set d k) (fun c => default d (get c !! k)).
Proof.
  intros H c. unfold index_field. destruct (map_index d k (get c)) as [v m] eqn:E.
  exists (set m c). split.
  - by rewrite <- (map_index_fst d k (get c)), E.
  - apply H. pose proof (index_same d k (get c)) as Hs. by rewrite E in Hs.
Qed.

Ltac field_set := intros; split; done.
Lemma reads_via k : reads (index_field nodeid_to_via_ set_nodeid_to_via "" k) (fun c => default "" (nodeid_to_via_ c !! k)).
Proof. apply index_reads. field_set. Qed.
Lemma reads_address k : reads (index_field via_to_address_ set_via_to_address "" k) (fun c => default "" (via_to_address_ c !! k)).
Proof. apply index_reads. field_set. Qed.
Lemma reads_glacier2 k : reads (index_field nodeid_to_glacier2_ set_nodeid_to_glacier2 "" k) (fun c => default "" (nodeid_to_glacier2_ c !! k)).
Proof. apply index_reads. field_set. Qed.
Lemma reads_glacier2_info k : reads (index_field glacier2_to_info_ set_glacier2_to_info IcePlugCfg_default k) (fun c => default IcePlugCfg_default (glacier2_to_info_ c !! k)).
Proof. apply index_reads. field_set. Qed.
Lemma reads_icegrid k : reads (index_field nodeid_to_icegrid_ set_nodeid_to_icegrid "" k) (fun c => default "" (nodeid_to_icegrid_ c !! k)).
Proof. apply index_reads. field_set. Qed.
Lemma reads_icegrid_info k : reads (index_field icegrid_to_info_ set_icegrid_to_info IcePlugCfg_default k) (fun c => default IcePlugCfg_default (icegrid_to_info_ c !! k)).
Proof. apply index_reads. field_set. Qed.
#[export] Hint Resolve reads_via reads_address reads_glacier2 reads_glacier2_info reads_icegrid reads_icegrid_info : channel.

Lemma reads_gets {A} (f : ChannelConfig -> A) : reads (gets f) f.
Proof. intros c. by exists c. Qed.
Lemma reads_ret {A} (a : A) : reads (mret a) (fun _ => a).
Proof. intros c. by exists c. Qed.
Lemma reads_bind {A B} (m : M ChannelConfig A) f (k : A -> M ChannelConfig B) g :
  reads m f -> (forall a, reads (k a) (g a)) -> (forall a, Proper (same_config ==> eq) (g a)) ->
  reads (m ≫= k) (fun c => g (f c) c).
Proof.
  intros Hm Hk Hg c. destruct (Hm c) as (c1 & E1 & H1). destruct (Hk (f c) c1) as (c2 & E2 & H2).
  exists c2. cbv [mbind M_bind]. rewrite E1, E2. split; [|by etrans]. by rewrite <- (Hg (f c) _ _ H1).
Qed.

(** * Reference definitions *)
Section reference.
Context (SSL_TYPE : Z).

Definition via_of (c : ChannelConfig) (nid : string) (node : Node) : ViaInfo :=
  GetCertInfosFromNode SSL_TYPE
    (mkViaInfo nid (ADDRESS node) (default "" (nodeid_to_via_ c !! nid))
      (default IcePlugCfg_default (glacier2_to_info_ c !! default "" (nodeid_to_glacier2_ c !! nid)))
      "" "" "" "" "" "" "" "" "" "") node.
(** How to reach [nid], when it is described. *)
Definition via_info_of (c : ChannelConfig) (nid : string) : option ViaInfo :=
  via_of c nid <$> node_info_config_ c !! nid.
(** The entries of the servers [s]. *)
Definition via_table (c : ChannelConfig) (s : gset string) : via_set :=
  map_imap (fun k _ => via_info_of c k) (gset_to_gmap tt s).

Definition servers_of (c : ChannelConfig) (self : string) : gset string :=
  if decide (map_policy_ c = ∅) then task_nodes_ c ∖ {[self]} else default ∅ (map_policy_ c !! self).
Definition clients_of (c : ChannelConfig) (self : string) : gset string :=
  if decide (map_policy_ c = ∅) then task_nodes_ c ∖ {[self]}
  else dom (filter (fun m => m.1 <> self /\ self ∈ m.2) (map_policy_ c)).

(** The event of the first node of [l] that is not described. *)
Fixpoint check_known (c : ChannelConfig) (l : list string) : result unit :=
  match l with
  | [] => Ok tt
  | nid :: l' =>
      match node_info_config_ c !! nid with
      | Some _ => check_known c l'
      | None => HANDLE_EXCEPTION_EVENT C_EVENT_CODE_NO_FIND_NID (task_id_ c) [VaStr nid]
      end
  end.

#[global] Instance via_info_of_same : Proper (same_config ==> eq ==> eq) via_info_of.
Proof.
  intros c c' H k ? <-. unfold via_info_of, via_of. rewrite (node_info_config_same _ _ H).
  destruct H as [_ Hv _ Hg Hgi _ _]. by rewrite Hv, Hg, Hgi.
Qed.
#[global] Instance check_known_same : Proper (same_config ==> eq ==> eq) check_known.
Proof.
  intros c c' H l ? <-. induction l as [|k l IH]; [done|]. cbn.
  by rewrite (node_info_config_same _ _ H), (task_id_same _ _ H), IH.
Qed.

Lemma via_info_id c k v : via_info_of c k = Some v -> vi_id v = k.
Proof. unfold via_info_of. destruct (_ !! k); [|done]. by intros [= <-]. Qed.

Lemma lookup_via_table c s k :
  via_table c s !! k = if decide (k ∈ s) then via_info_of c k else None.
Proof.
  unfold via_table. rewrite map_lookup_imap. case_decide as H.
  - by rewrite (proj2 (lookup_gset_to_gmap_Some () s k ()) (conj H eq_refl)).
  - by rewrite (proj2 (lookup_gset_to_gmap_None () s k) H).
Qed.

(** ** The calls implement them *)
Lemma on_config_reads {A} (m : M ChannelConfig A) f c cl sv :
  reads m f -> exists c', on_config m (c, cl, sv) = (Ok (f c), (c', cl, sv)) /\ same_config c c'.
Proof. intros H. destruct (H c) as (c' & E & Hs). exists c'. unfold on_config. by rewrite E. Qed.

Lemma GetInfoByNodeId_spec nid c cl sv :
  exists c', same_config c c' /\
    GetInfoByNodeId SSL_TYPE nid (c, cl, sv) =
      match via_info_of c nid with
      | Some v => (Ok true, (c', {[nid]} ∪ cl, map_emplace nid v sv))
      | None => (HANDLE_EXCEPTION_EVENT C_EVENT_CODE_NO_FIND_NID (task_id_ c) [VaStr nid], (c', cl, sv))
      end.
Proof.
  unfold GetInfoByNodeId, via_info_of. cbv [mbind M_bind]. unfold on_config at 1, gets at 1.
  unfold on_config at 1, gets at 1.
  destruct (node_info_config_ c !! nid) as [node|] eqn:E; [|by exists c].
  destruct (on_config_reads _ _ c cl sv (reads_via nid)) as (c1 & -> & H1).
  destruct (on_config_reads _ _ c1 cl sv (reads_glacier2 nid)) as (c2 & -> & H2).
  destruct (on_config_reads _ _ c2 cl sv (reads_glacier2_info (default "" (nodeid_to_glacier2_ c1 !! nid)))) as (c3 & -> & H3).
  exists c3. split; [by rewrite H1, H2|]. cbn. unfold via_of.
  rewrite (sc_glacier2 _ _ H1 nid). rewrite <- (sc_glacier2_info _ _ H2), <- (sc_glacier2_info _ _ H1).
  done.
Qed.

Definition info_step (nid : string) : M peers unit := _ ← GetInfoByNodeId SSL_TYPE nid; mret tt.

Lemma info_step_spec nid c cl sv :
  exists c', same_config c c' /\
    info_step nid (c, cl, sv) =
      match via_info_of c nid with
      | Some v => (Ok tt, (c', {[nid]} ∪ cl, map_emplace nid v sv))
      | None => (HANDLE_EXCEPTION_EVENT C_EVENT_CODE_NO_FIND_NID (task_id_ c) [VaStr nid], (c', cl, sv))
      end.
Proof.
  destruct (GetInfoByNodeId_spec nid c cl sv) as (c1 & Hs & E). exists c1. split; [done|].
  unfold info_step. cbv [mbind M_bind]. rewrite E.
  destruct (via_info_of c nid); [done|].
  destruct (handle_event_any C_EVENT_CODE_NO_FIND_NID (task_id_ c) [VaStr nid]) as [e Ee].
  by rewrite !Ee.
Qed.

(** A loop over ids: the sets it leaves are determined by the ids. *)
Lemma infos_loop l : forall c cl sv,
  exists c' cl' sv', for_each info_step l (c, cl, sv) = (check_known c l, (c', cl', sv')) /\
    same_config c c' /\
    (check_known c l = Ok tt -> cl' = list_to_set l ∪ cl /\
       forall k, sv' !! k = match sv !! k with
                            | Some v => Some v
                            | None => if decide (k ∈ l) then via_info_of c k else None
                            end).
Proof.
  induction l as [|nid l IH]; intros c cl sv; cbn [for_each check_known].
  { exists c, cl, sv. split; [done|]. split; [done|]. intros _. split; [set_solver|].
    intros k. destruct (sv !! k); [done|]. by rewrite decide_False by apply not_elem_of_nil. }
  cbv [mbind M_bind].
  destruct (info_step_spec nid c cl sv) as (c1 & Hs & ->).
  assert (via_info_of c nid = via_of c nid <$> node_info_config_ c !! nid) as Ev by done.
  destruct (node_info_config_ c !! nid) as [node|]; rewrite Ev; cbn in Ev |- *.
  - destruct (IH c1 ({[nid]} ∪ cl) (map_emplace nid (via_of c nid node) sv)) as (c' & cl' & sv' & E & Hs' & Hfin).
    rewrite <- (check_known_same _ _ Hs l l eq_refl) in *. exists c', cl', sv'.
    split; [done|]. split; [by rewrite Hs|]. intros Hk. destruct (Hfin Hk) as [-> Hsv].
    split; [cbn; set_solver|]. intros k. rewrite Hsv. autorewrite with stdmap.
    rewrite <- (via_info_of_same _ _ Hs k k eq_refl).
    destruct (decide (k = nid)) as [->|Hne].
    + destruct (sv !! nid); cbn; [done|]. by rewrite decide_True by set_solver.
    + destruct (sv !! k); [done|]. destruct (decide (k ∈ l)).
      * by rewrite decide_True by set_solver.
      * by rewrite decide_False by set_solver.
  - exists c1, cl, sv. destruct (handle_event_any C_EVENT_CODE_NO_FIND_NID (task_id_ c) [VaStr nid]) as [e Ee].
    by rewrite !Ee.
Qed.

(** The rounds over the entries of the policy. *)
Definition clients_in (self : string) (ms : list (string * gset string)) : gset string :=
  list_to_set (filter (fun m => m.1 <> self /\ self ∈ m.2) ms).*1.

Fixpoint check_rounds (c : ChannelConfig) (self : string) (ms : list (string * gset string)) : result unit :=
  match ms with
  | [] => Ok tt
  | m :: ms' => if decide (m.1 = self) then _ ← check_known c (iter_set m.2); check_rounds c self ms'
                else check_rounds c self ms'
  end.

Definition servers_in (self : string) (ms : list (string * gset string)) : gset string :=
  ⋃ (filter (fun m => m.1 = self) ms).*2.

Lemma policy_round_spec self m c cl sv :
  exists c' cl' sv', policy_round SSL_TYPE self m (c, cl, sv) =
      (if decide (m.1 = self) then check_known c (iter_set m.2) else Ok tt, (c', cl', sv')) /\
    same_config c c' /\
    ((if decide (m.1 = self) then check_known c (iter_set m.2) else Ok tt) = Ok tt ->
       cl' = clients_in self [m] ∪ cl /\
       forall k, sv' !! k = match sv !! k with
                            | Some v => Some v
                            | None => if decide (k ∈ servers_in self [m]) then via_info_of c k else None
                            end).
Proof.
  unfold policy_round, clients_in, servers_in. rewrite !filter_cons. cbv [mbind M_bind].
  destruct (decide (m.1 = self)) as [He|Hne].
  - destruct (infos_loop (iter_set m.2) c ∅ sv) as (c1 & cl1 & sv1 & E & Hs & Hfin).
    unfold info_step in E. cbv [mbind M_bind] in E. rewrite E.
    rewrite !(decide_False (P := m.1 <> self /\ self ∈ m.2)) by tauto.
    exists c1, cl, sv1.
    destruct (check_known c (iter_set m.2)) as [[]|e]; [|done]. split; [done|]. split; [done|].
    intros _. split; [cbn; set_solver|]. intros k. destruct (Hfin eq_refl) as [_ Hsv]. rewrite Hsv.
    destruct (sv !! k); [done|]. apply decide_ext. rewrite elem_of_iter_set. cbn. set_solver.
  - cbn. case_decide as Hc; cbn.
    + eexists c, _, sv. split; [done|]. split; [done|]. intros _. split; [set_solver|].
      intros k. destruct (sv !! k); [done|]. by rewrite decide_False by set_solver.
    + eexists c, cl, sv. split; [done|]. split; [done|]. intros _. split; [set_solver|].
      intros k. destruct (sv !! k); [done|]. by rewrite decide_False by set_solver.
Qed.

Lemma rounds_loop self ms : forall c cl sv,
  exists c' cl' sv', for_each (policy_round SSL_TYPE self) ms (c, cl, sv) = (check_rounds c self ms, (c', cl', sv')) /\
    same_config c c' /\
    (check_rounds c self ms = Ok tt -> cl' = clients_in self ms ∪ cl /\
       forall k, sv' !! k = match sv !! k with
                            | Some v => Some v
                            | None => if decide (k ∈ servers_in self ms) then via_info_of c k else None
                            end).
Proof.
  induction ms as [|m ms IH]; intros c cl sv; cbn [for_each check_rounds].
  { exists c, cl, sv. split; [done|]. split; [done|]. intros _. split; [by unfold clients_in; cbn; rewrite union_empty_l_L|].
    intros k. destruct (sv !! k); [done|]. by rewrite decide_False by apply not_elem_of_empty. }
  cbv [mbind M_bind].
  destruct (policy_round_spec self m c cl sv) as (c1 & cl1 & sv1 & -> & Hs & Hfin1).
  destruct (IH c1 cl1 sv1) as (c' & cl' & sv' & E & Hs' & Hfin).
  assert (check_rounds c1 self ms = check_rounds c self ms) as Hcr.
  { clear -Hs. induction ms as [|m ms IH]; [done|]. cbn. by rewrite IH, (check_known_same _ _ Hs _ _ eq_refl). }
  rewrite Hcr in E, Hfin.
  assert ((if decide (m.1 = self) then result_bind _ _ (fun _ => check_rounds c self ms) (check_known c (iter_set m.2))
           else check_rounds c self ms) =
    (_ ← (if decide (m.1 = self) then check_known c (iter_set m.2) else Ok tt); check_rounds c self ms)) as -> by (by case_decide).
  destruct (if decide (m.1 = self) then check_known c (iter_set m.2) else Ok tt) as [[]|e].
  - rewrite E. exists c', cl', sv'. split; [done|]. split; [by rewrite Hs|]. intros Hk.
    destruct (Hfin1 eq_refl) as [-> Hsv1]. destruct (Hfin Hk) as [-> Hsv]. split.
    { change (m :: ms) with ([m] ++ ms). unfold clients_in.
      rewrite filter_app, fmap_app, list_to_set_app_L. set_solver. }
    intros k. rewrite Hsv, Hsv1. destruct (sv !! k); [done|]. rewrite <- (via_info_of_same _ _ Hs k k eq_refl).
    assert (k ∈ servers_in self (m :: ms) <-> k ∈ servers_in self [m] \/ k ∈ servers_in self ms) as Hk2.
    { change (m :: ms) with ([m] ++ ms). unfold servers_in.
      rewrite filter_app, fmap_app, union_list_app_L. set_solver. }
    destruct (decide (k ∈ servers_in self [m])).
    + rewrite (decide_True (P := k ∈ servers_in self (m :: ms))) by tauto. destruct (via_info_of c k); [done|]. by case_decide.
    + apply decide_ext. tauto.
  - by exists c1, cl1, sv1.
Qed.

Lemma clients_in_policy self (p : gmap string (gset string)) :
  clients_in self (iter_map p) = dom (filter (fun m => m.1 <> self /\ self ∈ m.2) p).
Proof.
  apply set_eq. intros k. unfold clients_in. rewrite elem_of_list_to_set, list_elem_of_fmap, elem_of_dom. split.
  - intros ([k' s] & -> & [Hc Hin]%list_elem_of_filter). exists s. apply map_lookup_filter_Some.
    by rewrite elem_of_iter_map in Hin.
  - intros [s [Hp Hc]%map_lookup_filter_Some]. exists (k, s). split; [done|].
    apply list_elem_of_filter. by rewrite elem_of_iter_map.
Qed.

Lemma servers_in_policy self (p : gmap string (gset string)) :
  servers_in self (iter_map p) = default ∅ (p !! self).
Proof.
  apply set_eq. intros k. unfold servers_in. rewrite elem_of_union_list. split.
  - intros (s & Hs & Hk). apply list_elem_of_fmap in Hs as ([k' s'] & -> & Hf).
    apply list_elem_of_filter in Hf as [Hc Hin]. cbn in *. subst k'. rewrite elem_of_iter_map in Hin. by rewrite Hin.
  - destruct (p !! self) as [s|] eqn:E; [|done]. cbn. intros Hk. exists s. split; [|done].
    apply list_elem_of_fmap. exists (self, s). split; [done|].
    apply list_elem_of_filter. by rewrite elem_of_iter_map.
Qed.

Lemma check_rounds_none c self ms : self ∉ ms.*1 -> check_rounds c self ms = Ok tt.
Proof.
  induction ms as [|m ms IH]; [done|]. rewrite fmap_cons, not_elem_of_cons. intros [Hne Hn]. cbn.
  rewrite decide_False by done. auto.
Qed.

Lemma check_rounds_policy c self (p : gmap string (gset string)) :
  check_rounds c self (iter_map p) = check_known c (iter_set (default ∅ (p !! self))).
Proof.
  pose proof (NoDup_fst_iter_map p) as Hnd.
  assert (forall s, (self, s) ∈ iter_map p <-> p !! self = Some s) as Hin by (intros; apply elem_of_iter_map).
  destruct (p !! self) as [s|] eqn:E; cbn.
  - destruct (list_elem_of_split _ _ (proj2 (Hin s) eq_refl)) as (l1 & l2 & Hl).
    rewrite Hl in *. rewrite fmap_app, fmap_cons in Hnd. apply NoDup_app in Hnd as (_ & Hd & Hnd).
    apply NoDup_cons in Hnd as [Hn2 _].
    assert (self ∉ l1.*1) as Hn1 by (intros H; eapply Hd; [done|]; set_solver).
    clear -Hn1 Hn2. induction l1 as [|m l1 IH]; cbn.
    + rewrite decide_True, check_rounds_none by done. by destruct (check_known _ _) as [[]|].
    + rewrite fmap_cons, not_elem_of_cons in Hn1. rewrite decide_False by naive_solver. by apply IH, Hn1.
  - apply check_rounds_none. intros ([k s] & Hk & Hs)%list_elem_of_fmap. cbn in Hk. subst k.
    by apply Hin in Hs.
Qed.

(** What [GetNodeInfos] answers on empty sets. *)
Definition infos_outcome (c : ChannelConfig) (self : string) : result bool :=
  match check_known c (iter_set (servers_of c self)) with
  | Err e => Err e
  | Ok _ =>
      if decide (map_policy_ c <> ∅ /\ clients_of c self = ∅ /\ servers_of c self = ∅)
      then HANDLE_EXCEPTION_EVENT C_EVENT_CODE_NEITHER_CLIENT_SERVER "" [VaStr self]
      else Ok true
  end.

Lemma check_known_described c l :
  check_known c l = Ok tt -> forall k, k ∈ l -> is_Some (node_info_config_ c !! k).
Proof.
  induction l as [|k l IH]; cbn; [by intros _ ? ?%elem_of_nil|].
  destruct (node_info_config_ c !! k) as [n|] eqn:E.
  - intros H k' [->|Hin]%elem_of_cons; [by eexists|by apply IH].
  - destruct (handle_event_any C_EVENT_CODE_NO_FIND_NID (task_id_ c) [VaStr k]) as [e Ee]. by rewrite Ee.
Qed.

Lemma check_known_ok c l :
  (forall k, k ∈ l -> is_Some (node_info_config_ c !! k)) -> check_known c l = Ok tt.
Proof.
  induction l as [|k l IH]; intros H; [done|]. cbn. destruct (H k) as [n ->]; [set_solver|].
  apply IH. set_solver.
Qed.

Lemma dom_via_table c s :
  check_known c (iter_set s) = Ok tt -> dom (via_table c s) = s.
Proof.
  intros H. apply set_eq. intros k. rewrite elem_of_dom, lookup_via_table.
  case_decide as Hk; [|split; [by intros [? ?]|done]]. split; [done|]. intros _.
  destruct (check_known_described c _ H k) as [n E]; [by apply elem_of_iter_set|].
  unfold via_info_of. by rewrite E.
Qed.

Lemma all_infos_run c self :
  let others := task_nodes_ c ∖ {[self]} in
  exists c' cl sv, GetAllNodeInfos SSL_TYPE self (c, ∅, ∅) =
      (match check_known c (iter_set others) with Ok _ => Ok true | Err e => Err e end, (c', cl, sv)) /\
    same_config c c' /\
    (check_known c (iter_set others) = Ok tt -> cl = others /\ sv = via_table c others).
Proof.
  intros others. unfold GetAllNodeInfos. cbv [mbind M_bind]. unfold on_config at 1, gets at 1.
  pose proof (for_each_filter (fun nid => self = nid) info_step (iter_set (task_nodes_ c)) (c, ∅, ∅)) as Hf.
  unfold info_step in Hf at 1. cbv [mbind M_bind] in Hf. rewrite Hf. clear Hf.
  rewrite (filter_iter_set _ _ others) by (unfold others; set_solver).
  destruct (infos_loop (iter_set others) c ∅ ∅) as (c1 & cl1 & sv1 & E & Hs & Hfin). rewrite E.
  exists c1, cl1, sv1. split; [by destruct (check_known _ _)|]. split; [done|].
  intros Hk. destruct (Hfin Hk) as [-> Hsv]. split.
  - apply set_eq. intros k. rewrite elem_of_union, elem_of_list_to_set, elem_of_iter_set. set_solver.
  - apply map_eq. intros k. rewrite Hsv, lookup_empty, lookup_via_table.
    apply decide_ext, elem_of_iter_set.
Qed.

Lemma policy_infos_run c self :
  let servers := default ∅ (map_policy_ c !! self) in
  exists c' cl sv, for_each (policy_round SSL_TYPE self) (iter_map (map_policy_ c)) (c, ∅, ∅) =
      (check_known c (iter_set servers), (c', cl, sv)) /\
    same_config c c' /\
    (check_known c (iter_set servers) = Ok tt ->
      cl = dom (filter (fun m => m.1 <> self /\ self ∈ m.2) (map_policy_ c)) /\ sv = via_table c servers).
Proof.
  intros servers. destruct (rounds_loop self (iter_map (map_policy_ c)) c ∅ ∅) as (c1 & cl1 & sv1 & E & Hs & Hfin).
  rewrite check_rounds_policy in E, Hfin. exists c1, cl1, sv1. split; [done|]. split; [done|].
  intros Hk. destruct (Hfin Hk) as [-> Hsv]. split.
  - by rewrite clients_in_policy, union_empty_r_L.
  - apply map_eq. intros k. rewrite Hsv, lookup_empty, lookup_via_table.
    by rewrite servers_in_policy.
Qed.

Lemma via_table_empty c s : check_known c (iter_set s) = Ok tt -> via_table c s = ∅ <-> s = ∅.
Proof.
  intros H. rewrite <- (dom_via_table c s H) at 2. split; [by intros ->|]. apply dom_empty_inv_L.
Qed.

Lemma node_infos_run c self :
  exists c' cl sv, GetNodeInfos SSL_TYPE self (c, ∅, ∅) = (infos_outcome c self, (c', cl, sv)) /\
    same_config c c' /\
    (infos_outcome c self = Ok true -> cl = clients_of c self /\ sv = via_table c (servers_of c self)).
Proof.
  unfold GetNodeInfos, infos_outcome. cbv [mbind M_bind]. unfold on_config at 1, gets at 1.
  unfold servers_of, clients_of. destruct (decide (map_policy_ c = ∅)) as [Hp|Hp].
  - rewrite decide_True by (by rewrite Hp).
    destruct (all_infos_run c self) as (c1 & cl & sv & -> & Hs & Hfin). exists c1, cl, sv.
    destruct (check_known _ _) as [[]|e]; [|done]. rewrite decide_False by tauto.
    split; [done|]. split; [done|]. intros _. by apply Hfin.
  - rewrite decide_False by (by rewrite map_size_empty_iff).
    destruct (policy_infos_run c self) as (c1 & cl & sv & -> & Hs & Hfin). exists c1, cl, sv.
    destruct (check_known c _) as [[]|e] eqn:Ek; [|done]. destruct (Hfin eq_refl) as [-> ->].
    unfold gets. rewrite (bool_decide_ext _ _ (and_iff_compat_l _ (via_table_empty c _ Ek))).
    case_bool_decide as Hn.
    + rewrite decide_True by tauto.
      destruct (handle_event_any C_EVENT_CODE_NEITHER_CLIENT_SERVER "" [VaStr self]) as [e Ee].
      cbn [default] in *. unfold lift. by rewrite !Ee.
    + rewrite decide_False by tauto. done.
Qed.
End reference.

(** * Lookup among the groups *)
Section lookup.
Context (SSL_TYPE : Z).

Lemma find_node_describes N nid ids P :
  table_ok SSL_TYPE N -> describes N ids P ->
  find_node nid P = if decide (nid ∈ ids) then N !! nid else None.
Proof.
  intros HN. induction 1 as [|k n ids P E _ IH]; cbn; [done|].
  destruct (HN _ _ E) as [Hid _]. rewrite Hid. destruct (decide (nid = k)) as [->|Hne].
  - by rewrite decide_True by set_solver.
  - rewrite IH. apply decide_ext. set_solver.
Qed.

Lemma GetNode_run c nid :
  config_wf SSL_TYPE c ->
  GetNode nid c =
    if decide (nid ∈ task_nodes_ c)
    then match node_info_config_ c !! nid with
         | Some n => Ok n
         | None => HANDLE_EXCEPTION_EVENT C_EVENT_CODE_NO_FIND_NID (task_id_ c) [VaStr nid]
         end
    else HANDLE_EXCEPTION_EVENT C_EVENT_CODE_NO_FIND_NID (task_id_ c) [VaStr nid].
Proof.
  intros [[HN _ _ _] Hd Hc Hr Ht _]. unfold GetNode.
  rewrite (find_node_describes _ nid _ _ HN Hd), (find_node_describes _ nid _ _ HN Hc),
    (find_node_describes _ nid _ _ HN Hr), Ht.
  assert (nid ∈ (iter_map (compute_nodes_ c)).*1 <-> nid ∈ dom (compute_nodes_ c)) as Hk.
  { by rewrite iter_map_keys, elem_of_iter_set. }
  rewrite (decide_ext _ _ _ _ Hk).
  destruct (node_info_config_ c !! nid) as [n|]; repeat case_decide; set_solver.
Qed.

Lemma task_node_described c nid :
  config_wf SSL_TYPE c -> nid ∈ task_nodes_ c -> is_Some (node_info_config_ c !! nid).
Proof.
  intros [_ Hd Hc Hr Ht _]. rewrite Ht, !elem_of_union, !elem_of_list_to_set.
  assert (forall ids P, describes (node_info_config_ c) ids P -> nid ∈ ids -> is_Some (node_info_config_ c !! nid)) as H.
  { induction 1 as [|k n ids P E _ IH]; [by intros ?%elem_of_nil|].
    intros [->|Hin]%elem_of_cons; [by eexists|auto]. }
  intros [[Hin|Hin]|Hin]; [exact (H _ _ Hd Hin)| |exact (H _ _ Hr Hin)].
  eapply H; [exact Hc|]. by rewrite iter_map_keys, elem_of_iter_set.
Qed.

Lemma types_in_spec nid t P t' : t' ∈ types_in nid t P <-> t' = t /\ nid ∈ NODE_ID <$> P.
Proof.
  induction P as [|n P IH]; cbn; [set_solver|]. rewrite elem_of_app, IH, elem_of_cons.
  case_decide; set_solver.
Qed.

Lemma isNodeType_spec ts t : isNodeType ts t = true <-> t ∈ ts.
Proof.
  induction ts as [|t' ts IH]; cbn; [by rewrite elem_of_nil|]. rewrite elem_of_cons.
  case_decide; [naive_solver|]. rewrite IH. naive_solver.
Qed.

(** Index of a node in a group: its first position. *)
Lemma node_index_spec nid P i :
  node_index_from nid i P = match list_find (fun n => nid = NODE_ID n) P with
                            | Some (k, _) => i + Z.of_nat k
                            | None => -1
                            end.
Proof.
  revert i. induction P as [|n P IH]; intros i; cbn; [done|]. case_decide; cbn; [lia|].
  rewrite IH. destruct (list_find _ P) as [[k m]|]; cbn; [lia|done].
Qed.
End lookup.

(** * The text of the policy *)
Section text.
Context (SSL_TYPE : Z).

Fixpoint comma_join (acc : string) (es : list string) : string :=
  match es with
  | [] => acc
  | e :: es' => comma_join ((if decide (acc = "") then acc else acc +:+ ",") +:+ e) es'
  end.

Lemma concat_cons e es : es <> [] -> String.concat "," (e :: es) = e +:+ "," +:+ String.concat "," es.
Proof. by destruct es. Qed.

Lemma comma_join_from acc es :
  acc <> "" -> es <> [] -> Forall (fun e => e <> "") es ->
  comma_join acc es = acc +:+ "," +:+ String.concat "," es.
Proof.
  intros Ha Hn HF. revert acc Ha. induction HF as [|e es He HF IH]; intros acc Ha; [done|].
  cbn [comma_join]. rewrite decide_False by done. destruct es as [|e' es].
  { cbn. by rewrite append_assoc. }
  rewrite IH; [|done|by destruct acc]. rewrite (concat_cons e) by done. by rewrite !append_assoc.
Qed.

Lemma comma_join_concat es : Forall (fun e => e <> "") es -> comma_join "" es = String.concat "," es.
Proof.
  intros HF. destruct HF as [|e es He HF]; [done|]. cbn [comma_join].
  rewrite decide_True by done. destruct es as [|e' es]; [done|].
  rewrite concat_cons, comma_join_from by done. done.
Qed.

Definition quoted (s : string) : string := quote +:+ s +:+ quote.

Lemma server_ids_join acc l :
  server_ids acc l = comma_join acc ((fun m => quoted (vi_id m.2)) <$> l).
Proof. revert acc. induction l as [|[k v] l IH]; intros acc; cbn; [done|]. apply IH. Qed.

(** ["id":["s1","s2"]] and the whole object *)
Definition entry_text (c : ChannelConfig) (nid : string) : string :=
  quoted nid +:+ ":" +:+ "[" +:+ String.concat "," (quoted <$> iter_set (servers_of c nid)) +:+ "]".
Definition policy_text (c : ChannelConfig) : string :=
  "{" +:+ String.concat "," (entry_text c <$> iter_set (task_nodes_ c)) +:+ "}".

#[global] Instance servers_of_same : Proper (same_config ==> eq ==> eq) servers_of.
Proof. intros c c' H k ? <-. unfold servers_of. by rewrite (map_policy_same _ _ H), (task_nodes_same _ _ H). Qed.
#[global] Instance clients_of_same : Proper (same_config ==> eq ==> eq) clients_of.
Proof. intros c c' H k ? <-. unfold clients_of. by rewrite (map_policy_same _ _ H), (task_nodes_same _ _ H). Qed.
#[global] Instance infos_outcome_same : Proper (same_config ==> eq ==> eq) infos_outcome.
Proof.
  intros c c' H k ? <-. unfold infos_outcome.
  by rewrite (servers_of_same _ _ H k k eq_refl), (clients_of_same _ _ H k k eq_refl),
    (map_policy_same _ _ H), (check_known_same _ _ H _ _ eq_refl).
Qed.
#[global] Instance entry_text_same : Proper (same_config ==> eq ==> eq) entry_text.
Proof. intros c c' H k ? <-. unfold entry_text. by rewrite (servers_of_same _ _ H k k eq_refl). Qed.

Lemma infos_outcome_ok c self : infos_outcome c self = Ok true -> check_known c (iter_set (servers_of c self)) = Ok tt.
Proof. unfold infos_outcome. by destruct (check_known c _) as [[]|]. Qed.

Lemma server_names c s :
  check_known c (iter_set s) = Ok tt ->
  (fun m => quoted (vi_id m.2)) <$> iter_map (via_table SSL_TYPE c s) = quoted <$> iter_set s.
Proof.
  intros H. rewrite <- (dom_via_table SSL_TYPE c s H) at 2. rewrite <- iter_map_keys, <- list_fmap_compose.
  apply list_fmap_ext. intros i [k v] Hi. cbn. f_equal.
  apply list_elem_of_lookup_2, elem_of_iter_map in Hi. rewrite lookup_via_table in Hi.
  case_decide; [|done]. by eapply via_info_id.
Qed.

Lemma policy_entry_run nid c str :
  infos_outcome c nid = Ok true ->
  exists c', policy_entry SSL_TYPE nid (c, str) =
      (Ok tt, (c', (if decide (str = "") then str else str +:+ ",") +:+ entry_text c nid)) /\ same_config c c'.
Proof.
  intros Hok. destruct (node_infos_run SSL_TYPE c nid) as (c' & cl & sv & E & Hs & Hfin).
  rewrite Hok in E, Hfin. destruct (Hfin eq_refl) as [-> ->]. exists c'. split; [|done].
  unfold policy_entry. rewrite E. do 2 f_equal. rewrite server_ids_join, server_names by by apply infos_outcome_ok.
  rewrite comma_join_concat by (apply Forall_fmap, Forall_forall; done).
  unfold entry_text, quoted. by rewrite !append_assoc.
Qed.

Lemma policy_loop l : forall c str,
  Forall (fun nid => infos_outcome c nid = Ok true) l ->
  exists c', for_each (policy_entry SSL_TYPE) l (c, str) = (Ok tt, (c', comma_join str (entry_text c <$> l))).
Proof.
  induction l as [|nid l IH]; intros c str HF; [by exists c|].
  apply Forall_cons in HF as [Hn HF]. cbn [for_each]. cbv [mbind M_bind].
  destruct (policy_entry_run nid c str Hn) as (c1 & -> & Hs).
  edestruct (IH c1) as (c' & E); [|rewrite E; exists c'].
  - eapply Forall_impl; [exact HF|]. intros k Hk. cbn in Hk. by rewrite <- (infos_outcome_same _ _ Hs k k eq_refl).
  - assert (entry_text c1 <$> l = entry_text c <$> l) as ->; [|done].
    apply list_fmap_ext. intros i k _. symmetry. by apply entry_text_same.
Qed.
End text.

(** * Properties *)
Section properties.
Context (SSL_TYPE : Z).

(** C14: [GetNodeInfos] on empty sets computes exactly the two relations of the
    policy.  Without a policy a node's servers and clients are the other nodes of
    the task; with one its servers are those listed for it and its clients the
    other nodes that list it.  Each server comes with its address, proxy and
    certificates.  The first server that is not described raises "node id not
    found"; a node of a policy with neither role raises the event for that; the
    configuration is observably unchanged on every path. *)
Theorem node_infos_exact c self :
  exists c' cl sv, GetNodeInfos SSL_TYPE self (c, ∅, ∅) = (infos_outcome c self, (c', cl, sv)) /\
    same_config c c' /\
    (infos_outcome c self = Ok true -> cl = clients_of c self /\ sv = via_table SSL_TYPE c (servers_of c self)).
Proof. apply node_infos_run. Qed.

(** C13: The two ends agree: for two different nodes of a task, [b] is a server of
    [a] exactly when [a] is a client of [b], in both modes.  So each connection
    one node opens is one the other prepared a queue for. *)
Theorem topology_symmetric c a b ca cla sva cb clb svb :
  a <> b -> a ∈ task_nodes_ c -> b ∈ task_nodes_ c ->
  GetNodeInfos SSL_TYPE a (c, ∅, ∅) = (Ok true, (ca, cla, sva)) ->
  GetNodeInfos SSL_TYPE b (c, ∅, ∅) = (Ok true, (cb, clb, svb)) ->
  b ∈ dom sva <-> a ∈ clb.
Proof.
  intros Hab Ha Hb Ea Eb.
  destruct (node_infos_run SSL_TYPE c a) as (? & ? & ? & Ea' & _ & Fa).
  destruct (node_infos_run SSL_TYPE c b) as (? & ? & ? & Eb' & _ & Fb).
  rewrite Ea in Ea'. rewrite Eb in Eb'. injection Ea' as Oa <- <- <-. injection Eb' as Ob <- <- <-.
  destruct (Fa (eq_sym Oa)) as [_ ->]. destruct (Fb (eq_sym Ob)) as [-> _].
  rewrite dom_via_table by (by apply infos_outcome_ok). unfold servers_of, clients_of.
  case_decide; [set_solver|]. rewrite elem_of_dom. split.
  - destruct (map_policy_ c !! a) as [s|] eqn:E; [|done]. cbn. intros Hin. exists s.
    by apply map_lookup_filter_Some.
  - intros [s [E [_ Hin]]%map_lookup_filter_Some]. by rewrite E.
Qed.

(** On a configuration the constructor accepted, [GetNode] returns the
    description of every node of the task, and raises "node id not found" for
    any other id. *)
Lemma GetNode_exact c nid :
  config_wf SSL_TYPE c ->
  GetNode nid c =
    match (if decide (nid ∈ task_nodes_ c) then node_info_config_ c !! nid else None) with
    | Some n => Ok n
    | None => HANDLE_EXCEPTION_EVENT C_EVENT_CODE_NO_FIND_NID (task_id_ c) [VaStr nid]
    end /\
  (nid ∈ task_nodes_ c -> exists n, GetNode nid c = Ok n /\ NODE_ID n = nid).
Proof.
  intros Hwf. rewrite (GetNode_run SSL_TYPE) by done. split; [by case_decide|]. intros Hin.
  rewrite decide_True by done. destruct (task_node_described _ _ _ Hwf Hin) as [n E]. rewrite E.
  exists n. split; [done|]. by destruct (tables_ids _ _ (wf_tables _ _ Hwf) _ _ E).
Qed.

(** The types [GetNodeType] reports for a node are the groups the document
    lists it in, and [isNodeType] decides membership among them. *)
Lemma node_types_are_groups c nid t :
  config_wf SSL_TYPE c ->
  isNodeType (GetNodeType nid c) t = true <->
    match t with
    | NODE_TYPE_INVALID => False
    | NODE_TYPE_DATA => nid ∈ data_nodes_ c
    | NODE_TYPE_COMPUTE => nid ∈ dom (compute_nodes_ c)
    | NODE_TYPE_RESULT => nid ∈ result_nodes_ c
    end.
Proof.
  intros [[HN _ _ _] Hd Hc Hr _ _]. rewrite isNodeType_spec. unfold GetNodeType.
  rewrite !elem_of_app, !types_in_spec.
  rewrite (describes_ids _ _ _ _ HN Hd), (describes_ids _ _ _ _ HN Hc), (describes_ids _ _ _ _ HN Hr).
  rewrite iter_map_keys, elem_of_iter_set. destruct t; naive_solver.
Qed.

(** C32: [GetPolicy] renders the relation "connects to" of a task: one member per
    task node in ascending order, whose value lists the ids of its servers in
    ascending order. *)
Theorem GetPolicy_renders open_file Parse config_str c :
  make_ChannelConfig_no_id SSL_TYPE open_file Parse config_str = Ok c ->
  (forall nid, nid ∈ task_nodes_ c -> infos_outcome c nid = Ok true) ->
  GetPolicy SSL_TYPE open_file Parse config_str = Ok (policy_text c).
Proof.
  intros Hc Hall. unfold GetPolicy. rewrite Hc. cbn [mbind result_bind].
  destruct (policy_loop SSL_TYPE (iter_set (task_nodes_ c)) c "") as (c' & E).
  { apply Forall_forall. intros nid Hin. by apply Hall, elem_of_iter_set. }
  rewrite E. unfold policy_text. by rewrite comma_join_concat by (apply Forall_fmap, Forall_forall; done).
Qed.
End properties.

(** ** Examples *)
Definition triangle : ChannelConfig :=
  let node nid := mkNode "" nid "" (nid +:+ ":1") "" "" "" "" "" "" "" "" "" "" "" "" "" "" "" "" "" "" "" in
  let table := <["a" := node "a"]> (<["b" := node "b"]> (<["c" := node "c"]> ∅)) in
  set_node_info_config table
    (set_nodeid_to_via (VIA <$> table) (set_nodeid_to_glacier2 (GRICER2 <$> table)
      (set_nodeid_to_icegrid (ICEGRID <$> table)
        (set_data_nodes ["a"] (set_data_P [node "a"]
          (set_compute_nodes {["b" := 0]} (set_compute_P [node "b"]
            (set_result_nodes ["c"] (set_result_P [node "c"]
              (set_task_nodes {["a"; "b"; "c"]} ChannelConfig_default)))))))))).

Lemma triangle_wf : config_wf 0 triangle.
Proof.
  split; [split|..]; try reflexivity; try (repeat constructor; reflexivity).
  - apply (bool_decide_unpack (map_Forall (fun k n => NODE_ID n = k /\ sm_blank 0 n) _)).
    vm_compute. reflexivity.
  - vm_compute. by split.
Defined.

Lemma topology_symmetric_witness :
  exists ca cla sva cb clb svb,
    GetNodeInfos 0 "a" (triangle, ∅, ∅) = (Ok true, (ca, cla, sva)) /\
    GetNodeInfos 0 "b" (triangle, ∅, ∅) = (Ok true, (cb, clb, svb)) /\
    ("b" ∈ dom sva <-> "a" ∈ clb) /\ bool_decide ("b" ∈ dom sva) = true.
Proof.
  do 6 eexists. split; [vm_compute; reflexivity|]. split; [vm_compute; reflexivity|].
  split; [|vm_compute; reflexivity].
  eapply (topology_symmetric 0 triangle "a" "b");
    [done|apply (bool_decide_unpack _); vm_compute; exact I..| |]; vm_compute; reflexivity.
Defined.

Lemma GetPolicy_renders_witness :
  exists c, make_ChannelConfig_no_id 0 (fun _ => None) (fun _ => Some (JObject (sample_doc [JString "b"]))) "{}" = Ok c /\
    GetPolicy 0 (fun _ => None) (fun _ => Some (JObject (sample_doc [JString "b"]))) "{}" = Ok (policy_text c) /\
    policy_text c = "{" +:+ quoted "a" +:+ ":[" +:+ quoted "b" +:+ "]," +:+ quoted "b" +:+ ":[" +:+ quoted "a" +:+ "]}".
Proof.
  eexists. split; [vm_compute; reflexivity|]. split; [|vm_compute; reflexivity].
  apply (GetPolicy_renders 0 (fun _ => None) (fun _ => Some (JObject (sample_doc [JString "b"]))) "{}").
  - vm_compute. reflexivity.
  - intros nid Hin. apply elem_of_iter_set in Hin. vm_compute in Hin.
    repeat (apply elem_of_cons in Hin as [->|Hin]; [vm_compute; reflexivity|]). by apply elem_of_nil in Hin.
Defined.
