(* ===== verification/Wire.v ===== *)
(** What travels between nodes: the DataStruct and the parameters of [send], as the
    generated code of io_channel_ice.h/.cpp marshals them.

    The Ice streams themselves are the library's: [IceStream] lists the operations
    the generated code uses and [IceStreamLaws] what the Ice encoding documents,
    that what is written can be read back.  [Encoding11] is an instance, version
    1.1 of the encoding for these types. *)
From S2P Require Import Prelude Timer CycleBuffer CycleFrame Connection.
From Stdlib Require Import Strings.Byte.

Class IceStream := {
  ice_write_string : string -> bytes;
  ice_write_bytes : bytes -> bytes;
  ice_write_int : Z -> bytes;
  ice_read_string : bytes -> result (string * bytes);
  ice_read_bytes : bytes -> result (bytes * bytes);
  ice_read_int : bytes -> result (Z * bytes);
  (** [startEncapsulation] ... [endEncapsulation] around a payload, and back *)
  ice_encaps : bytes -> bytes;
  ice_decaps : bytes -> result bytes }.

Definition fits (n : nat) : Prop := Z.of_nat n <= INT32_MAX.

Class IceStreamLaws `{IceStream} := {
  ice_string_law s rest : fits (String.length s) -> ice_read_string (ice_write_string s ++ rest) = Ok (s, rest);
  ice_bytes_law d rest : fits (length d) -> ice_read_bytes (ice_write_bytes d ++ rest) = Ok (d, rest);
  ice_int_law z rest : INT32_MIN <= z <= INT32_MAX -> ice_read_int (ice_write_int z ++ rest) = Ok (z, rest);
  ice_encaps_law p : ice_decaps (ice_encaps p) = Ok p }.

(** * DataStruct *)
Record DataStruct := mkData { ds_msgid : string; ds_nodeid : string; ds_data : bytes }.

Section codec.
Context `{IceStream}.

(** [StreamWriter<DataStruct>::write] and [StreamReader<DataStruct>::read] *)
Definition write_DataStruct (v : DataStruct) : bytes :=
  ice_write_string (ds_msgid v) ++ ice_write_string (ds_nodeid v) ++ ice_write_bytes (ds_data v).

Definition read_DataStruct (l : bytes) : result (DataStruct * bytes) :=
  '(msgid, l) ← ice_read_string l;
  '(nodeid, l) ← ice_read_string l;
  '(data, l) ← ice_read_bytes l;
  Ok (mkData msgid nodeid data, l).

(** Parameters of [send] in a static call: the proxy writes, [_iceD_send] reads. *)
Definition write_send_params (nodeid msgid : string) (data : bytes) : bytes :=
  ice_encaps (ice_write_string nodeid ++ ice_write_string msgid ++ ice_write_bytes data).

Definition read_send_params (inParams : bytes) : result (string * string * bytes) :=
  l ← ice_decaps inParams;
  '(nodeid, l) ← ice_read_string l;
  '(msgid, l) ← ice_read_string l;
  '(data, l) ← ice_read_bytes l;
  Ok (nodeid, msgid, data).

(** [AMD_IoChannel_send::ice_response(ret)] and the reading side in [end_send]. *)
Definition write_ret (ret : Z) : bytes := ice_encaps (ice_write_int ret).
Definition read_ret (outParams : bytes) : result Z :=
  l ← ice_decaps outParams; '(ret, l) ← ice_read_int l; Ok ret.

(** Parameters of a dynamic call. *)
Definition write_dynamic (v : DataStruct) : bytes := ice_encaps (write_DataStruct v).
Definition read_dynamic (inParams : bytes) : result DataStruct :=
  l ← ice_decaps inParams; '(v, l) ← read_DataStruct l; Ok v.
End codec.

Definition data_fits (v : DataStruct) : Prop :=
  fits (String.length (ds_msgid v)) /\ fits (String.length (ds_nodeid v)) /\ fits (length (ds_data v)).

Section laws.
Context `{IceStreamLaws}.

Lemma read_write_DataStruct v rest :
  data_fits v -> read_DataStruct (write_DataStruct v ++ rest) = Ok (v, rest).
Proof.
  intros (H1 & H2 & H3). unfold read_DataStruct, write_DataStruct. rewrite <- !(assoc_L (++)).
  rewrite ice_string_law by done. cbn. rewrite ice_string_law by done. cbn.
  rewrite ice_bytes_law by done. cbn. by destruct v.
Qed.

Lemma read_write_dynamic v : data_fits v -> read_dynamic (write_dynamic v) = Ok v.
Proof.
  intros Hv. unfold read_dynamic, write_dynamic. rewrite ice_encaps_law. cbn.
  rewrite <- (app_nil_r (write_DataStruct v)), read_write_DataStruct by done. done.
Qed.

Lemma read_write_send_params nodeid msgid data :
  data_fits (mkData msgid nodeid data) ->
  read_send_params (write_send_params nodeid msgid data) = Ok (nodeid, msgid, data).
Proof.
  intros (H1 & H2 & H3). unfold read_send_params, write_send_params. rewrite ice_encaps_law. cbn.
  rewrite ice_string_law by done. cbn. rewrite ice_string_law by done. cbn.
  rewrite <- (app_nil_r (ice_write_bytes data)), ice_bytes_law by done. done.
Qed.

Lemma read_write_ret ret : INT32_MIN <= ret <= INT32_MAX -> read_ret (write_ret ret) = Ok ret.
Proof.
  intros. unfold read_ret, write_ret. rewrite ice_encaps_law. cbn.
  rewrite <- (app_nil_r (ice_write_int ret)), ice_int_law by done. done.
Qed.
End laws.
#[export] Hint Resolve read_write_dynamic read_write_send_params read_write_ret : channel.

(** * Version 1.1 of the Ice encoding

    A size is one byte below 255, or 255 and four bytes; strings and byte sequences
    are a size and the bytes; an encapsulation is its length in four bytes (its
    own header included), the version, and the payload. *)
Module Encoding11.
Definition bytes_of_string (s : string) : bytes := String.list_byte_of_string s.
Definition string_of_bytes (l : bytes) : string := String.string_of_list_byte l.

Definition write_size (n : nat) : bytes :=
  if decide (n < 255)%nat then [byte_of_Z (Z.of_nat n)] else xff :: le_encode 4 (Z.of_nat n).
Definition read_size (l : bytes) : result (nat * bytes) :=
  match l with
  | [] => Err (IceException "UnmarshalOutOfBounds")
  | c :: l' =>
      if decide (c = xff) then Ok (Z.to_nat (le_decode (take 4 l')), drop 4 l')
      else Ok (Z.to_nat (Z_of_byte c), l')
  end.

Definition write_bytes (d : bytes) : bytes := write_size (length d) ++ d.
Definition read_bytes (l : bytes) : result (bytes * bytes) :=
  '(n, l) ← read_size l;
  if decide (n <= length l)%nat then Ok (take n l, drop n l)
  else Err (IceException "UnmarshalOutOfBounds").

Definition read_string (l : bytes) : result (string * bytes) :=
  '(d, l) ← read_bytes l; Ok (string_of_bytes d, l).

Definition read_int (l : bytes) : result (Z * bytes) :=
  Ok (to_int32 (le_decode (take 4 l)), drop 4 l).

#[global] Instance encoding : IceStream := {
  ice_write_string s := write_bytes (bytes_of_string s);
  ice_write_bytes := write_bytes;
  ice_write_int z := le_encode 4 z;
  ice_read_string := read_string;
  ice_read_bytes := read_bytes;
  ice_read_int := read_int;
  ice_encaps p := le_encode 4 (Z.of_nat (length p) + 6) ++ [x01; x01] ++ p;
  ice_decaps l := Ok (drop 6 l) }.

Lemma read_write_size n rest : fits n -> read_size (write_size n ++ rest) = Ok (n, rest).
Proof.
  unfold fits, INT32_MAX. intros Hn. unfold write_size. case_decide as Hs.
  - cbn [app read_size]. pose proof (Z_of_byte_of_Z (Z.of_nat n)) as Hb. rewrite Z.mod_small in Hb by lia.
    rewrite decide_False; [by rewrite Hb, Nat2Z.id|]. intros Hc. rewrite Hc in Hb.
    change (Z_of_byte xff) with 255 in Hb. lia.
  - cbn [app read_size]. rewrite decide_True by done.
    rewrite take_app_length' by (by rewrite length_le_encode).
    rewrite drop_app_length' by (by rewrite length_le_encode).
    rewrite le_decode_encode, Z.mod_small by lia. by rewrite Nat2Z.id.
Qed.

Lemma read_write_bytes d rest : fits (length d) -> read_bytes (write_bytes d ++ rest) = Ok (d, rest).
Proof.
  intros Hd. unfold read_bytes, write_bytes. rewrite <- (assoc_L (++)), read_write_size by done. cbn.
  rewrite decide_True by (rewrite length_app; lia).
  by rewrite take_app_length, drop_app_length.
Qed.

Lemma length_bytes_of_string s : length (bytes_of_string s) = String.length s.
Proof. unfold bytes_of_string. induction s as [|c s IH]; [done|]. cbn. by f_equal. Qed.

#[global] Instance encoding_laws : IceStreamLaws.
Proof.
  split; cbn.
  - intros s rest Hs. unfold read_string. rewrite read_write_bytes by (by rewrite length_bytes_of_string).
    cbn. unfold string_of_bytes, bytes_of_string. by rewrite String.string_of_list_byte_of_string.
  - apply read_write_bytes.
  - intros z rest Hz. unfold read_int.
    change (byte_of_Z z :: _) with (le_encode 4 z ++ rest).
    rewrite take_app_length' by (by rewrite length_le_encode).
    rewrite drop_app_length' by (by rewrite length_le_encode).
    rewrite le_decode_encode. do 2 f_equal. unfold to_int, INT32_MIN, INT32_MAX in *.
    change (256 ^ Z.of_nat 4) with (2 ^ 32). rewrite Zplus_mod_idemp_l, Z.mod_small; lia.
  - done.
Qed.
End Encoding11.

(** What is marshalled is read back.  A message whose three fields fit an [int]
    size survives both call formats whole, each field in its place; so does the
    return code; and a struct is read back from the front of any stream, leaving
    the rest. *)
Lemma message_roundtrip `{IceStreamLaws} v rest ret :
  data_fits v -> INT32_MIN <= ret <= INT32_MAX ->
  read_send_params (write_send_params (ds_nodeid v) (ds_msgid v) (ds_data v)) = Ok (ds_nodeid v, ds_msgid v, ds_data v) /\
  read_dynamic (write_dynamic v) = Ok v /\
  read_DataStruct (write_DataStruct v ++ rest) = Ok (v, rest) /\
  read_ret (write_ret ret) = Ok ret.
Proof.
  intros Hv Hr. destruct v. split_and!; auto using read_write_DataStruct with channel.
Qed.
