(* ===== verification/Servant.v ===== *)
(** The servant behind a node's identity: IoChannelI (IoChannelI.h/.cc) and the
    dispatch the generated code does for it (io_channel_ice.h/.cpp).

    Three builds exist: static calls answered synchronously, static calls handed
    to a WorkQueue (ASYNC_SERVER), and dynamic calls.  The map of connections is
    the one [ViaNetIO] receives from; a write through the servant's pointer is a
    write to it. *)
From S2P Require Import Prelude StdAlgorithm Timer CycleBuffer CycleFrame Connection WorkQueue Wire.
From Stdlib Require Import Strings.Byte.

Definition RET_SUCCEED_CODE : Z := 0.

(** [Ice::OperationMode] *)
Inductive OperationMode := Normal | Nonmutating | Idempotent.

(** [current.operation] and [current.mode] *)
Record Current := mkCurrent { operation : string; mode : OperationMode }.

Definition OperationNotExist : fault := IceException "OperationNotExistException".

Section servant.
Context {B : Type} `{MsgBuffer B} `{IceStream}.
Abbreviation MapClientConn := (gmap string (ClientConnection B)).
Abbreviation MapWorkQueue := (gmap string (WorkQueue B)).

(** What both synchronous variants do with a message: find, then write. *)
Definition find_write (conns : MapClientConn) (nodeid msgid : string) (data : bytes) : result MapClientConn :=
  match conns !! nodeid with
  | Some c => '(_, c') ← conn_write c msgid data; Ok (<[nodeid := c']> conns)
  | None => Ok conns
  end.

(** [send_async] without ASYNC_SERVER: the value given to [cb->ice_response]. *)
Definition send_async (conns : MapClientConn) (nodeid msgid : string) (data : bytes)
  : result (Z * MapClientConn) :=
  conns' ← find_write conns nodeid msgid data;
  Ok (RET_SUCCEED_CODE, conns').

(** [send_async] with ASYNC_SERVER, the callback being [cb]: the replies made
    now, whether the queue's worker is notified, and the queues. *)
Definition send_async_queued (wqs : MapWorkQueue) (cb : nat) (nodeid msgid : string) (data : bytes)
  : list (nat * reply) * bool * MapWorkQueue :=
  match wqs !! nodeid with
  | Some w => let '(r, notify, w') := add w cb msgid data in (r, notify, <[nodeid := w']> wqs)
  | None => ([], false, wqs)
  end.

(** [ice_invoke] (dynamic calls): the operation's outcome and the output
    parameters, which stay empty. *)
Definition ice_invoke (conns : MapClientConn) (inParams : bytes) (current : Current)
  : result (bool * bytes * MapClientConn) :=
  if decide ("send" = operation current) then
    recvData ← read_dynamic inParams;
    conns' ← find_write conns (ds_nodeid recvData) (ds_msgid recvData) (ds_data recvData);
    Ok (true, [], conns')
  else if decide ("ping" = operation current) then Ok (true, [], conns)
  else Err OperationNotExist.

(** ** Generated dispatch of static calls *)
Definition iceC_ids : list string := ["::ChannelSdk::IoChannel"; "::Ice::Object"].
Definition iceC_all : list string := ["ice_id"; "ice_ids"; "ice_isA"; "ice_ping"; "send"].
Definition ice_staticId : string := "::ChannelSdk::IoChannel".
Definition ice_id : string := ice_staticId.
Definition ice_ids : list string := iceC_ids.
Definition ice_isA (s : string) : bool := binary_search iceC_ids s.

(** What a dispatched call answers: at once, or, for [send], what the AMD callback is
    given: a result, a user exception, or nothing. *)
Inductive answer :=
  | AnsId (s : string)
  | AnsIds (l : list string)
  | AnsIsA (b : bool)
  | AnsPing
  | AnsSend (outParams : bytes)
  | AnsUserException (outParams : bytes)
  | AnsNever.

Context (iceCheckMode : OperationMode -> OperationMode -> result unit).

(** [_iceD_send] up to the call of [send_async]. *)
Definition iceD_send (inParams : bytes) (current : Current) : result (string * string * bytes) :=
  _ ← iceCheckMode Idempotent (mode current); read_send_params inParams.

(** [_iceDispatch]: the position of the operation in the sorted table; [on_send] is the
    servant's [send_async]. *)
Definition iceDispatch_to {S : Type} (on_send : S -> string -> string -> bytes -> result (answer * S))
    (s : S) (inParams : bytes) (current : Current) : result (answer * S) :=
  let r := equal_range iceC_all (operation current) in
  if decide (r.1 = r.2) then Err OperationNotExist
  else
    match r.1 with
    | 0%nat => Ok (AnsId ice_id, s)
    | 1%nat => Ok (AnsIds ice_ids, s)
    | 2%nat =>
        l ← ice_decaps inParams; '(id, _) ← ice_read_string l; Ok (AnsIsA (ice_isA id), s)
    | 3%nat => Ok (AnsPing, s)
    | 4%nat =>
        '(nodeid, msgid, data) ← iceD_send inParams current;
        on_send s nodeid msgid data
    | _ => Err (AssertFailure "false")
    end.

(** The dispatch to the synchronous servant. *)
Definition iceDispatch : MapClientConn -> bytes -> Current -> result (answer * MapClientConn) :=
  iceDispatch_to (fun conns nodeid msgid data =>
    '(ret, conns') ← send_async conns nodeid msgid data;
    Ok (AnsSend (write_ret ret), conns')).

(** An operation at this node as its caller meets it, in either build. *)
Definition servant_serve (STATIC_CALL : bool) (current : Current) (inParams : bytes) (conns : MapClientConn)
  : result bytes * MapClientConn :=
  if STATIC_CALL then
    match iceDispatch conns inParams current with
    | Ok (AnsSend out, conns') => (Ok out, conns')
    | Ok (_, conns') => (Ok [], conns')
    | Err e => (Err e, conns)
    end
  else
    match ice_invoke conns inParams current with
    | Ok (_, out, conns') => (Ok out, conns')
    | Err e => (Err e, conns)
    end.
End servant.

(** * What the servant does with a message *)
Section verified.
Context {B : Type} `{MsgBuffer B} `{IceStreamLaws}.
Context (iceCheckMode : OperationMode -> OperationMode -> result unit).
(** The mode a call is made with passes the check for that mode. *)
Context (check_same : forall m, iceCheckMode m m = Ok tt).

Lemma ice_invoke_send conns msgid nodeid data m :
  data_fits (mkData msgid nodeid data) ->
  ice_invoke (B:=B) conns (write_dynamic (mkData msgid nodeid data)) (mkCurrent "send" m) =
    conns' ← find_write conns nodeid msgid data; Ok (true, [], conns').
Proof. intros Hf. unfold ice_invoke. cbn. by rewrite read_write_dynamic. Qed.

Lemma iceDispatch_send conns msgid nodeid data :
  data_fits (mkData msgid nodeid data) ->
  iceDispatch (B:=B) iceCheckMode conns (write_send_params nodeid msgid data) (mkCurrent "send" Idempotent) =
    conns' ← find_write conns nodeid msgid data; Ok (AnsSend (write_ret RET_SUCCEED_CODE), conns').
Proof.
  intros Hf. unfold iceDispatch, iceDispatch_to, iceD_send, send_async. cbn. rewrite check_same. cbn.
  rewrite read_write_send_params by done. cbn. by destruct (find_write _ _ _ _).
Qed.
End verified.

(** * Properties *)

(** C25: Both synchronous builds handle a message alike, whichever way it is called: a
    message of a node this one expects is written to that node's connection and
    reported as a success; a message of any other node changes nothing, and is
    reported as a success all the same. *)
Theorem servant_delivers B `{MsgBuffer B} `{IceStreamLaws} check conns conns' msgid nodeid data :
  (forall m, check m m = Ok tt) -> data_fits (mkData msgid nodeid data) ->
  match conns !! nodeid with
  | Some c => exists r c', conn_write c msgid data = Ok (r, c') /\ conns' = <[nodeid := c']> conns
  | None => conns' = conns
  end ->
  ice_invoke conns (write_dynamic (mkData msgid nodeid data)) (mkCurrent "send" Normal) = Ok (true, [], conns') /\
  exists out, iceDispatch check conns (write_send_params nodeid msgid data) (mkCurrent "send" Idempotent) =
    Ok (AnsSend out, conns') /\ read_ret out = Ok RET_SUCCEED_CODE.
Proof.
  intros Hc Hf Hn. rewrite ice_invoke_send, iceDispatch_send by done. unfold find_write.
  assert (read_ret (write_ret RET_SUCCEED_CODE) = Ok RET_SUCCEED_CODE) as Hret by (by apply read_write_ret).
  destruct (conns !! nodeid) as [c|]; [destruct Hn as (r & c' & Hw & ->); rewrite Hw|subst conns'];
    (split; [done|]); eexists; (split; [done|exact Hret]).
Qed.

(** One message of an expected node, one of another. *)
Lemma servant_delivers_witness :
  ice_invoke {["p1" := idle_connection]} (write_dynamic (mkData "k" "p1" [x05])) (mkCurrent "send" Normal) =
    Ok (true, [], {["p1" := mkConn 5000 "p1" {["m" := [[x01]]; "k" := [[x05]]]} 8192 1]}) /\
  exists out,
    iceDispatch (fun _ _ => Ok tt) {["p1" := idle_connection]} (write_send_params "p2" "k" [x05]) (mkCurrent "send" Idempotent) =
      Ok (AnsSend out, {["p1" := idle_connection]}) /\ read_ret out = Ok RET_SUCCEED_CODE.
Proof.
  split.
  - refine (proj1 (servant_delivers MsgQueue.queue (fun _ _ => Ok tt) {["p1" := idle_connection]}
      {["p1" := mkConn 5000 "p1" {["m" := [[x01]]; "k" := [[x05]]]} 8192 1]} "k" "p1" [x05] _ _ _)).
    + done.
    + by repeat split.
    + do 2 eexists. split; vm_compute; reflexivity.
  - refine (proj2 (servant_delivers MsgQueue.queue (fun _ _ => Ok tt) {["p1" := idle_connection]}
      {["p1" := idle_connection]} "k" "p2" [x05] _ _ _)).
    + done.
    + by repeat split.
    + reflexivity.
Defined.

(** With ASYNC_SERVER a request is answered exactly once when its sender has a
    queue, at once and before the message is stored; a request of any other sender
    is never answered at all, so its caller waits for ever. *)
Lemma queued_answers B `{MsgBuffer B} (wqs : gmap string (WorkQueue B)) cb nodeid msgid data :
  match wqs !! nodeid with
  | Some w => exists rep, (send_async_queued wqs cb nodeid msgid data).1.1 = [(cb, rep)] /\
      rep = (if _done w then IceSendDataException else IceResponse RET_SUCCEED_CODE)
  | None => send_async_queued wqs cb nodeid msgid data = ([], false, wqs)
  end.
Proof.
  unfold send_async_queued. destruct (wqs !! nodeid) as [w|]; [|done].
  unfold add. destruct (_done w); cbn; by eexists.
Qed.

(** The connection check of each build is an operation of that build only: nodes
    built differently cannot connect. *)
Lemma builds_do_not_mix B `{MsgBuffer B} `{IceStream} check (conns : gmap string (ClientConnection B)) inParams m :
  ice_invoke conns inParams (mkCurrent "ping" m) = Ok (true, [], conns) /\
  iceDispatch check conns inParams (mkCurrent "ice_ping" m) = Ok (AnsPing, conns) /\
  ice_invoke conns inParams (mkCurrent "ice_ping" m) = Err OperationNotExist /\
  iceDispatch check conns inParams (mkCurrent "ping" m) = Err OperationNotExist.
Proof. done. Qed.
