(* ===== verification/Generated.v ===== *)
(** The rest of what io_channel_ice.h/.cpp generate for the interface IoChannel: the
    user exception SendDataException, the proxy's [begin_send]/[end_send], the callback
    classes, and the second set of definitions for the C++11 mapping.

    The Ice run time is a parameter: [IceSlices] for slices of exceptions and values,
    [Outgoing] for an invocation, [IceVariadic] for the [readAll]/[writeAll] of the
    C++11 streams. *)
From S2P Require Import Prelude StdAlgorithm Timer CycleBuffer CycleFrame Connection WorkQueue Wire Servant.
From Stdlib Require Import Strings.Byte.
#[local] Open Scope Z_scope.

(** A user exception, as far as the generated code tells them apart. *)
Inductive UserException :=
  | SendDataException
  | OtherUserException (id : string).
#[global] Instance UserException_eq_dec : EqDecision UserException.
Proof. solve_decision. Defined.

(** * What the run time does with slices and results *)
Class IceSlices := {
  (** [startSlice(typeId, compactId, last)], the members, [endSlice()] *)
  ice_slice : string -> Z -> bool -> bytes -> bytes;
  (** the type id, the members, and what follows *)
  ice_unslice : bytes -> result (string * bytes * bytes);
  (** [_throwUserException()]: the exception in a reply, made by the factory registered
      for its type id *)
  ice_throwUserException : (string -> option UserException) -> bytes -> result UserException;
  (** [AsyncResult::_check]: the result of this proxy and operation? *)
  ice_check : nat * string -> nat * string -> result unit }.

Class IceSlicesLaws `{IceStream} `{IceSlices} := {
  ice_slice_law id compact members rest : fits (String.length id) -> fits (length members) ->
    ice_unslice (ice_slice id compact true members ++ rest) = Ok (id, members, rest);
  ice_throw_law factory id compact e : fits (String.length id) -> factory id = Some e ->
    ice_throwUserException factory (ice_encaps (ice_slice id compact true [])) = Ok e;
  ice_check_law r : ice_check r r = Ok tt }.

Definition SendDataException_id : string := "::ChannelSdk::SendDataException".
(** [ice_id()] and [ice_throw()] *)
Definition exception_id (e : UserException) : string :=
  match e with SendDataException => SendDataException_id | OtherUserException id => id end.
Definition ice_throw (e : UserException) : fault := IceException (exception_id e).
Definition UnknownUserException : fault := IceException "UnknownUserException".

Section exceptions.
Context `{IceSlices}.

(** [SendDataException::_writeImpl] and [_readImpl]: a last slice without members. *)
Definition SendDataException_writeImpl : bytes := ice_slice SendDataException_id (-1) true [].
Definition SendDataException_readImpl (l : bytes) : result bytes :=
  '(_, _, rest) ← ice_unslice l; Ok rest.

(** [DefaultUserExceptionFactoryInit]: the one type id the generated code registers. *)
Definition exception_factory (id : string) : option UserException :=
  if decide (id = SendDataException_id) then Some SendDataException else None.

(** The user exception of a reply. *)
Definition read_user_exception (params : bytes) : result UserException :=
  ice_throwUserException exception_factory params.

(** [IoChannel::_iceWriteImpl] and [_iceReadImpl]: the interface as a value. *)
Definition iceWriteImpl : bytes := ice_slice ice_staticId (-1) true [].
Definition iceReadImpl (l : bytes) : result bytes :=
  '(_, _, rest) ← ice_unslice l; Ok rest.
End exceptions.

(** * The reply to an invocation, and the proxy *)
Inductive reply_message :=
  | ReplyOk (params : bytes)
  | ReplyUserException (params : bytes)
  | ReplyLocal (what : string).        (* a local exception of the run time *)

Section proxy.
Context `{IceStream} `{IceSlices}.

(** What an AMD callback sends: [ice_response] (generated) or [ice_exception]. *)
Definition reply_of (r : reply) : reply_message :=
  match r with
  | IceResponse ret => ReplyOk (write_ret ret)
  | IceSendDataException => ReplyUserException (ice_encaps SendDataException_writeImpl)
  end.

(** An [Ice::Context]; [None] is [noExplicitContext]. *)
Definition InvocationContext : Type := option (gmap string string).
Definition noExplicitContext : InvocationContext := None.

(** The callback object and its methods, which may be null. *)
Record Methods := mkMethods {
  instance : option nat;
  response : option nat;
  exception : option nat;
  sent : option nat }.
(** The wrappers [newCallback_IoChannel_send] makes: methods without and with a cookie. *)
Inductive Callback_IoChannel_send_Base :=
  | CallbackNC_IoChannel_send (m : Methods)
  | Callback_IoChannel_send (m : Methods).
Inductive CallbackBase :=
  | dummyCallback
  | OfCallback (cb : nat)                               (* an Ice::CallbackPtr *)
  | OfCallback_send (cb : Callback_IoChannel_send_Base).

(** An invocation under way: which proxy made it, for which operation, its callback
    and cookie, whether it is synchronous, and its reply. *)
Record AsyncResult := mkResult {
  ar_proxy : nat;
  ar_operation : string;
  ar_callback : CallbackBase;
  ar_cookie : option nat;
  ar_sync : bool;
  ar_reply : reply_message }.

(** The run time of an invocation: [_checkTwowayOnly], [prepare] with the header it
    writes, [invoke] with the reply it eventually gets, and [abort], which completes
    the result with an exception or throws it. *)
Record Outgoing := mkOutgoing {
  checkTwowayOnly : string -> bool -> result unit;
  prepare : string -> OperationMode -> InvocationContext -> result bytes;
  invoke : string -> bytes -> result reply_message;
  abort : string -> result reply_message }.

Definition send_name : string := "send".

(** [catch(const Ice::Exception& ex) { result->abort(ex); }] *)
Definition aborted (out : Outgoing) (invoked : result reply_message) : result reply_message :=
  match invoked with Err (IceException what) => abort out what | r => r end.
Definition iceI_begin_send (out : Outgoing) (this : nat) (nodeid msgid : string) (data : bytes)
    (context : InvocationContext) (del : CallbackBase) (cookie : option nat) (sync : bool) : result AsyncResult :=
  _ ← checkTwowayOnly out send_name sync;
  let invoked :=
    header ← prepare out send_name Idempotent context;
    invoke out send_name (header ++ write_send_params nodeid msgid data) in
  rep ← aborted out invoked;
  Ok (mkResult this send_name del cookie sync rep).

(** [end_send] *)
Definition end_send (this : nat) (r : AsyncResult) : result Z :=
  _ ← ice_check (ar_proxy r, ar_operation r) (this, send_name);
  match ar_reply r with
  | ReplyLocal what => Err (IceException what)
  | ReplyUserException params =>
      ex ← read_user_exception params;
      match ex with
      | SendDataException => Err (ice_throw SendDataException)
      | OtherUserException _ => Err UnknownUserException
      end
  | ReplyOk params => read_ret params
  end.

(** [send], and the five [begin_send] *)
Definition prx_send (out : Outgoing) (this : nat) (nodeid msgid : string) (data : bytes) (context : InvocationContext) : result Z :=
  r ← iceI_begin_send out this nodeid msgid data context dummyCallback None true;
  end_send this r.
Definition begin_send (out : Outgoing) (this : nat) (nodeid msgid : string) (data : bytes) (context : InvocationContext) : result AsyncResult :=
  iceI_begin_send out this nodeid msgid data context dummyCallback None false.
Definition begin_send_cb (out : Outgoing) (this : nat) (nodeid msgid : string) (data : bytes) (cb : nat) (cookie : option nat) : result AsyncResult :=
  iceI_begin_send out this nodeid msgid data noExplicitContext (OfCallback cb) cookie false.
Definition begin_send_context_cb (out : Outgoing) (this : nat) (nodeid msgid : string) (data : bytes)
    (context : InvocationContext) (cb : nat) (cookie : option nat) : result AsyncResult :=
  iceI_begin_send out this nodeid msgid data context (OfCallback cb) cookie false.
Definition begin_send_typed (out : Outgoing) (this : nat) (nodeid msgid : string) (data : bytes)
    (cb : Callback_IoChannel_send_Base) (cookie : option nat) : result AsyncResult :=
  iceI_begin_send out this nodeid msgid data noExplicitContext (OfCallback_send cb) cookie false.
Definition begin_send_context_typed (out : Outgoing) (this : nat) (nodeid msgid : string) (data : bytes)
    (context : InvocationContext) (cb : Callback_IoChannel_send_Base) (cookie : option nat) : result AsyncResult :=
  iceI_begin_send out this nodeid msgid data context (OfCallback_send cb) cookie false.

(** ** Callbacks *)

(** A method of an object is called; [CT] methods get the cookie too, or null. *)
Inductive callback_call :=
  | CallResponse (object method : nat) (ret : Z)
  | CallResponseCT (object method : nat) (ret : Z) (cookie : option nat)
  | CallException (object method : nat) (ex : fault)
  | CallExceptionCT (object method : nat) (ex : fault) (cookie : option nat).

(** The run time's base classes TwowayCallbackNC and TwowayCallback: what the
    constructor checks, given whether there is a response method, and what
    [exception] does; and which objects are a [CT]. *)
Record Twoway := mkTwoway {
  tw_check : option nat -> bool -> option nat -> option nat -> result unit;
  tw_exceptionNC : Methods -> fault -> list callback_call;
  tw_exception : Methods -> option nat -> fault -> list callback_call;
  is_CT : nat -> bool }.

(** [CT::dynamicCast] *)
Definition dynamicCast (tw : Twoway) (o : option nat) : option nat :=
  match o with Some c => if is_CT tw c then Some c else None | None => None end.

(** The constructors, behind the overloads of [newCallback_IoChannel_send]. *)
Definition newCallbackNC_IoChannel_send (tw : Twoway) (obj cb excb sentcb : option nat) : result Callback_IoChannel_send_Base :=
  _ ← tw_check tw obj (bool_decide (cb <> None)) excb sentcb;
  Ok (CallbackNC_IoChannel_send (mkMethods obj cb excb sentcb)).
Definition newCallback_IoChannel_send (tw : Twoway) (obj cb excb sentcb : option nat) : result Callback_IoChannel_send_Base :=
  _ ← tw_check tw obj (bool_decide (cb <> None)) excb sentcb;
  Ok (Callback_IoChannel_send (mkMethods obj cb excb sentcb)).

(** [(_callback.get()->*_response)(...)], if there is a response method *)
Definition call_response (m : Methods) (call : nat -> nat -> callback_call) : result (list callback_call) :=
  match response m with
  | None => Ok []
  | Some f => match instance m with Some obj => Ok [call obj f] | None => Err (UndefinedBehaviour "null callback") end
  end.
Definition completed_NC (tw : Twoway) (m : Methods) (r : AsyncResult) : result (list callback_call) :=
  match end_send (ar_proxy r) r with
  | Err (IceException w) => Ok (tw_exceptionNC tw m (IceException w))
  | Err e => Err e
  | Ok ret => call_response m (fun obj f => CallResponse obj f ret)
  end.
Definition completed_CT (tw : Twoway) (m : Methods) (r : AsyncResult) : result (list callback_call) :=
  match end_send (ar_proxy r) r with
  | Err (IceException w) => Ok (tw_exception tw m (ar_cookie r) (IceException w))
  | Err e => Err e
  | Ok ret => call_response m (fun obj f => CallResponseCT obj f ret (dynamicCast tw (ar_cookie r)))
  end.
(** The virtual call of [completed] *)
Definition completed (tw : Twoway) (cb : Callback_IoChannel_send_Base) (r : AsyncResult) : result (list callback_call) :=
  match cb with
  | CallbackNC_IoChannel_send m => completed_NC tw m r
  | Callback_IoChannel_send m => completed_CT tw m r
  end.
End proxy.

(** * Values and proxies read from a stream *)
Section pointers.
Context {Object : Type} (is_IoChannel : Object -> bool) {Reference : Type}.

(** [_icePatchObjectPtr]: a null value is accepted, another type is not. *)
Definition icePatchObjectPtr (v : option Object) : result (option Object) :=
  let handle := match v with Some o => if is_IoChannel o then Some o else None | None => None end in
  match v, handle with
  | Some _, None => Err (IceException "UnexpectedObjectException")
  | _, _ => Ok handle
  end.

(** [_readProxy]: null, or a new proxy that is a copy of the one read. *)
Definition readProxy (read_ref : bytes -> result (option Reference * bytes)) (copyFrom : Reference -> Reference) (l : bytes)
  : result (option Reference * bytes) :=
  '(proxy, rest) ← read_ref l;
  match proxy with None => Ok (None, rest) | Some p => Ok (Some (copyFrom p), rest) end.
End pointers.

(** * The C++11 mapping *)
Inductive ice_value := VString (s : string) | VBytes (d : bytes) | VInt (z : Z).
Inductive ice_type := TString | TBytes | TInt.

Class IceVariadic := {
  ice_writeAll : list ice_value -> bytes;
  ice_readAll : list ice_type -> bytes -> result (list ice_value * bytes) }.

Section one_by_one.
Context `{IceStream}.
Definition write_value (v : ice_value) : bytes :=
  match v with VString s => ice_write_string s | VBytes d => ice_write_bytes d | VInt z => ice_write_int z end.
Definition read_value (t : ice_type) (l : bytes) : result (ice_value * bytes) :=
  match t with
  | TString => '(s, l) ← ice_read_string l; Ok (VString s, l)
  | TBytes => '(d, l) ← ice_read_bytes l; Ok (VBytes d, l)
  | TInt => '(z, l) ← ice_read_int l; Ok (VInt z, l)
  end.
Fixpoint read_values (ts : list ice_type) (l : bytes) : result (list ice_value * bytes) :=
  match ts with
  | [] => Ok ([], l)
  | t :: ts' => '(v, l) ← read_value t l; '(vs, l) ← read_values ts' l; Ok (v :: vs, l)
  end.
End one_by_one.

(** [writeAll] and [readAll] handle their arguments one by one, in order. *)
Class IceVariadicLaws `{IceStream} `{IceVariadic} := {
  ice_writeAll_law vs : ice_writeAll vs = concat (write_value <$> vs);
  ice_readAll_law ts l : ice_readAll ts l = read_values ts l }.

Module Cpp11.
Section cpp11.
Context `{IceStream} `{IceVariadic} `{IceSlices}.

Definition iceC_ids : list string := ["::ChannelSdk::IoChannel"; "::Ice::Object"].
Definition iceC_ops : list string := ["ice_id"; "ice_ids"; "ice_isA"; "ice_ping"; "send"].
Definition ice_staticId : string := "::ChannelSdk::IoChannel".
Definition ice_id : string := ice_staticId.
Definition ice_ids : list string := iceC_ids.
Definition ice_isA (s : string) : bool := binary_search iceC_ids s.

(** [StreamReader<DataStruct>::read] *)
Definition read_DataStruct (l : bytes) : result (DataStruct * bytes) :=
  '(vs, l) ← ice_readAll [TString; TString; TBytes] l;
  match vs with
  | [VString msgid; VString nodeid; VBytes data] => Ok (mkData msgid nodeid data, l)
  | _ => Err (UndefinedBehaviour "readAll")
  end.

(** [_iceD_send] up to the call of [sendAsync], and the response it passes. *)
Definition iceD_send (iceCheckMode : OperationMode -> OperationMode -> result unit) (inParams : bytes) (current : Current)
  : result (string * string * bytes) :=
  _ ← iceCheckMode Idempotent (mode current);
  l ← ice_decaps inParams;
  '(vs, _) ← ice_readAll [TString; TString; TBytes] l;
  match vs with
  | [VString nodeid; VString msgid; VBytes data] => Ok (nodeid, msgid, data)
  | _ => Err (UndefinedBehaviour "readAll")
  end.
Definition responseCB (ret : Z) : bytes := ice_encaps (ice_writeAll [VInt ret]).

Definition iceDispatch_to (iceCheckMode : OperationMode -> OperationMode -> result unit) {S : Type}
    (on_send : S -> string -> string -> bytes -> result (answer * S))
    (s : S) (inParams : bytes) (current : Current) : result (answer * S) :=
  let r := equal_range iceC_ops (operation current) in
  if decide (r.1 = r.2) then Err OperationNotExist
  else
    match r.1 with
    | 0%nat => Ok (AnsId ice_id, s)
    | 1%nat => Ok (AnsIds ice_ids, s)
    | 2%nat =>
        l ← ice_decaps inParams; '(id, _) ← ice_read_string l; Ok (AnsIsA (ice_isA id), s)
    | 3%nat => Ok (AnsPing, s)
    | 4%nat =>
        '(nodeid, msgid, data) ← iceD_send iceCheckMode inParams current;
        on_send s nodeid msgid data
    | _ => Err (AssertFailure "false")
    end.

(** The run time: [_checkTwowayOnly], [outAsync->invoke(...)] with the reply it
    eventually gets, what a user exception becomes, given what the lambda threw, and
    the calls of a LambdaOutgoing for an outcome. *)
Record Outgoing11 := mkOutgoing11 {
  checkTwowayOnly11 : string -> result unit;
  outAsync_invoke : string -> OperationMode -> InvocationContext -> bytes -> result reply_message;
  future_throws : UserException -> option fault -> fault;
  lambda_completed : option nat -> option nat -> option nat -> result Z -> list callback_call }.

(** The lambda for user exceptions: what it throws, if anything. *)
Definition user_exception_lambda (ex : UserException) : option fault :=
  match ex with SendDataException => Some (ice_throw ex) | OtherUserException _ => None end.

Definition iceI_send (out : Outgoing11) (nodeid msgid : string) (data : bytes) (context : InvocationContext) : result reply_message :=
  _ ← checkTwowayOnly11 out send_name;
  outAsync_invoke out send_name Idempotent context
    (ice_encaps (ice_writeAll [VString nodeid; VString msgid; VBytes data])).

(** What the invocation ends with once it has its reply. *)
Definition outcome (out : Outgoing11) (rep : reply_message) : result Z :=
  match rep with
  | ReplyLocal what => Err (IceException what)
  | ReplyUserException params =>
      ex ← read_user_exception params;
      Err (future_throws out ex (user_exception_lambda ex))
  | ReplyOk params =>
      l ← ice_decaps params;
      '(vs, _) ← ice_readAll [TInt] l;
      match vs with [VInt ret] => Ok ret | _ => Err (UndefinedBehaviour "readAll") end
  end.

(** [send] waits for the future; [sendAsync] returns it, or throws; the other one
    calls one of its functions. *)
Definition promise_send (out : Outgoing11) (nodeid msgid : string) (data : bytes) (context : InvocationContext) : result Z :=
  rep ← iceI_send out nodeid msgid data context; outcome out rep.
Definition sendAsync (out : Outgoing11) (nodeid msgid : string) (data : bytes) (context : InvocationContext) : result (result Z) :=
  rep ← iceI_send out nodeid msgid data context; Ok (outcome out rep).
Definition sendAsync_lambda (out : Outgoing11) (nodeid msgid : string) (data : bytes) (resp ex snt : option nat)
    (context : InvocationContext) : result (list callback_call) :=
  rep ← iceI_send out nodeid msgid data context; Ok (lambda_completed out resp ex snt (outcome out rep)).
End cpp11.
End Cpp11.

(** What the two run times have in common.  Both check that the proxy is twoway, the
    blocking calls with the same outcome; an asynchronous call of either passes on the
    same proxies, but may be refused with another exception.  [OutgoingAsync::invoke]
    of the newer one prepares, marshals with the function it is given and invokes in
    one go, and reports an exception the lambda does not throw as an unknown one. *)
Record same_runtime (out : Outgoing) (out11 : Cpp11.Outgoing11) : Prop := mkSame {
  sr_twoway : forall op, Cpp11.checkTwowayOnly11 out11 op = checkTwowayOnly out op true;
  sr_async : forall op, checkTwowayOnly out op true = Ok tt <-> checkTwowayOnly out op false = Ok tt;
  sr_invoke : forall op m context params, Cpp11.outAsync_invoke out11 op m context params =
    aborted out (header ← prepare out op m context; invoke out op (header ++ params));
  sr_throws : forall ex o, Cpp11.future_throws out11 ex o = default UnknownUserException o }.

(** * What is proved of the generated code *)

(** Follows a reader through the values it reads, one by one. *)
Ltac follow_reads :=
  rewrite ?ice_readAll_law; cbn;
  repeat match goal with
  | |- context [ice_decaps ?l] => destruct (ice_decaps l); cbn; [|done]
  | |- context [ice_read_string ?l] => destruct (ice_read_string l) as [[]|]; cbn; [|done]
  | |- context [ice_read_bytes ?l] => destruct (ice_read_bytes l) as [[]|]; cbn; [|done]
  | |- context [ice_read_int ?l] => destruct (ice_read_int l) as [[]|]; cbn; [|done]
  | |- context [ice_readAll ?ts ?l] => rewrite (ice_readAll_law ts l); cbn
  end; try done.

Section mappings.
Context `{IceStream} `{!IceVariadic} `{!IceVariadicLaws} `{!IceSlices} `{!IceSlicesLaws}.

Lemma read_DataStruct_11 l : Cpp11.read_DataStruct l = read_DataStruct l.
Proof. unfold Cpp11.read_DataStruct, read_DataStruct. follow_reads. Qed.

Lemma iceD_send_11 check inParams current : Cpp11.iceD_send check inParams current = iceD_send check inParams current.
Proof.
  unfold Cpp11.iceD_send, iceD_send, read_send_params. destruct (check _ _); cbn; [|done]. follow_reads.
Qed.

Lemma iceDispatch_11 check {S} on_send (s : S) inParams current :
  Cpp11.iceDispatch_to check on_send s inParams current = iceDispatch_to check on_send s inParams current.
Proof.
  unfold Cpp11.iceDispatch_to, iceDispatch_to. rewrite iceD_send_11. done.
Qed.

Lemma responseCB_11 ret : Cpp11.responseCB ret = write_ret ret.
Proof. unfold Cpp11.responseCB, write_ret. rewrite ice_writeAll_law. cbn. by rewrite app_nil_r. Qed.

Lemma end_send_own this cb cookie sync rep : end_send this (mkResult this send_name cb cookie sync rep) =
  match rep with
  | ReplyLocal what => Err (IceException what)
  | ReplyUserException params =>
      ex ← read_user_exception params;
      Err (default UnknownUserException (Cpp11.user_exception_lambda ex))
  | ReplyOk params => read_ret params
  end.
Proof.
  unfold end_send. cbn [ar_proxy ar_operation ar_reply]. rewrite ice_check_law. cbn. destruct rep as [|params|]; [done| |done].
  by destruct (read_user_exception params) as [[]|].
Qed.

Context (out : Outgoing) (out11 : Cpp11.Outgoing11) (same : same_runtime out out11).

Lemma outcome_11 this cb cookie sync rep : Cpp11.outcome out11 rep = end_send this (mkResult this send_name cb cookie sync rep).
Proof.
  rewrite end_send_own. destruct rep as [params|params|]; [| |done]; cbn.
  - unfold read_ret. follow_reads.
  - destruct (read_user_exception params) as [ex|]; cbn; [by rewrite (sr_throws _ _ same)|done].
Qed.
(** The invocation of one mapping, then what its end reports, is that of the other: of
    a blocking call, and of any call on a twoway proxy. *)
Lemma invocation_11 {A} (k : result Z -> result A) this nodeid msgid data context cb cookie sync :
  checkTwowayOnly out send_name sync = Cpp11.checkTwowayOnly11 out11 send_name ->
  (rep ← Cpp11.iceI_send out11 nodeid msgid data context; k (Cpp11.outcome out11 rep)) =
  (r ← iceI_begin_send out this nodeid msgid data context cb cookie sync; k (end_send this r)).
Proof.
  intros Hc. unfold Cpp11.iceI_send, iceI_begin_send. rewrite <- Hc.
  destruct (checkTwowayOnly out send_name sync); [|done].
  change (_ ← Ok ?u; ?m) with m. rewrite (sr_invoke _ _ same), ice_writeAll_law. cbn [fmap list_fmap concat write_value].
  rewrite app_nil_r. change (ice_encaps _) with (write_send_params nodeid msgid data).
  cbv zeta. match goal with |- (rep ← ?R; _) = _ => destruct R as [rep|] end; [|done].
  cbn -[end_send Cpp11.outcome]. by rewrite outcome_11 with (this := this) (cb := cb) (cookie := cookie) (sync := sync).
Qed.
(** On another proxy neither makes an asynchronous call. *)
Lemma async_refused e : Cpp11.checkTwowayOnly11 out11 send_name = Err e -> exists e', checkTwowayOnly out send_name false = Err e'.
Proof.
  intros Hc. pose proof (sr_async _ _ same send_name) as Ha. rewrite <- (sr_twoway _ _ same), Hc in Ha.
  destruct (checkTwowayOnly out send_name false) as [[]|e']; [|by eexists]. discriminate (proj2 Ha eq_refl).
Qed.
End mappings.

(** * Properties *)

(** C26: The two C++ mappings of the interface are interchangeable on the wire: for every
    servant, request and operation, known or not, they dispatch alike, and report
    the same failures; they marshal results and read messages alike.  Over run times
    that prepare and invoke alike, a blocking call of either proxy, in any context,
    returns or throws the same; and on a twoway proxy so do the future in place of
    [begin_send] and [end_send], and the outcome the lambdas are called with is that
    of [end_send].  On any other proxy both throw at an asynchronous call. *)
Theorem mappings_agree `{IceStream} `{!IceVariadic} `{!IceVariadicLaws} `{!IceSlices} `{!IceSlicesLaws} out out11 :
  same_runtime out out11 ->
  (forall check S on_send (s : S) inParams current,
     Cpp11.iceDispatch_to check on_send s inParams current = iceDispatch_to check on_send s inParams current) /\
  (forall ret, Cpp11.responseCB ret = write_ret ret) /\
  (forall l, Cpp11.read_DataStruct l = read_DataStruct l) /\
  (forall this nodeid msgid data context,
     Cpp11.promise_send out11 nodeid msgid data context = prx_send out this nodeid msgid data context /\
     forall resp ex snt cb cookie,
       let future := Cpp11.sendAsync out11 nodeid msgid data context in
       let lambda := Cpp11.sendAsync_lambda out11 nodeid msgid data resp ex snt context in
       let begun := begin_send out this nodeid msgid data context in
       let begun_typed := begin_send_context_typed out this nodeid msgid data context cb cookie in
       match Cpp11.checkTwowayOnly11 out11 send_name with
       | Ok _ => future = (r ← begun; Ok (end_send this r)) /\
           lambda = (r ← begun_typed; Ok (Cpp11.lambda_completed out11 resp ex snt (end_send this r)))
       | Err e => future = Err e /\ lambda = Err e /\ exists e', begun = Err e' /\ begun_typed = Err e'
       end).
Proof.
  intros Hr. split; [auto using iceDispatch_11|]. split; [auto using responseCB_11|]. split; [auto using read_DataStruct_11|].
  intros this nodeid msgid data context.
  split; [apply (invocation_11 out out11 Hr id this); by rewrite (sr_twoway _ _ Hr)|].
  intros resp ex snt cb cookie future lambda begun begun_typed.
  destruct (Cpp11.checkTwowayOnly11 out11 send_name) as [[]|e] eqn:Hc.
  - assert (checkTwowayOnly out send_name false = Cpp11.checkTwowayOnly11 out11 send_name) as Hs.
    { rewrite Hc. apply (sr_async _ _ Hr). by rewrite <- (sr_twoway _ _ Hr). }
    split; [exact (invocation_11 out out11 Hr Ok this _ _ _ _ _ _ _ Hs)|].
    exact (invocation_11 out out11 Hr (fun o => Ok (Cpp11.lambda_completed out11 resp ex snt o)) this _ _ _ _ _ _ _ Hs).
  - destruct (async_refused out out11 Hr e Hc) as [e' E].
    unfold future, lambda, begun, begun_typed, begin_send, begin_send_context_typed, Cpp11.sendAsync, Cpp11.sendAsync_lambda, iceI_begin_send, Cpp11.iceI_send.
    rewrite Hc, E. cbn. split; [done|]. split; [done|]. by exists e'.
Qed.

(** The operations of the interface are dispatched, and no others. *)
Lemma iceC_all_ascending : ascending iceC_all.
Proof. by apply ascendingb_ascending. Qed.
Lemma iceC_ids_ascending : ascending iceC_ids.
Proof. by apply ascendingb_ascending. Qed.

Lemma unknown_operation `{IceStream} check {S} on_send (s : S) inParams current :
  operation current ∉ iceC_all -> iceDispatch_to check on_send s inParams current = Err OperationNotExist.
Proof.
  intros Hop. unfold iceDispatch_to.
  by rewrite decide_True by (by apply (equal_range_absent _ iceC_all_ascending)).
Qed.

Lemma ice_isA_spec s : ice_isA s = bool_decide (s ∈ iceC_ids).
Proof. apply binary_search_spec, iceC_ids_ascending. Qed.

(** ** A call and its reply *)
Lemma read_own_exception `{IceStream} `{!IceSlices} `{!IceSlicesLaws} :
  read_user_exception (ice_encaps SendDataException_writeImpl) = Ok SendDataException.
Proof. apply ice_throw_law; [unfold fits; cbn; done|]. unfold exception_factory. by rewrite decide_True. Qed.

(** The slices that are written are read back, without members. *)
Lemma slices_read_back `{IceStream} `{!IceSlices} `{!IceSlicesLaws} rest :
  SendDataException_readImpl (SendDataException_writeImpl ++ rest) = Ok rest /\ iceReadImpl (iceWriteImpl ++ rest) = Ok rest.
Proof.
  unfold SendDataException_readImpl, SendDataException_writeImpl, iceReadImpl, iceWriteImpl.
  by rewrite !ice_slice_law by (unfold fits; cbn; done).
Qed.

Definition reply_value (r : reply) : result Z :=
  match r with IceResponse ret => Ok ret | IceSendDataException => Err (ice_throw SendDataException) end.
Definition reply_fits (r : reply) : Prop :=
  match r with IceResponse ret => INT32_MIN <= ret <= INT32_MAX | IceSendDataException => True end.

Lemma end_send_reply `{IceStreamLaws} `{!IceSlices} `{!IceSlicesLaws} this cb cookie sync rep :
  reply_fits rep -> end_send this (mkResult this send_name cb cookie sync (reply_of rep)) = reply_value rep.
Proof.
  intros Hf. rewrite end_send_own. destruct rep as [ret|]; [by apply read_write_ret|].
  cbn [reply_of]. by rewrite read_own_exception.
Qed.

(** The run time takes the request, whatever its context, and it is answered with [rep]. *)
Definition answers `{IceStream} `{IceSlices} (out : Outgoing) (nodeid msgid : string) (data : bytes) (rep : reply) : Prop :=
  (forall sync, checkTwowayOnly out send_name sync = Ok tt) /\
  forall context, exists header, prepare out send_name Idempotent context = Ok header /\
    invoke out send_name (header ++ write_send_params nodeid msgid data) = Ok (reply_of rep).

Lemma begin_send_answers `{IceStream} `{!IceSlices} out this nodeid msgid data rep context cb cookie sync :
  answers out nodeid msgid data rep ->
  iceI_begin_send out this nodeid msgid data context cb cookie sync = Ok (mkResult this send_name cb cookie sync (reply_of rep)).
Proof.
  intros [Hc Hi]. destruct (Hi context) as (header & Hp & Hv). unfold iceI_begin_send.
  rewrite Hc. cbn. rewrite Hp. cbn. by rewrite Hv.
Qed.

(** The base classes call the exception method, as the Ice manual has it. *)
Definition calls_exception (tw : Twoway) : Prop :=
  (forall obj cb excb snt ex, tw_exceptionNC tw (mkMethods (Some obj) cb (Some excb) snt) ex = [CallException obj excb ex]) /\
  (forall obj cb excb snt cookie ex, tw_exception tw (mkMethods (Some obj) cb (Some excb) snt) cookie ex =
     [CallExceptionCT obj excb ex (dynamicCast tw cookie)]).

(** C27: A call reports what the servant's callback was given, across the wire: the value of
    [ice_response], or the very exception of [ice_exception], which reaches the
    caller as SendDataException and not as an unknown one; and the asynchronous form,
    with whatever context, calls exactly one method of the object it was given: the
    response method or the exception method, with the cookie if they take one. *)
Theorem call_reports_reply `{IceStreamLaws} `{!IceSlices} `{!IceSlicesLaws} out tw this nodeid msgid data rep context obj cb excb snt cookie :
  reply_fits rep -> answers out nodeid msgid data rep -> calls_exception tw ->
  (forall excb snt, tw_check tw (Some obj) true excb snt = Ok tt) ->
  prx_send out this nodeid msgid data context = reply_value rep /\
  exists cbNC cbCT rNC rCT,
    newCallbackNC_IoChannel_send tw (Some obj) (Some cb) (Some excb) snt = Ok cbNC /\
    newCallback_IoChannel_send tw (Some obj) (Some cb) (Some excb) snt = Ok cbCT /\
    begin_send_context_typed out this nodeid msgid data context cbNC None = Ok rNC /\
    begin_send_context_typed out this nodeid msgid data context cbCT cookie = Ok rCT /\
    completed tw cbNC rNC = Ok [match reply_value rep with
                                | Ok ret => CallResponse obj cb ret
                                | Err ex => CallException obj excb ex end] /\
    completed tw cbCT rCT = Ok [match reply_value rep with
                                | Ok ret => CallResponseCT obj cb ret (dynamicCast tw cookie)
                                | Err ex => CallExceptionCT obj excb ex (dynamicCast tw cookie) end].
Proof.
  intros Hf Ha [Hnc Hct] Hck. split.
  { unfold prx_send. rewrite (begin_send_answers _ _ _ _ _ _ _ _ _ _ Ha). by apply end_send_reply. }
  do 4 eexists. unfold newCallbackNC_IoChannel_send, newCallback_IoChannel_send. rewrite Hck. cbn.
  do 2 (split; [done|]). do 2 (split; [by apply begin_send_answers|]).
  unfold completed, completed_NC, completed_CT. cbn [ar_proxy ar_cookie]. rewrite !end_send_reply by done.
  destruct rep; cbn; [done|]. by rewrite Hnc, Hct.
Qed.

(** ** Version 1.1 of the encoding *)
Module Slices11.
Import Encoding11.
(** Flags (a type id, a size, last or not), the type id, the size, the members. *)
Definition flags (last : bool) : Z := if last then 49 else 17.
Definition slice (id : string) (compact : Z) (last : bool) (members : bytes) : bytes :=
  byte_of_Z (flags last) :: write_bytes (bytes_of_string id) ++ write_bytes members.
Definition unslice (l : bytes) : result (string * bytes * bytes) :=
  match l with
  | [] => Err (IceException "UnmarshalOutOfBounds")
  | _ :: l => '(id, l) ← read_string l; '(members, l) ← read_bytes l; Ok (id, members, l)
  end.
#[global] Instance slices : IceSlices := {
  ice_slice := slice;
  ice_unslice := unslice;
  ice_throwUserException factory params :=
    l ← ice_decaps params; '(id, _, _) ← unslice l; Ok (default (OtherUserException id) (factory id));
  ice_check r r' := if decide (r = r') then Ok tt else Err (IceException "IllegalArgumentException") }.

Lemma unslice_slice id compact members rest :
  fits (String.length id) -> fits (length members) ->
  unslice (slice id compact true members ++ rest) = Ok (id, members, rest).
Proof.
  intros Hid Hm. unfold slice, unslice. cbn [app]. rewrite <- (assoc_L (++)).
  change (write_bytes (bytes_of_string id)) with (ice_write_string id).
  change (read_string ?l) with (ice_read_string l). rewrite ice_string_law by done. cbn.
  by rewrite read_write_bytes.
Qed.

#[global] Instance slices_laws : IceSlicesLaws.
Proof.
  split.
  - intros. by apply unslice_slice.
  - intros factory id compact e Hid He. cbn [ice_throwUserException slices]. rewrite ice_encaps_law. cbn -[slice unslice].
    change (ice_slice id compact true []) with (slice id compact true []).
    rewrite <- (app_nil_r (slice _ _ _ _)), unslice_slice by done. cbn. by rewrite He.
  - intros r. cbn. by rewrite decide_True.
Qed.

#[global] Instance variadic : IceVariadic := {
  ice_writeAll vs := concat (write_value <$> vs);
  ice_readAll := read_values }.
#[global] Instance variadic_laws : IceVariadicLaws.
Proof. done. Qed.
End Slices11.

(** A run time whose every invocation is answered by a destroyed queue. *)
Definition refusing_runtime : Outgoing :=
  {| checkTwowayOnly _ _ := Ok tt; prepare _ _ _ := Ok [x00]; invoke _ _ := Ok (reply_of IceSendDataException);
     abort what := Ok (ReplyLocal what) |}.
Definition refusing_runtime11 : Cpp11.Outgoing11 :=
  {| Cpp11.checkTwowayOnly11 _ := Ok tt; Cpp11.outAsync_invoke _ _ _ _ := Ok (reply_of IceSendDataException);
     Cpp11.future_throws _ o := default UnknownUserException o; Cpp11.lambda_completed _ _ _ _ := [] |}.
(** Base classes that call the exception method if there is one. *)
Definition calling_twoway : Twoway :=
  {| tw_check obj has_cb excb _ := match obj with Some _ => Ok tt | None => Err (IceException "IllegalArgumentException") end;
     tw_exceptionNC m ex := match instance m, exception m with Some o, Some f => [CallException o f ex] | _, _ => [] end;
     tw_exception m cookie ex := match instance m, exception m with Some o, Some f => [CallExceptionCT o f ex cookie] | _, _ => [] end;
     is_CT _ := true |}.

Lemma call_reports_reply_witness :
  prx_send refusing_runtime 0 "p0" "m" [x01] None = Err (IceException "::ChannelSdk::SendDataException") /\
  exists cb r, newCallback_IoChannel_send calling_twoway (Some 5%nat) (Some 1%nat) (Some 2%nat) None = Ok cb /\
    begin_send_context_typed refusing_runtime 0 "p0" "m" [x01] None cb (Some 7%nat) = Ok r /\
    completed calling_twoway cb r = Ok [CallExceptionCT 5 2 (IceException "::ChannelSdk::SendDataException") (Some 7%nat)].
Proof.
  destruct (call_reports_reply refusing_runtime calling_twoway 0 "p0" "m" [x01] IceSendDataException None 5 1 2 None (Some 7%nat))
    as (Hp & _ & cb & _ & r & _ & Hn & _ & Hb & _ & Hc).
  - exact I.
  - split; [done|]. intros context. by exists [x00].
  - split; [done|]. by intros ? ? ? ? [].
  - done.
  - split; [exact Hp|]. exists cb, r. split; [exact Hn|]. split; [exact Hb|exact Hc].
Defined.

Lemma mappings_agree_witness :
  Cpp11.promise_send refusing_runtime11 "p0" "m" [x01] None = prx_send refusing_runtime 0 "p0" "m" [x01] None /\
  Cpp11.responseCB 0 = write_ret 0.
Proof.
  destruct (mappings_agree refusing_runtime refusing_runtime11) as (_ & Hr & _ & Hp).
  - by repeat split.
  - split; [apply (Hp 0%nat "p0" "m" [x01] None)|apply Hr].
Defined.
