(* ===== verification/Client.v ===== *)
(** The connection to a remote node: BaseClient (base_client.h/.cc) and SyncClient
    (sync_client.h/.cc).

    The Ice runtime is a parameter, [IceClient].  A remote call meets one of three
    fates: the request is lost, it is carried out and answered, or it is carried
    out and the answer is lost; the second and third change the remote node's state
    [R].  A loop that retries runs along a list of attempts, each with its fate and
    the clock reading when the code looks at its timer. *)
From S2P Require Import Prelude Timer Events CycleBuffer CycleFrame Connection WorkQueue Json ConfigData Wire Servant.
From stdpp Require Import pretty.
From Stdlib Require Import Strings.Byte Ascii.
#[local] Open Scope Z_scope.

(** * Strings *)
(** [s.find(":")], -1 when there is none. *)
Fixpoint find_colon (s : string) : Z :=
  match s with
  | EmptyString => -1
  | String c s' => if Ascii.eqb c ":" then 0
                   else let p := find_colon s' in if p =? -1 then -1 else p + 1
  end.
Definition substr (s : string) (pos len : Z) : string := String.substring (Z.to_nat pos) (Z.to_nat len) s.
Definition str_empty (s : string) : bool := match s with EmptyString => true | _ => false end.

Abbreviation properties := (gmap string string).

(** [try { r } catch (const Ice::Exception& e) { handler }] *)
Definition catch_ice {A} (r : result A) (handler : string -> result A) : result A :=
  match r with Err (IceException e) => handler e | _ => r end.

(** * The Ice runtime of a client *)
Record IceClient (Communicator Stub : Type) := mkIceClient {
  (** [CommunicatorHolder(initData)] *)
  create_communicator : properties -> result Communicator;
  (** [propertyToProxy(key)] with its two-way, timeout and security settings *)
  propertyToProxy : Communicator -> string -> result (option Stub);
  (** the Glacier2 session: router, session, heartbeat and close callback *)
  open_session : Communicator -> result unit;
  (** [uncheckedCast(stringToProxy(s))] *)
  stringToProxy : Communicator -> string -> result (option Stub);
  (** the communicator a proxy was made by, and its [shutdown()] *)
  ice_getCommunicator : Stub -> Communicator;
  client_shutdown : Communicator -> result unit }.
Arguments create_communicator {_ _} _ _.
Arguments propertyToProxy {_ _} _ _ _.
Arguments open_session {_ _} _ _.
Arguments stringToProxy {_ _} _ _ _.
Arguments ice_getCommunicator {_ _} _ _.
Arguments client_shutdown {_ _} _ _.

Section base_client.
Context {Communicator Stub : Type} (ice : IceClient Communicator Stub).

Record BaseClient := mkClient {
  bc_task_id_ : string;
  stub_ : Stub;
  bc_send_timeout_ : Z;            (* uint64_t, milliseconds *)
  remote_nid_ : string;
  bc_timer_ : SimpleTimer }.

Definition SetSendTimeOut (t : Z) (c : BaseClient) : BaseClient :=
  mkClient (bc_task_id_ c) (stub_ c) t (remote_nid_ c) (bc_timer_ c).
Definition start_timer (now : Z) (c : BaseClient) : BaseClient :=
  mkClient (bc_task_id_ c) (stub_ c) (bc_send_timeout_ c) (remote_nid_ c) (start now).

(** The lambda of the constructor: [None] when it returns false. *)
Definition SetSSLProperty (via_info : ViaInfo) (props : properties) : option properties :=
  if str_empty (vi_server_cert_path_ via_info) || str_empty (vi_client_cert_path_ via_info) then None
  else Some (<["IceSSL.Password" := vi_password_ via_info]>
            (<["IceSSL.CertFile" := vi_client_cert_path_ via_info]>
            (<["IceSSL.CAs" := vi_ca_cert_path_ via_info]>
            (<["IceSSL.DefaultDir" := vi_cert_dir_ via_info]>
            (<["Ice.Plugin.IceSSL" := "IceSSL:createIceSSL"]> props))))).

(** The SSL settings when the protocol needs them, or the event for a bad certificate. *)
Definition with_ssl (is_ssl : bool) (via_info : ViaInfo) (taskid : string) (props : properties) : result properties :=
  if is_ssl then
    match SetSSLProperty via_info props with
    | Some props' => Ok props'
    | None => HANDLE_EXCEPTION_EVENT C_EVENT_CODE_INVALID_CERT taskid [VaStr (vi_id via_info)]
    end
  else Ok props.

(** What the client asks the router or the transport for. *)
Definition router_address (protocol : string) (g : IcePlugCfg) : string :=
  AppName_ g +:+ "/router:" +:+ protocol +:+ " -p " +:+ Port_ g +:+ " -h " +:+ Ip_ g.
Definition direct_proxy (taskid : string) (protocol : string) (via_info : ViaInfo) (npos : Z) : string :=
  let serAddress := vi_via_address via_info in
  let ip := substr serAddress 0 npos in
  let port := substr serAddress (npos + 1) (Z.of_nat (String.length serAddress)) in
  servant_id taskid (vi_id via_info) +:+ ":" +:+ protocol +:+ " -h " +:+ ip +:+ " -p " +:+ port.

(** Through Glacier2. *)
Definition connect_routed (via_info : ViaInfo) (taskid protocol : string) (is_ssl : bool) : result (option Stub) :=
  let g := vi_glacier2_info via_info in
  if str_empty (AppName_ g) || str_empty (Ip_ g) || str_empty (Port_ g)
  then HANDLE_EXCEPTION_EVENT C_EVENT_CODE_NO_GLACIER2 taskid [VaStr (vi_id via_info)]
  else
    props ← with_ssl is_ssl via_info taskid
      (<[C_MAX_SIZE_KEY := "0"]> (<[C_Glacier2_Router_Key := router_address protocol g]> ∅));
    catch_ice
      (comm ← create_communicator ice props;
       let strProxy := servant_id taskid (vi_id via_info) +:+ "@" +:+ servant_adapter_id taskid (vi_id via_info) in
       _ ← open_session ice comm;
       stringToProxy ice comm strProxy)
      (fun what => HANDLE_EXCEPTION_EVENT C_EVENT_CODE_CREATE_CLIENT taskid [VaStr (vi_id via_info); VaStr what]).

(** Directly, at the address of the node. *)
Definition connect_direct (via_info : ViaInfo) (taskid protocol : string) (is_ssl : bool) (npos : Z) : result (option Stub) :=
  props ← with_ssl is_ssl via_info taskid
    (<[C_MAX_SIZE_KEY := "0"]> (<[C_Server_Proxy_Key := direct_proxy taskid protocol via_info npos]> ∅));
  catch_ice
    (comm ← create_communicator ice props; propertyToProxy ice comm C_Server_Proxy_Key)
    (fun what => HANDLE_EXCEPTION_EVENT C_EVENT_CODE_CREATE_CLIENT taskid [VaStr (vi_id via_info); VaStr what]).

(** Constructor: [send_timeout_] is not initialised ([t0]); the timer starts. *)
Definition make_BaseClient (t0 now : Z) (via_info : ViaInfo) (taskid : string) : result BaseClient :=
  let is_ssl := negb (str_empty (vi_ca_cert_path_ via_info)) in
  let protocol := if is_ssl then "ssl" else "tcp" in
  let npos := find_colon (vi_via_address via_info) in
  stub ← (if -1 =? npos then connect_routed via_info taskid protocol is_ssl
          else connect_direct via_info taskid protocol is_ssl npos);
  match stub with
  | Some s => Ok (mkClient taskid s t0 (vi_id via_info) (start now))
  | None => HANDLE_EXCEPTION_EVENT C_EVENT_CODE_INVALID_PROXY taskid [VaStr (vi_id via_info)]
  end.

(** The destructor.  [ptr_communicator_] is the communicator that made the stub. *)
Definition destroy_BaseClient (c : BaseClient) : result unit :=
  client_shutdown ice (ice_getCommunicator ice (stub_ c)).
End base_client.
Arguments BaseClient Stub : clear implicits.

(** * Remote calls *)
Inductive fate := Lost (what : string) | Answered | AnswerLost (what : string).
Record attempt := mkAttempt { at_fate : fate; at_now : Z }.

(** What a failure of the remote operation is to the caller: an Ice exception.
    Undefined behaviour and a blocked thread stay what they are. *)
Definition at_caller {A} (r : result A) : result A :=
  match r with
  | Err (UndefinedBehaviour w) => Err (UndefinedBehaviour w)
  | Err (Blocked w) => Err (Blocked w)
  | Err (AssertFailure w) => Err (AssertFailure w)
  | Err (IceException w) => Err (IceException w)
  | Err _ => Err (IceException "UnknownException")
  | Ok a => Ok a
  end.

Section calls.
Context {R : Type}.

(** One remote call: [dispatch] is what the operation does at the remote node. *)
Definition remote_call (dispatch : R -> result unit * R) (f : fate) : M R unit := fun r =>
  match f with
  | Lost what => (Err (IceException what), r)
  | Answered => let '(res, r') := dispatch r in (at_caller res, r')
  | AnswerLost what =>
      let '(res, r') := dispatch r in
      (match at_caller res with Ok _ => Err (IceException what) | e => e end, r')
  end.

(** [do { try { call; break; } catch (Ice::Exception) { if (ms_elapse >= timeout)
    event; sleep; } } while (true)]: still retrying when the attempts run out. *)
Fixpoint retry (dispatch : R -> result unit * R) (timer : SimpleTimer) (timeout : Z)
    (event : result unit) (attempts : list attempt) : M R unit := fun r =>
  match attempts with
  | [] => (Err (Blocked "retrying a remote call"), r)
  | a :: attempts' =>
      match remote_call dispatch (at_fate a) r with
      | (Ok _, r') => (Ok tt, r')
      | (Err (IceException _), r') =>
          if timeout <=? to_uint64 (ms_elapse (at_now a) timer) then (event, r')
          else retry dispatch timer timeout event attempts' r'
      | (Err e, r') => (Err e, r')
      end
  end.
End calls.

Section client_calls.
Context (STATIC_CALL : bool) `{IceStream}.
Context {Stub : Type} {R : Type}.
(** The servant of the remote node: outcome of an operation and its parameters. *)
Context (serve : Current -> bytes -> R -> result bytes * R).

Definition ping_op : Current := if STATIC_CALL then mkCurrent "ice_ping" Nonmutating else mkCurrent "ping" Normal.
Definition ping (r : R) : result unit * R :=
  let '(o, r') := serve ping_op [] r in ((_ ← o; Ok tt), r').

(** [CheckConnStatus]: [now] is the clock when the timer starts. *)
Definition CheckConnStatus (c : BaseClient Stub) (now : Z) (nodeid : string) (conn_timeout : Z)
    (attempts : list attempt) (r : R) : result bool * R * BaseClient Stub :=
  let c' := start_timer now c in
  let '(o, r') := retry ping (bc_timer_ c') conn_timeout
    (HANDLE_EXCEPTION_EVENT C_EVENT_CODE_CONNECT_TIMEOUT (bc_task_id_ c)
       [VaStr nodeid; VaStr (remote_nid_ c); VaLong conn_timeout]) attempts r in
  ((_ ← o; Ok true), r', c').

(** The copy of the message that is marshalled. *)
Definition send_payload (data : bytes) (nLen : Z) : result bytes :=
  memcpy (replicate (Z.to_nat nLen) x00) 0 data 0 nLen.

Definition send_op : Current := if STATIC_CALL then mkCurrent "send" Idempotent else mkCurrent "send" Normal.
Definition send_params (self_nodeid msg_id : string) (payload : bytes) : bytes :=
  if STATIC_CALL then write_send_params self_nodeid msg_id payload
  else write_dynamic (mkData msg_id self_nodeid payload).
Definition send_request (self_nodeid msg_id : string) (payload : bytes) (r : R) : result unit * R :=
  let '(o, r') := serve send_op (send_params self_nodeid msg_id payload) r in
  ((outParams ← o; if STATIC_CALL then _ ← read_ret outParams; Ok tt else Ok tt), r').

(** [SyncClient::send]; its [timeout] parameter is not used by its body. *)
Definition send (c : BaseClient Stub) (now : Z) (self_nodeid remote_nodeid msg_id : string) (data : bytes)
    (nLen timeout : Z) (attempts : list attempt) (r : R) : result Z * R * BaseClient Stub :=
  let c' := start_timer now c in
  match send_payload data nLen with
  | Err e => (Err e, r, c')
  | Ok payload =>
      let '(o, r') := retry (send_request self_nodeid msg_id payload) (bc_timer_ c') (bc_send_timeout_ c)
        (HANDLE_EXCEPTION_EVENT C_EVENT_CODE_SEND_DATA_TIMEOUT (bc_task_id_ c)
           [VaStr self_nodeid; VaStr remote_nodeid; VaLong (bc_send_timeout_ c)]) attempts r in
      ((_ ← o; Ok (to_int64 nLen)), r', c')
  end.
End client_calls.

(** * The loop of attempts *)
Section retry.
Context {R : Type} (dispatch : R -> result unit * R).

(** The attempts are made after each other, a pause after each failure, from the
    start of the timer. *)
Definition paced (start pause : Z) (attempts : list attempt) : Prop :=
  forall i a, attempts !! i = Some a -> start + Z.of_nat i * pause <= at_now a < 2 ^ 63.

(** A dispatch that neither blocks nor breaks the machine. *)
Definition sound_dispatch : Prop := forall r, exists res,
  (dispatch r).1 = res /\ (res = Ok tt \/ exists w, at_caller res = Err (IceException w)).

Lemma remote_call_sound f r :
  sound_dispatch ->
  (exists r', remote_call dispatch f r = (Ok tt, r')) \/
  (exists w r', remote_call dispatch f r = (Err (IceException w), r')).
Proof.
  intros Hs. destruct (Hs r) as (res & Hd & Ho). unfold remote_call.
  destruct (dispatch r) as [res' r']. cbn in Hd. subst res'.
  destruct f as [w| |w]; [right; by do 2 eexists| |].
  - destruct Ho as [->|[w' ->]]; [left; by eexists|right; by do 2 eexists].
  - destruct Ho as [->|[w' ->]]; right; by do 2 eexists.
Qed.

Context (timer : SimpleTimer) (timeout : Z) (event : result unit).
Definition timed_out (a : attempt) : Prop := timeout <= to_uint64 (ms_elapse (at_now a) timer).

(** The loop ends at the latest with the first attempt that finds the time spent. *)
Lemma retry_ends attempts r :
  sound_dispatch -> Exists timed_out attempts ->
  (retry dispatch timer timeout event attempts r).1 = Ok tt \/
  (retry dispatch timer timeout event attempts r).1 = event.
Proof.
  intros Hs HE. revert r. induction attempts as [|a attempts IH]; intros r; [by inversion HE|].
  cbn. destruct (remote_call_sound (at_fate a) r Hs) as [[r' ->]|(w & r' & ->)]; [by left|].
  destruct (Z.leb_spec timeout (to_uint64 (ms_elapse (at_now a) timer))); [by right|].
  apply IH. inversion HE; subst; [unfold timed_out in *; lia|done].
Qed.

(** It gives up only when the time is spent. *)
Lemma retry_gives_up attempts r :
  sound_dispatch -> (retry dispatch timer timeout event attempts r).1 = event -> event <> Ok tt ->
  event <> Err (Blocked "retrying a remote call") -> Exists timed_out attempts.
Proof.
  intros Hs He Hn Hb. revert r He. induction attempts as [|a attempts IH]; intros r; cbn; [congruence|].
  destruct (remote_call_sound (at_fate a) r Hs) as [[r' ->]|(w & r' & ->)]; [cbn; congruence|].
  destruct (Z.leb_spec timeout (to_uint64 (ms_elapse (at_now a) timer))); [intros _; by apply Exists_cons_hd|].
  intros He. apply Exists_cons_tl. by eapply IH.
Qed.

(** Against a node that refuses every call the loop ends with the event. *)
Lemma retry_refused attempts r w :
  dispatch r = (Err (IceException w), r) -> Exists timed_out attempts ->
  retry dispatch timer timeout event attempts r = (event, r).
Proof.
  intros Hd HE. induction attempts as [|a attempts IH]; [by inversion HE|].
  assert (exists w', remote_call dispatch (at_fate a) r = (Err (IceException w'), r)) as [w' Hr].
  { unfold remote_call. rewrite Hd. destruct (at_fate a); by eexists. }
  cbn. rewrite Hr. destruct (Z.leb_spec timeout (to_uint64 (ms_elapse (at_now a) timer))); [done|].
  apply IH. inversion HE; subst; [unfold timed_out in *; lia|done].
Qed.

(** How often the operation was carried out. *)
Definition carried (a : attempt) : bool := match at_fate a with Lost _ => false | _ => true end.
Definition carried_out (attempts : list attempt) : nat :=
  length (filter (fun a => carried a = true) attempts).
Definition remote_state (k : nat) (r : R) : R := Nat.iter k (fun r => (dispatch r).2) r.

Lemma carried_out_cons a attempts :
  carried_out (a :: attempts) = ((match at_fate a with Lost _ => 0 | _ => 1 end) + carried_out attempts)%nat.
Proof. unfold carried_out. rewrite filter_cons. destruct a as [[] t]; by case_decide. Qed.

Lemma remote_call_state f r :
  (remote_call dispatch f r).2 = match f with Lost _ => r | _ => (dispatch r).2 end.
Proof. unfold remote_call. destruct f; [done|..]; by destruct (dispatch r). Qed.

Lemma remote_call_ok f r : (remote_call dispatch f r).1 = Ok tt -> f = Answered /\ at_caller (dispatch r).1 = Ok tt.
Proof.
  unfold remote_call. destruct f; [done|..]; destruct (dispatch r) as [o r']; [done|].
  cbn. by destruct (at_caller o).
Qed.

Lemma remote_state_S k r : remote_state (S k) r = remote_state k (dispatch r).2.
Proof. unfold remote_state. by rewrite Nat.iter_succ_r. Qed.

Lemma retry_runs attempts r o r' :
  event <> Ok tt -> retry dispatch timer timeout event attempts r = (o, r') ->
  exists pre post, attempts = pre ++ post /\ r' = remote_state (carried_out pre) r /\
    (o = Ok tt -> exists pre' t, pre = pre' ++ [mkAttempt Answered t]).
Proof.
  intros He. revert r. induction attempts as [|a attempts IH]; intros r; cbn.
  { intros [= <- <-]. by exists [], []. }
  pose proof (remote_call_state (at_fate a) r) as Hst. pose proof (remote_call_ok (at_fate a) r) as Hok.
  destruct (remote_call dispatch (at_fate a) r) as [res r1]. cbn in Hst, Hok. subst r1.
  set (r1 := match at_fate a with Lost _ => r | _ => (dispatch r).2 end).
  assert (forall pre, remote_state (carried_out (a :: pre)) r = remote_state (carried_out pre) r1) as Hcons.
  { intros pre. rewrite carried_out_cons. unfold r1. destruct (at_fate a); [done|..]; apply remote_state_S. }
  assert (forall o', res = o' -> (o = Ok tt -> o' = Ok tt) -> r' = r1 ->
    exists pre post, a :: attempts = pre ++ post /\ r' = remote_state (carried_out pre) r /\
      (o = Ok tt -> exists pre' t, pre = pre' ++ [mkAttempt Answered t])) as Hstop.
  { intros o' Hr Ho ->. exists [a], attempts. split; [done|]. split; [by rewrite Hcons|].
    intros E. destruct Hok as [Hf _]; [by rewrite Hr, Ho|]. exists [], (at_now a). destruct a; cbn in *. by subst. }
  destruct res as [[]|e]; [intros [= <- <-]; by eapply Hstop|].
  destruct e; try (intros [= <- <-]; by eapply Hstop).
  case_match; [intros [= <- <-]; exists [a], attempts; split; [done|]; split; [by rewrite Hcons|done]|].
  intros (pre & post & -> & -> & Hl)%IH. exists (a :: pre), post. split; [done|]. split; [by rewrite Hcons|].
  intros E. destruct (Hl E) as (pre' & t & ->). by exists (a :: pre'), t.
Qed.

Lemma last_attempt_timed_out attempts t0 pause :
  timer = start t0 -> 0 <= t0 -> 0 <= pause -> 0 <= timeout -> paced t0 pause attempts -> attempts <> [] ->
  timeout * 1000000 <= (Z.of_nat (length attempts) - 1) * pause -> Exists timed_out attempts.
Proof.
  intros Ht H0 Hp Hto Hpaced Hne Hlen.
  destruct (exists_last Hne) as (pre & a & ->). apply Exists_app; right. apply Exists_cons_hd.
  destruct (Hpaced (length pre) a) as [Hlo Hhi]; [by apply list_lookup_middle|].
  rewrite length_app in Hlen; cbn in Hlen. unfold timed_out. subst timer.
  assert (timeout <= ms_elapse (at_now a) (start t0)) as Hge by (apply ms_elapse_ge; nia).
  rewrite to_uint_id; [done|]. split; [lia|].
  rewrite ms_elapse_start by nia. apply Z.div_lt_upper_bound; lia.
Qed.
End retry.

(** Two remote nodes that answer alike, the state of one being a view of the other's,
    make the same of a whole loop of attempts. *)
Section simulated.
Context {R1 R2 : Type} (view : R1 -> R2) (I : R1 -> Prop).
Context (dispatch1 : R1 -> result unit * R1) (dispatch2 : R2 -> result unit * R2).
Hypothesis alike : forall r, I r ->
  I (dispatch1 r).2 /\ dispatch2 (view r) = ((dispatch1 r).1, view (dispatch1 r).2).

Lemma remote_call_simulated f r :
  I r -> let '(o, r') := remote_call dispatch1 f r in I r' /\ remote_call dispatch2 f (view r) = (o, view r').
Proof.
  intros Hr. destruct (alike r Hr) as [Hi E]. unfold remote_call.
  destruct f; [done|..]; rewrite E; destruct (dispatch1 r) as [o r']; cbn in *; done.
Qed.

Lemma retry_simulated timer timeout event attempts r :
  I r -> let '(o, r') := retry dispatch1 timer timeout event attempts r in
  I r' /\ retry dispatch2 timer timeout event attempts (view r) = (o, view r').
Proof.
  revert r. induction attempts as [|a attempts IH]; intros r Hr; [done|].
  cbn. pose proof (remote_call_simulated (at_fate a) r Hr) as Hc.
  destruct (remote_call dispatch1 (at_fate a) r) as [[[]|e] r1]; destruct Hc as [Hi ->]; [done|].
  destruct e; try done. destruct (timeout <=? _); [done|]. by apply IH.
Qed.
End simulated.

(** * A send, from the client to the connection at the remote node *)
Section delivery.
Context (STATIC_CALL : bool) `{IceStreamLaws}.
Context (check : OperationMode -> OperationMode -> result unit) (check_same : forall m, check m m = Ok tt).
Abbreviation conns_t := (gmap string (ClientConnection MsgQueue.queue)).
Abbreviation serve := (servant_serve (B:=MsgQueue.queue) check STATIC_CALL).

Lemma send_timeout_event task self remote timeout :
  exists m, forall A, HANDLE_EXCEPTION_EVENT (A:=A) C_EVENT_CODE_SEND_DATA_TIMEOUT task
    [VaStr self; VaStr remote; VaLong timeout] = Err (EventException m).
Proof.
  destruct (handle_event_throws (A := unit) C_EVENT_CODE_SEND_DATA_TIMEOUT task
    [VaStr self; VaStr remote; VaLong timeout] _ eq_refl eq_refl) as (t & _ & _ & Ev).
  destruct (handle_event_any C_EVENT_CODE_SEND_DATA_TIMEOUT task [VaStr self; VaStr remote; VaLong timeout]) as [e Ee].
  rewrite Ee in Ev. injection Ev as ->. by eexists.
Qed.

Lemma send_payload_whole (data : bytes) : send_payload data (Z.of_nat (length data)) = Ok data.
Proof.
  unfold send_payload. rewrite memcpy_ok by (rewrite ?length_replicate; lia).
  by rewrite !Nat2Z.id, drop_0, firstn_all, splice_all by (by rewrite length_replicate).
Qed.

(** One request to a node that expects the sender. *)
Lemma send_request_known (conns : conns_t) self msgid data c :
  data_fits (mkData msgid self data) -> conns !! self = Some c ->
  exists c', send_request STATIC_CALL serve self msgid data conns = (Ok tt, <[self := c']> conns) /\
    (forall k, pending c' k = pending c k ++ (if decide (k = msgid) then [data] else [])) /\ cv_ c' = S (cv_ c).
Proof using check_same H0.
  intros Hf Hc. destruct (queue_write_pending c msgid data) as (c' & Hw & Hp). exists c'.
  split; [|split; [|by eapply conn_write_cv]].
  - unfold send_request, send_op, send_params, servant_serve. destruct STATIC_CALL.
    + rewrite iceDispatch_send by done. unfold find_write. rewrite Hc, Hw. cbn.
      rewrite read_write_ret by done. done.
    + rewrite ice_invoke_send by done. unfold find_write. by rewrite Hc, Hw.
  - intros k. rewrite Hp. unfold msgs_for; cbn. f_equal. repeat case_decide; by simplify_eq.
Qed.

(** A request a node does not expect changes nothing. *)
Lemma send_request_unknown (conns : conns_t) self msgid data :
  data_fits (mkData msgid self data) -> conns !! self = None ->
  send_request STATIC_CALL serve self msgid data conns = (Ok tt, conns).
Proof using check_same H0.
  intros Hf Hc. unfold send_request, send_op, send_params, servant_serve. destruct STATIC_CALL.
  - rewrite iceDispatch_send by done. unfold find_write. rewrite Hc. cbn.
    by rewrite read_write_ret by done.
  - rewrite ice_invoke_send by done. unfold find_write. by rewrite Hc.
Qed.

Lemma send_request_sound self msgid data :
  data_fits (mkData msgid self data) -> sound_dispatch (send_request STATIC_CALL serve self msgid data).
Proof using check_same H0.
  intros Hf conns. exists (Ok tt). split; [|by left]. destruct (conns !! self) as [c|] eqn:E.
  - by destruct (send_request_known conns self msgid data c Hf E) as (c' & -> & _).
  - by rewrite send_request_unknown.
Qed.

Lemma requests_pending n (conns : conns_t) self msgid data c :
  data_fits (mkData msgid self data) -> conns !! self = Some c ->
  exists c', remote_state (send_request STATIC_CALL serve self msgid data) n conns !! self = Some c' /\
    (forall k, pending c' k = pending c k ++ (if decide (k = msgid) then replicate n data else [])) /\
    forall nid, nid <> self ->
      remote_state (send_request STATIC_CALL serve self msgid data) n conns !! nid = conns !! nid.
Proof using check_same H0.
  intros Hf. revert conns c. induction n as [|n IH]; intros conns c Hc.
  { exists c. split; [done|]. split; [|done]. intros k. case_decide; by rewrite app_nil_r. }
  rewrite remote_state_S. destruct (send_request_known conns self msgid data c Hf Hc) as (c1 & -> & Hp1 & _). cbn [snd].
  destruct (IH (<[self := c1]> conns) c1) as (c' & Hc' & Hp & Ho); [by rewrite lookup_insert_eq|].
  exists c'. split; [done|]. split.
  - intros k. rewrite Hp, Hp1, <- app_assoc. f_equal. by case_decide.
  - intros nid Hn. rewrite Ho by done. by rewrite lookup_insert_ne.
Qed.

Lemma send_run {Stub} (c : BaseClient Stub) now self remote msgid data timeout attempts (conns : conns_t) o conns' cl' :
  data_fits (mkData msgid self data) ->
  send STATIC_CALL serve c now self remote msgid data (Z.of_nat (length data)) timeout attempts conns
    = (o, conns', cl') ->
  exists pre post, attempts = pre ++ post /\
    conns' = remote_state (send_request STATIC_CALL serve self msgid data) (carried_out pre) conns /\
    (forall n, o = Ok n -> n = Z.of_nat (length data) /\ (1 <= carried_out pre)%nat).
Proof using check_same H0.
  intros Hf. unfold send. rewrite send_payload_whole.
  destruct (handle_event_any C_EVENT_CODE_SEND_DATA_TIMEOUT (bc_task_id_ c)
    [VaStr self; VaStr remote; VaLong (bc_send_timeout_ c)]) as [e Ee]. rewrite Ee.
  destruct (retry _ _ _ _ attempts conns) as [o1 r1] eqn:E.
  intros [= <- <- <-]. destruct (retry_runs _ _ _ (Err e) attempts conns o1 r1 ltac:(done) E) as (pre & post & -> & -> & Hl).
  exists pre, post. split; [done|]. split; [done|]. intros n Hn. destruct o1 as [[]|]; [|done].
  injection Hn as <-. split.
  - apply to_int_id; [lia|]. destruct Hf as (_ & _ & Hd). unfold fits, INT32_MAX in Hd. cbn [ds_data] in Hd.
    change (64 - 1) with 63. lia.
  - destruct (Hl eq_refl) as (pre' & t & ->). unfold carried_out. rewrite filter_app, length_app.
    rewrite (filter_cons_True _ (mkAttempt Answered t)) by done. rewrite length_cons. lia.
Qed.

(** A send that returns has put the message at the front of an empty queue. *)
Lemma sent_pending {Stub} (c : BaseClient Stub) now self remote msgid data timeout attempts (conns : conns_t) conn n conns' cl' :
  data_fits (mkData msgid self data) -> conns !! self = Some conn -> pending conn msgid = [] ->
  send STATIC_CALL serve c now self remote msgid data (Z.of_nat (length data)) timeout attempts conns
    = (Ok n, conns', cl') ->
  n = Z.of_nat (length data) /\
  exists conn' k, conns' !! self = Some conn' /\ pending conn' msgid = data :: replicate k data.
Proof using check_same H0.
  intros Hf Hconn Hpend E. destruct (send_run c _ _ _ _ _ _ _ _ _ _ _ Hf E) as (pre & post & _ & -> & Hn).
  destruct (Hn n eq_refl) as [-> Hone]. split; [done|].
  destruct (requests_pending (carried_out pre) conns self msgid data conn Hf Hconn) as (conn' & Hc' & Hp & _).
  specialize (Hp msgid). rewrite Hpend, decide_True in Hp by done.
  destruct (carried_out pre) as [|k]; [lia|]. by exists conn', k.
Qed.
End delivery.

(** An Ice runtime that accepts everything: a stub is the name it was made from. *)
Definition accepting_client : IceClient properties string := {|
  create_communicator props := Ok props;
  propertyToProxy comm key := Ok (comm !! key);
  open_session _ := Ok tt;
  stringToProxy _ s := Ok (Some s);
  ice_getCommunicator _ := ∅;
  client_shutdown _ := Ok tt |}.

(** * Properties *)

(** C6: Sending is at least once.  Whatever the network does to the attempts, the
    remote node stores the message, whole and under its message id, as often as a
    request was carried out: at least once when [send] returns, and then it returns
    the length; possibly also when it raises the timeout event.  Other message ids
    and other senders' connections are untouched. *)
Theorem send_at_least_once STATIC_CALL `{IceStreamLaws} check c now self remote msgid data timeout attempts
    (conns : gmap string (ClientConnection MsgQueue.queue)) conn o conns' cl' :
  (forall m, check m m = Ok tt) -> data_fits (mkData msgid self data) -> conns !! self = Some conn ->
  send STATIC_CALL (servant_serve check STATIC_CALL) (Stub := unit) c now self remote msgid data
    (Z.of_nat (length data)) timeout attempts conns = (o, conns', cl') ->
  exists pre post conn', attempts = pre ++ post /\ conns' !! self = Some conn' /\
    (forall k, pending conn' k = pending conn k ++ (if decide (k = msgid) then replicate (carried_out pre) data else [])) /\
    (forall nid, nid <> self -> conns' !! nid = conns !! nid) /\
    (forall n, o = Ok n -> n = Z.of_nat (length data) /\ (1 <= carried_out pre)%nat).
Proof.
  intros Hc Hf Hs E. destruct (send_run STATIC_CALL check Hc _ _ _ _ _ _ _ _ _ _ _ _ Hf E) as (pre & post & -> & -> & Ho).
  destruct (requests_pending STATIC_CALL check Hc (carried_out pre) conns self msgid data conn Hf Hs) as (conn' & Hc' & Hp & Hn).
  by exists pre, post, conn'.
Qed.

(** An answer that is lost makes the message arrive twice. *)
Lemma send_at_least_once_witness :
  exists conns' cl' pre post conn',
    send true (servant_serve (fun _ _ => Ok tt) true) (mkClient "t" tt 5000 "p0" (start 0)) 0 "p1" "p0" "k" [x05] 1 0
      [mkAttempt (AnswerLost "timeout") 10; mkAttempt Answered 1000000010] {["p1" := idle_connection]} = (Ok 1, conns', cl') /\
    [mkAttempt (AnswerLost "timeout") 10; mkAttempt Answered 1000000010] = pre ++ post /\
    conns' !! "p1" = Some conn' /\ pending conn' "k" = [[x05]; [x05]].
Proof.
  eexists _, _. assert (send true (servant_serve (fun _ _ => Ok tt) true) (mkClient "t" tt 5000 "p0" (start 0)) 0 "p1" "p0" "k" [x05] 1 0
      [mkAttempt (AnswerLost "timeout") 10; mkAttempt Answered 1000000010] {["p1" := idle_connection]} =
    (Ok 1, {["p1" := mkConn 5000 "p1" {["m" := [[x01]]; "k" := [[x05]; [x05]]]} 8192 2]}, mkClient "t" tt 5000 "p0" (start 0))) as E
    by (vm_compute; reflexivity).
  destruct (send_at_least_once true (fun _ _ => Ok tt) (mkClient "t" tt 5000 "p0" (start 0)) 0 "p1" "p0" "k" [x05] 0
    [mkAttempt (AnswerLost "timeout") 10; mkAttempt Answered 1000000010] {["p1" := idle_connection]} idle_connection
    _ _ _ ltac:(done) ltac:(by repeat split) eq_refl E) as (pre & post & conn' & Hpp & Hc & Hp & _).
  exists pre, post, conn'. split; [exact E|]. split; [exact Hpp|]. split; [exact Hc|].
  vm_compute in Hc. injection Hc as <-. reflexivity.
Defined.

(** C7: A send ends.  With a responsive remote node or not, once the attempts, one
    second apart, cover the timeout, [send] has returned the length or raised the
    timeout event; and it raises the event only after the timeout has passed. *)
Theorem send_ends STATIC_CALL `{IceStreamLaws} check c now self remote msgid data timeout attempts
    (conns : gmap string (ClientConnection MsgQueue.queue)) :
  (forall m, check m m = Ok tt) -> data_fits (mkData msgid self data) ->
  0 <= now -> 0 <= bc_send_timeout_ c -> paced now 1000000000 attempts ->
  attempts <> [] -> bc_send_timeout_ c <= (Z.of_nat (length attempts) - 1) * 1000 ->
  exists o conns' cl',
    send STATIC_CALL (servant_serve check STATIC_CALL) (Stub := unit) c now self remote msgid data
      (Z.of_nat (length data)) timeout attempts conns = (o, conns', cl') /\
    (o = Ok (Z.of_nat (length data)) \/
     o = HANDLE_EXCEPTION_EVENT C_EVENT_CODE_SEND_DATA_TIMEOUT (bc_task_id_ c)
           [VaStr self; VaStr remote; VaLong (bc_send_timeout_ c)] /\
     exists a, a ∈ attempts /\ bc_send_timeout_ c <= to_uint64 (ms_elapse (at_now a) (start now))).
Proof.
  intros Hc Hf Hnow Ht Hp Hne Hlen. unfold send. rewrite send_payload_whole.
  destruct (send_timeout_event (bc_task_id_ c) self remote (bc_send_timeout_ c)) as [m Em]. rewrite !Em.
  pose proof (send_request_sound STATIC_CALL check Hc self msgid data Hf) as Hs.
  assert (Exists (timed_out (start now) (bc_send_timeout_ c)) attempts) as He.
  { eapply (last_attempt_timed_out (start now) _ attempts now 1000000000); [done..|lia|done|done|done|lia]. }
  pose proof (retry_ends _ (start now) _ (Err (EventException m)) attempts conns Hs He) as Ho.
  pose proof (retry_gives_up _ (start now) (bc_send_timeout_ c) (Err (EventException m)) attempts conns Hs) as Hg.
  change (bc_timer_ (start_timer now c)) with (start now).
  destruct (retry _ _ _ _ attempts conns) as [o r']. cbn in Ho, Hg. do 3 eexists. split; [reflexivity|].
  destruct Ho as [-> | ->].
  - left. cbn. f_equal. apply to_int_id; [lia|]. destruct Hf as (_ & _ & Hd).
    unfold fits, INT32_MAX in Hd. cbn [ds_data] in Hd. change (64 - 1) with 63. lia.
  - right. split; [done|]. by apply Exists_exists, Hg.
Qed.

(** A remote node that never answers: three seconds of attempts with a timeout of two. *)
Lemma send_ends_witness :
  exists o conns' cl',
    send false (servant_serve (fun _ _ => Ok tt) false) (mkClient "t" tt 2000 "p0" (start 0)) 0 "p1" "p0" "k" [x05] 1 0
      [mkAttempt (Lost "refused") 5; mkAttempt (Lost "refused") 1000000005; mkAttempt (Lost "refused") 2000000005]
      {["p1" := idle_connection]} = (o, conns', cl') /\
    (o = Ok 1 \/
     o = HANDLE_EXCEPTION_EVENT C_EVENT_CODE_SEND_DATA_TIMEOUT "t" [VaStr "p1"; VaStr "p0"; VaLong 2000] /\
     exists a, a ∈ [mkAttempt (Lost "refused") 5; mkAttempt (Lost "refused") 1000000005; mkAttempt (Lost "refused") 2000000005] /\
       2000 <= to_uint64 (ms_elapse (at_now a) (start 0))).
Proof.
  apply (send_ends false (fun _ _ => Ok tt) (mkClient "t" tt 2000 "p0" (start 0)) 0 "p1" "p0" "k" [x05] 0
    [mkAttempt (Lost "refused") 5; mkAttempt (Lost "refused") 1000000005; mkAttempt (Lost "refused") 2000000005]
    {["p1" := idle_connection]}); [done|by repeat split|done|done| |done|cbn; lia].
  intros i a Hi. destruct i as [|[|[|i]]]; cbn in Hi; simplify_eq; cbn; lia.
Defined.
