(* ===== verification/Server.v ===== *)
(** The service of a node: BaseServer (base_server.h/.cc), SyncServer
    (sync_server.h/.cc) and AsyncServer (async_server.h/.cc).

    The Ice runtime is a parameter, [IceServer]: each of its calls may raise an Ice
    exception.  What the code decides is modelled: the settings it starts Ice with,
    the identity it registers, the queues, and the events it raises. *)
From S2P Require Import Prelude StdMap Timer Events CycleBuffer Connection WorkQueue Json ConfigData Client.
From stdpp Require Import pretty.
From Stdlib Require Import Ascii.
#[local] Open Scope Z_scope.

Record IceServer (Communicator Adapter : Type) := mkIceServer {
  (** [CommunicatorHolder(initData)] and [createObjectAdapter(name)] *)
  start_communicator : properties -> result Communicator;
  createObjectAdapter : Communicator -> string -> result Adapter;
  (** [adapter->add(servant, id)], [adapter->activate()] *)
  adapter_add : Adapter -> string -> result unit;
  adapter_activate : Adapter -> result unit;
  (** [communicator->destroy()], [communicator->shutdown()] *)
  destroy_communicator : Communicator -> result unit;
  shutdown_communicator : Communicator -> result unit;
  (** [communicator->waitForShutdown()]: [Blocked] while nothing shuts it down *)
  waitForShutdown : Communicator -> result unit }.
Arguments start_communicator {_ _} _ _.
Arguments createObjectAdapter {_ _} _ _ _.
Arguments adapter_add {_ _} _ _ _.
Arguments adapter_activate {_ _} _ _.
Arguments destroy_communicator {_ _} _ _.
Arguments shutdown_communicator {_ _} _ _.
Arguments waitForShutdown {_ _} _ _.

Section server.
Context {Communicator Adapter : Type} (ice : IceServer Communicator Adapter).

Record BaseServer := mkServer {
  taskId_ : string;
  ptr_communicator_ : Communicator;
  ptr_adapter_ : Adapter;
  (** the properties Ice was started with, and the registered identity *)
  srv_properties : properties;
  srv_identity : option string }.

Definition locator_address (g : IcePlugCfg) : string :=
  AppName_ g +:+ "/Locator:tcp -p " +:+ Port_ g +:+ " -h " +:+ Ip_ g.
Definition direct_endpoints (protocol address : string) (npos : Z) : string :=
  let ip := substr address 0 npos in
  let port := substr address (npos + 1) (Z.of_nat (String.length address)) in
  protocol +:+ " -h " +:+ ip +:+ " -p " +:+ port.

(** Registration with IceGrid, for a node without an address. *)
Definition routed_properties (server_info : NodeInfo) (taskId protocol : string) : result properties :=
  let g := ni_ice_grid_info server_info in
  if str_empty (AppName_ g) || str_empty (Ip_ g) || str_empty (Port_ g)
  then HANDLE_EXCEPTION_EVENT C_EVENT_CODE_NO_ICEGRID taskId [VaStr (ni_id server_info)]
  else if str_empty (ni_public_ip_ server_info)
  then HANDLE_EXCEPTION_EVENT C_EVENT_CODE_NO_PUBLIC_IP taskId [VaStr (ni_id server_info)]
  else Ok (<[C_Servant_AdapterId_Key := servant_adapter_id taskId (ni_id server_info)]>
          (<[C_Servant_Endpoints_Key := protocol +:+ " -h " +:+ ni_public_ip_ server_info]>
          (<[C_IceGrid_Locator_Key := locator_address g]> ∅))).

Definition server_ssl (is_ssl : bool) (server_info : NodeInfo) (props : properties) : properties :=
  if is_ssl then
    <["IceSSL.Password" := ni_password_ server_info]>
    (<["IceSSL.CertFile" := ni_server_cert_path_ server_info]>
    (<["IceSSL.CAs" := ni_ca_cert_path_ server_info]>
    (<["IceSSL.DefaultDir" := ni_cert_dir_ server_info]>
    (<["Ice.Plugin.IceSSL" := "IceSSL:createIceSSL"]> props))))
  else props.

(** What the constructor of BaseServer sets before it starts Ice. *)
Definition server_properties (server_info : NodeInfo) (taskId : string) : result properties :=
  let is_ssl := negb (str_empty (ni_ca_cert_path_ server_info)) in
  let protocol := if is_ssl then "ssl" else "tcp" in
  let npos := find_colon (ni_address server_info) in
  props ← (if -1 =? npos then routed_properties server_info taskId protocol
           else Ok (<[C_Servant_Endpoints_Key := direct_endpoints protocol (ni_address server_info) npos]> ∅));
  Ok (server_ssl is_ssl server_info (<[C_MAX_SIZE_KEY := "0"]> props)).

Definition start_service_failed {A} (taskId nid what : string) : result A :=
  HANDLE_EXCEPTION_EVENT C_EVENT_CODE_START_SERVICE taskId [VaStr nid; VaStr what].

Definition make_BaseServer (server_info : NodeInfo) (taskId : string) : result BaseServer :=
  props ← server_properties server_info taskId;
  catch_ice
    (comm ← start_communicator ice props;
     adapter ← createObjectAdapter ice comm C_Servant_Adapter_Name;
     Ok (mkServer taskId comm adapter props None))
    (start_service_failed taskId (ni_id server_info)).

(** [close()]: an Ice exception is only printed. *)
Definition close (s : BaseServer) : result bool :=
  catch_ice (_ ← destroy_communicator ice (ptr_communicator_ s);
             _ ← shutdown_communicator ice (ptr_communicator_ s); Ok true)
    (fun _ => Ok true).

(** [SyncServer::wait()] and [AsyncServer::wait()] *)
Definition wait (s : BaseServer) : result bool :=
  _ ← waitForShutdown ice (ptr_communicator_ s); Ok true.

(** The destructor of SyncServer. *)
Definition destroy_SyncServer (s : BaseServer) : result bool := close s.

(** The constructor of SyncServer. *)
Definition make_SyncServer (server_info : NodeInfo) (taskId : string) : result BaseServer :=
  s ← make_BaseServer server_info taskId;
  let id_name := servant_id taskId (ni_id server_info) in
  catch_ice
    (_ ← adapter_add ice (ptr_adapter_ s) id_name;
     _ ← adapter_activate ice (ptr_adapter_ s);
     Ok (mkServer taskId (ptr_communicator_ s) (ptr_adapter_ s) (srv_properties s) (Some id_name)))
    (start_service_failed taskId (ni_id server_info)).

(** ** AsyncServer: a work queue per client, its worker started before the
    adapter is activated *)
Section async.
Context {B : Type} `{MsgBuffer B}.
Record AsyncServer := mkAsync { as_base : BaseServer; map_noide_to_wq_ : gmap string (WorkQueue B) }.

Definition make_queues (conns : gmap string (ClientConnection B)) : gmap string (WorkQueue B) :=
  map_imap (fun nid c => Some (make_WorkQueue nid c)) conns.

Definition make_AsyncServer (server_info : NodeInfo) (taskId : string)
    (conns : gmap string (ClientConnection B)) : result AsyncServer :=
  s ← make_BaseServer server_info taskId;
  let wqs := make_queues conns in
  let id_name := servant_id taskId (ni_id server_info) in
  catch_ice
    (_ ← adapter_add ice (ptr_adapter_ s) id_name;
     _ ← adapter_activate ice (ptr_adapter_ s);
     Ok (mkAsync (mkServer taskId (ptr_communicator_ s) (ptr_adapter_ s) (srv_properties s) (Some id_name)) wqs))
    (start_service_failed taskId (ni_id server_info)).

(** The destructor: every queue is destroyed, then [close()]; the outcome of
    [close()] does not matter to the queues. *)
Definition destroy_AsyncServer (s : AsyncServer) : result bool * gmap string (WorkQueue B) :=
  let wqs := destroy <$> map_noide_to_wq_ s in
  (close (as_base s), wqs).

(** The object behind [server_]: which class it has is a matter of the build. *)
Inductive Server :=
  | Sync (s : BaseServer)
  | Async (s : AsyncServer).
Definition base_of (s : Server) : BaseServer := match s with Sync s => s | Async s => as_base s end.

(** The [make_shared] of StartServer, in either build. *)
Definition start_server (ASYNC_SERVER : bool) (server_info : NodeInfo) (taskId : string)
    (conns : gmap string (ClientConnection B)) : result Server :=
  if ASYNC_SERVER then Async <$> make_AsyncServer server_info taskId conns
  else Sync <$> make_SyncServer server_info taskId.

(** [~BaseServer()] is virtual: the outcome of [close()]. *)
Definition destroy_Server (s : Server) : result bool :=
  match s with Sync s => destroy_SyncServer s | Async s => (destroy_AsyncServer s).1 end.

(** Every client of the node has its own queue over its own connection. *)
Lemma queues_of_clients conns nid :
  make_queues conns !! nid = (fun c => make_WorkQueue nid c) <$> conns !! nid.
Proof. unfold make_queues. rewrite map_lookup_imap. by destruct (conns !! nid). Qed.
End async.
End server.
Arguments BaseServer Communicator Adapter : clear implicits.
Arguments Server Communicator Adapter B : clear implicits.

(** * Starting, on every path *)
Section start.
Context {Communicator Adapter : Type} (ice : IceServer Communicator Adapter).

Lemma catch_ice_ok {A} (r : result A) h a : catch_ice r h = Ok a -> r = Ok a \/ exists e, r = Err (IceException e) /\ h e = Ok a.
Proof. destruct r as [|[]]; cbn; naive_solver. Qed.

Lemma start_failed_not_ok {A} taskId nid what (a : A) : start_service_failed taskId nid what <> Ok a.
Proof.
  unfold start_service_failed.
  destruct (handle_event_any C_EVENT_CODE_START_SERVICE taskId [VaStr nid; VaStr what]) as [e Ee]. by rewrite Ee.
Qed.

(** A server can always be closed, when Ice raises nothing but its own exceptions. *)
Lemma close_ok s :
  (forall c, match destroy_communicator ice c with Err (IceException _) | Ok _ => True | _ => False end) ->
  (forall c, match shutdown_communicator ice c with Err (IceException _) | Ok _ => True | _ => False end) ->
  close ice s = Ok true.
Proof.
  intros Hd Hs. unfold close. specialize (Hd (ptr_communicator_ s)). specialize (Hs (ptr_communicator_ s)).
  destruct (destroy_communicator _ _) as [|[]]; cbn; try done.
  by destruct (shutdown_communicator _ _) as [|[]].
Qed.

Lemma BaseServer_ok server_info taskId b :
  make_BaseServer ice server_info taskId = Ok b -> server_properties server_info taskId = Ok (srv_properties b).
Proof.
  unfold make_BaseServer. intros (props & Hp & Hb)%bind_Ok.
  apply catch_ice_ok in Hb as [Hb|(e & _ & Hb)]; [|by apply start_failed_not_ok in Hb].
  apply bind_Ok in Hb as (? & _ & Hb). by apply bind_Ok in Hb as (? & _ & [= <-]).
Qed.

(** A service that started runs with the settings of its node under its identity,
    whatever the build; an asynchronous one has a queue for every connection. *)
Lemma start_server_ok {B} `{MsgBuffer B} ASYNC_SERVER server_info taskId (conns : gmap string (ClientConnection B)) s :
  start_server ice ASYNC_SERVER server_info taskId conns = Ok s ->
  server_properties server_info taskId = Ok (srv_properties (base_of s)) /\
  srv_identity (base_of s) = Some (servant_id taskId (ni_id server_info)) /\ taskId_ (base_of s) = taskId /\
  match s with Sync _ => ASYNC_SERVER = false | Async a => ASYNC_SERVER = true /\ map_noide_to_wq_ a = make_queues conns end.
Proof.
  unfold start_server. destruct ASYNC_SERVER;
    [destruct (make_AsyncServer _ _ _ _) as [x|] eqn:E; [|done]; unfold make_AsyncServer in E
    |destruct (make_SyncServer _ _ _) as [x|] eqn:E; [|done]; unfold make_SyncServer in E]; intros [= <-];
    apply bind_Ok in E as (b & Hb%BaseServer_ok & Hs);
    (apply catch_ice_ok in Hs as [Hs|(e & _ & Hs)]; [|by apply start_failed_not_ok in Hs]);
    apply bind_Ok in Hs as (? & _ & Hs); by apply bind_Ok in Hs as (? & _ & [= <-]).
Qed.
End start.

(** An Ice runtime that accepts everything. *)
Definition accepting_server : IceServer unit unit := {|
  start_communicator _ := Ok tt;
  createObjectAdapter _ _ := Ok tt;
  adapter_add _ _ := Ok tt;
  adapter_activate _ := Ok tt;
  destroy_communicator _ := Ok tt;
  shutdown_communicator _ := Ok tt;
  waitForShutdown _ := Err (Blocked "waitForShutdown") |}.
