(* ===== verification/AsyncNode.v ===== *)
(** A node of the ASYNC_SERVER build as a whole: the servant (IoChannelI.cc), the work
    queues (WorkQueue.cc) and the connections (client_connection.cc) of an AsyncServer
    (async_server.cc), running together.

    The connections are shared: [ViaNetIO] receives from the objects the workers
    write to.  [n_conns] is that store; the connection a queue holds is its pointer,
    and [attach] loads the object before a worker runs.  The queues of one node and
    its receivers interleave freely.

    The node is compared with one of the synchronous build, whose servant writes
    to the connection before it answers. *)
From S2P Require Import Prelude Timer CycleBuffer Connection WorkQueue Json ConfigData Wire Servant.
From S2P Require Import Generated Client Server Events.
From Stdlib Require Import Strings.Byte.
#[local] Open Scope Z_scope.

Section node.
Context {B : Type} `{MsgBuffer B}.

Record async_node := mkAsyncNode {
  n_conns : gmap string (ClientConnection B);
  n_queues : gmap string (WorkQueue B) }.

(** The node when the AsyncServer has been constructed over the connections. *)
Definition node_init (conns : gmap string (ClientConnection B)) : async_node :=
  mkAsyncNode conns (make_queues conns).

(** A request: [send_async] with ASYNC_SERVER. *)
Definition node_request (s : async_node) (cb : nat) (nodeid msgid : string) (data : bytes)
  : list (nat * reply) * async_node :=
  let '(r, _, wqs) := send_async_queued (n_queues s) cb nodeid msgid data in
  (r, mkAsyncNode (n_conns s) wqs).

Definition attach (c : ClientConnection B) (w : WorkQueue B) : WorkQueue B :=
  mkWQ (_callbacks w) (_done w) c (wq_nodeid_ w).

(** A turn of the worker of one queue, from a wake-up to the next wait or its end:
    it writes through the pointer to the shared connection. *)
Definition node_worker (s : async_node) (nodeid : string) : result (list (nat * reply) * async_node) :=
  match n_queues s !! nodeid, n_conns s !! nodeid with
  | Some w, Some c =>
      '(_, r, w') ← run_locked (attach c w);
      Ok (r, mkAsyncNode (<[nodeid := ptr_client_conn_ w']> (n_conns s)) (<[nodeid := w']> (n_queues s)))
  | _, _ => Err (UndefinedBehaviour "no such worker")
  end.

(** The loop of the destructor of AsyncServer.  The communicator takes requests until
    the [close()] behind it; from then on there is no node to ask. *)
Definition node_destroy (s : async_node) : async_node :=
  mkAsyncNode (n_conns s) (destroy <$> n_queues s).

(** What is visible of a step: a request with the answers given to it, and a receive
    that returns; or the turn of a worker, or the end of the server. *)
Inductive node_event :=
  | Request (cb : nat) (nodeid msgid : string) (data : bytes) (answers : list (nat * reply))
  | Receive (nodeid msgid : string) (block : bytes) (len ret : Z) (data : bytes)
  | Worker (nodeid : string) (answers : list (nat * reply))
  | Destroy.

Inductive node_step : async_node -> node_event -> async_node -> Prop :=
  | node_step_request s cb nodeid msgid data r s' :
      node_request s cb nodeid msgid data = (r, s') ->
      node_step s (Request cb nodeid msgid data r) s'
  | node_step_worker s nodeid r s' :
      node_worker s nodeid = Ok (r, s') -> node_step s (Worker nodeid r) s'
  | node_step_receive s nodeid msgid beg now block len c ret data c' :
      n_conns s !! nodeid = Some c ->
      recv_iter beg now c msgid block len = Ok (RecvReturn ret data, c') ->
      node_step s (Receive nodeid msgid block len ret data) (mkAsyncNode (<[nodeid := c']> (n_conns s)) (n_queues s))
  | node_step_destroy s : node_step s Destroy (node_destroy s).

Inductive node_steps (s0 : async_node) : list node_event -> async_node -> Prop :=
  | node_steps_refl : node_steps s0 [] s0
  | node_steps_snoc tr s a s' : node_steps s0 tr s -> node_step s a s' -> node_steps s0 (tr ++ [a]) s'.

(** ** The synchronous node, with the same visible events *)
Inductive sync_step : gmap string (ClientConnection B) -> node_event -> gmap string (ClientConnection B) -> Prop :=
  | sync_step_request conns cb nodeid msgid data ret conns' :
      send_async conns nodeid msgid data = Ok (ret, conns') ->
      sync_step conns (Request cb nodeid msgid data [(cb, IceResponse ret)]) conns'
  | sync_step_receive conns nodeid msgid beg now block len c ret data c' :
      conns !! nodeid = Some c ->
      recv_iter beg now c msgid block len = Ok (RecvReturn ret data, c') ->
      sync_step conns (Receive nodeid msgid block len ret data) (<[nodeid := c']> conns).

Inductive sync_steps (c0 : gmap string (ClientConnection B)) : list node_event -> gmap string (ClientConnection B) -> Prop :=
  | sync_steps_refl : sync_steps c0 [] c0
  | sync_steps_snoc tr s a s' : sync_steps c0 tr s -> sync_step s a s' -> sync_steps c0 (tr ++ [a]) s'.

(** Requests and receives of a trace. *)
Definition visible (a : node_event) : bool :=
  match a with Request _ _ _ _ _ | Receive _ _ _ _ _ _ => true | _ => false end.
Definition visibles (tr : list node_event) : list node_event := base.filter (fun a => visible a = true) tr.

(** Events of a server that is not destroyed, with requests of its clients only. *)
Definition in_service (conns : gmap string (ClientConnection B)) (a : node_event) : Prop :=
  match a with
  | Request _ nodeid _ _ _ => is_Some (conns !! nodeid)
  | Destroy => False
  | _ => True
  end.

Lemma visibles_snoc tr a :
  visibles (tr ++ [a]) = visibles tr ++ (if visible a then [a] else []).
Proof. unfold visibles. rewrite filter_app, filter_cons, filter_nil. by destruct (visible a). Qed.
End node.
Arguments async_node B : clear implicits.

(** * Without USE_BUFFER: writes never fail, and later ones do not disturb a receive *)
Section queued_messages.
Implicit Types (c : ClientConnection MsgQueue.queue) (s : async_node MsgQueue.queue).

Definition put c (msgid : string) (data : bytes) : ClientConnection MsgQueue.queue :=
  notify_all (with_mapbuffer (<[msgid := default [] (mapbuffer_ c !! msgid) ++ [data]]> (mapbuffer_ c)) c).
Definition put_all c (cbs : list CallbackEntry) : ClientConnection MsgQueue.queue :=
  foldl (fun c e => put c (_msgid e) (_data e)) c cbs.

Lemma conn_write_put c msgid data : conn_write c msgid data = Ok (true, put c msgid data).
Proof.
  unfold conn_write, put. destruct (mapbuffer_ c !! msgid) as [b|] eqn:E; cbn.
  - by rewrite E.
  - rewrite lookup_insert_eq. cbn. by rewrite insert_insert_eq.
Qed.

Lemma drain_put_all cbs c : drain cbs c = Ok (put_all c cbs).
Proof.
  revert c. induction cbs as [|e cbs IH]; intros c; [done|].
  cbn [drain]. rewrite conn_write_put. cbn. apply IH.
Qed.

Lemma put_all_snoc c cbs e : put_all c (cbs ++ [e]) = put (put_all c cbs) (_msgid e) (_data e).
Proof. unfold put_all. by rewrite foldl_snoc. Qed.

Lemma recv_put beg now c msgid block len ret data c' k d :
  recv_iter beg now c msgid block len = Ok (RecvReturn ret data, c') ->
  recv_iter beg now (put c k d) msgid block len = Ok (RecvReturn ret data, put c' k d).
Proof.
  unfold recv_iter, put; cbn. destruct (mapbuffer_ c !! msgid) as [[|m b]|] eqn:E; cbn -[memcpy]; [done| |done].
  intros (o & (blk & Hm & [= <-])%bind_Ok & [= <- <- <-])%bind_Ok. cbn.
  destruct (decide (k = msgid)) as [->|Hk].
  - rewrite !lookup_insert_eq, E. cbn -[memcpy]. rewrite Hm. cbn. unfold with_mapbuffer; cbn. by rewrite !insert_insert_eq.
  - rewrite !lookup_insert_ne, E by done. cbn -[memcpy]. rewrite Hm. cbn. unfold with_mapbuffer; cbn.
    by rewrite insert_insert_ne by done.
Qed.

Lemma recv_put_all beg now c msgid block len ret data c' cbs :
  recv_iter beg now c msgid block len = Ok (RecvReturn ret data, c') ->
  recv_iter beg now (put_all c cbs) msgid block len = Ok (RecvReturn ret data, put_all c' cbs).
Proof.
  revert c c'. induction cbs as [|e cbs IH]; intros c c' Hr; [done|]. cbn. by apply IH, recv_put.
Qed.

(** ** The connections once the workers have caught up *)
Definition flush s : gmap string (ClientConnection MsgQueue.queue) :=
  map_imap (fun nid c => Some (put_all c (from_option _callbacks [] (n_queues s !! nid)))) (n_conns s).

Lemma lookup_flush s nid :
  flush s !! nid = (fun c => put_all c (from_option _callbacks [] (n_queues s !! nid))) <$> n_conns s !! nid.
Proof. unfold flush. rewrite map_lookup_imap. by destruct (n_conns s !! nid). Qed.

Lemma flush_init conns : flush (node_init conns) = conns.
Proof.
  apply map_eq. intros nid. rewrite lookup_flush. cbn. rewrite queues_of_clients.
  by destruct (conns !! nid).
Qed.

(** Every client has a queue that is not destroyed, and no one else has. *)
Definition serving (conns : gmap string (ClientConnection MsgQueue.queue)) s : Prop :=
  forall nid, match conns !! nid with
    | Some _ => is_Some (n_conns s !! nid) /\ exists w, n_queues s !! nid = Some w /\ _done w = false
    | None => n_conns s !! nid = None /\ n_queues s !! nid = None
    end.

Lemma serving_init conns : serving conns (node_init conns).
Proof.
  intros nid. cbn. rewrite queues_of_clients. destruct (conns !! nid); [|done].
  split; [done|]. by eexists.
Qed.

(** Changing one client's connection and queue. *)
Lemma serving_insert conns s nid c w :
  serving conns s -> is_Some (conns !! nid) -> _done w = false ->
  serving conns (mkAsyncNode (<[nid := c]> (n_conns s)) (<[nid := w]> (n_queues s))).
Proof.
  intros Hs [c0 Hc] Hw n. specialize (Hs n). cbn. destruct (decide (n = nid)) as [->|Hn].
  - rewrite !lookup_insert_eq, Hc. split; [done|]. by eexists.
  - by rewrite !lookup_insert_ne by done.
Qed.

Lemma flush_insert s nid c w :
  flush (mkAsyncNode (<[nid := c]> (n_conns s)) (<[nid := w]> (n_queues s))) =
  <[nid := put_all c (_callbacks w)]> (flush s).
Proof.
  apply map_eq. intros n. rewrite lookup_flush. cbn. destruct (decide (n = nid)) as [->|Hn].
  - by rewrite !lookup_insert_eq.
  - rewrite !lookup_insert_ne by done. by rewrite lookup_flush.
Qed.

(** ** Simulation *)
Lemma request_simulated conns s cb nodeid msgid data r s' :
  serving conns s -> is_Some (conns !! nodeid) -> node_request s cb nodeid msgid data = (r, s') ->
  serving conns s' /\ sync_step (flush s) (Request cb nodeid msgid data r) (flush s').
Proof.
  intros Hs Hc. pose proof (Hs nodeid) as Hn. destruct Hc as [c0 Hc]. rewrite Hc in Hn.
  destruct Hn as ([c Ec] & w & Ew & Hd).
  unfold node_request, send_async_queued, add. rewrite Ew, Hd. cbn. intros [= <- <-].
  rewrite <- (insert_id (n_conns s) nodeid c) by done.
  split; [by apply serving_insert|].
  rewrite flush_insert. cbn. rewrite put_all_snoc. cbn.
  constructor. unfold send_async, find_write. rewrite lookup_flush, Ec, Ew. cbn.
  by rewrite conn_write_put.
Qed.

Lemma receive_simulated conns s nodeid msgid beg now block len c ret data c' :
  serving conns s -> n_conns s !! nodeid = Some c ->
  recv_iter beg now c msgid block len = Ok (RecvReturn ret data, c') ->
  let s' := mkAsyncNode (<[nodeid := c']> (n_conns s)) (n_queues s) in
  serving conns s' /\ sync_step (flush s) (Receive nodeid msgid block len ret data) (flush s').
Proof.
  intros Hs Ec Hr. cbn. pose proof (Hs nodeid) as Hn.
  destruct (conns !! nodeid) as [c0|] eqn:Hc; [|destruct Hn; congruence].
  destruct Hn as (_ & w & Ew & Hd).
  rewrite <- (insert_id (n_queues s) nodeid w) by done.
  split; [by apply serving_insert|]. rewrite flush_insert.
  eapply sync_step_receive; [by rewrite lookup_flush, Ec, Ew|]. by apply recv_put_all.
Qed.

(** The turn of a worker empties its queue and is not visible. *)
Lemma worker_simulated conns s nodeid r s' :
  serving conns s -> node_worker s nodeid = Ok (r, s') ->
  serving conns s' /\ flush s' = flush s /\ r = [] /\
  (exists w, n_queues s' = <[nodeid := w]> (n_queues s) /\ _callbacks w = []).
Proof.
  intros Hs. unfold node_worker. pose proof (Hs nodeid) as Hn.
  destruct (n_queues s !! nodeid) as [w|] eqn:Ew; [|done].
  destruct (n_conns s !! nodeid) as [c|] eqn:Ec; [|done].
  destruct (conns !! nodeid) as [c0|] eqn:Hc; [|destruct Hn; congruence].
  destruct Hn as (_ & w0 & [= <-] & Hd).
  unfold run_locked, attach. cbn. rewrite Hd, drain_put_all. cbn. intros [= <- <-].
  split; [by apply serving_insert|]. split; [|split; [done|]; by eexists].
  rewrite flush_insert. cbn. apply insert_id. by rewrite lookup_flush, Ec, Ew.
Qed.

Lemma node_simulated conns tr s :
  node_steps (node_init conns) tr s -> Forall (in_service conns) tr ->
  serving conns s /\ sync_steps conns (visibles tr) (flush s).
Proof.
  intros Hs. induction Hs as [|tr s a s' Hs IH Hst].
  - intros _. rewrite flush_init. split; [apply serving_init|constructor].
  - rewrite Forall_app, Forall_singleton. intros [Htr Ha]. destruct (IH Htr) as [Hv Hss]. clear IH.
    rewrite visibles_snoc. destruct Hst as [s cb nodeid msgid data r s' E|s nodeid r s' E
      |s nodeid msgid beg now block len c ret data c' Ec E|s]; cbn in *; [| | |done].
    + destruct (request_simulated _ _ _ _ _ _ _ _ Hv Ha E). split; [done|]. by eapply sync_steps_snoc.
    + destruct (worker_simulated _ _ _ _ _ Hv E) as (Hv' & Ef & _). by rewrite app_nil_r, Ef.
    + destruct (receive_simulated _ _ _ _ _ _ _ _ _ _ _ _ Hv Ec E). split; [done|]. by eapply sync_steps_snoc.
Qed.

(** ** The workers can always catch up *)
Lemma node_steps_trans s0 tr1 s1 tr2 s2 :
  node_steps (B:=MsgQueue.queue) s0 tr1 s1 -> node_steps s1 tr2 s2 -> node_steps s0 (tr1 ++ tr2) s2.
Proof.
  intros H1 H2. induction H2 as [|tr s a s' _ IH Hst]; [by rewrite app_nil_r|].
  rewrite (app_assoc tr1). by eapply node_steps_snoc.
Qed.

Lemma worker_runs conns s nid :
  serving conns s -> is_Some (conns !! nid) ->
  exists s', node_steps s [Worker nid []] s' /\ serving conns s' /\ flush s' = flush s /\
    exists w, n_queues s' = <[nid := w]> (n_queues s) /\ _callbacks w = [].
Proof.
  intros Hs [c0 Hc]. pose proof (Hs nid) as Hn. rewrite Hc in Hn. destruct Hn as ([c Ec] & w & Ew & Hd).
  assert (exists r s', node_worker s nid = Ok (r, s')) as (r & s' & E).
  { unfold node_worker, run_locked, attach. rewrite Ew, Ec. cbn. rewrite Hd, drain_put_all. by do 2 eexists. }
  destruct (worker_simulated _ _ _ _ _ Hs E) as (? & ? & -> & ?). exists s'. split; [|done].
  apply (node_steps_snoc s [] s); [constructor|by constructor].
Qed.

Lemma workers_catch_up conns s nids :
  serving conns s -> (forall nid, nid ∈ nids -> is_Some (conns !! nid)) ->
  exists s', node_steps s ((fun nid => Worker nid []) <$> nids) s' /\ serving conns s' /\ flush s' = flush s /\
    (forall nid w, n_queues s' !! nid = Some w ->
       _callbacks w = [] \/ (nid ∉ nids /\ n_queues s !! nid = Some w)).
Proof.
  revert s. induction nids as [|nid nids IH]; intros s Hs Hin.
  - exists s. split; [constructor|]. split; [done|]. split; [done|]. intros nid w Hw. right. split; [set_solver|done].
  - destruct (worker_runs conns s nid Hs (Hin nid ltac:(set_solver))) as (s1 & St1 & Hs1 & Hf1 & w1 & Hq1 & Hw1).
    destruct (IH s1 Hs1) as (s2 & St2 & Hs2 & Hf2 & Hq2); [set_solver|].
    exists s2. split; [exact (node_steps_trans _ _ _ _ _ St1 St2)|]. split; [done|].
    split; [by rewrite Hf2|]. intros n w Hw. destruct (Hq2 n w Hw) as [?|[Hn E]]; [by left|].
    rewrite Hq1 in E. destruct (decide (n = nid)) as [->|Hne].
    + rewrite lookup_insert_eq in E. injection E as <-. by left.
    + rewrite lookup_insert_ne in E by done. right. split; [set_solver|done].
Qed.

(** With nothing queued, the shared connections are the flushed ones. *)
Lemma flush_idle s :
  (forall nid w, n_queues s !! nid = Some w -> _callbacks w = []) -> flush s = n_conns s.
Proof.
  intros Hq. apply map_eq. intros nid. rewrite lookup_flush.
  destruct (n_queues s !! nid) as [w|] eqn:E; cbn; [rewrite (Hq _ _ E)|]; by destruct (n_conns s !! nid).
Qed.
End queued_messages.

(** * The asynchronous servant as its callers meet it *)
Section serve.
Context {B : Type} `{MsgBuffer B} `{IceStream} `{IceSlices}.
Context (iceCheckMode : OperationMode -> OperationMode -> result unit).

(** [send_async] with ASYNC_SERVER, and what its callback sends back. *)
Definition async_on_send (s : async_node B) (nodeid msgid : string) (data : bytes) : result (answer * async_node B) :=
  let '(rs, s') := node_request s 0 nodeid msgid data in
  Ok (match rs with
      | [] => AnsNever
      | (_, rep) :: _ =>
          match reply_of rep with
          | ReplyOk out => AnsSend out
          | ReplyUserException out => AnsUserException out
          | ReplyLocal _ => AnsNever
          end
      end, s').

(** An operation at this node; the proxy's [end_send] turns the user exception into
    the exception its caller gets. *)
Definition async_serve (current : Current) (inParams : bytes) (s : async_node B) : result bytes * async_node B :=
  match iceDispatch_to iceCheckMode async_on_send s inParams current with
  | Ok (AnsSend out, s') => (Ok out, s')
  | Ok (AnsUserException out, s') =>
      ((_ ← end_send 0 (mkResult 0 send_name dummyCallback None true (ReplyUserException out)); Ok []), s')
  | Ok (AnsNever, s') => (Err (Blocked "no answer"), s')
  | Ok (_, s') => (Ok [], s')
  | Err e => (Err e, s)
  end.
End serve.

Section async_calls.
Context {B : Type} `{MsgBuffer B} {ist : IceStream} {ist_laws : IceStreamLaws} {isl : IceSlices} {isl_laws : IceSlicesLaws}.
Context (check : OperationMode -> OperationMode -> result unit) (check_same : forall m, check m m = Ok tt).
Implicit Types s : async_node B.

Lemma async_dispatch_send s msgid nodeid data :
  data_fits (mkData msgid nodeid data) ->
  iceDispatch_to check async_on_send s (write_send_params nodeid msgid data) (mkCurrent "send" Idempotent) =
    async_on_send s nodeid msgid data.
Proof using check_same ist_laws.
  intros Hf. unfold iceDispatch_to, iceD_send. cbn -[async_on_send]. rewrite check_same. cbn -[async_on_send].
  by rewrite read_write_send_params by done.
Qed.

(** A node that is shutting down refuses: the call throws SendDataException. *)
Lemma send_request_destroyed s self msgid data w :
  data_fits (mkData msgid self data) -> n_queues s !! self = Some w -> _done w = true ->
  send_request true (async_serve check) self msgid data s = (Err (ice_throw SendDataException), s).
Proof using check_same ist_laws isl_laws.
  intros Hf Hw Hd. unfold send_request, send_op, send_params, async_serve.
  rewrite async_dispatch_send by done. unfold async_on_send, node_request, send_async_queued, add.
  rewrite Hw, Hd. cbn -[end_send ice_throw]. rewrite insert_id by done.
  change (ReplyUserException _) with (reply_of IceSendDataException). rewrite end_send_reply by done.
  by destruct s.
Qed.

(** A node in service answers before the message is stored. *)
Lemma send_request_queued s self msgid data w :
  data_fits (mkData msgid self data) -> n_queues s !! self = Some w -> _done w = false ->
  send_request true (async_serve check) self msgid data s = (Ok tt, (node_request s 0 self msgid data).2).
Proof using check_same ist_laws.
  intros Hf Hw Hd. unfold send_request, send_op, send_params, async_serve.
  rewrite async_dispatch_send by done. unfold async_on_send, node_request, send_async_queued, add.
  rewrite Hw, Hd. cbn -[read_ret write_ret]. by rewrite read_write_ret.
Qed.

(** A request of a node that is no client is never answered. *)
Lemma send_request_unanswered s self msgid data :
  data_fits (mkData msgid self data) -> n_queues s !! self = None ->
  send_request true (async_serve check) self msgid data s = (Err (Blocked "no answer"), s).
Proof using check_same ist_laws.
  intros Hf Hw. unfold send_request, send_op, send_params, async_serve.
  rewrite async_dispatch_send by done. unfold async_on_send, node_request, send_async_queued.
  rewrite Hw. by destruct s.
Qed.
End async_calls.

(** A request to the asynchronous node, seen through [flush], is one to the synchronous node. *)
Lemma request_alike `{ist_laws : IceStreamLaws} `{!IceSlices} check conns (s : async_node MsgQueue.queue) self msgid data :
  (forall m, check m m = Ok tt) -> data_fits (mkData msgid self data) -> is_Some (conns !! self) -> serving conns s ->
  let '(o, s') := send_request true (async_serve check) self msgid data s in
  serving conns s' /\ send_request true (servant_serve check true) self msgid data (flush s) = (o, flush s').
Proof.
  intros Hc Hf Hs Hv. pose proof (Hv self) as Hn. destruct (conns !! self) as [c0|] eqn:Es; [|by destruct Hs].
  destruct Hn as ([c Ec] & w & Ew & Hd). rewrite (send_request_queued check Hc s self msgid data w Hf Ew Hd).
  destruct (node_request s 0 self msgid data) as [r s'] eqn:E. cbn [snd].
  destruct (request_simulated conns s 0 self msgid data r s' Hv ltac:(by rewrite Es) E) as [Hv' Hst].
  split; [done|]. inversion Hst as [? ? ? ? ? ret ? Hsend|]; subst.
  unfold send_async in Hsend. apply bind_Ok in Hsend as (cs & Hw & [= <- ->]).
  unfold send_request, send_op, send_params, servant_serve.
  rewrite iceDispatch_send by done. rewrite Hw. cbn -[read_ret write_ret]. by rewrite read_write_ret.
Qed.

(** So is a whole send, with its retries. *)
Lemma send_alike `{ist_laws : IceStreamLaws} `{!IceSlices} {Stub} check conns (c : BaseClient Stub) now self remote msgid data
    timeout attempts s o s' cl' :
  (forall m, check m m = Ok tt) -> data_fits (mkData msgid self data) -> is_Some (conns !! self) -> serving conns s ->
  send true (async_serve check) c now self remote msgid data (Z.of_nat (length data)) timeout attempts s = (o, s', cl') ->
  serving conns s' /\
  send true (servant_serve check true) c now self remote msgid data (Z.of_nat (length data)) timeout attempts (flush s)
    = (o, flush s', cl').
Proof.
  intros Hc Hf Hs Hv. unfold send. rewrite send_payload_whole.
  set (event := HANDLE_EXCEPTION_EVENT _ _ _).
  pose proof (retry_simulated flush (serving conns) (send_request true (async_serve check) self msgid data)
    (send_request true (servant_serve check true) self msgid data)) as Hsim.
  specialize (Hsim ltac:(intros r Hr; pose proof (request_alike check conns r self msgid data Hc Hf Hs Hr) as Ha;
    by destruct (send_request true (async_serve check) self msgid data r))
    (bc_timer_ (start_timer now c)) (bc_send_timeout_ c) event attempts s Hv).
  destruct (retry _ _ _ event attempts s) as [o1 s1]. destruct Hsim as [Hv1 ->]. by intros [= <- <- <-].
Qed.

(** From a serving state the workers, each running once, store everything. *)
Lemma workers_finish conns s :
  serving conns s ->
  exists workers s', node_steps s ((fun nid => Worker nid []) <$> workers) s' /\ n_conns s' = flush s /\
    (forall nid w, n_queues s' !! nid = Some w -> _callbacks w = []).
Proof.
  intros Hv. destruct (workers_catch_up conns s (map_to_list conns).*1 Hv) as (s' & Hst & Hv' & Hf & Hq).
  { intros nid ([n c] & -> & Hin)%list_elem_of_fmap. cbn. apply elem_of_map_to_list in Hin. by eexists. }
  assert (forall nid w, n_queues s' !! nid = Some w -> _callbacks w = []) as Hidle.
  { intros nid w Hw. destruct (Hq nid w Hw) as [?|[Hn E]]; [done|]. exfalso.
    specialize (Hv nid). destruct (conns !! nid) as [c|] eqn:Ec; [|destruct Hv; congruence].
    apply Hn, list_elem_of_fmap. exists (nid, c). split; [done|]. by apply elem_of_map_to_list. }
  exists (map_to_list conns).*1, s'. split; [done|]. split; [|done]. by rewrite <- Hf, flush_idle.
Qed.

(** * Properties *)

(** C8: The ASYNC_SERVER build refines the synchronous one.  Whatever the
    interleaving of requests, workers and receivers, the answers to the requests and
    the data handed to receivers are those of a synchronous node that gets the same
    requests and receives in the same order; and from every state the workers,
    each running once, bring the shared connections to exactly that node's. *)
Theorem async_refines_sync conns tr s :
  node_steps (node_init conns) tr s -> Forall (in_service conns) tr ->
  exists conns', sync_steps conns (visibles tr) conns' /\
    exists workers s', node_steps s ((fun nid => Worker nid []) <$> workers) s' /\
      n_conns s' = conns' /\ (forall nid w, n_queues s' !! nid = Some w -> _callbacks w = []).
Proof.
  intros Hs Htr. destruct (node_simulated _ _ _ Hs Htr) as [Hv Hss]. exists (flush s). split; [done|].
  by apply (workers_finish conns).
Qed.

(** Two requests with a worker's turn in between, then a receive. *)
Definition demo_conns : gmap string (ClientConnection MsgQueue.queue) := {["p1" := wq_conn]}.
Definition demo_trace : list node_event :=
  [Request 1 "p1" "m" [x01] [(1%nat, IceResponse 0)]; Worker "p1" [];
   Request 2 "p1" "m" [x02] [(2%nat, IceResponse 0)]; Receive "p1" "m" [x00] 1 1 [x01]].
Definition demo_state : async_node MsgQueue.queue :=
  mkAsyncNode {["p1" := mkConn 5000 "p1" {["m" := []]} 8192 1]}
    {["p1" := mkWQ [mkEntry 2 "m" [x02]] false (mkConn 5000 "p1" {["m" := [[x01]]]} 8192 1) "p1"]}.

Definition demo_conn : ClientConnection MsgQueue.queue := mkConn 5000 "p1" {["m" := [[x01]]]} 8192 1.

Lemma demo_steps : node_steps (node_init demo_conns) demo_trace demo_state.
Proof.
  apply (node_steps_snoc _ [Request 1 "p1" "m" [x01] [(1%nat, IceResponse 0)]; Worker "p1" [];
    Request 2 "p1" "m" [x02] [(2%nat, IceResponse 0)]]
    (mkAsyncNode {["p1" := demo_conn]} {["p1" := mkWQ [mkEntry 2 "m" [x02]] false demo_conn "p1"]})).
  2: { unfold demo_state. rewrite <- (insert_singleton_eq "p1" (mkConn 5000 "p1" {["m" := []]} 8192 1) demo_conn).
       refine (node_step_receive (mkAsyncNode {["p1" := demo_conn]} {["p1" := mkWQ [mkEntry 2 "m" [x02]] false demo_conn "p1"]})
         "p1" "m" 0 0 [x00] 1 demo_conn 1 [x01] (mkConn 5000 "p1" {["m" := []]} 8192 1) _ _); by vm_compute. }
  apply (node_steps_snoc _ [Request 1 "p1" "m" [x01] [(1%nat, IceResponse 0)]; Worker "p1" []]
    (mkAsyncNode {["p1" := demo_conn]} {["p1" := mkWQ [] false demo_conn "p1"]})); [|by apply node_step_request].
  apply (node_steps_snoc _ [Request 1 "p1" "m" [x01] [(1%nat, IceResponse 0)]]
    (mkAsyncNode demo_conns {["p1" := mkWQ [mkEntry 1 "m" [x01]] false wq_conn "p1"]})); [|by apply node_step_worker].
  apply (node_steps_snoc _ [] (node_init demo_conns)); [constructor|by apply node_step_request].
Defined.

Lemma async_refines_sync_witness :
  exists conns', sync_steps demo_conns (visibles demo_trace) conns' /\
    exists workers s', node_steps demo_state ((fun nid => Worker nid []) <$> workers) s' /\
      n_conns s' = conns' /\ (forall nid w, n_queues s' !! nid = Some w -> _callbacks w = []).
Proof.
  apply (async_refines_sync demo_conns demo_trace demo_state demo_steps).
  repeat constructor; cbn; by eexists.
Defined.

(** C11: Nothing is sent to a node that is shutting down without the sender knowing.  The
    destructor of AsyncServer destroys the queues before it closes the communicator.
    In between a request of a client is answered with SendDataException and leaves the
    node unchanged; so a send, whatever the network does to its attempts, is retried
    until its timeout and raises the timeout event, never reporting success, and the
    node is left unchanged. *)
Theorem destroyed_node_refuses B `{MsgBuffer B} `{IceStreamLaws} `{!IceSlices} `{!IceSlicesLaws}
    check c now self remote msgid data timeout attempts (s : async_node B) :
  (forall m, check m m = Ok tt) -> data_fits (mkData msgid self data) -> is_Some (n_queues s !! self) ->
  0 <= now -> 0 <= bc_send_timeout_ c -> paced now 1000000000 attempts ->
  attempts <> [] -> bc_send_timeout_ c <= (Z.of_nat (length attempts) - 1) * 1000 ->
  send_request true (async_serve check) self msgid data (node_destroy s) = (Err (ice_throw SendDataException), node_destroy s) /\
  exists m cl',
    send true (async_serve check) (Stub := unit) c now self remote msgid data (Z.of_nat (length data)) timeout
      attempts (node_destroy s) = (Err (EventException m), node_destroy s, cl') /\
    HANDLE_EXCEPTION_EVENT (A := Z) C_EVENT_CODE_SEND_DATA_TIMEOUT (bc_task_id_ c)
      [VaStr self; VaStr remote; VaLong (bc_send_timeout_ c)] = Err (EventException m).
Proof.
  intros Hc Hf [w Hw] Hnow Ht Hp Hne Hlen.
  assert (send_request true (async_serve check) self msgid data (node_destroy s) = (Err (ice_throw SendDataException), node_destroy s)) as Er.
  { eapply (send_request_destroyed check Hc _ _ _ _ (destroy w) Hf); [|done]. cbn. by rewrite lookup_fmap, Hw. }
  split; [exact Er|]. unfold send. rewrite send_payload_whole.
  destruct (send_timeout_event (bc_task_id_ c) self remote (bc_send_timeout_ c)) as [m Em]. rewrite !Em.
  change (bc_timer_ (start_timer now c)) with (start now).
  rewrite (retry_refused _ _ _ _ _ _ SendDataException_id).
  - by do 2 eexists.
  - exact Er.
  - eapply (last_attempt_timed_out (start now) _ attempts now 1000000000); [done..|lia|done|done|done|lia].
Qed.

Lemma destroyed_node_refuses_witness :
  send_request true (async_serve (fun _ _ => Ok tt)) "p1" "m" [x05] (node_destroy demo_state) = (Err (ice_throw SendDataException), node_destroy demo_state) /\
  exists m cl',
    send true (async_serve (fun _ _ => Ok tt)) (Stub := unit) (mkClient "t" tt 1000 "p0" (start 0)) 0 "p1" "p0" "m" [x05] 1 0
      [mkAttempt Answered 5; mkAttempt (AnswerLost "reset") 1000000005] (node_destroy demo_state)
      = (Err (EventException m), node_destroy demo_state, cl') /\
    HANDLE_EXCEPTION_EVENT (A := Z) C_EVENT_CODE_SEND_DATA_TIMEOUT "t" [VaStr "p1"; VaStr "p0"; VaLong 1000]
      = Err (EventException m).
Proof.
  apply (destroyed_node_refuses MsgQueue.queue (fun _ _ => Ok tt) (mkClient "t" tt 1000 "p0" (start 0)) 0 "p1" "p0" "m" [x05] 0
    [mkAttempt Answered 5; mkAttempt (AnswerLost "reset") 1000000005] demo_state);
    [done|by repeat split|by eexists|done|done| |done|cbn; lia].
  intros i a Hi. destruct i as [|[|i]]; cbn in Hi; simplify_eq; cbn; lia.
Defined.

(** C10: A client cannot tell the builds apart.  Whatever happens to its attempts, a send to
    an asynchronous node in service returns or raises what the same send to the
    synchronous node would, and leaves the node, its queues counted as stored, in the
    state of that one: what is proved of sends to synchronous nodes holds of it. *)
Theorem client_cannot_tell `{IceStreamLaws} `{!IceSlices} check conns c now self remote msgid data timeout attempts tr s o s' cl' :
  (forall m, check m m = Ok tt) -> data_fits (mkData msgid self data) -> is_Some (conns !! self) ->
  node_steps (node_init conns) tr s -> Forall (in_service conns) tr ->
  send true (async_serve check) (Stub := unit) c now self remote msgid data (Z.of_nat (length data)) timeout attempts s
    = (o, s', cl') ->
  send true (servant_serve check true) c now self remote msgid data (Z.of_nat (length data)) timeout attempts (flush s)
    = (o, flush s', cl').
Proof.
  intros Hc Hf Hs Hst Htr Hsend. destruct (node_simulated _ _ _ Hst Htr) as [Hv _].
  by apply (send_alike check conns c now self remote msgid data timeout attempts s o s' cl').
Qed.

Lemma client_cannot_tell_witness :
  exists s' cl',
    send true (servant_serve (fun _ _ => Ok tt) true) (Stub := unit) (mkClient "t" tt 1000 "p0" (start 0)) 0 "p1" "p0" "m" [x05] 1 0
      [mkAttempt (AnswerLost "reset") 5; mkAttempt Answered 1000000005] (flush demo_state) = (Ok 1, flush s', cl') /\
    from_option (fun c => pending c "m") [] (flush s' !! "p1") = [[x02]; [x05]; [x05]].
Proof.
  eexists _, _. split.
  - apply (client_cannot_tell (fun _ _ => Ok tt) demo_conns (mkClient "t" tt 1000 "p0" (start 0)) 0 "p1" "p0" "m" [x05] 0
      [mkAttempt (AnswerLost "reset") 5; mkAttempt Answered 1000000005] demo_trace demo_state (Ok 1)).
    + done.
    + by repeat split.
    + by eexists.
    + apply demo_steps.
    + repeat constructor; cbn; by eexists.
    + vm_compute. reflexivity.
  - vm_compute. reflexivity.
Defined.
