(* ===== verification/NodeSpec.v ===== *)
(** What a node promises, whatever it is built with.

    The specification knows nothing of queues, workers, buffers or connections: a node
    is a stream of bytes for every client and message id ([streams]); a request appends
    its data and is answered with success, a receive takes a prefix.  [NodeImpl] is
    what it means to implement it; the synchronous and the asynchronous node are
    instances, over any container of messages ([MsgBufferLaws]). *)
From S2P Require Import Prelude StdMap Timer Events CycleBuffer Connection WorkQueue Json ConfigData Wire Servant.
From S2P Require Import Generated Client Server AsyncNode.
From Stdlib Require Import Strings.Byte.
#[local] Open Scope Z_scope.

(** * The specification *)

(** Bytes waiting for the receiver, by client and message id. *)
Definition streams : Type := string -> string -> bytes.

#[global] Instance streams_equiv : Equiv streams := fun s1 s2 => forall nid k, s1 nid k = s2 nid k.
#[global] Instance streams_equivalence : Equivalence (≡@{streams}).
Proof. split; [done|by intros ?? E ??|]. intros ??? E1 E2 nid k. by rewrite E1. Qed.

(** A change to the stream of one client and message id. *)
Definition upd (nid msgid : string) (v : bytes) (s : streams) : streams :=
  fun n k => if decide (n = nid /\ k = msgid) then v else s n k.
#[global] Instance upd_proper nid msgid v : Proper ((≡) ==> (≡)) (upd nid msgid v).
Proof. intros s1 s2 E n k. unfold upd. case_decide; [done|]. apply E. Qed.

Inductive spec_step (s : streams) : node_event -> streams -> Prop :=
  | spec_request cb nid msgid data s' :
      s' ≡ upd nid msgid (s nid msgid ++ data) s ->
      spec_step s (Request cb nid msgid data [(cb, IceResponse 0)]) s'
  | spec_receive nid msgid block len out rest s' :
      s nid msgid = out ++ rest -> (length out <= length block)%nat -> s' ≡ upd nid msgid rest s ->
      spec_step s (Receive nid msgid block len (Z.of_nat (length out)) (splice block 0 out)) s'.

#[global] Instance spec_step_proper : Proper ((≡) ==> eq ==> (≡) ==> iff) spec_step.
Proof.
  cut (Proper ((≡) ==> eq ==> (≡) ==> impl) spec_step).
  { intros H s1 s2 E ? a <- s1' s2' E'. split; intros; [by eapply H|]. by eapply (H s2 s1). }
  intros s1 s2 E ? a <- s1' s2' E' Hst. destruct Hst as [cb nid msgid data s' Hs|nid msgid block len out rest s' Ho Hl Hs].
  - constructor. etrans; [symmetry; exact E'|]. etrans; [exact Hs|]. rewrite (E nid msgid). by apply upd_proper.
  - econstructor; [by rewrite <- (E nid msgid), Ho|done|]. etrans; [symmetry; exact E'|]. etrans; [exact Hs|]. by apply upd_proper.
Qed.

Inductive spec_steps (s0 : streams) : list node_event -> streams -> Prop :=
  | spec_steps_refl s : s ≡ s0 -> spec_steps s0 [] s
  | spec_steps_snoc tr s a s' : spec_steps s0 tr s -> spec_step s a s' -> spec_steps s0 (tr ++ [a]) s'.

(** What the events of a trace send and hand out. *)
Definition requested (nid msgid : string) (tr : list node_event) : bytes :=
  concat ((fun a => match a with
                    | Request _ n k d _ => if decide (n = nid /\ k = msgid) then d else []
                    | _ => [] end) <$> tr).
Definition received (nid msgid : string) (tr : list node_event) : bytes :=
  concat ((fun a => match a with
                    | Receive n k _ _ ret d => if decide (n = nid /\ k = msgid) then take (Z.to_nat ret) d else []
                    | _ => [] end) <$> tr).

Lemma requested_snoc nid k tr a : requested nid k (tr ++ [a]) = requested nid k tr ++ requested nid k [a].
Proof. unfold requested. by rewrite fmap_app, concat_app. Qed.
Lemma received_snoc nid k tr a : received nid k (tr ++ [a]) = received nid k tr ++ received nid k [a].
Proof. unfold received. by rewrite fmap_app, concat_app. Qed.

(** A trace of the specification delivers every stream in order: first in, first out. *)
Lemma spec_fifo s0 tr s nid k :
  spec_steps s0 tr s -> s0 nid k ++ requested nid k tr = received nid k tr ++ s nid k.
Proof.
  induction 1 as [s E|tr s a s' _ IH Hst]; [rewrite (E nid k); apply app_nil_r|].
  rewrite requested_snoc, received_snoc, app_assoc, IH, <- !app_assoc. f_equal.
  destruct Hst as [cb n m data s' Hs|n m block len out rest s' Ho Hl Hs]; rewrite (Hs nid k); unfold upd, requested, received; cbn.
  - rewrite app_nil_r. repeat case_decide; try naive_solver. by rewrite app_nil_r.
  - rewrite !app_nil_r, Nat2Z.id, take_splice_0 by done. repeat case_decide; naive_solver.
Qed.

(** Every request of a trace is answered at once, with success. *)
Definition all_answered (tr : list node_event) : Prop :=
  Forall (fun a => match a with Request cb _ _ _ rs => rs = [(cb, IceResponse 0)] | _ => True end) tr.
Lemma spec_answers s0 tr s : spec_steps s0 tr s -> all_answered tr.
Proof.
  induction 1 as [|tr s a s' _ IH Hst]; [constructor|]. apply Forall_app. split; [done|].
  apply Forall_singleton. by destruct Hst.
Qed.

(** * Implementing it *)

(** Events of a node in service: requests of its clients, within the size its
    containers can take, and no shutdown. *)
Definition served (limit : Z) (clients : gset string) (a : node_event) : Prop :=
  match a with
  | Request _ nid _ data _ => nid ∈ clients /\ Z.of_nat (length data) <= limit
  | Destroy => False
  | _ => True
  end.

Class NodeImpl (S : Type) := {
  impl_step : S -> node_event -> S -> Prop;
  (** the streams a state stands for *)
  impl_streams : S -> streams }.

(** Visible events are steps of the specification, the others change nothing. *)
Class NodeImplLaws (S : Type) `{NodeImpl S} := {
  impl_inv : gset string -> S -> Prop;
  impl_limit : Z;
  impl_simulates clients s a s' :
    impl_inv clients s -> served impl_limit clients a -> impl_step s a s' ->
    impl_inv clients s' /\
    (if visible a then spec_step (impl_streams s) a (impl_streams s') else impl_streams s' ≡ impl_streams s) }.

Inductive runs {S} (step : S -> node_event -> S -> Prop) (s0 : S) : list node_event -> S -> Prop :=
  | runs_refl : runs step s0 [] s0
  | runs_snoc tr s a s' : runs step s0 tr s -> step s a s' -> runs step s0 (tr ++ [a]) s'.

Lemma spec_steps_equiv s0 tr s s' : spec_steps s0 tr s -> s' ≡ s -> spec_steps s0 tr s'.
Proof.
  intros Hs E. destruct Hs as [s E0|tr s a s1 Hs Hst]; [constructor; by etrans|].
  eapply spec_steps_snoc; [done|]. by eapply spec_step_proper; [..|exact Hst].
Qed.

Lemma spec_steps_from s0 s0' tr s : s0' ≡ s0 -> spec_steps s0' tr s -> spec_steps s0 tr s.
Proof. intros E. induction 1 as [s E0|]; [constructor; by etrans|by eapply spec_steps_snoc]. Qed.

(** Every run of an implementation is one of the specification. *)
Lemma impl_refines {S} `{NodeImplLaws S} clients s0 tr s :
  impl_inv clients s0 -> Forall (served impl_limit clients) tr -> runs impl_step s0 tr s ->
  impl_inv clients s /\ spec_steps (impl_streams s0) (visibles tr) (impl_streams s).
Proof.
  intros Hinit Htr Hr. revert Htr. induction Hr as [|tr s a s' _ IH Hst]; intros Htr; [split; [done|by constructor]|].
  rewrite Forall_app, Forall_singleton in Htr. destruct Htr as [Htr Ha]. destruct (IH Htr) as [Hi Hs].
  destruct (impl_simulates clients s a s' Hi Ha Hst) as [Hi' Hsim]. split; [done|].
  rewrite visibles_snoc. destruct (visible a); [by eapply spec_steps_snoc|].
  rewrite app_nil_r. by eapply spec_steps_equiv.
Qed.

(** ** Steps on one connection *)
Section connections.
Context {B : Type} `{MsgBufferLaws B}.
Implicit Types (c : ClientConnection B).

(** A receive takes a prefix of its stream and leaves the others. *)
Lemma receive_step (s : streams) nid beg now c msgid block len ret data c' (after : string -> bytes) s' :
  conn_wf c -> recv_iter beg now c msgid block len = Ok (RecvReturn ret data, c') ->
  (forall k, s nid k = content_of c k ++ after k) ->
  (forall n k, s' n k = if decide (n = nid) then content_of c' k ++ after k else s n k) ->
  conn_wf c' /\ spec_step s (Receive nid msgid block len ret data) s'.
Proof.
  intros Hwf Hr Hs Hs'. destruct (recv_iter_spec _ _ _ _ _ _ _ _ Hwf Hr) as (Hwf' & out & Hk & -> & -> & Ho).
  split; [done|]. apply (spec_receive _ _ _ _ _ out (content_of c' msgid ++ after msgid)); [|done|].
  - by rewrite Hs, Hk, decide_True, <- app_assoc.
  - intros n k. rewrite Hs'. unfold upd. destruct (decide (n = nid)) as [->|Hn].
    + destruct (decide (k = msgid)) as [->|Hne]; [by rewrite decide_True|].
      rewrite decide_False by tauto. by rewrite Hs, Hk, decide_False.
    + by rewrite decide_False by tauto.
Qed.
End connections.

(** ** The synchronous build *)
Section synchronous.
Context {B : Type} `{MsgBufferLaws B}.
Abbreviation conns_t := (gmap string (ClientConnection B)).

Definition sync_streams (conns : conns_t) : streams :=
  fun nid k => from_option (fun c => content_of c k) [] (conns !! nid).
#[global] Instance sync_impl : NodeImpl conns_t := {
  impl_step := sync_step;
  impl_streams := sync_streams }.

Definition sync_inv (clients : gset string) (conns : conns_t) : Prop :=
  dom conns = clients /\ map_Forall (fun _ => conn_wf) conns.

Lemma sync_inv_insert clients conns nid c c' :
  sync_inv clients conns -> conns !! nid = Some c -> conn_wf c' -> sync_inv clients (<[nid := c']> conns).
Proof.
  intros [Hd Hw] Hc Hc'. split; [|by apply map_Forall_insert_2].
  rewrite dom_insert_lookup_L; [done|by eexists].
Qed.
Lemma sync_streams_insert conns nid c' n k :
  sync_streams (<[nid := c']> conns) n k = if decide (n = nid) then content_of c' k else sync_streams conns n k.
Proof.
  unfold sync_streams. case_decide as E; [subst; by rewrite lookup_insert_eq|]. by rewrite lookup_insert_ne.
Qed.

#[global] Program Instance sync_laws : NodeImplLaws conns_t := {
  impl_inv := sync_inv;
  impl_limit := mb_limit }.
Next Obligation.
  intros clients conns a conns' Hi Ha Hst.
  destruct Hst as [conns cb nid msgid data ret conns' Hs|conns nid msgid beg now block len c ret data c' Hc Hr]; cbn in Ha |- *.
  - destruct Ha as [Hin Hl]. unfold send_async in Hs. apply bind_Ok in Hs as (cs & Hw & [= <- ->]).
    unfold find_write in Hw. destruct (conns !! nid) as [c|] eqn:Ec;
      [|destruct Hi as [<- _]; apply not_elem_of_dom in Ec; done].
    apply bind_Ok in Hw as ([r c'] & Hw & [= <-]).
    destruct (conn_write_spec c msgid data r c' (proj2 Hi nid c Ec) Hl Hw) as (_ & Hwf & Hk & _).
    split; [by eapply sync_inv_insert|]. constructor. intros n k. rewrite sync_streams_insert. unfold upd.
    unfold sync_streams. destruct (decide (n = nid)) as [->|Hn]; [|by rewrite decide_False by tauto].
    rewrite Ec. cbn. rewrite Hk. repeat case_decide; naive_solver.
  - destruct (receive_step (sync_streams conns) nid beg now c msgid block len ret data c' (fun _ => [])
      (sync_streams (<[nid := c']> conns)) (proj2 Hi nid c Hc) Hr) as [Hwf Hst].
    + intros k. unfold sync_streams. rewrite Hc. cbn. by rewrite app_nil_r.
    + intros n k. rewrite sync_streams_insert. by rewrite app_nil_r.
    + split; [by eapply sync_inv_insert|done].
Qed.

Lemma sync_steps_runs c0 tr c : sync_steps c0 tr c -> runs impl_step c0 tr c.
Proof. induction 1; [constructor|by eapply runs_snoc]. Qed.
End synchronous.

(** ** The asynchronous build *)
Section asynchronous.
Context {B : Type} `{MsgBufferLaws B}.
Abbreviation node_t := (async_node B).

(** What a client has sent is in the connection or still in its queue. *)
Definition async_streams (s : node_t) : streams := fun nid k =>
  from_option (fun c => content_of c k) [] (n_conns s !! nid) ++
  from_option (fun w => queued k (_callbacks w)) [] (n_queues s !! nid).
#[global] Instance async_impl : NodeImpl node_t := {
  impl_step := node_step;
  impl_streams := async_streams }.

(** A queue that takes requests, all of them small enough for the connection. *)
Definition queue_ok (w : WorkQueue B) : Prop :=
  _done w = false /\ Forall (fun e => Z.of_nat (length (_data e)) <= mb_limit) (_callbacks w).
Definition async_inv (clients : gset string) (s : node_t) : Prop :=
  sync_inv clients (n_conns s) /\ dom (n_queues s) = clients /\ map_Forall (fun _ => queue_ok) (n_queues s).

Lemma async_client clients s nid :
  async_inv clients s -> nid ∈ clients ->
  exists c w, n_conns s !! nid = Some c /\ n_queues s !! nid = Some w /\ conn_wf c /\ queue_ok w.
Proof.
  intros ((Hd & Hw) & Hdq & Hq) Hin.
  destruct (n_conns s !! nid) as [c|] eqn:Ec; [|apply not_elem_of_dom in Ec; set_solver].
  destruct (n_queues s !! nid) as [w|] eqn:Ew; [|apply not_elem_of_dom in Ew; set_solver].
  exists c, w. split_and!; [done..|by eapply Hw|by eapply Hq].
Qed.

(** A step that touches one client: its connection and its queue. *)
Lemma async_inv_insert clients s nid c w :
  async_inv clients s -> nid ∈ clients -> conn_wf c -> queue_ok w ->
  async_inv clients (mkAsyncNode (<[nid := c]> (n_conns s)) (<[nid := w]> (n_queues s))).
Proof.
  intros Hi Hin Hc Hw. destruct (async_client clients s nid Hi Hin) as (c0 & w0 & Ec & Ew & _ & _).
  destruct Hi as (Hs & Hdq & Hq). split_and!; cbn.
  - by eapply sync_inv_insert.
  - rewrite dom_insert_lookup_L; [done|by eexists].
  - by apply map_Forall_insert_2.
Qed.
Lemma async_streams_insert s nid c w n k :
  async_streams (mkAsyncNode (<[nid := c]> (n_conns s)) (<[nid := w]> (n_queues s))) n k =
    if decide (n = nid) then content_of c k ++ queued k (_callbacks w) else async_streams s n k.
Proof.
  unfold async_streams; cbn. case_decide as E; [subst; by rewrite !lookup_insert_eq|]. by rewrite !lookup_insert_ne.
Qed.
Lemma async_streams_client s nid c w k :
  n_conns s !! nid = Some c -> n_queues s !! nid = Some w ->
  async_streams s nid k = content_of c k ++ queued k (_callbacks w).
Proof. intros Ec Ew. unfold async_streams. by rewrite Ec, Ew. Qed.

Lemma async_request clients s cb nid msgid data r s' :
  async_inv clients s -> nid ∈ clients -> Z.of_nat (length data) <= mb_limit ->
  node_request s cb nid msgid data = (r, s') ->
  async_inv clients s' /\ spec_step (async_streams s) (Request cb nid msgid data r) (async_streams s').
Proof.
  intros Hi Hin Hl. destruct (async_client clients s nid Hi Hin) as (c & w & Ec & Ew & Hc & Hd & Hq).
  unfold node_request, send_async_queued, add. rewrite Ew, Hd. cbn. intros [= <- <-].
  rewrite <- (insert_id (n_conns s) nid c) by done.
  split; [apply async_inv_insert; [done..|]; split; [done|]; apply Forall_app; split; [done|by constructor]|].
  constructor. intros n k. rewrite async_streams_insert. cbn [_callbacks]. rewrite queued_snoc. cbn [_msgid _data]. unfold upd.
  destruct (decide (n = nid)) as [->|Hn]; [|by rewrite decide_False by tauto].
  rewrite !(async_streams_client s nid c w) by done. rewrite app_assoc.
  repeat case_decide; try naive_solver. by rewrite app_nil_r.
Qed.

Lemma async_worker clients s nid r s' :
  async_inv clients s -> node_worker s nid = Ok (r, s') ->
  async_inv clients s' /\ async_streams s' ≡ async_streams s.
Proof.
  intros Hi. unfold node_worker. destruct (n_queues s !! nid) as [w|] eqn:Ew; [|done].
  destruct (n_conns s !! nid) as [c|] eqn:Ec; [|done].
  destruct Hi as ((Hd & Hw) & Hdq & Hq) eqn:E. pose proof (Hq nid w Ew) as [Hdn Hf]. pose proof (Hw nid c Ec) as Hc.
  unfold run_locked, attach. cbn. rewrite Hdn. intros ([[? ?] w'] & Hr & [= <- <-])%bind_Ok.
  apply bind_Ok in Hr as (c' & Hdr & [= <- <- <-]). cbn.
  destruct (drain_spec _ _ _ Hc Hf Hdr) as [Hc' Hk]. split.
  - apply async_inv_insert; [done| |done|by split]. rewrite <- Hdq. apply elem_of_dom. by eexists.
  - intros n k. rewrite async_streams_insert. case_decide; [|done]. subst. cbn.
    rewrite (async_streams_client s nid c w) by done. by rewrite Hk, app_nil_r.
Qed.

#[global] Program Instance async_laws : NodeImplLaws node_t := {
  impl_inv := async_inv;
  impl_limit := mb_limit }.
Next Obligation.
  intros clients s a s' Hi Ha Hst. destruct Hst as [s cb nid msgid data r s' E|s nid r s' E
    |s nid msgid beg now block len c ret data c' Ec Hr|s]; cbn in Ha |- *; [| | |done].
  - destruct Ha. by eapply async_request.
  - by eapply async_worker.
  - assert (nid ∈ clients) as Hin by (destruct Hi as ((<- & _) & _); apply elem_of_dom; by eexists).
    destruct (async_client clients s nid Hi Hin) as (c0 & w & Ec0 & Ew & Hc & Hq). rewrite Ec in Ec0. injection Ec0 as <-.
    replace (mkAsyncNode (<[nid := c']> (n_conns s)) (n_queues s))
      with (mkAsyncNode (<[nid := c']> (n_conns s)) (<[nid := w]> (n_queues s))) by (by rewrite (insert_id (n_queues s))).
    destruct (receive_step (async_streams s) nid beg now c msgid block len ret data c' (fun k => queued k (_callbacks w))
      (async_streams (mkAsyncNode (<[nid := c']> (n_conns s)) (<[nid := w]> (n_queues s)))) Hc Hr) as [Hwf Hst].
    + intros k. by apply async_streams_client.
    + intros n k. apply async_streams_insert.
    + split; [by apply async_inv_insert|done].
Qed.

Lemma node_steps_runs s0 tr s : node_steps s0 tr s -> runs impl_step s0 tr s.
Proof. induction 1; [constructor|by eapply runs_snoc]. Qed.

Lemma async_init clients conns :
  sync_inv clients conns -> async_inv clients (node_init conns) /\ async_streams (node_init conns) ≡ sync_streams conns.
Proof.
  intros Hi. split.
  - split; [done|]. split; cbn.
    + destruct Hi as [<- _]. apply set_eq. intros nid. rewrite !elem_of_dom, queues_of_clients, fmap_is_Some. done.
    + intros nid w. rewrite queues_of_clients. intros (c & _ & ->)%fmap_Some. by split; [|constructor].
  - intros nid k. unfold async_streams, sync_streams; cbn. rewrite queues_of_clients.
    destruct (conns !! nid); cbn; by rewrite ?app_nil_r.
Qed.
End asynchronous.

(** * Property *)

(** C9: Every build implements one specification.  Whatever container the connections use
    and whether requests are stored at once or through work queues, a run of a node in
    service is a run of the abstract node from the streams its connections hold, event
    for event; so each client's bytes come out under their message id in the order
    they went in, and every request is answered with success. *)
Theorem every_build_implements_streams B `{MsgBufferLaws B} clients (conns : gmap string (ClientConnection B)) tr :
  dom conns = clients -> map_Forall (fun _ => conn_wf) conns -> Forall (served mb_limit clients) tr ->
  (forall conns', sync_steps conns tr conns' ->
     spec_steps (sync_streams conns) (visibles tr) (sync_streams conns')) /\
  (forall s, node_steps (node_init conns) tr s ->
     spec_steps (sync_streams conns) (visibles tr) (async_streams s)) /\
  (forall t, spec_steps (sync_streams conns) (visibles tr) t ->
     all_answered (visibles tr) /\
     forall nid k, sync_streams conns nid k ++ requested nid k (visibles tr) = received nid k (visibles tr) ++ t nid k).
Proof.
  intros Hd Hw Htr. assert (sync_inv clients conns) as Hi by done. split_and!.
  - intros conns' Hr%sync_steps_runs. by destruct (impl_refines (H0 := sync_laws) clients conns tr conns' Hi Htr Hr).
  - intros s Hr%node_steps_runs. destruct (async_init clients conns Hi) as [Ha E].
    destruct (impl_refines (H0 := async_laws) clients (node_init conns) tr s Ha Htr Hr) as [_ Hs]. by eapply spec_steps_from.
  - intros t Ht. split; [by eapply spec_answers|]. intros nid k. by apply spec_fifo.
Qed.

(** The trace of [demo_steps]: two requests, a turn of the worker, a receive. *)
Lemma demo_conns_wf : map_Forall (fun _ => conn_wf) demo_conns.
Proof. apply map_Forall_singleton, wq_conn_wf. Qed.

Lemma every_build_implements_streams_witness :
  spec_steps (sync_streams demo_conns) (visibles demo_trace) (async_streams demo_state) /\
  received "p1" "m" (visibles demo_trace) ++ async_streams demo_state "p1" "m" = [x01; x02].
Proof.
  destruct (every_build_implements_streams MsgQueue.queue {["p1"]} demo_conns demo_trace) as (_ & Ha & Hf).
  - by vm_compute.
  - exact demo_conns_wf.
  - repeat constructor; by vm_compute.
  - specialize (Ha demo_state demo_steps). split; [exact Ha|].
    destruct (Hf _ Ha) as [_ E]. by rewrite <- E.
Defined.
