(* ===== verification/Rendezvous.v ===== *)
(** Two nodes that read one document meet: what a client asks Ice for is what the
    server it means has registered, with the same security settings. *)
From S2P Require Import Prelude StdMap Timer Events CycleBuffer Connection WorkQueue Json.
From S2P Require Import ConfigData Config ConfigSpec Policy Wire Servant Client Server.
From stdpp Require Import pretty.
From Stdlib Require Import Ascii.
#[local] Open Scope Z_scope.

(** What a running service can be found by: its identity at its adapter's name in
    the registry, or else at its endpoints. *)
Definition advertised {C A} (s : BaseServer C A) : option string :=
  id ← srv_identity s;
  match srv_properties s !! C_Servant_AdapterId_Key with
  | Some adapter => Some (id +:+ "@" +:+ adapter)
  | None => ep ← srv_properties s !! C_Servant_Endpoints_Key; Some (id +:+ ":" +:+ ep)
  end.

(** The proxy a client of [via] asks for. *)
Definition proxy_of (taskid : string) (via : ViaInfo) : string :=
  let protocol := if negb (str_empty (vi_ca_cert_path_ via)) then "ssl" else "tcp" in
  let npos := find_colon (vi_via_address via) in
  if -1 =? npos then servant_id taskid (vi_id via) +:+ "@" +:+ servant_adapter_id taskid (vi_id via)
  else direct_proxy taskid protocol via npos.

Section client_side.
Context {C Stub : Type} (ice : IceClient C Stub).

Lemma event_not_ok {A} code task args (a : A) : HANDLE_EXCEPTION_EVENT code task args <> Ok a.
Proof. destruct (handle_event_any code task args) as [e Ee]. by rewrite Ee. Qed.

Lemma with_ssl_ok is_ssl via task props props' :
  with_ssl is_ssl via task props = Ok props' ->
  props' !! "IceSSL.CAs" = (if is_ssl then Some (vi_ca_cert_path_ via) else props !! "IceSSL.CAs") /\
  props' !! C_Server_Proxy_Key = props !! C_Server_Proxy_Key.
Proof.
  unfold with_ssl, SetSSLProperty. destruct is_ssl; [|by intros [= ->]].
  destruct (_ || _); [by intros ?%event_not_ok|]. intros [= <-].
  by rewrite !(lookup_insert_ne _ "IceSSL.Password"), !(lookup_insert_ne _ "IceSSL.CertFile"), lookup_insert_eq,
    !(lookup_insert_ne _ "IceSSL.CAs"), !(lookup_insert_ne _ "IceSSL.DefaultDir"), !(lookup_insert_ne _ "Ice.Plugin.IceSSL") by done.
Qed.

(** What a client that was created got its stub from. *)
Lemma make_BaseClient_ok t0 now via task cl :
  make_BaseClient ice t0 now via task = Ok cl ->
  exists props comm, create_communicator ice props = Ok comm /\
    props !! "IceSSL.CAs" = (if str_empty (vi_ca_cert_path_ via) then None else Some (vi_ca_cert_path_ via)) /\
    (if -1 =? find_colon (vi_via_address via)
     then stringToProxy ice comm (proxy_of task via) = Ok (Some (stub_ cl))
     else props !! C_Server_Proxy_Key = Some (proxy_of task via) /\
          propertyToProxy ice comm C_Server_Proxy_Key = Ok (Some (stub_ cl))) /\
    bc_task_id_ cl = task /\ remote_nid_ cl = vi_id via.
Proof.
  unfold make_BaseClient, proxy_of. intros (stub & Hs & Hc)%bind_Ok.
  destruct stub as [s|]; [|by apply event_not_ok in Hc]. injection Hc as <-. cbn [stub_ bc_task_id_ remote_nid_].
  destruct (-1 =? find_colon (vi_via_address via)).
  - unfold connect_routed in Hs. destruct (_ || _); [by apply event_not_ok in Hs|].
    apply bind_Ok in Hs as (props & Hp & Hs).
    apply catch_ice_ok in Hs as [Hs|(? & _ & Hs)]; [|by apply event_not_ok in Hs].
    apply bind_Ok in Hs as (comm & Hc & Hs). apply bind_Ok in Hs as (? & _ & Hs).
    destruct (with_ssl_ok _ _ _ _ _ Hp) as [Hca _]. exists props, comm. split; [done|].
    split; [|done]. rewrite Hca. by destruct (str_empty _).
  - unfold connect_direct in Hs. apply bind_Ok in Hs as (props & Hp & Hs).
    apply catch_ice_ok in Hs as [Hs|(? & _ & Hs)]; [|by apply event_not_ok in Hs].
    apply bind_Ok in Hs as (comm & Hc & Hs).
    destruct (with_ssl_ok _ _ _ _ _ Hp) as [Hca Hk]. exists props, comm. split; [done|].
    split; [|split; [|done]].
    + rewrite Hca. by destruct (str_empty _).
    + split; [|done]. rewrite Hk. by rewrite lookup_insert_ne, lookup_insert_eq by done.
Qed.
End client_side.

Section server_side.
Context {C A B : Type} `{MsgBuffer B} (ice : IceServer C A).

Lemma server_properties_ok ni task props :
  server_properties ni task = Ok props ->
  props !! "IceSSL.CAs" = (if str_empty (ni_ca_cert_path_ ni) then None else Some (ni_ca_cert_path_ ni)) /\
  (if -1 =? find_colon (ni_address ni)
   then props !! C_Servant_AdapterId_Key = Some (servant_adapter_id task (ni_id ni))
   else props !! C_Servant_AdapterId_Key = None /\
        props !! C_Servant_Endpoints_Key =
          Some (direct_endpoints (if negb (str_empty (ni_ca_cert_path_ ni)) then "ssl" else "tcp")
                  (ni_address ni) (find_colon (ni_address ni)))).
Proof.
  unfold server_properties. intros (p & Hp & [= <-])%bind_Ok.
  assert (p !! "IceSSL.CAs" = None /\
    (if -1 =? find_colon (ni_address ni)
     then p !! C_Servant_AdapterId_Key = Some (servant_adapter_id task (ni_id ni))
     else p !! C_Servant_AdapterId_Key = None /\
          p !! C_Servant_Endpoints_Key =
            Some (direct_endpoints (if negb (str_empty (ni_ca_cert_path_ ni)) then "ssl" else "tcp")
                  (ni_address ni) (find_colon (ni_address ni))))) as [Hca Hk].
  { destruct (-1 =? find_colon (ni_address ni)).
    - unfold routed_properties in Hp. destruct (_ || _); [by apply event_not_ok in Hp|].
      destruct (str_empty (ni_public_ip_ ni)); [by apply event_not_ok in Hp|]. injection Hp as <-.
      split; [|by rewrite lookup_insert_eq]. by rewrite !lookup_insert_ne by done.
    - injection Hp as <-. split; [by rewrite lookup_insert_ne by done|].
      split; [by rewrite lookup_insert_ne by done|by rewrite lookup_insert_eq]. }
  assert (forall k b q, k <> "IceSSL.Password" -> k <> "IceSSL.CertFile" -> k <> "IceSSL.CAs" ->
    k <> "IceSSL.DefaultDir" -> k <> "Ice.Plugin.IceSSL" -> server_ssl b ni q !! k = q !! k) as Hssl.
  { intros k b q ? ? ? ? ?. unfold server_ssl. destruct b; [|done]. by rewrite !lookup_insert_ne by done. }
  split.
  - unfold server_ssl. destruct (str_empty (ni_ca_cert_path_ ni)); cbn [negb].
    + by rewrite lookup_insert_ne.
    + by rewrite !(lookup_insert_ne _ "IceSSL.Password"), !(lookup_insert_ne _ "IceSSL.CertFile"), lookup_insert_eq by done.
  - rewrite !Hssl by done. by rewrite !(lookup_insert_ne _ C_MAX_SIZE_KEY) by done.
Qed.

(** A service and a client mean the same name when they agree on the node. *)
Lemma advertised_is_proxy_of ASYNC_SERVER ni via task (conns : gmap string (ClientConnection B)) srv :
  start_server ice ASYNC_SERVER ni task conns = Ok srv ->
  let s := base_of srv in
  ni_id ni = vi_id via -> ni_address ni = vi_via_address via -> ni_ca_cert_path_ ni = vi_ca_cert_path_ via ->
  advertised s = Some (proxy_of task via) /\
  srv_properties s !! "IceSSL.CAs" = (if str_empty (vi_ca_cert_path_ via) then None else Some (vi_ca_cert_path_ via)).
Proof.
  intros Hs s Hid Ha Hc. subst s. destruct (start_server_ok ice _ ni task conns srv Hs) as (Hp & Hi & _).
  destruct (server_properties_ok ni task _ Hp) as [Hca Hk]. rewrite Hc in Hca. split; [|done].
  unfold advertised, proxy_of. rewrite Hi. cbn [mbind option_bind]. rewrite Ha, Hc, Hid in Hk.
  destruct (-1 =? find_colon (vi_via_address via)).
  - by rewrite Hk, Hid.
  - destruct Hk as [-> ->]. cbn. rewrite Hid. unfold direct_proxy, direct_endpoints. done.
Qed.
End server_side.

Lemma CopyNodeInfo_ok SSL_TYPE ni n c ni' c' :
  CopyNodeInfo SSL_TYPE ni n c = (Ok ni', c') ->
  ni_id ni' = NODE_ID n /\ ni_address ni' = ADDRESS n /\ ni_ca_cert_path_ ni' = root_cert_ c /\ ni_public_ip_ ni' = PUBLIC_IP n.
Proof.
  unfold CopyNodeInfo. intros (r & c1 & Hr & H)%M_bind_Ok. injection Hr as <- <-.
  repeat (apply M_bind_Ok in H as (? & ? & _ & H)). by injection H as <- _.
Qed.

Definition value_of {A} (d : A) (r : result A) : A := match r with Ok a => a | Err _ => d end.
(** How a node describes itself. *)
Definition own_info (SSL_TYPE : Z) (c : ChannelConfig) (a : string) : NodeInfo :=
  match GetNode a c with
  | Ok n => value_of NodeInfo_default (CopyNodeInfo SSL_TYPE NodeInfo_default n c).1
  | Err _ => NodeInfo_default
  end.
Lemma own_info_run SSL_TYPE c a : config_wf SSL_TYPE c -> a ∈ task_nodes_ c ->
  ni_id (own_info SSL_TYPE c a) = a /\
  exists n c1, GetNode a c = Ok n /\ CopyNodeInfo SSL_TYPE NodeInfo_default n c = (Ok (own_info SSL_TYPE c a), c1).
Proof.
  intros Hwf Ha. unfold own_info. destruct (proj2 (GetNode_exact SSL_TYPE c a Hwf) Ha) as (n & -> & Hid).
  destruct (CopyNodeInfo SSL_TYPE NodeInfo_default n c) as [[ni|e] c1] eqn:E; cbn.
  - destruct (CopyNodeInfo_ok _ _ _ _ _ _ E) as [-> _]. split; [done|]. by exists n, c1.
  - unfold CopyNodeInfo, index_field, gets in E. cbv [mbind M_bind mret M_ret] in E. by repeat case_match.
Qed.

(** * Property *)

(** C24: Rendezvous.  When two nodes read the same document, one starts its service
    from its own description and the other creates a client for it, then the client
    asked Ice for exactly what the service advertises (identity and adapter in the
    registry, or identity and endpoints), and both use the same certificate
    authority, or both none. *)
Theorem client_finds_server SSL_TYPE open_file Parse text a b ca cb n c1 ni via
    {B C A Stub C'} `{MsgBuffer B} (ices : IceServer C A) (icec : IceClient C' Stub) ASYNC_SERVER
    (conns : gmap string (ClientConnection B)) srv t0 now cl :
  make_ChannelConfig SSL_TYPE open_file Parse a text = Ok ca ->
  make_ChannelConfig SSL_TYPE open_file Parse b text = Ok cb ->
  GetNode b cb = Ok n -> CopyNodeInfo SSL_TYPE NodeInfo_default n cb = (Ok ni, c1) ->
  via_info_of SSL_TYPE ca b = Some via ->
  start_server ices ASYNC_SERVER ni (task_id_ cb) conns = Ok srv ->
  make_BaseClient icec t0 now via (task_id_ ca) = Ok cl ->
  exists proxy props comm, advertised (base_of srv) = Some proxy /\ create_communicator icec props = Ok comm /\
    props !! "IceSSL.CAs" = srv_properties (base_of srv) !! "IceSSL.CAs" /\
    (if -1 =? find_colon (ADDRESS n)
     then stringToProxy icec comm proxy = Ok (Some (stub_ cl))
     else props !! C_Server_Proxy_Key = Some proxy /\
          propertyToProxy icec comm C_Server_Proxy_Key = Ok (Some (stub_ cl))).
Proof.
  intros Ha Hb Hn Hni Hvia Hs Hc. pose proof (same_document _ _ _ a b text ca cb Ha Hb) as ->.
  destruct (make_ChannelConfig_ok _ _ _ _ _ _ Ha) as (Hwf & Hone & _).
  assert (node_info_config_ ca !! b = Some n) as Hnode.
  { rewrite (GetNode_run SSL_TYPE) in Hn by (by apply set_node_id_wf). cbn in Hn.
    destruct (decide (b ∈ task_nodes_ ca)); [|by apply event_not_ok in Hn].
    destruct (node_info_config_ ca !! b); [by injection Hn as ->|by apply event_not_ok in Hn]. }
  destruct (CopyNodeInfo_ok _ _ _ _ _ _ Hni) as (Hid & Had & Hca & _). cbn in Hca.
  unfold via_info_of in Hvia. rewrite Hnode in Hvia. injection Hvia as <-.
  destruct (tables_ids _ _ (wf_tables _ _ Hwf) _ _ Hnode) as [Hnid _]. pose proof (Hone _ _ Hnode) as Hroot. cbn in Hroot.
  destruct (advertised_is_proxy_of ices _ ni (via_of SSL_TYPE ca b n) (task_id_ ca) conns srv Hs) as [Hadv Hsca].
  { by rewrite Hid. } { done. } { cbn. by rewrite Hca, Hroot. }
  destruct (make_BaseClient_ok icec t0 now _ _ cl Hc) as (props & comm & Hcomm & Hpca & Hk & _).
  exists (proxy_of (task_id_ ca) (via_of SSL_TYPE ca b n)), props, comm.
  split; [done|]. split; [done|]. split; [by rewrite Hpca, Hsca|]. exact Hk.
Qed.

(** One document read at "a" and at "b": the service of "b" and the client "a" has of it. *)
Definition sample_at (nid : string) : ChannelConfig :=
  value_of ChannelConfig_default
    (make_ChannelConfig 0 (fun _ => None) (fun _ => Some (JObject (sample_doc [JString "b"]))) nid "{}").
Definition sample_node : Node := value_of Node_default (GetNode "b" (sample_at "b")).
Definition sample_copy := CopyNodeInfo 0 NodeInfo_default sample_node (sample_at "b").
Definition sample_info : NodeInfo := value_of NodeInfo_default sample_copy.1.
Definition sample_via : ViaInfo := default ViaInfo_default (via_info_of 0 (sample_at "a") "b").
Definition sample_server : Server unit unit MsgQueue.queue :=
  value_of (Sync (mkServer "" tt tt ∅ None))
    (start_server accepting_server true sample_info (task_id_ (sample_at "b")) {["a" := make_ClientConnection 0 "a"]}).
Definition sample_client : BaseClient string :=
  value_of (mkClient "" "" 0 "" (start 0)) (make_BaseClient accepting_client 0 0 sample_via (task_id_ (sample_at "a"))).

Lemma client_finds_server_witness :
  exists proxy props comm, advertised (base_of sample_server) = Some proxy /\ create_communicator accepting_client props = Ok comm /\
    props !! "IceSSL.CAs" = srv_properties (base_of sample_server) !! "IceSSL.CAs" /\
    (if -1 =? find_colon (ADDRESS sample_node)
     then stringToProxy accepting_client comm proxy = Ok (Some (stub_ sample_client))
     else props !! C_Server_Proxy_Key = Some proxy /\
          propertyToProxy accepting_client comm C_Server_Proxy_Key = Ok (Some (stub_ sample_client))).
Proof.
  apply (client_finds_server 0 (fun _ => None) (fun _ => Some (JObject (sample_doc [JString "b"]))) "{}" "a" "b"
    (sample_at "a") (sample_at "b") sample_node sample_copy.2 sample_info sample_via
    accepting_server accepting_client true {["a" := make_ClientConnection 0 "a"]} sample_server 0 0 sample_client); vm_compute; reflexivity.
Defined.

Example sample_advertised : advertised (base_of sample_server) = Some "IoChannel_t_b:tcp -h 1 -p 2".
Proof. vm_compute. reflexivity. Qed.
