(* ===== verification/NetIO.v ===== *)
(** The network side of a channel: BasicIO and ViaNetIO (net_io.h/.cc), which own a
    node's connections from its clients, its clients of remote nodes and its service.

    [W] is the state of the other nodes.  [Env] is what happens around a call: clock
    readings, the fates of remote calls, messages that arrive, wake-ups.  The maps
    of a ViaNetIO are [unordered_map]s: [order] is the order they are walked in. *)
From S2P Require Import Prelude StdMap Timer Events CycleBuffer Connection WorkQueue Json ConfigData Wire Servant Client Server.
From stdpp Require Import pretty.
From Stdlib Require Import Strings.Byte Ascii.
#[local] Open Scope Z_scope.

(** What happens around one call of [init]. *)
Record Env := mkEnv {
  e_t0 : Z;                                      (* contents of uninitialised members *)
  e_now : Z;                                     (* the steady clock *)
  e_attempts : string -> list attempt;           (* remote calls to a node *)
  e_arrived : string -> list (string * bytes);   (* messages of a client before its receive *)
  e_turns : string -> list turn }.               (* turns of that receive *)

(** [send_timeout_ * 1000] and [ping_time_ * 1000000], converted to an integer of [w] bits. *)
Definition scaled (w : Z) (f : float) (factor : Z) : result Z := to_unsigned w (float_mul f (float_of_Z factor)).

Section net_io.
Context {B : Type} `{MsgBuffer B} (USE_BUFFER STATIC_CALL ASYNC_SERVER : bool) `{IceStream}.
Context {SC SA CC Stub W : Type} (ices : IceServer SC SA) (icec : IceClient CC Stub).
(** The remote node behind a stub. *)
Context (serve : Stub -> Current -> bytes -> W -> result bytes * W).
Context (order : gset string -> list string).

Record ViaNetIO := mkNetIO {
  node_info_ : NodeInfo;
  remote_server_infos_ : via_set;
  client_nodeids_ : gset string;
  client_obj_map_ : gmap string (BaseClient Stub);
  client_conn_map_ : gmap string (ClientConnection B);
  server_ : option (Server SC SA B) }.

Definition make_ViaNetIO (node_info : NodeInfo) (infos : via_set) (ids : gset string) : ViaNetIO :=
  mkNetIO node_info infos ids ∅ ∅ None.

Definition set_clients (m : gmap string (BaseClient Stub)) (io : ViaNetIO) : ViaNetIO :=
  mkNetIO (node_info_ io) (remote_server_infos_ io) (client_nodeids_ io) m (client_conn_map_ io) (server_ io).
Definition set_conns (m : gmap string (ClientConnection B)) (io : ViaNetIO) : ViaNetIO :=
  mkNetIO (node_info_ io) (remote_server_infos_ io) (client_nodeids_ io) (client_obj_map_ io) m (server_ io).
Definition set_server (s : option (Server SC SA B)) (io : ViaNetIO) : ViaNetIO :=
  mkNetIO (node_info_ io) (remote_server_infos_ io) (client_nodeids_ io) (client_obj_map_ io) (client_conn_map_ io) s.

Abbreviation ioM := (M (ViaNetIO * W)).
Definition on_io (f : ViaNetIO -> ViaNetIO) : ioM unit := modify (fun '(io, w) => (f io, w)).

(** The connection a client will write to. *)
Definition new_connection (env : Env) (config : ChannelConfig) (nid : string) : result (ClientConnection B) :=
  t ← scaled 64 (send_timeout_ config) 1000;
  let c := make_ClientConnection (e_t0 env) nid in
  let c := if USE_BUFFER then SetBufferSize (cfg_buffer_size_ config) c else c in
  Ok (SetRecvTimeOut t c).

Definition add_connection (env : Env) (config : ChannelConfig) (nid : string) : ioM unit :=
  c ← lift (new_connection env config nid);
  on_io (fun io => set_conns (<[nid := c]> (client_conn_map_ io)) io).

(** The queues of an asynchronous server share the connections; whoever writes to
    them, servant or worker, what arrives is in [Env]. *)
Definition StartServer (taskid : string) (server_info : NodeInfo) : ioM bool :=
  conns ← gets (fun '(io, _) => client_conn_map_ io);
  s ← lift (start_server ices ASYNC_SERVER server_info taskid conns);
  _ ← on_io (set_server (Some s));
  mret true.

Definition add_client (env : Env) (config : ChannelConfig) (v : string * ViaInfo) : ioM unit :=
  c ← lift (make_BaseClient icec (e_t0 env) (e_now env) v.2 (task_id_ config));
  t ← lift (scaled 64 (send_timeout_ config) 1000);
  on_io (fun io => set_clients (<[vi_id v.2 := SetSendTimeOut t c]> (client_obj_map_ io)) io).

Definition sync_msgid : string := "sync_conn".
Definition sync_data : bytes := [x31].   (* "1" *)

(** A call on a client object, which stays in the map. *)
Definition on_client {A} (nid : string) (f : BaseClient Stub -> W -> result A * W * BaseClient Stub) : ioM A :=
  fun '(io, w) =>
    match client_obj_map_ io !! nid with
    | None => (Err (UndefinedBehaviour "null client"), (io, w))
    | Some c => let '(r, w', c') := f c w in (r, (set_clients (<[nid := c']> (client_obj_map_ io)) io, w'))
    end.

Definition client_send (env : Env) (nid msg_id : string) (data : bytes) (length timeout : Z) : ioM Z :=
  self ← gets (fun '(io, _) => ni_id (node_info_ io));
  on_client nid (fun c w =>
    send STATIC_CALL (serve (stub_ c)) c (e_now env) self nid msg_id data length timeout (e_attempts env nid) w).

(** A receive on a connection; messages may have arrived before it starts. *)
Definition on_connection (env : Env) (nid msgid : string) (data : bytes) (length timeout : Z) : ioM (Z * bytes) :=
  fun '(io, w) =>
    match client_conn_map_ io !! nid with
    | None => (Err (UndefinedBehaviour "null connection"), (io, w))
    | Some c =>
        match c1 ← conn_writes c (e_arrived env nid);
              recv (e_now env) c1 msgid data length timeout (e_turns env nid) with
        | Err e => (Err e, (io, w))
        | Ok (o, c') =>
            (match o with Some r => Ok r | None => Err (Blocked "recv") end,
             (set_conns (<[nid := c']> (client_conn_map_ io)) io, w))
        end
    end.

Definition send_flag (env : Env) (nid : string) : ioM unit :=
  _ ← client_send env nid sync_msgid sync_data 1 0; mret tt.

(** [recv_data] is an uninitialised [char]. *)
Definition await_flag (env : Env) (config : ChannelConfig) (junk : char) (nid : string) : ioM unit :=
  '(ret, _) ← on_connection env nid sync_msgid [junk] 1 0;
  if 0 =? ret then
    self ← gets (fun '(io, _) => ni_id (node_info_ io));
    lift (HANDLE_EXCEPTION_EVENT C_EVENT_CODE_RECV_DATA_TIMEOUT (task_id_ config)
            [VaStr self; VaStr nid; VaDouble (send_timeout_ config)])
  else mret tt.

Definition check_status (env : Env) (config : ChannelConfig) (nid : string) : ioM unit :=
  t ← lift (scaled 64 (conn_timeout_ config) 1000);
  _ ← lift (scaled 32 (ping_time_ config) 1000000);
  _ ← on_client nid (fun c w =>
    CheckConnStatus STATIC_CALL (serve (stub_ c)) c (e_now env) (node_id_ config) t (e_attempts env nid) w);
  mret tt.

Definition init (env : Env) (config : ChannelConfig) (junk : char) : ioM bool :=
  ids ← gets (fun '(io, _) => client_nodeids_ io);
  self ← gets (fun '(io, _) => node_info_ io);
  _ ← (if 0 <? to_uint 32 (Z.of_nat (base.size ids)) then
         _ ← for_each (add_connection env config) (iter_set ids);
         _ ← StartServer (task_id_ config) self;
         mret tt
       else mret tt);
  infos ← gets (fun '(io, _) => remote_server_infos_ io);
  _ ← for_each (add_client env config) (iter_map infos);
  objs ← gets (fun '(io, _) => dom (client_obj_map_ io));
  _ ← (if conn_sync_ config then
         _ ← for_each (send_flag env) (order objs);
         conns ← gets (fun '(io, _) => dom (client_conn_map_ io));
         for_each (await_flag env config junk) (order conns)
       else for_each (check_status env config) (order objs));
  mret true.

(** [recv] and [send] of an initialised channel. *)
Definition net_recv (env : Env) (remote_nodeid id : string) (data : bytes) (length timeout : Z) : ioM (Z * bytes) :=
  found ← gets (fun '(io, _) => bool_decide (is_Some (client_conn_map_ io !! remote_nodeid)));
  if found : bool then on_connection env remote_nodeid id data length timeout
  else lift (HANDLE_EXCEPTION_EVENT C_EVENT_CODE_NO_FIND_NID "" [VaStr remote_nodeid]).

Definition net_send (env : Env) (remote_nodeid id : string) (data : bytes) (length timeout : Z) : ioM Z :=
  found ← gets (fun '(io, _) => bool_decide (is_Some (client_obj_map_ io !! remote_nodeid)));
  if found : bool then client_send env remote_nodeid id data length timeout
  else lift (HANDLE_EXCEPTION_EVENT C_EVENT_CODE_NO_FIND_NID "" [VaStr remote_nodeid]).

(** The destructor: the members go in reverse order of their declaration, the server
    first, then the clients. *)
Fixpoint destroy_clients (cs : list (BaseClient Stub)) : result unit :=
  match cs with [] => Ok tt | c :: cs' => _ ← destroy_BaseClient icec c; destroy_clients cs' end.
Definition destroy_ViaNetIO (io : ViaNetIO) : result unit :=
  _ ← match server_ io with Some s => destroy_Server ices s | None => Ok true end;
  destroy_clients (omap (fun nid => client_obj_map_ io !! nid) (order (dom (client_obj_map_ io)))).
End net_io.

(** * What a successful init has done *)
Section initialised.
Context {B : Type} `{MsgBufferLaws B} (USE_BUFFER STATIC_CALL ASYNC_SERVER : bool) `{IceStream}.
Context {SC SA CC Stub W : Type} (ices : IceServer SC SA) (icec : IceClient CC Stub).
Context (serve : Stub -> Current -> bytes -> W -> result bytes * W).
Context (order : gset string -> list string) (order_perm : forall s, order s ≡ₚ elements s).
Context (env : Env) (config : ChannelConfig) (junk : char).
Abbreviation io_t := (@ViaNetIO B SC SA Stub).
Abbreviation st := (io_t * W)%type.

Lemma order_in s nid : nid ∈ order s <-> nid ∈ s.
Proof. by rewrite order_perm, elem_of_elements. Qed.

(** A remote call to [nid] was answered. *)
Definition answered (nid : string) : Prop := exists a, a ∈ e_attempts env nid /\ at_fate a = Answered.
(** A message of [nid] reached this node under the flag's id. *)
Definition flag_arrived (nid : string) : Prop :=
  exists d, d <> [] /\
    (sync_msgid, d) ∈ e_arrived env nid ++ concat (turn_writes <$> e_turns env nid).

Lemma retry_answered {R} (dispatch : R -> result unit * R) timer timeout code task args attempts r r' :
  retry dispatch timer timeout (HANDLE_EXCEPTION_EVENT code task args) attempts r = (Ok tt, r') ->
  exists a, a ∈ attempts /\ at_fate a = Answered.
Proof.
  destruct (handle_event_any code task args) as [e Ee]. rewrite Ee. intros E.
  destruct (retry_runs _ _ _ (Err e) _ _ _ _ ltac:(done) E) as (pre & post & -> & _ & Hl).
  destruct (Hl eq_refl) as (pre' & t & ->). exists (mkAttempt Answered t). split; [|done]. set_solver.
Qed.

Lemma send_answered c nid self remote msgid data len timeout w n w' c' :
  send STATIC_CALL (serve (stub_ c)) c (e_now env) self remote msgid data len timeout (e_attempts env nid) w = (Ok n, w', c') ->
  answered nid.
Proof.
  unfold send. destruct (send_payload data len) as [p|]; [|done].
  destruct (retry _ _ _ _ _ w) as [[[]|e] r1] eqn:E; [|done]. intros _. by eapply retry_answered.
Qed.

Lemma check_answered c nid self t w b w' c' :
  CheckConnStatus STATIC_CALL (serve (stub_ c)) c (e_now env) self t (e_attempts env nid) w = (Ok b, w', c') -> answered nid.
Proof.
  unfold CheckConnStatus. destruct (retry _ _ _ _ _ w) as [[[]|e] r1] eqn:E; [|done]. intros _. by eapply retry_answered.
Qed.

(** The two maps have the keys they should. *)
Definition shape (ids : gset string) (remotes : gset string) (s : st) : Prop :=
  dom (client_conn_map_ s.1) = ids /\ dom (client_obj_map_ s.1) = remotes.

Lemma on_client_shape {A} ids remotes nid (f : BaseClient Stub -> W -> result A * W * BaseClient Stub) (Q : Prop) P :
  (forall s s' : st, P s -> client_conn_map_ s'.1 = client_conn_map_ s.1 -> P s') ->
  (forall c w a w' c', f c w = (Ok a, w', c') -> Q) ->
  triple (fun s => shape ids remotes s /\ P s) (on_client nid f) (fun _ s => (shape ids remotes s /\ P s) /\ Q).
Proof.
  intros HP Hf [io w] a [io' w'] [[Hc Ho] Hp]. unfold on_client. cbn in *.
  destruct (client_obj_map_ io !! nid) as [c|] eqn:E; [|done].
  destruct (f c w) as [[r w1] c1] eqn:Ef. intros [= -> <- <-].
  split; [|by eapply Hf]. split; [|by eapply HP]. split; [done|]. cbn. rewrite dom_insert_L.
  apply elem_of_dom_2 in E. set_solver.
Qed.

Hypothesis size_ok : mb_size_ok (if USE_BUFFER then cfg_buffer_size_ config else 1024 * 8).
Hypothesis arrivals_ok : forall nid, writes_ok (e_arrived env nid) /\ Forall (fun t => writes_ok (turn_writes t)) (e_turns env nid).

(** A connection as [init] makes it. *)
Definition fresh_conn (c : ClientConnection B) : Prop := conn_wf c /\ mapbuffer_ c = ∅.

Lemma new_connection_fresh nid c : new_connection USE_BUFFER env config nid = Ok c -> fresh_conn c.
Proof using size_ok.
  unfold new_connection. intros (t & _ & [= <-])%bind_Ok. unfold fresh_conn, conn_wf.
  destruct USE_BUFFER; cbn; (split; [split; [done|apply map_Forall_empty]|done]).
Qed.

Lemma writes_for_in k ws : writes_for k ws <> [] -> exists d, d <> [] /\ (k, d) ∈ ws.
Proof.
  unfold writes_for. induction ws as [|[k' d] ws IH]; cbn; [done|]. intros Hne.
  destruct (decide (k' = k)) as [->|Hk].
  - destruct d as [|x d].
    + destruct (IH Hne) as (d & ? & ?). exists d. split; [done|]. set_solver.
    + exists (x :: d). split; [done|]. set_solver.
  - destruct (IH Hne) as (d' & ? & ?). exists d'. split; [done|]. set_solver.
Qed.

Lemma turns_writes_in k n turns :
  concat ((fun t => writes_for k (turn_writes t)) <$> take n turns) <> [] ->
  exists d, d <> [] /\ (k, d) ∈ concat (turn_writes <$> turns).
Proof.
  revert n. induction turns as [|t turns IH]; intros [|n]; cbn; try done. intros Hne.
  destruct (decide (writes_for k (turn_writes t) = [])) as [E|E].
  - rewrite E in Hne. destruct (IH n Hne) as (d & ? & ?). exists d. split; [done|]. set_solver.
  - destruct (writes_for_in _ _ E) as (d & ? & ?). exists d. split; [done|]. set_solver.
Qed.

(** A receive of the flag that returns something got it from the client. *)
Lemma flag_received nid c c1 data ret d c' :
  fresh_conn c -> conn_writes c (e_arrived env nid) = Ok c1 ->
  recv (e_now env) c1 sync_msgid data 1 0 (e_turns env nid) = Ok (Some (ret, d), c') -> ret <> 0 -> flag_arrived nid.
Proof.
  intros [Hwf Hc] Hw Hr Hne. destruct (arrivals_ok nid) as [Ha Ht].
  destruct (conn_writes_spec c _ c1 Hwf Ha Hw) as [Hwf1 Hc1].
  destruct (recv_loop_spec _ _ _ _ _ _ _ _ _ Hwf1 Ht Hr) as (n & out & _ & -> & _ & _ & Hk).
  specialize (Hk sync_msgid). rewrite Hc1, decide_True in Hk by done.
  assert (content_of c sync_msgid = []) as E by (unfold content_of; by rewrite Hc). rewrite E in Hk. cbn in Hk.
  assert (writes_for sync_msgid (e_arrived env nid) <> [] \/
    concat ((fun t => writes_for sync_msgid (turn_writes t)) <$> take n (e_turns env nid)) <> []) as [Hw1|Hw1].
  { destruct (writes_for sync_msgid (e_arrived env nid)) as [|x l]; [|by left]. right. intros E2.
    rewrite E2 in Hk. by destruct out. }
  - destruct (writes_for_in _ _ Hw1) as (d1 & ? & ?). exists d1. split; [done|]. set_solver.
  - destruct (turns_writes_in _ _ _ Hw1) as (d1 & ? & ?). exists d1. split; [done|]. set_solver.
Qed.

(** ** The stages of [init] *)
Abbreviation io_triple P m Q := (@triple st _ P m Q).

Lemma connections_stage ids remotes0 :
  io_triple (fun s => client_conn_map_ s.1 = ∅ /\ dom (client_obj_map_ s.1) = remotes0)
    (for_each (add_connection USE_BUFFER env config) (iter_set ids))
    (fun _ s => shape ids remotes0 s /\ map_Forall (fun _ => fresh_conn) (client_conn_map_ s.1)).
Proof using size_ok.
  clear arrivals_ok order_perm order.
  eapply triple_conseq; [..|apply (triple_for_each_prefix (fun pre s =>
    shape (list_to_set pre) remotes0 s /\ map_Forall (fun _ => fresh_conn) (client_conn_map_ s.1)))].
  - intros [io w] [Hc Ho]. cbn in *. unfold shape; cbn. rewrite Hc. split; [|apply map_Forall_empty].
    split; [by rewrite dom_empty_L|done].
  - cbn. intros _ s Hs. assert (list_to_set (iter_set ids) = ids) as E; [|by rewrite E in Hs].
    apply set_eq. intros k. by rewrite elem_of_list_to_set, elem_of_iter_set.
  - intros pre nid post _. unfold add_connection. eapply triple_bind; [apply triple_lift|].
    intros c [io w] [] s' [[[Hc Ho] Hf] Hn] [= <-]. split; [split; [|done]|].
    + cbn in *. rewrite dom_insert_L, Hc, list_to_set_app_L. cbn. set_solver.
    + cbn in *. apply map_Forall_insert_2; [by eapply new_connection_fresh|done].
Qed.

Lemma clients_stage infos ids :
  map_Forall (fun k v => vi_id v = k) infos ->
  io_triple (fun s => shape ids ∅ s /\ map_Forall (fun _ => fresh_conn) (client_conn_map_ s.1))
    (for_each (add_client icec env config) (iter_map infos))
    (fun _ s => shape ids (dom infos) s /\ map_Forall (fun _ => fresh_conn) (client_conn_map_ s.1)).
Proof using size_ok.
  clear arrivals_ok order_perm order.
  intros Hi. eapply triple_conseq; [..|apply (triple_for_each_prefix (fun pre s =>
    shape ids (list_to_set pre.*1) s /\ map_Forall (fun _ => fresh_conn) (client_conn_map_ s.1)))].
  - done.
  - cbn. intros _ s. assert (list_to_set (iter_map infos).*1 = dom infos) as ->; [|done].
    apply set_eq. intros k. by rewrite iter_map_keys, elem_of_list_to_set, elem_of_iter_set.
  - intros pre [k v] post Hl. unfold add_client. eapply triple_bind; [apply triple_lift|]. intros c.
    eapply triple_bind; [apply triple_lift|].
    intros t [io w] [] s' [[[[Hc Ho] Hf] _] _] [= <-]. cbn in *. split; [split; [done|]|done]. cbn.
    rewrite dom_insert_L, Ho, fmap_app, list_to_set_app_L. cbn.
    assert (vi_id v = k) as ->; [|set_solver]. apply Hi, elem_of_iter_map. rewrite Hl. set_solver.
Qed.

Lemma send_flags_stage ids remotes :
  io_triple (fun s => shape ids remotes s /\ map_Forall (fun _ => fresh_conn) (client_conn_map_ s.1))
    (for_each (send_flag STATIC_CALL serve env) (order remotes))
    (fun _ s => (shape ids remotes s /\ map_Forall (fun _ => fresh_conn) (client_conn_map_ s.1)) /\
                forall nid, nid ∈ remotes -> answered nid).
Proof.
  eapply triple_conseq; [..|apply (triple_for_each_prefix (fun pre s =>
    (shape ids remotes s /\ map_Forall (fun _ => fresh_conn) (client_conn_map_ s.1)) /\ forall nid, nid ∈ pre -> answered nid))].
  - intros s Hs. split; [done|]. by intros nid ?%elem_of_nil.
  - intros _ s [Hs Ha]. split; [done|]. intros nid Hn. by apply Ha, order_in.
  - intros pre nid post _. unfold send_flag, client_send.
    eapply (triple_bind _ _ (fun _ s => ((shape ids remotes s /\ map_Forall (fun _ => fresh_conn) (client_conn_map_ s.1)) /\
      forall nid, nid ∈ pre -> answered nid) /\ answered nid)).
    + eapply triple_bind; [apply triple_gets|]. intros self.
      eapply triple_conseq; [..|apply (on_client_shape ids remotes nid _ (answered nid)
        (fun s => map_Forall (fun _ => fresh_conn) (client_conn_map_ s.1) /\ forall nid, nid ∈ pre -> answered nid))].
      * tauto.
      * cbn. tauto.
      * cbn. by intros s s1 [Hf Ha] ->.
      * intros c w n w' c' E. by eapply send_answered.
    + intros _ [io w] [] s' [[Hs Ha] Hn] [= <-]. split; [done|].
      intros k [Hk| ->%list_elem_of_singleton]%elem_of_app; [by apply Ha|done].
Qed.

Definition awaiting ids remotes (pre : list string) (s : st) : Prop :=
  shape ids remotes s /\ (forall nid, nid ∈ pre -> flag_arrived nid) /\
  forall nid c, nid ∉ pre -> client_conn_map_ s.1 !! nid = Some c -> fresh_conn c.

Lemma await_round ids remotes pre nid :
  nid ∉ pre ->
  io_triple (awaiting ids remotes pre) (await_flag env config junk nid) (fun _ => awaiting ids remotes (pre ++ [nid])).
Proof.
  intros Hn [io w] [] [io' w'] [[Hc Ho] [Hf Hfresh]]. unfold await_flag, on_connection. cbv [mbind M_bind]. cbn -[Z.eqb] in *.
  destruct (client_conn_map_ io !! nid) as [c|] eqn:E; [|done].
  destruct (result_bind _ _ _ (conn_writes c (e_arrived env nid))) as [[o c']|e] eqn:Er; [|done].
  apply bind_Ok in Er as (c1 & Hw & Hr). destruct o as [[ret d]|]; [|done].
  destruct (Z.eqb_spec 0 ret) as [<-|Hne].
  { unfold gets, lift. cbv [mbind M_bind]. intros [=]. }
  cbv [mret M_ret]. intros [= <- <-]. split; [|split].
  - split; [|done]. cbn. rewrite dom_insert_L. apply elem_of_dom_2 in E. set_solver.
  - intros k [Hk| ->%list_elem_of_singleton]%elem_of_app; [by apply Hf|].
    eapply (flag_received nid c c1 [junk] ret d c'); [by eapply Hfresh|done|done|done].
  - intros k c2 Hk. cbn. rewrite lookup_insert_ne by set_solver. apply Hfresh. set_solver.
Qed.

Lemma await_stage ids remotes :
  io_triple (fun s => shape ids remotes s /\ map_Forall (fun _ => fresh_conn) (client_conn_map_ s.1))
    (for_each (await_flag env config junk) (order ids))
    (fun _ s => shape ids remotes s /\ forall nid, nid ∈ ids -> flag_arrived nid).
Proof.
  eapply triple_conseq; [..|apply (triple_for_each_prefix (awaiting ids remotes))].
  - intros s [Hs Hf]. split; [done|]. split; [by intros nid ?%elem_of_nil|]. intros nid c _. apply Hf.
  - intros _ s (Hs & Hf & _). split; [done|]. intros nid Hn. by apply Hf, order_in.
  - intros pre nid post Hl. apply await_round. intros Hin.
    assert (NoDup (order ids)) as Hnd by (rewrite order_perm; apply NoDup_elements).
    rewrite Hl in Hnd. apply NoDup_app in Hnd as (_ & Hd & _). apply (Hd nid Hin). set_solver.
Qed.

Lemma check_stage ids remotes :
  io_triple (shape ids remotes) (for_each (check_status STATIC_CALL serve env config) (order remotes))
    (fun _ s => shape ids remotes s /\ forall nid, nid ∈ remotes -> answered nid).
Proof.
  eapply triple_conseq; [..|apply (triple_for_each_prefix (fun pre s => shape ids remotes s /\ forall nid, nid ∈ pre -> answered nid))].
  - intros s Hs. split; [done|]. by intros nid ?%elem_of_nil.
  - intros _ s [Hs Ha]. split; [done|]. intros nid Hn. by apply Ha, order_in.
  - intros pre nid post _. unfold check_status. do 2 (apply triple_seq; [apply triple_lift_any|intros ?]).
    eapply (triple_bind _ _ (fun _ s => (shape ids remotes s /\ forall nid, nid ∈ pre -> answered nid) /\ answered nid)).
    + apply (on_client_shape ids remotes nid _ (answered nid) (fun _ => forall nid, nid ∈ pre -> answered nid)); [done|].
      intros c w n w' c' E. by eapply check_answered.
    + intros _ [io w] [] s' [[Hs Ha] Hn] [= <-]. split; [done|].
      intros k [Hk| ->%list_elem_of_singleton]%elem_of_app; [by apply Ha|done].
Qed.

(** The service and the connections, when the node has clients. *)
Lemma service_stage ni infos ids :
  Z.of_nat (base.size ids) < 2 ^ 32 ->
  io_triple (fun s => s.1 = make_ViaNetIO ni infos ids)
    (if 0 <? to_uint 32 (Z.of_nat (base.size ids)) then
       _ ← for_each (add_connection USE_BUFFER env config) (iter_set ids);
       _ ← StartServer ASYNC_SERVER ices (task_id_ config) ni; mret tt
     else mret tt)
    (fun _ s => (shape ids ∅ s /\ map_Forall (fun _ => fresh_conn) (client_conn_map_ s.1)) /\ remote_server_infos_ s.1 = infos).
Proof using size_ok.
  clear arrivals_ok order_perm order.
  intros Hsz. rewrite to_uint_id by lia. destruct (Z.ltb_spec 0 (Z.of_nat (base.size ids))) as [Hpos|Hzero].
  - eapply triple_conseq; [..|apply (triple_and
      (fun s => client_conn_map_ s.1 = ∅ /\ dom (client_obj_map_ s.1) = ∅) (fun s => remote_server_infos_ s.1 = infos))].
    + intros [io w]. cbn. by intros ->.
    + intros u s Hs. exact Hs.
    + eapply triple_bind; [apply connections_stage|]. intros ?. unfold StartServer. by keeps; apply triple_modify; intros [].
    + unfold add_connection, StartServer. by keeps; apply triple_modify; intros [].
  - intros [io w] [] s1 Hs [= <-]. cbn in Hs |- *. subst io. cbn.
    assert (ids = ∅) as -> by (apply leibniz_equiv, size_empty_inv; lia).
    split; [|done]. split; [|apply map_Forall_empty]. split; cbn; apply dom_empty_L.
Qed.

Lemma init_run ni infos ids w b io' w' :
  map_Forall (fun k v => vi_id v = k) infos -> Z.of_nat (base.size ids) < 2 ^ 32 ->
  init USE_BUFFER STATIC_CALL ASYNC_SERVER ices icec serve order env config junk (make_ViaNetIO ni infos ids, w) = (Ok b, (io', w')) ->
  shape ids (dom infos) (io', w') /\
  (forall nid, nid ∈ dom infos -> answered nid) /\
  (conn_sync_ config = true -> forall nid, nid ∈ ids -> flag_arrived nid).
Proof.
  intros Hi Hsz. unfold init. intros (ids' & s1 & [= <- <-] & Hrun)%M_bind_Ok.
  apply M_bind_Ok in Hrun as (self & s1 & [= <- <-] & Hrun).
  apply M_bind_Ok in Hrun as (u1 & s1 & E1 & Hrun).
  destruct (service_stage ni infos ids Hsz (make_ViaNetIO ni infos ids, w) u1 s1 eq_refl E1) as [Hs1 Hr1]. clear E1.
  apply M_bind_Ok in Hrun as (infos' & s2 & E2 & Hrun). destruct s1 as [io1 w1]. injection E2 as <- <-. cbn in Hr1. rewrite Hr1 in Hrun.
  apply M_bind_Ok in Hrun as (u3 & s3 & E3 & Hrun). pose proof (clients_stage infos ids Hi _ _ _ Hs1 E3) as Hs3. clear E3 Hs1.
  apply M_bind_Ok in Hrun as (objs & s4 & E4 & Hrun). destruct s3 as [io3 w3]. injection E4 as <- <-.
  rewrite (proj2 (proj1 Hs3) : dom (client_obj_map_ io3) = dom infos) in Hrun.
  apply M_bind_Ok in Hrun as (u5 & s5 & E5 & Hrun). injection Hrun as _ ->.
  destruct (conn_sync_ config).
  - apply M_bind_Ok in E5 as (u6 & s6 & E6 & E5). destruct (send_flags_stage ids (dom infos) _ _ _ Hs3 E6) as [Hs6 Ha].
    apply M_bind_Ok in E5 as (conns & s7 & E7 & E5). destruct s6 as [io6 w6]. injection E7 as <- <-.
    rewrite (proj1 (proj1 Hs6) : dom (client_conn_map_ io6) = ids) in E5.
    destruct (await_stage ids (dom infos) _ _ _ Hs6 E5) as [Hs8 Hf]. done.
  - destruct (check_stage ids (dom infos) _ _ _ (proj1 Hs3) E5) as [Hs5 Ha]. done.
Qed.
End initialised.

(** * Properties *)

(** C12: [init] is a barrier.  When it succeeds the node has a connection for exactly
    its clients and a client object for exactly its servers, and every server
    answered a call; with connection synchronisation, the flag of every client has
    arrived as well.  It never returns before its peers are there. *)
Theorem init_waits_for_peers B `{MsgBufferLaws B} (USE_BUFFER STATIC_CALL ASYNC_SERVER : bool) `{IceStream} {SC SA CC Stub W : Type}
    (ices : IceServer SC SA) (icec : IceClient CC Stub) (serve : Stub -> Current -> bytes -> W -> result bytes * W)
    (order : gset string -> list string) (env : Env) (config : ChannelConfig) (junk : char) ni (infos : via_set) ids w b io w' :
  (forall s, order s ≡ₚ elements s) ->
  mb_size_ok (if USE_BUFFER then cfg_buffer_size_ config else 1024 * 8) ->
  (forall nid, writes_ok (e_arrived env nid) /\ Forall (fun t => writes_ok (turn_writes t)) (e_turns env nid)) ->
  map_Forall (fun k v => vi_id v = k) infos -> Z.of_nat (base.size ids) < 2 ^ 32 ->
  init USE_BUFFER STATIC_CALL ASYNC_SERVER ices icec serve order env config junk (make_ViaNetIO ni infos ids, w) = (Ok b, (io, w')) ->
  dom (client_conn_map_ io) = ids /\ dom (client_obj_map_ io) = dom infos /\
  (forall nid, nid ∈ dom infos -> answered env nid) /\
  (conn_sync_ config = true -> forall nid, nid ∈ ids -> flag_arrived env nid).
Proof.
  intros Ho Hsz Ha Hi Hs Hrun.
  destruct (init_run USE_BUFFER STATIC_CALL ASYNC_SERVER ices icec serve order Ho env config junk Hsz Ha ni infos ids w b io w' Hi Hs Hrun)
    as ([? ?] & ? & ?). done.
Qed.

(** Two nodes that connect to each other with synchronisation, seen from "a". *)
Definition sync_config : ChannelConfig := set_conn_sync true (set_task_id "t" ChannelConfig_default).
Definition sync_env : Env :=
  mkEnv 0 0 (fun _ => [mkAttempt (Lost "refused") 1; mkAttempt Answered 1000000001])
    (fun _ => []) (fun _ => [mkTurn 0 [("sync_conn", sync_data)] NoTimeout; mkTurn 5 [] Timeout]).
Definition via_b : ViaInfo := mkViaInfo "b" "1:2" "" IcePlugCfg_default "" "" "" "" "" "" "" "" "" "".
Definition info_a : NodeInfo :=
  mkNodeInfo "a" "1:1" "" "" IcePlugCfg_default IcePlugCfg_default "" "" "" "" "" "" "" "" "" "" "" "" "" "" "".
Definition sync_run := init (B:=MsgQueue.queue) (H0:=Encoding11.encoding) false false false accepting_server accepting_client
  (fun (_ : string) _ _ (w : unit) => (Ok [], w)) elements sync_env sync_config x00
  (make_ViaNetIO info_a {["b" := via_b]} {["b"]}, tt).

Lemma init_waits_for_peers_witness :
  exists io w, sync_run = (Ok true, (io, w)) /\
    dom (client_conn_map_ io) = {["b"]} /\ answered sync_env "b" /\ flag_arrived sync_env "b".
Proof.
  destruct sync_run as [r [io w]] eqn:E. exists io, w.
  assert (r = Ok true) as -> by (apply (f_equal fst) in E; vm_compute in E; symmetry; exact E).
  split; [reflexivity|].
  destruct (init_waits_for_peers MsgQueue.queue (H1:=Encoding11.encoding) false false false accepting_server accepting_client
    (fun (_ : string) _ _ (w : unit) => (Ok [], w)) elements sync_env sync_config x00 info_a {["b" := via_b]} {["b"]}
    tt true io w) as (H1 & H2 & H3 & H4); [done|done| | |done|exact E|].
  - intros nid. split; [constructor|]. repeat constructor. by vm_compute.
  - by apply map_Forall_singleton.
  - split; [exact H1|]. split; [apply H3; vm_compute; done|apply H4; [done|set_solver]].
Defined.

(** Sending to a node that is not a server of this one, or receiving from one
    that is not its client, raises "node id not found" and touches nothing. *)
Lemma unknown_peer_refused B `{MsgBuffer B} STATIC_CALL `{IceStream} {SC SA Stub W : Type}
    (serve : Stub -> Current -> bytes -> W -> result bytes * W) (env : Env)
    nid id data len timeout (io : @ViaNetIO B SC SA Stub) (w : W) :
  (client_conn_map_ io !! nid = None ->
   net_recv env nid id data len timeout (io, w) =
     (HANDLE_EXCEPTION_EVENT C_EVENT_CODE_NO_FIND_NID "" [VaStr nid], (io, w))) /\
  (client_obj_map_ io !! nid = None ->
   net_send STATIC_CALL serve env nid id data len timeout (io, w) =
     (HANDLE_EXCEPTION_EVENT C_EVENT_CODE_NO_FIND_NID "" [VaStr nid], (io, w))).
Proof.
  split; intros E; [unfold net_recv|unfold net_send]; unfold gets; cbv [mbind M_bind];
    by rewrite E, bool_decide_eq_false_2 by (by intros [? ?]).
Qed.

(** C39: When the flag of a client does not arrive in time, the event cannot be
    reported: its message reads a [long] and [init] passes the [float] timeout,
    which is undefined behaviour. *)
Theorem sync_timeout_undefined {SC SA Stub W : Type} (env : Env) config junk nid
    (io : @ViaNetIO MsgQueue.queue SC SA Stub) (w : W) c t turns :
  client_conn_map_ io !! nid = Some c -> pending c sync_msgid = [] ->
  e_arrived env nid = [] -> e_turns env nid = t :: turns -> turn_wake t = Timeout ->
  (await_flag env config junk nid (io, w)).1 = Err (UndefinedBehaviour "printf argument").
Proof.
  intros Hc Hp Ha Ht Hw. unfold await_flag, on_connection. cbv [mbind M_bind]. rewrite Hc, Ha, Ht. cbn [conn_writes result_bind].
  unfold recv. cbn [recv_loop].
  assert (exists r, recv_iter (B:=MsgQueue.queue) (e_now env) (turn_now t) c sync_msgid [junk] 1 = Ok (RecvWait r, c)) as [r ->].
  { unfold recv_iter, pending in *. destruct (mapbuffer_ c !! sync_msgid) as [q|]; [|by eexists].
    cbn in Hp. subst q. by eexists. }
  cbn [mbind result_bind]. destruct (queue_writes_pending (turn_writes t) c) as (c2 & -> & _).
  cbn [mbind result_bind]. by rewrite Hw.
Qed.

Lemma sync_timeout_undefined_witness :
  (await_flag (mkEnv 0 0 (fun _ => []) (fun _ => []) (fun _ => [mkTurn 0 [] Timeout])) sync_config x00 "b"
    (set_conns {["b" := idle_connection]} (make_ViaNetIO (SC:=unit) (SA:=unit) (Stub:=string) info_a ∅ {["b"]}), tt)).1 =
  Err (UndefinedBehaviour "printf argument").
Proof.
  apply (sync_timeout_undefined (mkEnv 0 0 (fun _ => []) (fun _ => []) (fun _ => [mkTurn 0 [] Timeout])) sync_config x00 "b"
    _ tt idle_connection (mkTurn 0 [] Timeout) []); reflexivity.
Defined.
