(* ===== verification/Startup.v ===== *)
(** The start of a node, action by action.

    [init] (net_io.cc) is a sequence of actions: start the service, connect to each
    server, then send and await the flags, or check the connections.  [init_actions]
    lists them, and [init] is shown to run exactly that list.  Each action succeeds
    under conditions on what happens around it; so does [init]. *)
From stdpp Require Import sorting.
From S2P Require Import Prelude StdMap Timer Events CycleBuffer Connection WorkQueue Json ConfigData Wire Servant Client Server NetIO.
From Stdlib Require Import Strings.Byte.
#[local] Open Scope Z_scope.

Inductive init_action :=
  | StartService
  | Connect (v : string * ViaInfo)
  | SendFlag (nid : string)
  | AwaitFlag (nid : string)
  | CheckStatus (nid : string).

Section actions.
Context {B : Type} `{MsgBuffer B} (USE_BUFFER STATIC_CALL ASYNC_SERVER : bool) `{IceStream}.
Context {SC SA CC Stub W : Type} (ices : IceServer SC SA) (icec : IceClient CC Stub).
Context (serve : Stub -> Current -> bytes -> W -> result bytes * W).
Context (order : gset string -> list string).
Context (env : Env) (config : ChannelConfig) (junk : char).
Abbreviation io_t := (@ViaNetIO B SC SA Stub).

Definition do_action (a : init_action) : M (io_t * W) unit :=
  match a with
  | StartService =>
      ids ← gets (fun '(io, _) => client_nodeids_ io);
      self ← gets (fun '(io, _) => node_info_ io);
      _ ← for_each (add_connection USE_BUFFER env config) (iter_set ids);
      _ ← StartServer ASYNC_SERVER ices (task_id_ config) self;
      mret tt
  | Connect v => add_client icec env config v
  | SendFlag nid => send_flag STATIC_CALL serve env nid
  | AwaitFlag nid => await_flag env config junk nid
  | CheckStatus nid => check_status STATIC_CALL serve env config nid
  end.

(** What a node with these clients and servers does. *)
Definition init_actions (ids : gset string) (infos : via_set) : list init_action :=
  (if 0 <? to_uint 32 (Z.of_nat (base.size ids)) then [StartService] else []) ++
  (Connect <$> iter_map infos) ++
  (if conn_sync_ config
   then (SendFlag <$> order (dom infos)) ++ (AwaitFlag <$> order ids)
   else CheckStatus <$> order (dom infos)).
End actions.

(** Membership in the parts of the list, taken apart. *)
Ltac kinds :=
  repeat match goal with
  | H : _ \/ _ |- _ => destruct H | H : _ /\ _ |- _ => destruct H | H : exists _, _ |- _ => destruct H
  | H : _ = _ :> init_action |- _ => first [discriminate H|injection H as; subst]
  | H : False |- _ => destruct H | H : _ = _ :> bool |- _ => discriminate H
  end.

(** ** The order of the actions *)
Definition rank (a : init_action) : nat :=
  match a with StartService => 0 | Connect _ => 1 | SendFlag _ | CheckStatus _ => 2 | AwaitFlag _ => 3 end.

Section order.
Context (order : gset string -> list string) (order_perm : forall s, order s ≡ₚ elements s).
Context (config : ChannelConfig) (ids : gset string) (infos : via_set) (size_ok : Z.of_nat (base.size ids) < 2 ^ 32).
Abbreviation actions := (init_actions order config ids infos).

Lemma has_clients : (0 <? to_uint 32 (Z.of_nat (base.size ids))) = bool_decide (ids <> ∅).
Proof using size_ok.
  rewrite to_uint_id by lia. destruct (decide (ids = ∅)) as [->|Hne].
  - by rewrite bool_decide_eq_false_2 by tauto.
  - rewrite bool_decide_eq_true_2 by done. apply Z.ltb_lt.
    destruct (base.size ids) eqn:E; [|lia]. apply size_empty_inv, leibniz_equiv in E. done.
Qed.

Lemma in_order s nid : nid ∈ order s <-> nid ∈ s.
Proof using order_perm. by rewrite order_perm, elem_of_elements. Qed.

Lemma in_actions a : a ∈ actions <->
  match a with
  | StartService => ids <> ∅
  | Connect v => infos !! v.1 = Some v.2
  | SendFlag nid => conn_sync_ config = true /\ nid ∈ dom infos
  | AwaitFlag nid => conn_sync_ config = true /\ nid ∈ ids
  | CheckStatus nid => conn_sync_ config = false /\ nid ∈ dom infos
  end.
Proof using order_perm size_ok.
  assert (forall (f : string -> init_action) s (b : init_action), b ∈ f <$> order s <-> exists n, b = f n /\ n ∈ s) as Hf.
  { intros f s b. rewrite list_elem_of_fmap. split; intros (n & -> & Hn); exists n; (split; [done|]); by apply in_order. }
  unfold init_actions. rewrite has_clients, !elem_of_app, list_elem_of_fmap.
  assert (forall v, v ∈ iter_map infos <-> infos !! v.1 = Some v.2) as Hm by (intros []; apply elem_of_iter_map).
  destruct a as [|v|nid|nid|nid]; case_bool_decide; destruct (conn_sync_ config);
    rewrite ?elem_of_app, !Hf, ?list_elem_of_singleton, ?elem_of_nil; setoid_rewrite Hm; clear Hf Hm order_perm size_ok;
    (split; [intros Hin; kinds; by split_and?|intros; destruct_and?; first [tauto|naive_solver]]).
Qed.

Lemma rank_app l1 l2 :
  StronglySorted (fun a b => rank a <= rank b)%nat l1 -> StronglySorted (fun a b => rank a <= rank b)%nat l2 ->
  (forall a b, a ∈ l1 -> b ∈ l2 -> (rank a <= rank b)%nat) -> StronglySorted (fun a b => rank a <= rank b)%nat (l1 ++ l2).
Proof. intros. by apply StronglySorted_app. Qed.
Lemma rank_same {A} (f : A -> init_action) l : (forall a b, rank (f a) = rank (f b)) -> StronglySorted (fun a b => rank a <= rank b)%nat (f <$> l).
Proof.
  intros Hk. induction l as [|a l IH]; constructor; [done|]. apply Forall_fmap, Forall_forall.
  intros b _. unfold compose. rewrite (Hk a b). lia.
Qed.
Lemma actions_sorted : StronglySorted (fun a b => rank a <= rank b)%nat actions.
Proof.
  assert (forall (A : Type) (f : A -> init_action) l a, a ∈ f <$> l -> exists x, a = f x) as Hf
    by (intros A f l a (x & -> & _)%list_elem_of_fmap; by exists x).
  unfold init_actions. apply rank_app; [case_match; repeat constructor| |].
  - apply rank_app; [by apply rank_same| |].
    + destruct (conn_sync_ config); [apply rank_app|]; try (by apply rank_same).
      intros a b [x ->]%Hf [y ->]%Hf. cbn. lia.
    + intros a b [x ->]%Hf. destruct (conn_sync_ config); [intros [[y ->]%Hf|[y ->]%Hf]%elem_of_app|intros [y ->]%Hf]; cbn; lia.
  - intros a b Ha _. case_match; [apply list_elem_of_singleton in Ha as ->; cbn; lia|by apply elem_of_nil in Ha].
Qed.

Lemma actions_NoDup : NoDup actions.
Proof using order_perm.
  assert (forall (f : string -> init_action) s, Inj eq eq f -> NoDup (f <$> order s)) as Ho.
  { intros f s Hi. apply NoDup_fmap_2; [done|]. rewrite order_perm. apply NoDup_elements. }
  assert (NoDup (Connect <$> iter_map infos)) as Hc.
  { apply NoDup_fmap_2; [by intros ?? [=]|]. eapply NoDup_fmap_1, NoDup_fst_iter_map. }
  unfold init_actions. apply NoDup_app. split; [case_match; [apply NoDup_singleton|apply NoDup_nil_2]|]. split.
  { intros a Ha. case_match; [apply list_elem_of_singleton in Ha as ->|by apply elem_of_nil in Ha].
    rewrite elem_of_app. intros [(?&[=]&?)%list_elem_of_fmap|Hin]. revert Hin.
    destruct (conn_sync_ config); rewrite ?elem_of_app, !list_elem_of_fmap; intros Hin; kinds. }
  apply NoDup_app. split; [done|]. split.
  { intros a (v & -> & _)%list_elem_of_fmap.
    destruct (conn_sync_ config); rewrite ?elem_of_app, !list_elem_of_fmap; intros Hin; kinds. }
  destruct (conn_sync_ config); [|apply Ho; by intros ?? [=]].
  apply NoDup_app. split; [apply Ho; by intros ?? [=]|]. split; [|apply Ho; by intros ?? [=]].
  intros a (v & -> & _)%list_elem_of_fmap. rewrite list_elem_of_fmap. intros Hin. kinds.
Qed.

(** At any point, all actions of a lower rank are done, and none twice. *)
Lemma done_before pre a post b : actions = pre ++ a :: post -> b ∈ actions -> (rank b < rank a)%nat -> b ∈ pre.
Proof.
  intros E Hb Hr. pose proof actions_sorted as Hs. rewrite E in Hb, Hs.
  apply elem_of_app in Hb as [Hb|Hb]; [done|]. exfalso. apply StronglySorted_app_1_r in Hs.
  inversion Hs as [|? ? _ Hall]; subst. apply elem_of_cons in Hb as [->|Hb]; [lia|].
  rewrite Forall_forall in Hall. specialize (Hall b Hb). lia.
Qed.
Lemma not_done_twice pre a post : actions = pre ++ a :: post -> a ∉ pre.
Proof using order_perm.
  intros E Ha. pose proof actions_NoDup as Hd. rewrite E in Hd. apply NoDup_app in Hd as (_ & Hd & _).
  apply (Hd a Ha). by left.
Qed.
End order.

(** [init] runs them in order. *)
Section runs.
Context {B : Type} `{MsgBufferLaws B} (USE_BUFFER STATIC_CALL ASYNC_SERVER : bool) `{IceStream}.
Context {SC SA CC Stub W : Type} (ices : IceServer SC SA) (icec : IceClient CC Stub).
Context (serve : Stub -> Current -> bytes -> W -> result bytes * W).
Context (order : gset string -> list string) (order_perm : forall s, order s ≡ₚ elements s).
Context (env : Env) (config : ChannelConfig) (junk : char).
Hypothesis size_ok : mb_size_ok (if USE_BUFFER then cfg_buffer_size_ config else 1024 * 8).
Abbreviation io_t := (@ViaNetIO B SC SA Stub).
Abbreviation perform := (do_action (B:=B) USE_BUFFER STATIC_CALL ASYNC_SERVER ices icec serve env config junk).

Lemma start_action ni infos ids (w : W) :
  let s0 := (make_ViaNetIO ni infos ids, w) in
  for_each perform (if 0 <? to_uint 32 (Z.of_nat (base.size ids)) then [StartService] else []) s0 =
    (if 0 <? to_uint 32 (Z.of_nat (base.size ids)) then
       _ ← for_each (add_connection USE_BUFFER env config) (iter_set ids);
       _ ← StartServer ASYNC_SERVER ices (task_id_ config) ni; mret tt
     else mret tt) s0.
Proof.
  intros s0. destruct (0 <? _); [|done]. cbn [for_each do_action]. rewrite M_bind_assoc, M_bind_gets, M_bind_assoc, M_bind_gets.
  rewrite !M_bind_assoc. apply M_bind_ext. intros [] s1 _. rewrite !M_bind_assoc. by apply M_bind_ext.
Qed.

Lemma init_runs_actions ni infos ids (w : W) :
  map_Forall (fun k v => vi_id v = k) infos -> Z.of_nat (base.size ids) < 2 ^ 32 ->
  init USE_BUFFER STATIC_CALL ASYNC_SERVER ices icec serve order env config junk (make_ViaNetIO ni infos ids, w) =
    (_ ← for_each perform (init_actions order config ids infos); mret true) (make_ViaNetIO ni infos ids, w).
Proof.
  intros Hi Hsz. unfold init, init_actions. rewrite !M_bind_gets. cbn [fst make_ViaNetIO client_nodeids_ node_info_].
  rewrite for_each_app_bind. set (s0 := (make_ViaNetIO ni infos ids, w)).
  etrans; [|apply M_bind_same; symmetry; apply start_action]. apply M_bind_ext. intros [] s1 E1.
  destruct (service_stage USE_BUFFER ASYNC_SERVER ices env config size_ok ni infos ids Hsz s0 tt s1 eq_refl E1) as [Hs1 Hr1].
  rewrite M_bind_gets, for_each_app_bind. destruct s1 as [io1 w1]. cbn [fst] in Hr1. rewrite Hr1.
  etrans; [|apply M_bind_same; symmetry; apply for_each_fmap]. apply M_bind_ext. intros [] [io2 w2] E2.
  destruct (clients_stage USE_BUFFER icec env config size_ok infos ids Hi _ _ _ Hs1 E2) as [Hs2 Hf2].
  rewrite M_bind_gets, (proj2 Hs2 : dom (client_obj_map_ io2) = dom infos).
  destruct (conn_sync_ config).
  - rewrite for_each_app_bind, M_bind_assoc. etrans; [|apply M_bind_same; symmetry; apply for_each_fmap].
    apply M_bind_ext. intros [] [io3 w3] E3.
    destruct (send_flags_stage STATIC_CALL serve order order_perm env ids (dom infos) _ _ _ (conj Hs2 Hf2) E3) as [[Hs3 _] _].
    rewrite M_bind_assoc, M_bind_gets, (proj1 Hs3 : dom (client_conn_map_ io3) = ids).
    apply M_bind_same. exact (eq_sym (for_each_fmap perform AwaitFlag _ _)).
  - apply M_bind_same. exact (eq_sym (for_each_fmap perform CheckStatus _ _)).
Qed.
End runs.

(** * The loop of a remote call, when the node answers *)
Section retry.
Context {R : Type} (dispatch : R -> result unit * R) (timer : SimpleTimer) (timeout : Z) (event : result unit).

(** An attempt is answered before the time is spent. *)
Definition responsive (attempts : list attempt) : Prop :=
  exists pre t post, attempts = pre ++ mkAttempt Answered t :: post /\
    Forall (fun a => to_uint64 (ms_elapse (at_now a) timer) < timeout) pre.

Lemma retry_answers (I : R -> Prop) attempts r :
  (forall r, I r -> (dispatch r).1 = Ok tt /\ I (dispatch r).2) -> I r -> responsive attempts ->
  exists r', retry dispatch timer timeout event attempts r = (Ok tt, r') /\ I r'.
Proof.
  intros Hd Hr (pre & t & post & -> & Hp). revert r Hr. induction Hp as [|a pre Ha _ IH]; intros r Hr; cbn.
  - destruct (Hd r Hr) as [H1 H2]. destruct (dispatch r) as [o r']. cbn in *. subst o. by exists r'.
  - destruct (Hd r Hr) as [H1 H2]. unfold remote_call. destruct (dispatch r) as [o r1]. cbn in H1, H2. subst o.
    apply Z.leb_gt in Ha. destruct (at_fate a); cbn; [rewrite Ha; by apply IH|by exists r1|rewrite Ha; by apply IH].
Qed.

(** When the loop ends well, so did its last request. *)
Lemma retry_ok_dispatch (I : R -> Prop) attempts r o r' :
  (forall r, I r -> I (dispatch r).2) -> I r -> event <> Ok tt ->
  retry dispatch timer timeout event attempts r = (o, r') ->
  I r' /\ (o = Ok tt -> exists r0, I r0 /\ r' = (dispatch r0).2 /\ at_caller (dispatch r0).1 = Ok tt).
Proof.
  intros Hd Hr He. revert r Hr. induction attempts as [|a attempts IH]; intros r Hr; cbn; [by intros [= <- <-]|].
  pose proof (remote_call_state dispatch (at_fate a) r) as Hst. pose proof (remote_call_ok dispatch (at_fate a) r) as Hok.
  destruct (remote_call dispatch (at_fate a) r) as [res r1]. cbn in Hst, Hok.
  assert (I r1) as H1 by (subst r1; destruct (at_fate a); auto).
  destruct res as [[]|e].
  - intros [= <- <-]. split; [done|]. intros _. destruct (Hok eq_refl) as [Hf Hc]. rewrite Hf in Hst. by exists r.
  - destruct e; try by intros [= <- <-].
    destruct (timeout <=? _); [intros E; by injection E as <- <-|by apply IH].
Qed.
End retry.

(** * Each action *)
Section one.
Context {B : Type} `{MsgBuffer B} (USE_BUFFER STATIC_CALL ASYNC_SERVER : bool) `{IceStream}.
Context {SC SA CC Stub W : Type} (ices : IceServer SC SA) (icec : IceClient CC Stub).
Context (serve : Stub -> Current -> bytes -> W -> result bytes * W).
Context (env : Env) (config : ChannelConfig) (junk : char).
Abbreviation io_t := (@ViaNetIO B SC SA Stub).
Abbreviation perform := (do_action (B:=B) USE_BUFFER STATIC_CALL ASYNC_SERVER ices icec serve env config junk).
Implicit Types (io : io_t) (w : W).

Context (t : Z) (scaled_ok : scaled 64 (send_timeout_ config) 1000 = Ok t).

Lemma add_connection_run nid : exists c0, mapbuffer_ c0 = ∅ /\ forall io w,
  add_connection USE_BUFFER env config nid (io, w) = (Ok tt, (set_conns (<[nid := c0]> (client_conn_map_ io)) io, w)).
Proof using scaled_ok.
  unfold add_connection, lift, on_io, new_connection, modify. rewrite scaled_ok. cbv [mbind M_bind result_bind].
  eexists. split; [|reflexivity]. by destruct USE_BUFFER.
Qed.

Lemma add_connections_run l io w : exists m,
  for_each (add_connection USE_BUFFER env config) l (io, w) = (Ok tt, (set_conns m io, w)) /\
  dom m = list_to_set l ∪ dom (client_conn_map_ io) /\
  forall k c, m !! k = Some c -> mapbuffer_ c = ∅ \/ client_conn_map_ io !! k = Some c.
Proof using scaled_ok.
  revert io. induction l as [|nid l IH]; intros io.
  - exists (client_conn_map_ io). split; [by destruct io|]. split; [set_solver|]. by right.
  - destruct (add_connection_run nid) as (c0 & Hc0 & E0).
    destruct (IH (set_conns (<[nid := c0]> (client_conn_map_ io)) io)) as (m & E & Hd & Hm).
    exists m. cbn [for_each]. cbv [mbind M_bind]. rewrite E0. split; [exact E|]. cbn in Hd, Hm.
    split; [rewrite Hd, dom_insert_L; set_solver|].
    intros k c Hk. destruct (Hm k c Hk) as [He|He]; [by left|].
    destruct (decide (k = nid)) as [->|Hne]; [|by right; rewrite lookup_insert_ne in He].
    rewrite lookup_insert_eq in He. injection He as <-. by left.
Qed.

Lemma start_run io w :
  (forall conns : gmap string (ClientConnection B), exists srv, start_server ices ASYNC_SERVER (node_info_ io) (task_id_ config) conns = Ok srv) ->
  exists m srv, perform StartService (io, w) = (Ok tt, (set_server (Some srv) (set_conns m io), w)) /\
    dom m = client_nodeids_ io ∪ dom (client_conn_map_ io) /\
    forall k c, m !! k = Some c -> mapbuffer_ c = ∅ \/ client_conn_map_ io !! k = Some c.
Proof using scaled_ok.
  intros Hs. destruct (add_connections_run (iter_set (client_nodeids_ io)) io w) as (m & E & Hd & Hm).
  destruct (Hs m) as [srv Es]. exists m, srv. split; [|split; [|done]].
  - cbn [do_action]. rewrite !M_bind_gets. unfold StartServer, gets, lift, on_io, modify. cbv [mbind M_bind mret M_ret].
    rewrite E. cbn [client_conn_map_ set_conns node_info_]. by rewrite Es.
  - rewrite Hd. f_equal. apply set_eq. intros k. by rewrite elem_of_list_to_set, elem_of_iter_set.
Qed.

Lemma connect_run v cl io w :
  make_BaseClient icec (e_t0 env) (e_now env) v.2 (task_id_ config) = Ok cl ->
  perform (Connect v) (io, w) =
    (Ok tt, (set_clients (<[vi_id v.2 := SetSendTimeOut t cl]> (client_obj_map_ io)) io, w)).
Proof using scaled_ok.
  intros E. cbn [do_action]. unfold add_client, lift, on_io, modify. rewrite E, scaled_ok. done.
Qed.

(** A flag goes out through the loop of [send]; the client's timer restarts. *)
Lemma send_flag_run nid c io w :
  client_obj_map_ io !! nid = Some c ->
  perform (SendFlag nid) (io, w) =
    let '(o, w') := retry (send_request STATIC_CALL (serve (stub_ c)) (ni_id (node_info_ io)) sync_msgid sync_data)
      (start (e_now env)) (bc_send_timeout_ c)
      (HANDLE_EXCEPTION_EVENT C_EVENT_CODE_SEND_DATA_TIMEOUT (bc_task_id_ c)
         [VaStr (ni_id (node_info_ io)); VaStr nid; VaLong (bc_send_timeout_ c)]) (e_attempts env nid) w in
    (o, (set_clients (<[nid := start_timer (e_now env) c]> (client_obj_map_ io)) io, w')).
Proof.
  intros E. cbn [do_action]. unfold send_flag, client_send, gets, on_client, send. cbv [mbind M_bind mret M_ret]. rewrite E.
  change (send_payload sync_data 1) with (Ok sync_data : result bytes). cbn [bc_timer_ start_timer].
  by destruct (retry _ _ _ _ _ w) as [[[]|] w'].
Qed.

Lemma check_status_run nid c t' p io w :
  client_obj_map_ io !! nid = Some c ->
  scaled 64 (conn_timeout_ config) 1000 = Ok t' -> scaled 32 (ping_time_ config) 1000000 = Ok p ->
  perform (CheckStatus nid) (io, w) =
    let '(o, w') := retry (ping STATIC_CALL (serve (stub_ c))) (start (e_now env)) t'
      (HANDLE_EXCEPTION_EVENT C_EVENT_CODE_CONNECT_TIMEOUT (bc_task_id_ c)
         [VaStr (node_id_ config); VaStr (remote_nid_ c); VaLong t']) (e_attempts env nid) w in
    (o, (set_clients (<[nid := start_timer (e_now env) c]> (client_obj_map_ io)) io, w')).
Proof.
  intros E Et Ep. cbn [do_action]. unfold check_status, lift, on_client, CheckConnStatus. rewrite Et, Ep.
  cbv [mbind M_bind mret M_ret]. rewrite E. cbn [bc_timer_ start_timer].
  by destruct (retry _ _ _ _ _ w) as [[[]|] w'].
Qed.
End one.

(** A flag that is there, or comes before the wait is timed out, is awaited well. *)
Section await.
Context (STATIC_CALL ASYNC_SERVER : bool) `{IceStream}.
Context {SC SA CC Stub W : Type} (ices : IceServer SC SA) (icec : IceClient CC Stub).
Context (serve : Stub -> Current -> bytes -> W -> result bytes * W).
Context (env : Env) (config : ChannelConfig) (junk : char).
Abbreviation perform := (do_action (B:=MsgQueue.queue) false STATIC_CALL ASYNC_SERVER ices icec serve env config junk).

(** With the messages [q] waiting already. *)
Definition flag_comes (nid : string) (q : list bytes) : Prop := exists n t b ds,
  Forall (fun t => turn_wake t = NoTimeout) (take n (e_turns env nid)) /\ e_turns env nid !! n = Some t /\
  q ++ msgs_for sync_msgid (e_arrived env nid ++ concat (turn_writes <$> take n (e_turns env nid))) = [b] :: ds.

Lemma await_flag_run nid c (io : @ViaNetIO MsgQueue.queue SC SA Stub) (w : W) :
  client_conn_map_ io !! nid = Some c -> flag_comes nid (pending c sync_msgid) ->
  exists c', perform (AwaitFlag nid) (io, w) = (Ok tt, (set_conns (<[nid := c']> (client_conn_map_ io)) io, w)).
Proof.
  intros Hc (n & t & b & ds & Hw & Ht & Hq). unfold perform, do_action, await_flag, on_connection.
  destruct (queue_writes_pending (e_arrived env nid) c) as (c1 & E1 & Hp).
  destruct (queue_recv_in_time (e_now env) c1 sync_msgid [junk] 1 0 (e_turns env nid) n t [b] ds Hw Ht) as [c' E2].
  - rewrite Hp, <- Hq, <- app_assoc. f_equal. unfold msgs_for. by rewrite omap_app.
  - done.
  - exists c'. cbv [mbind M_bind]. rewrite Hc, E1. cbn [result_bind]. by rewrite E2.
Qed.

(** Without one, a turn goes back to wait. *)
Lemma await_flag_waits nid c now (io : @ViaNetIO MsgQueue.queue SC SA Stub) (w : W) :
  client_conn_map_ io !! nid = Some c -> pending c sync_msgid = [] ->
  e_arrived env nid = [] -> e_turns env nid = [mkTurn now [] NoTimeout] ->
  perform (AwaitFlag nid) (io, w) = (Err (Blocked "recv"), (set_conns (<[nid := c]> (client_conn_map_ io)) io, w)).
Proof.
  intros Hc Hp Ea Et. unfold perform, do_action, await_flag, on_connection. cbv [mbind M_bind]. rewrite Hc, Ea, Et. cbn [conn_writes result_bind].
  unfold recv, recv_loop, recv_iter, pending in *. destruct (mapbuffer_ c !! sync_msgid) as [q|]; [|done]. cbn in Hp. by subst q.
Qed.
End await.

(** * A start that succeeds *)
Section succeeds.
Context (STATIC_CALL ASYNC_SERVER : bool) `{IceStream}.
Context {SC SA CC Stub W : Type} (ices : IceServer SC SA) (icec : IceClient CC Stub).
Context (serve : Stub -> Current -> bytes -> W -> result bytes * W).
Context (order : gset string -> list string).
Context (env : Env) (config : ChannelConfig) (junk : char).
Context (alive : W -> Prop).
Abbreviation io_t := (@ViaNetIO MsgQueue.queue SC SA Stub).
Abbreviation perform := (do_action (B:=MsgQueue.queue) false STATIC_CALL ASYNC_SERVER ices icec serve env config junk).

(** The requests of a start are carried out by the node behind a stub. *)
Definition takes (dispatch : W -> result unit * W) : Prop := forall w, alive w -> (dispatch w).1 = Ok tt /\ alive (dispatch w).2.
Definition welcomes (self : string) (stub : Stub) : Prop :=
  takes (send_request STATIC_CALL (serve stub) self sync_msgid sync_data) /\ takes (ping STATIC_CALL (serve stub)).

(** The timeouts are numbers of milliseconds, Ice starts the service and makes the
    clients, every server answers in time and every client's flag comes in time. *)
Record favourable (ni : NodeInfo) (infos : via_set) (ids : gset string) : Prop := mkFavourable {
  fav_timeouts : exists t t' p, scaled 64 (send_timeout_ config) 1000 = Ok t /\
    scaled 64 (conn_timeout_ config) 1000 = Ok t' /\ scaled 32 (ping_time_ config) 1000000 = Ok p /\
    forall k, k ∈ dom infos -> responsive (start (e_now env)) (if conn_sync_ config then t else t') (e_attempts env k);
  fav_service : forall conns : gmap string (ClientConnection MsgQueue.queue),
    exists srv, start_server ices ASYNC_SERVER ni (task_id_ config) conns = Ok srv;
  fav_clients : forall k v, infos !! k = Some v -> vi_id v = k /\ exists cl,
    make_BaseClient icec (e_t0 env) (e_now env) v (task_id_ config) = Ok cl /\ welcomes (ni_id ni) (stub_ cl);
  fav_flags : conn_sync_ config = true -> forall k, k ∈ ids -> flag_comes env k [] }.

Context (order_perm : forall s, order s ≡ₚ elements s).
Context (ni : NodeInfo) (infos : via_set) (ids : gset string) (size_ok : Z.of_nat (base.size ids) < 2 ^ 32).
Context (fav : favourable ni infos ids).
Abbreviation actions := (init_actions order config ids infos).

(** After the actions [pre]. *)
Record progress (t : Z) (pre : list init_action) (s : io_t * W) : Prop := mkProgress {
  pr_self : node_info_ s.1 = ni /\ client_nodeids_ s.1 = ids /\ alive s.2;
  pr_conns : forall k, k ∈ dom (client_conn_map_ s.1) <-> StartService ∈ pre /\ k ∈ ids;
  pr_fresh : forall k c, AwaitFlag k ∉ pre -> client_conn_map_ s.1 !! k = Some c -> mapbuffer_ c = ∅;
  pr_clients : forall k v, Connect (k, v) ∈ pre -> exists cl, client_obj_map_ s.1 !! k = Some cl /\
    welcomes (ni_id ni) (stub_ cl) /\ bc_send_timeout_ cl = t }.

Lemma vi_id_of k v : infos !! k = Some v -> vi_id v = k.
Proof using fav. intros E. by destruct (fav_clients _ _ _ fav k v E). Qed.

(** A call of a client leaves everything but the clock of that client. *)
Lemma called_progress t pre a nid c now io w w' :
  progress t pre (io, w) -> client_obj_map_ io !! nid = Some c -> alive w' -> (forall v, a <> Connect v) -> a <> StartService ->
  progress t (pre ++ [a]) (set_clients (<[nid := start_timer now c]> (client_obj_map_ io)) io, w').
Proof.
  intros [(Hs & Hi & _) Hc Hf Hcl] E Hw Ha Hst. split; cbn in *.
  - done.
  - intros k. rewrite Hc, elem_of_app, list_elem_of_singleton. naive_solver.
  - intros k c' Hk. apply Hf. rewrite elem_of_app in Hk. tauto.
  - intros k v [Hin|Hin%list_elem_of_singleton]%elem_of_app; [|by destruct (Ha (k, v))].
    destruct (Hcl k v Hin) as (cl & Ecl & Hwl & Ht). destruct (decide (nid = k)) as [->|Hne].
    + rewrite lookup_insert_eq. exists (start_timer now c). rewrite E in Ecl. injection Ecl as ->. done.
    + rewrite lookup_insert_ne by done. by exists cl.
Qed.

Lemma service_progress t pre post : scaled 64 (send_timeout_ config) 1000 = Ok t -> actions = pre ++ StartService :: post ->
  total (progress t pre) (perform StartService) (fun _ => progress t (pre ++ [StartService])).
Proof using fav order_perm size_ok.
  intros Ht Hl [io w] Hp. destruct Hp as [(Hs & Hi & Hal) Hc Hf Hcl]. cbn in *.
  destruct (start_run (B:=MsgQueue.queue) false STATIC_CALL ASYNC_SERVER ices icec serve env config junk t Ht io w) as (m & srv & E & Hd & Hm).
  { rewrite Hs. apply (fav_service _ _ _ fav). }
  do 2 eexists. split; [exact E|]. split; cbn.
  - done.
  - intros k. rewrite Hd, Hi, elem_of_union, Hc, elem_of_app, list_elem_of_singleton. tauto.
  - intros k c Hk Ec. destruct (Hm k c Ec) as [He|He]; [done|]. eapply Hf; [|done]. set_solver.
  - intros k v [Hin|[=]%list_elem_of_singleton]%elem_of_app. by apply (Hcl k v).
Qed.

Lemma connect_progress t pre v post : scaled 64 (send_timeout_ config) 1000 = Ok t -> actions = pre ++ Connect v :: post ->
  total (progress t pre) (perform (Connect v)) (fun _ => progress t (pre ++ [Connect v])).
Proof using fav order_perm size_ok.
  intros Ht Hl [io w] [(Hs & Hi & Hal) Hc Hf Hcl]. cbn in *. destruct v as [k v].
  assert (infos !! k = Some v) as Hv.
  { apply (in_actions order order_perm config ids infos size_ok (Connect (k, v))). rewrite Hl. set_solver. }
  destruct (fav_clients _ _ _ fav k v Hv) as (Hid & cl & E & Hw).
  do 2 eexists. split; [by apply (connect_run (B:=MsgQueue.queue) false STATIC_CALL ASYNC_SERVER ices icec serve env config junk t Ht)|]. split; cbn.
  - done.
  - intros k'. rewrite Hc, elem_of_app, list_elem_of_singleton. naive_solver.
  - intros k' c' Hk. apply Hf. set_solver.
  - intros k' v' [Hin|[= -> ->]%list_elem_of_singleton]%elem_of_app.
    + destruct (decide (k = k')) as [->|Hne]; [|rewrite lookup_insert_ne by congruence; by apply (Hcl k' v')].
      rewrite Hid, lookup_insert_eq. by eexists.
    + rewrite Hid, lookup_insert_eq. by eexists.
Qed.

(** By then every client object is there. *)
Lemma client_there t pre nid a post s : actions = pre ++ a :: post -> rank a = 2%nat -> nid ∈ dom infos -> progress t pre s ->
  exists cl, client_obj_map_ s.1 !! nid = Some cl /\ welcomes (ni_id ni) (stub_ cl) /\ bc_send_timeout_ cl = t.
Proof using fav order_perm size_ok.
  intros Hl Hr [v Hv]%elem_of_dom Hp. apply (pr_clients _ _ _ Hp nid v).
  eapply done_before; [done| |rewrite Hr; cbn; lia]. by apply in_actions.
Qed.

Lemma call_progress t pre a nid post :
  (exists t' p, scaled 64 (conn_timeout_ config) 1000 = Ok t' /\ scaled 32 (ping_time_ config) 1000000 = Ok p /\
    responsive (start (e_now env)) (if conn_sync_ config then t else t') (e_attempts env nid)) ->
  actions = pre ++ a :: post -> a = SendFlag nid \/ a = CheckStatus nid ->
  total (progress t pre) (perform a) (fun _ => progress t (pre ++ [a])).
Proof using fav order_perm size_ok.
  intros (t' & p & Ht' & Hping & Hr) Hl Ha [io w] Hp.
  assert (a ∈ actions) as Hin by (rewrite Hl; set_solver). apply in_actions in Hin; [|done..].
  destruct (client_there t pre nid a post (io, w) Hl) as (cl & E & [Hwf Hwp] & Ht); [by destruct Ha as [-> | ->]|by (destruct Ha as [-> | ->]; destruct Hin)|done|].
  destruct Ha as [-> | ->]; destruct Hin as [Hsync _]; rewrite Hsync in Hr; cbn [fst] in E.
  - destruct (retry_answers _ (start (e_now env)) (bc_send_timeout_ cl) (HANDLE_EXCEPTION_EVENT C_EVENT_CODE_SEND_DATA_TIMEOUT (bc_task_id_ cl)
      [VaStr (ni_id ni); VaStr nid; VaLong (bc_send_timeout_ cl)]) alive (e_attempts env nid) w Hwf) as (w' & Er & Hw').
    { apply Hp. } { by rewrite Ht. }
    do 2 eexists. split; [rewrite (send_flag_run (B:=MsgQueue.queue) false STATIC_CALL ASYNC_SERVER ices icec serve env config junk nid cl io w E)|].
    { rewrite (proj1 (pr_self _ _ _ Hp) : node_info_ io = ni), Er. reflexivity. }
    by apply called_progress with (w := w).
  - destruct (retry_answers _ (start (e_now env)) t' (HANDLE_EXCEPTION_EVENT C_EVENT_CODE_CONNECT_TIMEOUT (bc_task_id_ cl)
      [VaStr (node_id_ config); VaStr (remote_nid_ cl); VaLong t']) alive (e_attempts env nid) w Hwp) as (w' & Er & Hw'); [apply Hp|done|].
    do 2 eexists. split; [rewrite (check_status_run (B:=MsgQueue.queue) false STATIC_CALL ASYNC_SERVER ices icec serve env config junk nid cl t' p io w E Ht' Hping), Er; reflexivity|].
    by apply called_progress with (w := w).
Qed.

Lemma await_progress t pre nid post : actions = pre ++ AwaitFlag nid :: post ->
  total (progress t pre) (perform (AwaitFlag nid)) (fun _ => progress t (pre ++ [AwaitFlag nid])).
Proof using fav order_perm size_ok.
  intros Hl [io w] [(Hs & Hi & Hal) Hc Hf Hcl]. cbn in *.
  assert (AwaitFlag nid ∈ actions) as Hin by (rewrite Hl; set_solver). apply in_actions in Hin as [Hsync Hin]; [|done..].
  assert (nid ∈ dom (client_conn_map_ io)) as [c Ec]%elem_of_dom.
  { apply Hc. split; [|done]. eapply done_before; [done| |cbn; lia]. apply in_actions; [done..|]. set_solver. }
  assert (mapbuffer_ c = ∅) as Hm by (eapply Hf; [|done]; by eapply not_done_twice).
  destruct (await_flag_run STATIC_CALL ASYNC_SERVER ices icec serve env config junk nid c io w Ec) as [c' E].
  { unfold pending. rewrite Hm. by apply (fav_flags _ _ _ fav). }
  do 2 eexists. split; [exact E|]. split; cbn.
  - done.
  - intros k. apply elem_of_dom_2, Hc in Ec. rewrite dom_insert_L, elem_of_union, elem_of_singleton, Hc, elem_of_app, list_elem_of_singleton. naive_solver.
  - intros k c1 Hk. rewrite lookup_insert_ne by set_solver. apply Hf. set_solver.
  - intros k v [Hk|[=]%list_elem_of_singleton]%elem_of_app. by apply (Hcl k v).
Qed.

Lemma init_succeeds w : alive w ->
  exists io w', init (B:=MsgQueue.queue) false STATIC_CALL ASYNC_SERVER ices icec serve order env config junk
    (make_ViaNetIO ni infos ids, w) = (Ok true, (io, w')) /\ alive w'.
Proof using fav order_perm size_ok.
  intros Hw. destruct (fav_timeouts _ _ _ fav) as (t & t' & p & Ht & Ht' & Hp & Hr).
  assert (total (progress t []) (for_each perform actions) (fun _ => progress t actions)) as Htot.
  { apply total_for_each_prefix. intros pre a post Hl.
    assert (a ∈ actions) as Ha by (rewrite Hl; set_solver). apply in_actions in Ha; [|done..]. destruct a as [|v|nid|nid|nid].
    - by eapply service_progress.
    - by eapply connect_progress.
    - eapply (call_progress t pre _ nid); [exists t', p; naive_solver|done|by left].
    - by eapply await_progress.
    - eapply (call_progress t pre _ nid); [exists t', p; naive_solver|done|by right]. }
  destruct (Htot (make_ViaNetIO ni infos ids, w)) as ([] & [io w'] & E & Hpr).
  { split; cbn; [done| |intros k c _; by rewrite lookup_empty|by intros k v ?%elem_of_nil].
    intros k. rewrite dom_empty_L. set_solver. }
  exists io, w'. split; [|apply Hpr]. rewrite init_runs_actions; [|exact order_perm|done|by intros k v; apply vi_id_of|done].
  cbv [mbind M_bind]. by rewrite E.
Qed.
End succeeds.
