(* ===== verification/Task.v ===== *)
(** The nodes of a task start together.

    Each node runs the actions of its [init] (Startup.v); the nodes interleave tick by
    tick.  A tick is one round of the loop an action is in: an attempt of [send] or
    [CheckConnStatus], a turn of [recv].  A request of one node is dispatched to the
    servant of another as soon as that node's service is up, and writes to the
    connections that node awaits its flags on, which notifies it.  A round that leaves
    the loop running leaves the node in its action; a round that throws is a fault of
    that node, whose [init] is over. *)
From S2P Require Import Prelude StdMap Timer Events CycleBuffer Connection WorkQueue Json ConfigData Config ConfigSpec Policy.
From S2P Require Import Wire Servant Client Server Rendezvous NetIO Startup.
From Stdlib Require Import Strings.Byte Ascii.
#[local] Open Scope Z_scope.

Section task.
Context (STATIC_CALL : bool) `{IceStream} {SC SA CC Stub : Type}.
Context (ices : IceServer SC SA) (icec : IceClient CC Stub) (check : OperationMode -> OperationMode -> result unit).
(** The node a stub was made for. *)
Context (target : Stub -> string).
Context (order : gset string -> list string) (c : ChannelConfig) (t0 : Z) (junk : char).
(** What each node starts with. *)
Context (info : string -> NodeInfo) (infos : string -> via_set) (ids : string -> gset string).
Abbreviation conns_t := (gmap string (ClientConnection MsgQueue.queue)).
Abbreviation io_t := (@ViaNetIO MsgQueue.queue SC SA Stub).
(** The services that are up, each with the connections of its node. *)
Abbreviation net := (gmap string conns_t).

Definition net_serve (stub : Stub) (current : Current) (inParams : bytes) (w : net) : result bytes * net :=
  match w !! target stub with
  | Some conns =>
      let '(o, conns') := servant_serve check STATIC_CALL current inParams conns in (o, <[target stub := conns']> w)
  | None => (Err (IceException "ConnectionRefusedException"), w)
  end.

(** A node: what it has done, what it has to do, since when it is in the action it has
    begun, where the connection's [cv_] was when it began to wait for a flag, its
    network side, and what its [init] has thrown. *)
Record NodeState := mkNode {
  n_done : list init_action;
  n_todo : list init_action;
  n_since : option Z;
  n_waits : option nat;
  n_io : io_t;
  n_fault : option fault }.
Record Task := mkTask { t_nodes : gmap string NodeState; t_net : net }.

Definition actions (a : string) : list init_action := init_actions order (set_node_id a c) (ids a) (infos a).
Definition task_init (nodes : gset string) : Task :=
  mkTask (set_to_map (fun a => (a, mkNode [] (actions a) None None (make_ViaNetIO (info a) (infos a) (ids a)) None)) nodes) ∅.

(** A node and its service share the connections. *)
Definition attach (a : string) (w : net) (io : io_t) : io_t :=
  match w !! a with Some conns => set_conns conns io | None => io end.
Definition publish (a : string) (io : io_t) (w : net) : net :=
  match server_ io with Some _ => <[a := client_conn_map_ io]> w | None => w end.

(** A tick: a node goes on for one round of a loop, at a reading of the clock; what
    becomes of the call it makes, or how its wait ends.  Its action began at [since]. *)
Record tick := mkTick { tk_node : string; tk_now : Z; tk_fate : fate; tk_wake : wake }.
Definition env_of (since : Z) (tk : tick) : Env :=
  mkEnv t0 since (fun _ => [mkAttempt (tk_fate tk) (tk_now tk)]) (fun _ => []) (fun _ => [mkTurn (tk_now tk) [] (tk_wake tk)]).
Definition perform (env : Env) (a : string) : init_action -> M (io_t * net) unit :=
  do_action (B:=MsgQueue.queue) false STATIC_CALL false ices icec net_serve env (set_node_id a c) junk.

Definition waits_at (act : init_action) (io : io_t) : option nat :=
  match act with AwaitFlag k => cv_ <$> client_conn_map_ io !! k | _ => None end.
(** One round: the action is over, or its loop goes on, or the start has failed. *)
Definition node_tick (tk : tick) (nd : NodeState) (w : net) : NodeState * net :=
  match n_fault nd, n_todo nd with
  | None, act :: rest =>
      let since := default (tk_now tk) (n_since nd) in
      let '(r, (io, w')) := perform (env_of since tk) (tk_node tk) act (attach (tk_node tk) w (n_io nd), w) in
      (match r with
       | Ok _ => mkNode (n_done nd ++ [act]) rest None None io None
       | Err (Blocked _) => mkNode (n_done nd) (act :: rest) (Some since) (waits_at act io) io None
       | Err e => mkNode (n_done nd) (act :: rest) (Some since) None io (Some e)
       end, publish (tk_node tk) io w')
  | _, _ => (nd, w)
  end.
Definition task_tick (s : Task) (tk : tick) : Task :=
  match t_nodes s !! tk_node tk with
  | Some nd => let '(nd', w') := node_tick tk nd (t_net s) in mkTask (<[tk_node tk := nd']> (t_nodes s)) w'
  | None => s
  end.
Definition task_run (s : Task) (tks : list tick) : Task := foldl task_tick s tks.

(** The clock does not go back and stays below [hi]; no wait is timed out. *)
Fixpoint timely (lo hi : Z) (tks : list tick) : Prop :=
  match tks with
  | [] => True
  | tk :: tks' => lo <= tk_now tk <= hi /\ tk_wake tk = NoTimeout /\ timely (tk_now tk) hi tks'
  end.
(** A node waits for a flag and was not notified since. *)
Definition asleep (s : Task) (a : string) : Prop := exists nd k rest conns cn,
  t_nodes s !! a = Some nd /\ n_todo nd = AwaitFlag k :: rest /\ t_net s !! a = Some conns /\ conns !! k = Some cn /\
  n_waits nd = Some (cv_ cn).
(** Rounds in which every node that is not asleep goes on at least once and would be
    answered. *)
Fixpoint fair (nodes : gset string) (s : Task) (rounds : list (list tick)) : Prop :=
  match rounds with
  | [] => True
  | tks :: rounds' =>
      (forall a, a ∈ nodes -> asleep s a \/ exists tk, tk ∈ tks /\ tk_node tk = a /\ tk_fate tk = Answered) /\
      fair nodes (task_run s tks) rounds'
  end.

Definition remaining (nodes : gset string) (s : Task) : nat :=
  sum_list_with (fun a => match t_nodes s !! a with Some nd => length (n_todo nd) | None => 0%nat end) (elements nodes).

(** A task can start in the time from [lo] to [hi]: it is shorter than the timeouts, Ice
    starts the services and makes the clients, for the nodes they mean; and the nodes
    agree on who is whose client. *)
Record coherent (lo hi : Z) (nodes : gset string) : Prop := mkCoherent {
  co_time : 0 <= lo <= hi /\ hi < 2 ^ 63 /\ exists t t' p, scaled 64 (send_timeout_ c) 1000 = Ok t /\
    scaled 64 (conn_timeout_ c) 1000 = Ok t' /\ scaled 32 (ping_time_ c) 1000000 = Ok p /\
    (hi - lo) / 1000000 < t /\ (hi - lo) / 1000000 < t';
  co_service : forall a conns, a ∈ nodes -> exists srv, start_server (B:=MsgQueue.queue) ices false (info a) (task_id_ c) conns = Ok srv;
  co_clients : forall a k v, a ∈ nodes -> infos a !! k = Some v -> vi_id v = k /\
    forall now, exists cl, make_BaseClient icec t0 now v (task_id_ c) = Ok cl /\ target (stub_ cl) = k;
  co_names : forall a, a ∈ nodes -> ni_id (info a) = a /\ data_fits (mkData sync_msgid a sync_data) /\ Z.of_nat (base.size (ids a)) < 2 ^ 32;
  co_servers : forall a b, a ∈ nodes -> b ∈ dom (infos a) -> b ∈ nodes /\ a <> b /\ a ∈ ids b;
  co_ids : forall a b, a ∈ nodes -> b ∈ ids a -> b ∈ nodes /\ a ∈ dom (infos b) }.

(** No start has thrown. *)
Definition no_fault (s : Task) : Prop := forall a nd, t_nodes s !! a = Some nd -> n_fault nd = None.
(** Every node is done, with a client object for each of its servers and, when it has
    clients, a service with a connection for each. *)
Definition all_started (nodes : gset string) (s : Task) : Prop := forall a, a ∈ nodes ->
  exists nd, t_nodes s !! a = Some nd /\ n_done nd = actions a /\ n_todo nd = [] /\ n_fault nd = None /\
    dom (client_obj_map_ (n_io nd)) = dom (infos a) /\
    (ids a <> ∅ -> exists conns, t_net s !! a = Some conns /\ dom conns = ids a).
End task.

(** ** Loops, round by round

    A loop that goes on is its first round, then the loop from there: ticks cut the
    loops of [send], [CheckConnStatus] and [recv] into their rounds. *)
Lemma retry_by_rounds {R} (dispatch : R -> result unit * R) timer timeout event a attempts r r' :
  (forall what, (remote_call dispatch (at_fate a) r).1 <> Err (Blocked what)) ->
  retry dispatch timer timeout event [a] r = (Err (Blocked "retrying a remote call"), r') -> event <> Err (Blocked "retrying a remote call") ->
  retry dispatch timer timeout event (a :: attempts) r = retry dispatch timer timeout event attempts r'.
Proof.
  cbn [retry]. destruct (remote_call _ _ r) as [[|[]] r1]; try done.
  - intros _. destruct (timeout <=? _); [by intros [= -> _]|by intros [= ->]].
  - intros Hb. by destruct (Hb what).
Qed.
Lemma recv_by_rounds {B} `{MsgBuffer B} beg (cn : ClientConnection B) msgid data len now ws turns cn' :
  recv_loop beg cn msgid data len [mkTurn now [] NoTimeout] = Ok (None, cn') ->
  recv_loop beg cn msgid data len (mkTurn now ws NoTimeout :: turns) =
    (cn2 ← conn_writes cn' ws; recv_loop beg cn2 msgid data len turns).
Proof.
  cbn [recv_loop turn_now turn_writes turn_wake conn_writes]. destruct (recv_iter _ _ _ _ _ _) as [[[ret d|t] c1]|]; cbn; [done|by intros [= ->]|done].
Qed.

(** * The services, while the nodes start *)
Section services.
Context (ids : string -> gset string).
Abbreviation conns_t := (gmap string (ClientConnection MsgQueue.queue)).
Implicit Types (D : string -> init_action -> Prop) (w : gmap string conns_t).

Abbreviation extends D a act D' := (forall x y, D' x y <-> D x y \/ (x = a /\ y = act)).

(** [D a act]: node [a] has done [act].  A flag that was sent and not awaited waits in
    its queue. *)
Record net_ok D w : Prop := mkNetOk {
  nk_up : forall a, is_Some (w !! a) <-> D a StartService;
  nk_dom : forall a conns, w !! a = Some conns -> dom conns = ids a;
  nk_pending : forall a conns b cn, w !! a = Some conns -> conns !! b = Some cn -> ~ D a (AwaitFlag b) ->
    Forall (eq sync_data) (pending cn sync_msgid) /\ (D b (SendFlag a) -> pending cn sync_msgid <> []);
  nk_sent : forall a b, D b (SendFlag a) -> is_Some (w !! a) }.

(** An action is done: no peer sees it, or it sent a flag that has come. *)
Lemma net_mark D a act D' w :
  extends D a act D' -> act <> StartService ->
  (forall k, act = SendFlag k -> exists conns cn, w !! k = Some conns /\ conns !! a = Some cn /\
    (~ D k (AwaitFlag a) -> pending cn sync_msgid <> [])) ->
  net_ok D w -> net_ok D' w.
Proof.
  intros HD Hs Hf [Hu Hd Hp Hn]. split.
  - intros x. rewrite Hu, HD. naive_solver.
  - done.
  - intros x conns b cn Ec Eb Ha. assert (~ D x (AwaitFlag b)) as Ha' by (rewrite HD in Ha; tauto).
    destruct (Hp x conns b cn Ec Eb Ha') as [H1 H2].
    split; [done|]. intros [Hb|[-> Hb]]%HD; [by apply H2|].
    destruct (Hf x (eq_sym Hb)) as (conns' & cn' & Ec' & Eb' & Hne). simplify_eq. by apply Hne.
  - intros x b [Hb|[-> Hb]]%HD; [by eapply Hn|]. destruct (Hf x (eq_sym Hb)) as (? & ? & ? & _). by eexists.
Qed.

(** A service comes up, with a fresh connection for each client. *)
Lemma net_start D a D' w m :
  extends D a StartService D' -> ~ D a StartService -> dom m = ids a -> (forall k cn, m !! k = Some cn -> mapbuffer_ cn = ∅) ->
  net_ok D w -> net_ok D' (<[a := m]> w).
Proof.
  intros HD Hna Hm Hf [Hu Hd Hp Hn]. split.
  - intros x. rewrite HD, <- Hu, lookup_insert_is_Some. destruct (decide (a = x)); naive_solver.
  - intros x conns. rewrite lookup_insert_Some. intros [[-> ->]|[_ E]]; [done|by apply Hd].
  - intros x conns b cn. rewrite lookup_insert_Some. intros [[-> ->]|[Hne E]] Eb Ha.
    + unfold pending. rewrite (Hf b cn Eb). split; [by apply Forall_nil_2|].
      intros [Hb|[_ ?]]%HD; [|done]. by apply Hn, Hu in Hb.
    + destruct (Hp x conns b cn E Eb) as [H1 H2]; [by rewrite HD in Ha; tauto|].
      split; [done|]. intros [Hb|[_ ?]]%HD; [by apply H2|done].
  - intros x b [Hb|[_ ?]]%HD; [|done]. rewrite lookup_insert_is_Some. destruct (decide (a = x)); [by left|right; eauto].
Qed.

(** Flags arrive at [k]. *)
Lemma net_flags D a k w conns cn cn' m :
  w !! k = Some conns -> conns !! a = Some cn -> pending cn' sync_msgid = pending cn sync_msgid ++ replicate m sync_data ->
  net_ok D w -> net_ok D (<[k := <[a := cn']> conns]> w).
Proof.
  intros Ek Ea Hp' [Hu Hd Hp Hn]. split.
  - intros x. rewrite <- Hu, lookup_insert_is_Some. destruct (decide (k = x)) as [<-|]; [rewrite Ek|]; naive_solver.
  - intros x conns'. rewrite lookup_insert_Some. intros [[-> <-]|[_ E]]; [|by apply Hd].
    rewrite dom_insert_L, <- (Hd _ _ Ek). apply elem_of_dom_2 in Ea. set_solver.
  - intros x conns' b cb. rewrite lookup_insert_Some. intros [[-> <-]|[Hne E]] Eb Ha; [|by eapply Hp].
    apply lookup_insert_Some in Eb as [[<- <-]|[Hne Eb]]; [|by eapply Hp].
    destruct (Hp x conns a cn Ek Ea Ha) as [H1 H2]. rewrite Hp'. split.
    + apply Forall_app. split; [done|]. by apply Forall_replicate.
    + intros Hb. specialize (H2 Hb). by destruct (pending cn sync_msgid).
  - intros x b Hb. rewrite lookup_insert_is_Some. destruct (decide (k = x)); [by left|right; split; [done|]]. by eapply Hn.
Qed.

(** A flag is taken. *)
Lemma net_await D a k D' w conns cn cn' :
  extends D a (AwaitFlag k) D' -> w !! a = Some conns -> conns !! k = Some cn ->
  net_ok D w -> net_ok D' (<[a := <[k := cn']> conns]> w).
Proof.
  intros HD Ea Ek [Hu Hd Hp Hn]. split.
  - intros x. rewrite HD, <- Hu, lookup_insert_is_Some. destruct (decide (a = x)) as [<-|]; [rewrite Ea|]; naive_solver.
  - intros x conns'. rewrite lookup_insert_Some. intros [[-> <-]|[_ E]]; [|by apply Hd].
    rewrite dom_insert_L, <- (Hd _ _ Ea). apply elem_of_dom_2 in Ek. set_solver.
  - intros x conns' b cb. rewrite lookup_insert_Some. intros [[-> <-]|[Hne E]] Eb Ha.
    + apply lookup_insert_Some in Eb as [[<- _]|[Hne Eb]]; [by destruct Ha; apply HD; right|].
      destruct (Hp x conns b cb Ea Eb) as [H1 H2]; [by rewrite HD in Ha; tauto|].
      split; [done|]. intros [Hb|[_ ?]]%HD; [by apply H2|done].
    + destruct (Hp x conns' b cb E Eb) as [H1 H2]; [by rewrite HD in Ha; tauto|].
      split; [done|]. intros [Hb|[_ ?]]%HD; [by apply H2|done].
  - intros x b [Hb|[_ ?]]%HD; [|done]. rewrite lookup_insert_is_Some. destruct (decide (a = x)); [by left|right; eauto].
Qed.
End services.

(** * Requests between the nodes *)
Section requests.
Context (STATIC_CALL : bool) `{IceStreamLaws} {Stub : Type}.
Context (check : OperationMode -> OperationMode -> result unit) (check_same : forall m, check m m = Ok tt).
Context (target : Stub -> string).
Abbreviation conns_t := (gmap string (ClientConnection MsgQueue.queue)).
Abbreviation serve := (net_serve STATIC_CALL check target).
Implicit Types (w : gmap string conns_t).

Lemma flag_sent stub w self conns cn :
  w !! target stub = Some conns -> conns !! self = Some cn -> data_fits (mkData sync_msgid self sync_data) ->
  exists cn', send_request STATIC_CALL (serve stub) self sync_msgid sync_data w = (Ok tt, <[target stub := <[self := cn']> conns]> w) /\
    pending cn' sync_msgid = pending cn sync_msgid ++ [sync_data] /\ cv_ cn' = S (cv_ cn).
Proof.
  intros Hw Hc Hf. destruct (send_request_known STATIC_CALL check check_same conns self sync_msgid sync_data cn Hf Hc) as (cn' & E & Hp & Hcv).
  exists cn'. split; [|split; [by rewrite Hp, decide_True|done]]. revert E. unfold send_request, net_serve. rewrite Hw.
  destruct (servant_serve _ _ _ _ _) as [o conns']. by intros [= -> ->].
Qed.
Lemma ping_answered stub w conns : w !! target stub = Some conns -> ping STATIC_CALL (serve stub) w = (Ok tt, w).
Proof. intros Hw. unfold ping, net_serve. rewrite Hw. destruct STATIC_CALL; cbn; do 2 f_equal; by apply insert_id. Qed.
Lemma send_refused stub w self msgid data : w !! target stub = None ->
  send_request STATIC_CALL (serve stub) self msgid data w = (Err (IceException "ConnectionRefusedException"), w).
Proof. intros Hw. unfold send_request, net_serve. by rewrite Hw. Qed.
Lemma ping_refused stub w : w !! target stub = None ->
  ping STATIC_CALL (serve stub) w = (Err (IceException "ConnectionRefusedException"), w).
Proof. intros Hw. unfold ping, net_serve. by rewrite Hw. Qed.

(** The fates of a request that is taken, and of one that is refused. *)
Lemma remote_call_taken {R} (dispatch : R -> result unit * R) f r (w : R) : dispatch r = (Ok tt, w) ->
  (remote_call dispatch f r = (Ok tt, w) /\ f = Answered) \/
  (exists what r', remote_call dispatch f r = (Err (IceException what), r') /\ (r' = r \/ r' = w) /\ f <> Answered).
Proof. intros E. unfold remote_call. rewrite E. destruct f; [right|by left|right]; do 2 eexists; (split; [done|]); (split; [|done]); auto. Qed.
Lemma remote_call_refused {R} (dispatch : R -> result unit * R) f r e : dispatch r = (Err (IceException e), r) ->
  exists what, remote_call dispatch f r = (Err (IceException what), r).
Proof. intros E. unfold remote_call. rewrite E. destruct f; by eexists. Qed.

(** One attempt, before the time is spent. *)
Lemma attempt_in_time {R} (dispatch : R -> result unit * R) since timeout event f now r :
  0 <= since <= now -> now < 2 ^ 63 -> (now - since) / 1000000 < timeout ->
  retry dispatch (start since) timeout event [mkAttempt f now] r =
    match remote_call dispatch f r with
    | (Ok _, r') => (Ok tt, r')
    | (Err (IceException _), r') => (Err (Blocked "retrying a remote call"), r')
    | (Err e, r') => (Err e, r')
    end.
Proof.
  intros Hs Hn Ht. cbn [retry at_now at_fate]. destruct (remote_call dispatch f r) as [[|[]] r']; try done.
  rewrite ms_elapse_start by lia. rewrite to_uint_id.
  - destruct (Z.leb_spec timeout ((now - since) / 1000000)); [lia|done].
  - split; [apply Z.div_pos; lia|]. apply Z.div_lt_upper_bound; lia.
Qed.
End requests.

Lemma act_cases act :
  act = StartService \/ (exists v, act = Connect v) \/ (exists k, act = SendFlag k \/ act = CheckStatus k) \/ exists k, act = AwaitFlag k.
Proof. destruct act; eauto 6. Qed.

(** * Every state the nodes can reach *)
Lemma net_same ids (D D' : string -> init_action -> Prop) w : (forall x y, D x y <-> D' x y) -> net_ok ids D w -> net_ok ids D' w.
Proof.
  intros HD [Hu Hd Hp Hn]. split; [intros x; by rewrite Hu|done| |intros x b ?%HD; by eapply Hn].
  intros x conns b cn Ec Eb Ha. destruct (Hp x conns b cn Ec Eb) as [H1 H2]; [by rewrite HD|]. split; [done|]. intros ?%HD. by apply H2.
Qed.

Section reachable.
Context (STATIC_CALL : bool) `{IceStreamLaws} {SC SA CC Stub : Type}.
Context (ices : IceServer SC SA) (icec : IceClient CC Stub).
Context (check : OperationMode -> OperationMode -> result unit) (check_same : forall m, check m m = Ok tt).
Context (target : Stub -> string).
Context (order : gset string -> list string) (order_perm : forall s, order s ≡ₚ elements s).
Context (c : ChannelConfig) (t0 : Z) (junk : char).
Context (info : string -> NodeInfo) (infos : string -> via_set) (ids : string -> gset string) (nodes : gset string) (lo hi : Z).
Context (co : coherent ices icec target c t0 info infos ids lo hi nodes).
Abbreviation net := (gmap string (gmap string (ClientConnection MsgQueue.queue))).
Abbreviation io_t := (@ViaNetIO MsgQueue.queue SC SA Stub).
Abbreviation task_t := (@Task SC SA Stub).
Abbreviation actions := (actions order c infos ids).
Abbreviation perform := (perform STATIC_CALL ices icec check target c junk).
Abbreviation task_tick := (task_tick STATIC_CALL ices icec check target c t0 junk).
Abbreviation task_run := (task_run STATIC_CALL ices icec check target c t0 junk).
Abbreviation env_of := (env_of t0).
Implicit Types (s : task_t) (nd : @NodeState SC SA Stub) (io : io_t) (w : net).

Record node_ok a (did todo : list init_action) io : Prop := mkNodeOk {
  no_order : did ++ todo = actions a;
  no_self : node_info_ io = info a /\ client_nodeids_ io = ids a;
  no_server : is_Some (server_ io) <-> StartService ∈ did;
  no_conns : StartService ∉ did -> client_conn_map_ io = ∅;
  no_clients : forall k, match client_obj_map_ io !! k with
    | Some cl => target (stub_ cl) = k /\ scaled 64 (send_timeout_ c) 1000 = Ok (bc_send_timeout_ cl) /\ exists v, Connect (k, v) ∈ did
    | None => forall v, Connect (k, v) ∉ did
    end }.

Definition did s a act : Prop := exists nd, t_nodes s !! a = Some nd /\ act ∈ n_done nd.

(** A node that waits for a flag since [n] notifications, when there were no more, has
    none waiting. *)
Definition waits_ok w a (todo : list init_action) (waits : option nat) : Prop := forall k rest conns cn n,
  todo = AwaitFlag k :: rest -> w !! a = Some conns -> conns !! k = Some cn -> waits = Some n ->
  (n <= cv_ cn)%nat /\ (n = cv_ cn -> pending cn sync_msgid = []).

Record inv (now : Z) s : Prop := mkInv {
  iv_dom : dom (t_nodes s) = nodes;
  iv_nodes : forall a nd, t_nodes s !! a = Some nd -> node_ok a (n_done nd) (n_todo nd) (n_io nd);
  iv_runs : forall a nd, t_nodes s !! a = Some nd -> n_fault nd = None /\ forall x, n_since nd = Some x -> lo <= x <= now;
  iv_waits : forall a nd, t_nodes s !! a = Some nd -> waits_ok (t_net s) a (n_todo nd) (n_waits nd);
  iv_net : net_ok ids (did s) (t_net s) }.

Lemma inv_later now now' s : now <= now' -> inv now s -> inv now' s.
Proof.
  intros Hle [Hd Hn Hr Hw Hnet]. split; [done..| |done|done]. intros a nd Ha. destruct (Hr a nd Ha) as [Hf Hs].
  split; [done|]. intros x Hx. specialize (Hs x Hx). lia.
Qed.

Lemma inv_init now : inv now (task_init order c info infos ids nodes).
Proof.
  assert (forall a nd, t_nodes (task_init (SC:=SC) (SA:=SA) (Stub:=Stub) order c info infos ids nodes) !! a = Some nd <->
    a ∈ nodes /\ nd = mkNode [] (actions a) None None (make_ViaNetIO (info a) (infos a) (ids a)) None) as Hl.
  { intros a nd. unfold task_init. cbn [t_nodes]. rewrite lookup_set_to_map by (by intros ? ? ? ? [= ->]). naive_solver. }
  assert (forall a act, ~ did (task_init order c info infos ids nodes) a act) as Hd.
  { intros a act (nd & [_ ->]%Hl & Hin). by apply elem_of_nil in Hin. }
  split.
  - apply set_eq. intros a. rewrite elem_of_dom. split; [by intros [nd [? _]%Hl]|]. intros Ha. eexists. by apply Hl.
  - intros a nd [Ha ->]%Hl. split; cbn; [done|done| |done|].
    + split; [by intros [? ?]|by intros ?%elem_of_nil].
    + intros k. rewrite lookup_empty. by intros v ?%elem_of_nil.
  - by intros a nd [_ ->]%Hl.
  - by intros a nd [_ ->]%Hl.
  - split; cbn.
    + intros a. split; [by intros [? ?]|by intros ?%Hd].
    + done.
    + done.
    + by intros a b ?%Hd.
Qed.

(** The state when node [a] is where [done] and [todo] say. *)
Definition put s a (did todo : list init_action) since waits io w : task_t :=
  mkTask (<[a := mkNode did todo since waits io None]> (t_nodes s)) (publish a io w).

Lemma did_after s a nd act todo since waits io w : t_nodes s !! a = Some nd ->
  forall x y, did (put s a (n_done nd ++ [act]) todo since waits io w) x y <-> did s x y \/ (x = a /\ y = act).
Proof.
  intros Ha x y. unfold did, put. cbn. destruct (decide (a = x)) as [->|Hne].
  - rewrite lookup_insert_eq, Ha. split.
    + intros (nd' & [= <-] & Hin). cbn in Hin. rewrite elem_of_app, list_elem_of_singleton in Hin. naive_solver.
    + intros Hin. eexists. split; [done|]. cbn. rewrite elem_of_app, list_elem_of_singleton. naive_solver.
  - rewrite lookup_insert_ne by done. naive_solver.
Qed.
Lemma did_still s a nd todo since waits io w : t_nodes s !! a = Some nd ->
  forall x y, did s x y <-> did (put s a (n_done nd) todo since waits io w) x y.
Proof.
  intros Ha x y. unfold did, put. cbn. destruct (decide (a = x)) as [->|Hne].
  - rewrite lookup_insert_eq, Ha. naive_solver.
  - by rewrite lookup_insert_ne.
Qed.

(** What arrives at the other nodes while [a] goes on. *)
Definition grows a w w' : Prop := forall x conns k cn, x <> a -> w' !! x = Some conns -> conns !! k = Some cn ->
  exists conns0 cn0, w !! x = Some conns0 /\ conns0 !! k = Some cn0 /\ (cn = cn0 \/ (cv_ cn0 < cv_ cn)%nat).
Lemma grows_refl a w : grows a w w.
Proof. intros x conns k cn _ Ex Ek. exists conns, cn. auto. Qed.
Lemma grows_publish a io w w' : grows a w w' -> grows a w (publish a io w').
Proof.
  intros Hg x conns k cn Hne. unfold publish. destruct (server_ io); [|by apply Hg].
  rewrite lookup_insert_ne by done. by apply Hg.
Qed.

Lemma inv_put now s a nd did' todo since waits io w : t_nodes s !! a = Some nd -> inv now s ->
  (forall x, since = Some x -> lo <= x <= now) -> node_ok a did' todo io -> grows a (t_net s) w ->
  waits_ok (publish a io w) a todo waits -> net_ok ids (did (put s a did' todo since waits io w)) (publish a io w) ->
  inv now (put s a did' todo since waits io w).
Proof.
  intros Ha [Hd Hn Hr Hw Hnet] Hs Hok Hg Hwa Hnet'. split.
  - cbn. rewrite dom_insert_L, Hd. apply elem_of_dom_2 in Ha. rewrite Hd in Ha. clear -Ha. set_solver.
  - intros b nd'. cbn. rewrite lookup_insert_Some. intros [[-> <-]|[_ E]]; [done|by apply Hn].
  - intros b nd'. cbn. rewrite lookup_insert_Some. intros [[-> <-]|[_ E]]; [done|exact (Hr b nd' E)].
  - intros b nd'. cbn. rewrite lookup_insert_Some. intros [[-> <-]|[Hne E]]; [done|].
    intros k rest conns cn n Et Ec Ek En. apply (grows_publish a io) in Hg.
    destruct (Hg b conns k cn (not_eq_sym Hne) Ec Ek) as (conns0 & cn0 & Ec0 & Ek0 & Hcv).
    destruct (Hw b nd' E k rest conns0 cn0 n Et Ec0 Ek0 En) as [Hle Hp]. destruct Hcv as [->|Hlt]; [done|]. split; lia.
  - done.
Qed.

(** Calls on clients, and receives, keep the rest of the node. *)
Lemma node_keep a did' todo io io' : node_ok a did' todo io ->
  node_info_ io' = node_info_ io -> client_nodeids_ io' = client_nodeids_ io -> server_ io' = server_ io ->
  (StartService ∉ did' -> client_conn_map_ io' = ∅) ->
  (forall k, (fun cl => (stub_ cl, bc_send_timeout_ cl)) <$> client_obj_map_ io' !! k =
    (fun cl => (stub_ cl, bc_send_timeout_ cl)) <$> client_obj_map_ io !! k) ->
  node_ok a did' todo io'.
Proof.
  intros [Ho [Hi Hc] Hs Hn Hcl] Ei Ec Es Hn' Ecl. split.
  - done.
  - by rewrite Ei, Ec.
  - by rewrite Es.
  - done.
  - intros k. specialize (Hcl k). specialize (Ecl k).
    destruct (client_obj_map_ io' !! k), (client_obj_map_ io !! k); try done. by injection Ecl as -> ->.
Qed.
Lemma node_pass a did' act rest io : node_ok a did' (act :: rest) io -> act <> StartService -> (forall v, act <> Connect v) ->
  node_ok a (did' ++ [act]) rest io.
Proof.
  intros [Ho Hi Hs Hn Hcl] Hst Hco.
  assert (forall y, y <> act -> y ∈ did' ++ [act] <-> y ∈ did') as Hin.
  { intros y Hy. rewrite elem_of_app, list_elem_of_singleton. tauto. }
  split.
  - by rewrite <- app_assoc, <- Ho.
  - done.
  - by rewrite Hin.
  - by rewrite Hin.
  - intros k. specialize (Hcl k). destruct (client_obj_map_ io !! k).
    + destruct Hcl as (? & ? & v & Hv). split_and!; [done..|]. exists v. rewrite elem_of_app. by left.
    + intros v. by rewrite Hin.
Qed.

(** The node with the connections of its service. *)
Lemma attached a w io : node_info_ (attach a w io) = node_info_ io /\ client_nodeids_ (attach a w io) = client_nodeids_ io /\
  server_ (attach a w io) = server_ io /\ client_obj_map_ (attach a w io) = client_obj_map_ io /\
  client_conn_map_ (attach a w io) = default (client_conn_map_ io) (w !! a).
Proof. unfold attach. by destruct (w !! a). Qed.

Lemma server_up now s a nd : inv now s -> t_nodes s !! a = Some nd -> is_Some (server_ (n_io nd)) <-> is_Some (t_net s !! a).
Proof.
  intros Hi Ha. rewrite (no_server _ _ _ _ (iv_nodes _ _ Hi a nd Ha)), (nk_up _ _ _ (iv_net _ _ Hi)). unfold did. rewrite Ha. naive_solver.
Qed.

(** What is published is what is there, when the node did not touch its connections. *)
Lemma publish_same now s a nd io w : inv now s -> t_nodes s !! a = Some nd -> server_ io = server_ (n_io nd) ->
  client_conn_map_ io = client_conn_map_ (attach a (t_net s) (n_io nd)) -> w !! a = t_net s !! a -> publish a io w = w.
Proof.
  intros Hi Ha Hs Hc Hw. unfold publish. rewrite Hs. pose proof (server_up now s a nd Hi Ha) as Hup.
  destruct (server_ (n_io nd)) as [srv|] eqn:E; [|done]. destruct (proj1 Hup ltac:(by eexists)) as [conns Econns].
  apply insert_id. rewrite Hw, Hc. destruct (attached a (t_net s) (n_io nd)) as (_ & _ & _ & _ & ->). by rewrite Econns.
Qed.

(** What an action waits for. *)
Definition enabled s a (act : init_action) : Prop :=
  match act with
  | SendFlag k | CheckStatus k => did s k StartService
  | AwaitFlag k => did s k (SendFlag a)
  | _ => True
  end.

Section at_node.
Context now s a nd act rest (Hinv : inv now s) (Ha : t_nodes s !! a = Some nd) (Ht : n_todo nd = act :: rest).
Lemma a_in_nodes : a ∈ nodes.
Proof. rewrite <- (iv_dom _ _ Hinv). by eapply elem_of_dom_2. Qed.
Lemma node_here : node_ok a (n_done nd) (act :: rest) (n_io nd).
Proof. rewrite <- Ht. exact (iv_nodes _ _ Hinv a nd Ha). Qed.
Lemma list_here : init_actions order (set_node_id a c) (ids a) (infos a) = n_done nd ++ act :: rest.
Proof. symmetry. exact (no_order _ _ _ _ node_here). Qed.
Lemma size_here : Z.of_nat (base.size (ids a)) < 2 ^ 32.
Proof. by apply (co_names _ _ _ _ _ _ _ _ _ _ _ co), a_in_nodes. Qed.
Lemma act_in : match act with
  | StartService => ids a <> ∅
  | Connect v => infos a !! v.1 = Some v.2
  | SendFlag nid => conn_sync_ c = true /\ nid ∈ dom (infos a)
  | AwaitFlag nid => conn_sync_ c = true /\ nid ∈ ids a
  | CheckStatus nid => conn_sync_ c = false /\ nid ∈ dom (infos a)
  end.
Proof.
  apply (in_actions order order_perm (set_node_id a c) (ids a) (infos a) size_here act).
  rewrite list_here. set_solver.
Qed.
(** Not done before, here. *)
Lemma act_fresh : ~ did s a act.
Proof.
  intros (nd' & E & Hin). rewrite Ha in E. injection E as <-.
  by apply (not_done_twice order order_perm (set_node_id a c) (ids a) (infos a) (n_done nd) act rest list_here).
Qed.
(** Actions of a lower rank are done. *)
Lemma did_before b : b ∈ actions a -> (rank b < rank act)%nat -> did s a b.
Proof.
  intros Hb Hr. exists nd. split; [done|]. exact (done_before order (set_node_id a c) (ids a) (infos a) _ _ _ _ list_here Hb Hr).
Qed.
Lemma did_here b : b ∈ n_done nd <-> did s a b.
Proof. unfold did. rewrite Ha. naive_solver. Qed.
Lemma no_conns_yet : StartService ∉ n_done nd -> client_conn_map_ (attach a (t_net s) (n_io nd)) = ∅.
Proof.
  intros Hst. destruct (attached a (t_net s) (n_io nd)) as (_ & _ & _ & _ & ->). rewrite (no_conns _ _ _ _ node_here Hst).
  rewrite did_here, <- (nk_up _ _ _ (iv_net _ _ Hinv)) in Hst. destruct (t_net s !! a); [|done]. destruct Hst. by eexists.
Qed.
(** The client of a call was made. *)
Lemma client_known k : act = SendFlag k \/ act = CheckStatus k -> k ∈ nodes /\ a <> k /\ a ∈ ids k /\
  exists cl, client_obj_map_ (attach a (t_net s) (n_io nd)) !! k = Some cl /\ target (stub_ cl) = k /\
    scaled 64 (send_timeout_ c) 1000 = Ok (bc_send_timeout_ cl).
Proof.
  intros Hact.
  assert (k ∈ dom (infos a)) as Hk by (pose proof act_in as Hin; by destruct Hact as [E|E]; rewrite E in Hin; destruct Hin).
  destruct (co_servers _ _ _ _ _ _ _ _ _ _ _ co a k a_in_nodes Hk) as (? & ? & ?). split_and!; [done..|].
  apply elem_of_dom in Hk as [v Hv].
  assert (Connect (k, v) ∈ n_done nd) as Hd.
  { apply did_here, did_before; [|by destruct Hact as [-> | ->]; cbn; lia].
    by apply (in_actions order order_perm (set_node_id a c) (ids a) (infos a) size_here (Connect (k, v))). }
  destruct (attached a (t_net s) (n_io nd)) as (_ & _ & _ & -> & _).
  pose proof (no_clients _ _ _ _ node_here k) as Hcl. destruct (client_obj_map_ (n_io nd) !! k) as [cl|]; [|by destruct (Hcl v)].
  exists cl. by destruct Hcl as (? & ? & _).
Qed.

(** A round of the action, which began at [since]. *)
Context since (since_ok : lo <= since <= now) (now_ok : now <= hi) (f : fate).
Abbreviation env := (env_of since (mkTick a now f NoTimeout)).
Abbreviation here := (attach a (t_net s) (n_io nd), t_net s).
Abbreviation over io w := (put s a (n_done nd ++ [act]) rest None None io w).
Abbreviation still io w := (put s a (n_done nd) (act :: rest) (Some since) (waits_at act io) io w).

(** A round of the action: it is over; or it goes on, and it was not yet time for it, or
    the answer was lost. *)
Definition goes_on : Prop := exists r io w, perform env a act here = (r, (io, w)) /\
  ((r = Ok tt /\ inv now (over io w)) \/
   (exists what, r = Err (Blocked what) /\ inv now (still io w) /\ (f = Answered -> ~ enabled s a act))).

Lemma timeouts_here : exists t t' p, scaled 64 (send_timeout_ c) 1000 = Ok t /\ scaled 64 (conn_timeout_ c) 1000 = Ok t' /\
  scaled 32 (ping_time_ c) 1000000 = Ok p /\ (now - since) / 1000000 < t /\ (now - since) / 1000000 < t' /\
  0 <= since <= now /\ now < 2 ^ 63.
Proof.
  destruct (co_time _ _ _ _ _ _ _ _ _ _ _ co) as (? & ? & t & t' & p & ? & ? & ? & ? & ?). exists t, t', p.
  assert ((now - since) / 1000000 <= (hi - lo) / 1000000) by (apply Z.div_le_mono; lia). split_and!; (done || lia).
Qed.

(** The service starts. *)
Lemma start_goes_on : act = StartService -> goes_on.
Proof.
  intros Hact. destruct timeouts_here as (t & _ & _ & Hsc & _).
  pose proof node_here as [Ho [Hi Hc] Hs Hn Hcl]. pose proof act_fresh as Hf. rewrite Hact in Hf.
  assert (t_net s !! a = None) as Hnone by (apply eq_None_not_Some; by rewrite (nk_up _ _ _ (iv_net _ _ Hinv))).
  assert (attach a (t_net s) (n_io nd) = n_io nd) as Hat by (unfold attach; by rewrite Hnone).
  destruct (start_run (B:=MsgQueue.queue) false STATIC_CALL false ices icec (net_serve STATIC_CALL check target) env
    (set_node_id a c) junk t Hsc (n_io nd) (t_net s)) as (m & srv & E & Hd & Hm).
  { intros conns. rewrite Hi. by apply (co_service _ _ _ _ _ _ _ _ _ _ _ co), a_in_nodes. }
  do 3 eexists. split; [rewrite Hact, Hat; exact E|]. left. split; [done|].
  rewrite <- did_here in Hf. rewrite (Hn Hf), Hc, dom_empty_L, union_empty_r_L in Hd. rewrite (Hn Hf) in Hm.
  apply (inv_put now s a nd); [done|done|done| |apply grows_refl|done|].
  - split; cbn; [by rewrite <- app_assoc, <- Ho|done| | |]; rewrite Hact.
    + split; [intros _; clear; set_solver|by eexists].
    + clear. set_solver.
    + intros k. specialize (Hcl k). destruct (client_obj_map_ _ !! k).
      * destruct Hcl as (? & ? & v & Hv). split_and!; [done..|]. exists v. rewrite elem_of_app. by left.
      * intros v. rewrite elem_of_app, list_elem_of_singleton. intros [?|[=]]. by eapply Hcl.
  - apply (net_start ids (did s) a); [rewrite <- Hact; by apply did_after|by rewrite <- did_here|done| |by apply iv_net with now].
    intros k cn Ek. by destruct (Hm k cn Ek).
Qed.

(** A client object is made. *)
Lemma connect_goes_on v : act = Connect v -> goes_on.
Proof.
  intros Hact. pose proof act_in as Hv. rewrite Hact in Hv. destruct v as [k v]. cbn in Hv.
  destruct timeouts_here as (t & _ & _ & Hsc & _).
  destruct (co_clients _ _ _ _ _ _ _ _ _ _ _ co a k v a_in_nodes Hv) as (Hid & Hmk). destruct (Hmk since) as (cl & Ecl & Htg).
  pose proof node_here as [Ho [Hi Hc] Hs Hn Hcl]. destruct (attached a (t_net s) (n_io nd)) as (Ai & Aid & As & Aobj & _).
  do 3 eexists. split; [rewrite Hact; by apply (connect_run (B:=MsgQueue.queue) false STATIC_CALL false ices icec (net_serve STATIC_CALL check target)
    env (set_node_id a c) junk t Hsc)|]. cbn [snd]. rewrite Hid. left. split; [done|].
  apply (inv_put now s a nd); [done|done|done| |apply grows_refl|done|].
  - split; cbn [node_info_ set_clients client_nodeids_ server_ client_conn_map_ client_obj_map_].
    + by rewrite <- app_assoc, <- Ho.
    + by rewrite Ai, Aid.
    + rewrite As, Hs, Hact, elem_of_app, list_elem_of_singleton. clear. naive_solver.
    + rewrite elem_of_app. intros Hst. apply no_conns_yet. tauto.
    + intros k'. rewrite Aobj, Hact. destruct (decide (k = k')) as [<-|Hne].
      * rewrite lookup_insert_eq. cbn. split_and!; [done..|]. exists v. clear. set_solver.
      * rewrite lookup_insert_ne by done. specialize (Hcl k'). destruct (client_obj_map_ _ !! k').
        -- destruct Hcl as (? & ? & v' & Hv'). split_and!; [done..|]. exists v'. rewrite elem_of_app. by left.
        -- intros v'. rewrite elem_of_app, list_elem_of_singleton. intros [?|[= ? ?]]; [by eapply Hcl|done].
  - rewrite (publish_same now s a nd); [|done|done|by cbn|by cbn|done].
    eapply (net_mark ids (did s) a); [by apply did_after|by rewrite Hact|by rewrite Hact|by eapply iv_net].
Qed.

(** A call of a client that was made. *)
Section call.
Context (k : string) (Hact : act = SendFlag k \/ act = CheckStatus k).

Definition request_of (stub : Stub) : net -> result unit * net :=
  match act with
  | SendFlag _ => send_request STATIC_CALL (net_serve STATIC_CALL check target stub) a sync_msgid sync_data
  | _ => ping STATIC_CALL (net_serve STATIC_CALL check target stub)
  end.
Abbreviation called cl := (set_clients (<[k := start_timer since cl]> (client_obj_map_ (attach a (t_net s) (n_io nd))))
  (attach a (t_net s) (n_io nd))).

(** What the net is after the request: it was carried out, or not. *)
Record took w : Prop := mkTook {
  tk_same : w !! a = t_net s !! a;
  tk_grows : grows a (t_net s) w;
  tk_net : net_ok ids (did s) w }.
Lemma took_none : took (t_net s).
Proof. split; [done|apply grows_refl|by eapply iv_net]. Qed.

Lemma request_effect stub : target stub = k -> exists o w, request_of stub (t_net s) = (o, w) /\ took w /\
  ((t_net s !! k = None /\ o = Err (IceException "ConnectionRefusedException") /\ w = t_net s) \/
   (is_Some (t_net s !! k) /\ o = Ok tt /\
    forall D, (forall x y, D x y <-> did s x y \/ (x = a /\ y = act)) -> net_ok ids D w)).
Proof.
  intros Htg. destruct (client_known k Hact) as (Hk & Hne & Hin & _). unfold request_of.
  destruct (t_net s !! k) as [conns|] eqn:Ek; rewrite <- Htg in Ek; cycle 1.
  { do 2 eexists. split; [|split; [exact took_none|by left]].
    destruct Hact as [-> | ->]; [by apply send_refused|by apply ping_refused]. }
  pose proof (iv_net _ _ Hinv) as Hnet. destruct Hact as [Ha'|Ha'].
  - assert (is_Some (conns !! a)) as [cn Ecn] by (apply elem_of_dom; by rewrite (nk_dom _ _ _ Hnet (target stub) conns Ek), Htg).
    destruct (flag_sent STATIC_CALL check check_same target stub (t_net s) a conns cn) as (cn' & E & Hp & Hcv);
      [done|done|by apply (co_names _ _ _ _ _ _ _ _ _ _ _ co), a_in_nodes|].
    assert (net_ok ids (did s) (<[target stub := <[a := cn']> conns]> (t_net s))) as Hnet'
      by (by apply (net_flags ids (did s) a (target stub) _ conns cn cn' 1)).
    do 2 eexists. split; [rewrite Ha'; exact E|]. split; [split; [by rewrite lookup_insert_ne by congruence| |done]|].
    + intros x conns' k' cn1 _. rewrite lookup_insert_Some. intros [[<- <-]|[_ Ex]] Ek'; [|exists conns', cn1; auto].
      apply lookup_insert_Some in Ek' as [[<- <-]|[_ Ek']]; [exists conns, cn; split_and!; [done..|right; lia]|exists conns, cn1; auto].
    + right. split; [by eexists|]. split; [done|]. intros D HD. rewrite Ha' in HD. apply (net_mark ids (did s) a (SendFlag k)); [done|done| |done].
      intros k' [= <-]. exists (<[a := cn']> conns), cn'. rewrite Htg, !lookup_insert_eq. split_and!; [done..|]. intros _. rewrite Hp.
      by destruct (pending cn sync_msgid).
  - do 2 eexists. split; [rewrite Ha'; by apply (ping_answered _ _ _ _ _ conns)|]. split; [exact took_none|]. right. split; [by eexists|]. split; [done|].
    intros D HD. rewrite Ha' in HD. by apply (net_mark ids (did s) a (CheckStatus k)).
Qed.

Lemma called_node cl : client_obj_map_ (attach a (t_net s) (n_io nd)) !! k = Some cl -> node_ok a (n_done nd) (act :: rest) (called cl).
Proof.
  intros Ecl. destruct (attached a (t_net s) (n_io nd)) as (Ai & Aid & As & Aobj & _).
  apply node_keep with (io := n_io nd); [exact node_here|done|done|done|exact no_conns_yet|].
  cbn. intros k'. rewrite <- Aobj. destruct (decide (k = k')) as [<-|Hne]; [|by rewrite lookup_insert_ne].
  by rewrite lookup_insert_eq, Ecl.
Qed.

(** The call goes on; or it is over. *)
Lemma called_still cl w : client_obj_map_ (attach a (t_net s) (n_io nd)) !! k = Some cl -> took w -> inv now (still (called cl) w).
Proof.
  intros Ecl [Hw Hg Hn]. destruct (attached a (t_net s) (n_io nd)) as (_ & _ & As & _ & _).
  apply (inv_put now s a nd); [done|done|by intros x [= <-]|by apply called_node|done| |].
  - by destruct Hact as [-> | ->].
  - rewrite (publish_same now s a nd); [|done..]. eapply net_same; [|exact Hn]. by apply did_still.
Qed.
Lemma called_over cl w : client_obj_map_ (attach a (t_net s) (n_io nd)) !! k = Some cl -> took w ->
  (forall D, (forall x y, D x y <-> did s x y \/ (x = a /\ y = act)) -> net_ok ids D w) -> inv now (over (called cl) w).
Proof.
  intros Ecl [Hw Hg _] Hn. destruct (attached a (t_net s) (n_io nd)) as (_ & _ & As & _ & _).
  apply (inv_put now s a nd); [done|done|done| |done|done|].
  - apply node_pass; [by apply called_node|by destruct Hact as [-> | ->]..].
  - rewrite (publish_same now s a nd); [|done..]. apply Hn. by apply did_after.
Qed.

Lemma call_run cl : client_obj_map_ (attach a (t_net s) (n_io nd)) !! k = Some cl ->
  scaled 64 (send_timeout_ c) 1000 = Ok (bc_send_timeout_ cl) -> exists timeout event, (now - since) / 1000000 < timeout /\
  perform env a act here =
    (let '(o, w') := retry (request_of (stub_ cl)) (start since) timeout event [mkAttempt f now] (t_net s) in (o, (called cl, w'))).
Proof.
  intros Ecl Hsc. destruct timeouts_here as (t & t' & p & Ht1 & Ht' & Hp & Hlt & Hlt' & _). rewrite Hsc in Ht1. injection Ht1 as <-.
  pose proof (no_self _ _ _ _ node_here) as [Hi _].
  destruct (attached a (t_net s) (n_io nd)) as (Ai & _). destruct (co_names _ _ _ _ _ _ _ _ _ _ _ co a a_in_nodes) as (Hname & _).
  pose proof (send_flag_run (B:=MsgQueue.queue) false STATIC_CALL false ices icec (net_serve STATIC_CALL check target) env
    (set_node_id a c) junk k cl (attach a (t_net s) (n_io nd)) (t_net s) Ecl) as Hsend.
  pose proof (check_status_run (B:=MsgQueue.queue) false STATIC_CALL false ices icec (net_serve STATIC_CALL check target) env
    (set_node_id a c) junk k cl t' p (attach a (t_net s) (n_io nd)) (t_net s) Ecl Ht' Hp) as Hcheck.
  rewrite Ai, Hi, Hname in Hsend. unfold request_of. destruct Hact as [-> | ->]; do 2 eexists; (split; [|first [exact Hsend|exact Hcheck]]); done.
Qed.

Lemma call_goes_on : goes_on.
Proof.
  destruct (client_known k Hact) as (Hk & _ & _ & cl & Ecl & Htg & Hsc). destruct (call_run cl Ecl Hsc) as (timeout & event & Hlt & E).
  destruct timeouts_here as (_ & _ & _ & _ & _ & _ & _ & _ & Hs & Hn).
  destruct (request_effect (stub_ cl) Htg) as (o & w & Er & Hw & Ho).
  rewrite (attempt_in_time _ since timeout event f now (t_net s) Hs Hn Hlt) in E.
  assert (enabled s a act -> is_Some (t_net s !! k)) as Hen by (rewrite (nk_up _ _ _ (iv_net _ _ Hinv)); by destruct Hact as [-> | ->]).
  assert (forall w', took w' -> (f = Answered -> t_net s !! k = None) ->
    perform env a act here = (Err (Blocked "retrying a remote call"), (called cl, w')) -> goes_on) as Hstill.
  { intros w' Hw' Hf Ep. do 3 eexists. split; [exact Ep|]. right. eexists. split; [done|]. split; [by apply called_still|].
    intros Hf' Hen'. destruct (Hen Hen') as [? Hup]. by rewrite (Hf Hf') in Hup. }
  destruct Ho as [(Hno & -> & ->)|(Hup & -> & Hover)].
  -
    destruct (remote_call_refused _ f _ _ Er) as [what Hc]. rewrite Hc in E. by apply (Hstill (t_net s)).
  - destruct (remote_call_taken _ f _ _ Er) as [[Hc _]|(what & w' & Hc & Hw' & Hf)]; rewrite Hc in E.
    + do 3 eexists. split; [exact E|]. left. split; [done|]. by apply called_over.
    + apply (Hstill w'); [|done|exact E]. destruct Hw' as [-> | ->]; [exact took_none|done].
Qed.
End call.

(** A flag is awaited. *)
Lemma await_goes_on k : act = AwaitFlag k -> goes_on.
Proof.
  intros Hact. pose proof act_in as Hin. pose proof act_fresh as Hf. rewrite Hact in Hin, Hf.
  assert (did s a StartService) as Hst.
  { apply did_before; [|rewrite Hact; cbn; lia]. apply (in_actions order order_perm (set_node_id a c) (ids a) (infos a) size_here StartService). set_solver. }
  destruct (proj2 (nk_up _ _ _ (iv_net _ _ Hinv) a) Hst) as [conns Econns].
  destruct (attached a (t_net s) (n_io nd)) as (Ai & Aid & As & Aobj & Aconn). rewrite Econns in Aconn. cbn in Aconn.
  assert (is_Some (conns !! k)) as [cn Ecn] by (apply elem_of_dom; rewrite (nk_dom _ _ _ (iv_net _ _ Hinv) a conns Econns); by destruct Hin).
  assert (is_Some (server_ (n_io nd))) as [srv Esrv] by (apply (server_up now s a nd Hinv Ha); by eexists).
  assert (forall io cn', client_conn_map_ io = <[k := cn']> conns -> server_ io = Some srv -> publish a io (t_net s) = <[a := <[k := cn']> conns]> (t_net s)) as Hpub.
  { intros io cn' Hc Hs'. unfold publish. by rewrite Hs', Hc. }
  assert (forall cn', node_ok a (n_done nd) (act :: rest) (set_conns (<[k := cn']> conns) (attach a (t_net s) (n_io nd)))) as Hok.
  { intros cn'. apply node_keep with (io := n_io nd); [exact node_here|done|done|done| |].
    - intros Hn. destruct Hn. by apply did_here.
    - cbn. by rewrite Aobj. }
  destruct (nk_pending _ _ _ (iv_net _ _ Hinv) a conns k cn Econns Ecn Hf) as [Hall Hne].
  destruct (pending cn sync_msgid) as [|d ds] eqn:Hp.
  - do 3 eexists. split; [rewrite Hact; by apply (await_flag_waits STATIC_CALL false ices icec (net_serve STATIC_CALL check target) env (set_node_id a c) junk k cn now); [rewrite Aconn|..]|]. right. eexists. split; [done|]. split.
    + rewrite Aconn. apply (inv_put now s a nd); [done|done|by intros x [= <-]|apply Hok|apply grows_refl| |].
      * rewrite (Hpub _ cn) by (done || by cbn; rewrite As). rewrite (insert_id conns), (insert_id (t_net s)) by done.
        intros k' rest' conns' cn1 n Et Ec Ek. rewrite Hact in Et |- *. injection Et as <- _. cbn.
        rewrite Econns in Ec. injection Ec as <-. rewrite Ecn in Ek |- *. injection Ek as <-. intros [= <-]. by split.
      * rewrite (Hpub _ cn) by (done || by cbn; rewrite As). rewrite (insert_id conns), (insert_id (t_net s)) by done.
        eapply net_same; [by apply did_still|by eapply iv_net].
    + rewrite Hact. intros _ Hs. by apply Hne.
  - apply Forall_cons in Hall as [<- _].
    destruct (await_flag_run STATIC_CALL false ices icec (net_serve STATIC_CALL check target) env (set_node_id a c) junk k cn
      (attach a (t_net s) (n_io nd)) (t_net s)) as [cn' E]; [by rewrite Aconn| |].
    { exists 0%nat, (mkTurn now [] NoTimeout), x31, ds. split; [apply Forall_nil_2|]. split; [done|]. cbn. by rewrite Hp, app_nil_r. }
    do 3 eexists. split; [rewrite Hact; exact E|]. left. split; [done|]. rewrite Aconn.
    apply (inv_put now s a nd); [done|done|done|apply node_pass; [apply Hok|by rewrite Hact..]|apply grows_refl|done|].
    rewrite (Hpub _ cn') by (done || by cbn; rewrite As). rewrite Hact.
    eapply (net_await ids (did s) a k); [by apply did_after|done|exact Ecn|by eapply iv_net].
Qed.

Lemma act_goes_on : goes_on.
Proof.
  destruct (act_cases act) as [Hact|[[v Hact]|[[k Hact]|[k Hact]]]].
  - by apply start_goes_on.
  - by apply (connect_goes_on v).
  - by apply (call_goes_on k).
  - by apply (await_goes_on k).
Qed.
End at_node.

(** ** Ticks *)
Definition todo s a : list init_action := match t_nodes s !! a with Some nd => n_todo nd | None => [] end.
(** Nobody is further. *)
Definition same s s' : Prop := (forall x, todo s' x = todo s x) /\ (forall x y, did s x y <-> did s' x y).
(** No node that could be answered could go on. *)
Definition idle s tk : Prop := tk_fate tk = Answered -> forall act rest, todo s (tk_node tk) = act :: rest -> ~ enabled s (tk_node tk) act.

Lemma same_trans s1 s2 s3 : same s1 s2 -> same s2 s3 -> same s1 s3.
Proof. intros [H1 H2] [H3 H4]. split; [intros x; by rewrite H3|intros x y; by rewrite H2]. Qed.
Lemma same_enabled s s' a act : same s s' -> enabled s a act -> enabled s' a act.
Proof. intros [_ Hd]. destruct act; cbn; by rewrite ?Hd. Qed.
Lemma same_idle s s' tk : same s s' -> idle s' tk -> idle s tk.
Proof. intros Hs Hi Hf act rest Ht He. apply (Hi Hf act rest); [by rewrite (proj1 Hs)|]. by eapply same_enabled. Qed.

Lemma remaining_todo s : remaining nodes s = sum_list_with (fun a => length (todo s a)) (elements nodes).
Proof. unfold remaining, todo. induction (elements nodes) as [|a l IH]; [done|]. cbn. rewrite IH. by destruct (t_nodes s !! a). Qed.
Lemma same_remaining s s' : same s s' -> remaining nodes s' = remaining nodes s.
Proof. intros [Hs _]. rewrite !remaining_todo. induction (elements nodes) as [|a l IH]; [done|]. cbn. by rewrite Hs, IH. Qed.

Lemma sum_list_one_less (f g : string -> nat) l a : NoDup l -> a ∈ l -> f a = S (g a) -> (forall x, x <> a -> f x = g x) ->
  sum_list_with f l = S (sum_list_with g l).
Proof.
  intros Hnd Hin Ha Hx. induction Hnd as [|x l Hni _ IH]; [by apply elem_of_nil in Hin|]. cbn.
  destruct (decide (x = a)) as [->|Hne].
  - rewrite Ha. cbn. do 2 f_equal. clear IH Hin. induction l as [|y l IH]; [done|]. cbn.
    apply not_elem_of_cons in Hni as [? ?]. by rewrite Hx, IH.
  - apply elem_of_cons in Hin as [->|Hin]; [done|]. rewrite (Hx x Hne), IH by done. lia.
Qed.

Lemma tick_step now0 s tk : inv now0 s -> lo <= now0 -> now0 <= tk_now tk <= hi -> tk_wake tk = NoTimeout ->
  inv (tk_now tk) (task_tick s tk) /\
  (remaining nodes s = S (remaining nodes (task_tick s tk)) \/ same s (task_tick s tk) /\ idle s tk).
Proof.
  intros Hinv0 Hlo Hnow Hwake. assert (inv (tk_now tk) s) as Hinv by (eapply inv_later; [|exact Hinv0]; lia).
  destruct tk as [a now f wk]. cbn [tk_now tk_wake] in *. subst wk. unfold idle, task_tick, Task.task_tick. cbn [tk_node tk_fate].
  destruct (t_nodes s !! a) as [nd|] eqn:Ha; cycle 1.
  { split; [done|]. right. split; [done|]. intros _ act rest. unfold todo. by rewrite Ha. }
  destruct (iv_runs _ _ Hinv0 a nd Ha) as [Hf Hs]. unfold node_tick. rewrite Hf. cbn [tk_node tk_now].
  destruct (n_todo nd) as [|act rest] eqn:Ht.
  { replace (mkTask (<[a := nd]> (t_nodes s)) (t_net s)) with s by (rewrite insert_id by done; by destruct s).
    split; [done|]. right. split; [done|]. intros _ act rest. unfold todo. by rewrite Ha, Ht. }
  assert (lo <= default now (n_since nd) <= now) as Hsince.
  { destruct (n_since nd) as [x|]; cbn; [|lia]. specialize (Hs x eq_refl). lia. }
  destruct (act_goes_on now s a nd act rest Hinv Ha Ht _ Hsince (proj2 Hnow) f) as (r & io & w & E & Hr).
  rewrite E. destruct Hr as [[-> Hi]|(what & -> & Hi & Hidle)]; (split; [exact Hi|]).
  - left. rewrite !remaining_todo. unfold todo. apply (sum_list_one_less _ _ _ a); [apply NoDup_elements| | |].
    + rewrite elem_of_elements, <- (iv_dom _ _ Hinv). by eapply elem_of_dom_2.
    + cbn. by rewrite Ha, lookup_insert_eq, Ht.
    + intros x Hx. cbn. by rewrite lookup_insert_ne.
  - right. split.
    + split; [|by apply did_still]. intros x. unfold todo. cbn. destruct (decide (a = x)) as [<-|Hx]; [|by rewrite lookup_insert_ne].
      by rewrite lookup_insert_eq, Ha, Ht.
    + intros Hf' act' rest'. unfold todo. rewrite Ha, Ht. intros [= <- <-]. by apply Hidle.
Qed.

Lemma run_steps now s tks : inv now s -> lo <= now -> now <= hi -> timely now hi tks ->
  exists now', now <= now' <= hi /\ inv now' (task_run s tks) /\
    (forall tks', timely now hi (tks ++ tks') -> timely now' hi tks') /\
    ((remaining nodes (task_run s tks) < remaining nodes s)%nat \/
     same s (task_run s tks) /\ forall tk, tk ∈ tks -> idle s tk).
Proof.
  revert now s. induction tks as [|tk tks IH]; intros now s Hinv Hlo Hhi.
  - intros _. exists now. split; [lia|]. split; [done|]. split; [done|]. right. split; [done|]. by intros tk ?%elem_of_nil.
  - intros (Htk & Hw & Ht). destruct (tick_step now s tk Hinv Hlo Htk Hw) as [Hinv1 H1].
    destruct (IH (tk_now tk) (task_tick s tk) Hinv1 ltac:(lia) ltac:(lia) Ht) as (now' & Hnow' & Hinv' & Ht' & H2).
    exists now'. split; [lia|]. split; [done|]. split; [by intros tks' (_ & _ & ?%Ht')|]. change (task_run s (tk :: tks)) with (task_run (task_tick s tk) tks).
    destruct H1 as [H1|[H1 Hi]], H2 as [H2|[H2 Hi2]].
    + left. lia.
    + left. rewrite (same_remaining _ _ H2). lia.
    + left. by rewrite <- (same_remaining _ _ H1).
    + right. split; [by eapply same_trans|]. intros tk' [-> |Hin]%elem_of_cons; [done|]. eapply same_idle; [done|]. by apply Hi2.
Qed.

(** ** Some node can always go on *)
Definition head_rank s a : option nat := match todo s a with [] => None | act :: _ => Some (rank act) end.

Lemma head_here s a act rest : todo s a = act :: rest -> exists nd, t_nodes s !! a = Some nd /\ n_todo nd = act :: rest.
Proof. unfold todo. destruct (t_nodes s !! a) as [nd|]; [|done]. by exists nd. Qed.
Lemma head_rank_here s a k : head_rank s a = Some k -> exists act rest, todo s a = act :: rest /\ rank act = k.
Proof. unfold head_rank. destruct (todo s a) as [|act rest]; [done|]. intros [= <-]. by exists act, rest. Qed.

(** A node whose head, if any, has a higher rank than [b] has done [b]. *)
Lemma did_if_past now s x b : inv now s -> x ∈ nodes -> b ∈ actions x -> (forall k, head_rank s x = Some k -> (rank b < k)%nat) -> did s x b.
Proof.
  intros Hinv Hx Hb Hr. rewrite <- (iv_dom _ _ Hinv) in Hx. apply elem_of_dom in Hx as [nd Hx].
  pose proof (no_order _ _ _ _ (iv_nodes _ _ Hinv x nd Hx)) as Ho. destruct (n_todo nd) as [|act rest] eqn:Ht.
  - exists nd. split; [done|]. by rewrite <- Ho, app_nil_r in Hb.
  - eapply did_before; [done|done|exact Ht|done|]. apply Hr. unfold head_rank, todo. by rewrite Hx, Ht.
Qed.
Lemma size_ids x : x ∈ nodes -> Z.of_nat (base.size (ids x)) < 2 ^ 32.
Proof. apply (co_names _ _ _ _ _ _ _ _ _ _ _ co). Qed.

Lemma some_enabled now s : inv now s -> (exists a k, a ∈ nodes /\ head_rank s a = Some k) ->
  exists a act rest, a ∈ nodes /\ todo s a = act :: rest /\ enabled s a act.
Proof.
  intros Hinv (a0 & k0 & Ha0 & Hk0).
  destruct (decide (set_Exists (fun a => head_rank s a = Some 0%nat \/ head_rank s a = Some 1%nat) nodes)) as [(a & Ha & Hr)|Hno1].
  { destruct Hr as [(act & rest & Ht & Hr)%head_rank_here|(act & rest & Ht & Hr)%head_rank_here];
      exists a, act, rest; (split; [done|]; split; [done|]); by destruct act. }
  destruct (decide (set_Exists (fun a => head_rank s a = Some 2%nat) nodes)) as [(a & Ha & Hr)|Hno2].
  { apply head_rank_here in Hr as (act & rest & Ht & Hr). exists a, act, rest. split; [done|]. split; [done|].
    destruct (head_here s a act rest Ht) as (nd & E & Ht').
    assert (exists k, act = SendFlag k \/ act = CheckStatus k) as [k Hact] by (destruct act; try done; eauto).
    destruct (client_known now s a nd act rest Hinv E Ht' k Hact) as (Hk & _ & Hin & _).
    assert (did s k StartService) as Hup; [|by destruct Hact as [-> | ->]].
    eapply did_if_past; [done|done| |].
    - apply (in_actions order order_perm (set_node_id k c) (ids k) (infos k)); [by apply size_ids|clear -Hin; set_solver].
    - intros r Hrk. destruct r; [|cbn; lia]. destruct Hno1. exists k. by auto. }
  apply head_rank_here in Hk0 as (act & rest & Ht & Hr). destruct (head_here s a0 act rest Ht) as (nd & E & Ht').
  assert (forall x r, x ∈ nodes -> head_rank s x = Some r -> r = 3%nat) as Hall.
  { intros x r Hx Hrx. assert (r < 4)%nat by (apply head_rank_here in Hrx as ([] & ? & _ & <-); cbn; lia).
    destruct r as [|[|[|[|]]]]; [| | |done|lia]; exfalso; [apply Hno1|apply Hno1|apply Hno2]; exists x; auto. }
  assert (k0 = 3%nat) as -> by (apply (Hall a0); [done|]; unfold head_rank; by rewrite Ht, Hr).
  destruct act as [| | |k|]; try done. pose proof (act_in now s a0 nd _ rest Hinv E Ht') as [Hsync Hk].
  destruct (co_ids _ _ _ _ _ _ _ _ _ _ _ co a0 k Ha0 Hk) as [Hkn Hdom].
  exists a0, (AwaitFlag k), rest. split; [done|]. split; [done|]. eapply did_if_past; [done|done| |].
  - by apply (in_actions order order_perm (set_node_id k c) (ids k) (infos k)); [by apply size_ids|].
  - intros r Hrk. rewrite (Hall k r Hkn Hrk). cbn. lia.
Qed.

(** A node that sleeps is one that has to. *)
Lemma asleep_waits now s a act rest : inv now s -> asleep s a -> todo s a = act :: rest -> ~ enabled s a act.
Proof.
  intros Hinv (nd & k & rest' & conns & cn & Ha & Ht & Ec & Ek & Hw) Htodo.
  unfold todo in Htodo. rewrite Ha, Ht in Htodo. injection Htodo as <- <-. intros Hs. cbn in Hs.
  destruct (iv_waits _ _ Hinv a nd Ha k rest' conns cn _ Ht Ec Ek Hw) as [_ Hp].
  eapply (proj2 (nk_pending _ _ _ (iv_net _ _ Hinv) a conns k cn Ec Ek (act_fresh now s a nd _ rest' Hinv Ha Ht))); [exact Hs|by apply Hp].
Qed.

Lemma remaining_some s k : remaining nodes s = S k -> exists a r, a ∈ nodes /\ head_rank s a = Some r.
Proof.
  rewrite remaining_todo. assert (forall a, a ∈ elements nodes -> a ∈ nodes) as Hl by (intros a; apply elem_of_elements).
  induction (elements nodes) as [|a l IH]; [done|]. cbn. destruct (todo s a) as [|act rest] eqn:Ht.
  - apply IH. intros x Hx. apply Hl. by right.
  - intros _. exists a, (rank act). split; [apply Hl; by left|]. unfold head_rank. by rewrite Ht.
Qed.

(** A round of all the nodes that are awake is an action, at least. *)
Lemma rounds_start now s rounds : inv now s -> lo <= now -> now <= hi -> timely now hi (concat rounds) ->
  fair STATIC_CALL ices icec check target c t0 junk nodes s rounds ->
  exists now', inv now' (task_run s (concat rounds)) /\ (remaining nodes (task_run s (concat rounds)) <= remaining nodes s - length rounds)%nat.
Proof.
  revert now s. induction rounds as [|tks rounds IH]; intros now s Hinv Hlo Hhi Ht Hfair.
  - exists now. split; [done|]. cbn. lia.
  - destruct Hfair as [Hround Hfair]. cbn [concat] in Ht |- *.
    assert (timely now hi tks) as Ht1 by (clear -Ht; revert now Ht; induction tks; cbn; naive_solver).
    destruct (run_steps now s tks Hinv Hlo Hhi Ht1) as (now1 & Hnow1 & Hinv1 & Ht2 & Hprog).
    destruct (IH now1 (task_run s tks) Hinv1 ltac:(lia) ltac:(lia) (Ht2 _ Ht) Hfair) as (now' & Hinv' & Hr).
    exists now'. unfold Task.task_run in *. rewrite foldl_app. split; [done|]. cbn [length].
    destruct Hprog as [Hlt|[Hsame Hidle]]; [lia|]. rewrite (same_remaining _ _ Hsame) in Hr.
    destruct (remaining nodes s) as [|k] eqn:Hk; [lia|]. exfalso.
    destruct (some_enabled now s Hinv (remaining_some s k Hk)) as (a & act & rest & Ha & Htodo & Hen).
    destruct (Hround a Ha) as [Hsleep|(tk & Hin & <- & Hf)]; [exact (asleep_waits now s a act rest Hinv Hsleep Htodo Hen)|exact (Hidle tk Hin Hf act rest Htodo Hen)].
Qed.

Lemma remaining_none now s : inv now s -> remaining nodes s = 0%nat -> all_started order c infos ids nodes s.
Proof.
  intros Hinv Hr a Ha. assert (a ∈ dom (t_nodes s)) as [nd Hnd]%elem_of_dom by (by rewrite (iv_dom _ _ Hinv)). exists nd. split; [done|].
  assert (n_todo nd = []) as Ht.
  { unfold remaining in Hr. apply elem_of_elements in Ha. induction (elements nodes) as [|b l IH]; [by apply elem_of_nil in Ha|].
    cbn in Hr. apply elem_of_cons in Ha as [<-|Ha]; [|apply IH; [lia|done]]. rewrite Hnd in Hr. destruct (n_todo nd); [done|]. cbn in Hr. lia. }
  pose proof (iv_nodes _ _ Hinv a nd Hnd) as [Ho _ _ _ Hcl]. rewrite Ht, app_nil_r in Ho.
  pose proof (in_actions order order_perm (set_node_id a c) (ids a) (infos a) (size_ids a Ha)) as Hact. fold (actions a) in Hact.
  split; [done|]. split; [done|]. split; [apply (iv_runs _ _ Hinv a nd Hnd)|]. split.
  - apply set_eq. intros k. rewrite !elem_of_dom. specialize (Hcl k). rewrite Ho in Hcl.
    destruct (client_obj_map_ (n_io nd) !! k) as [cl|].
    + destruct Hcl as (_ & _ & v & Hv%Hact). cbn in Hv. by split; eexists.
    + split; [by intros [? ?]|]. intros [v Hv]. destruct (Hcl v). by apply Hact.
  - intros Hids. assert (did s a StartService) as [conns Econns]%(nk_up _ _ _ (iv_net _ _ Hinv)).
    { exists nd. split; [done|]. rewrite Ho. by apply Hact. }
    exists conns. split; [done|]. by apply (nk_dom _ _ _ (iv_net _ _ Hinv)).
Qed.
End reachable.

(** * The nodes of one document *)
Section document.
Context (SSL_TYPE : Z) (c : ChannelConfig).

Definition server_infos (a : string) : via_set := via_table SSL_TYPE c (servers_of c a).

(** What the start of all nodes asks of the document and of Ice: the time from [lo] to
    [hi] is shorter than the timeouts, ids are short enough to be sent, every node has
    peers that are described and are nodes of the task, and for each node Ice starts
    the service and makes the clients, for the node they name. *)
Record task_ready {SC SA CC Stub} (ices : IceServer SC SA) (icec : IceClient CC Stub) (target : Stub -> string) (t0 lo hi : Z) : Prop := mkReady {
  rd_time : 0 <= lo <= hi /\ hi < 2 ^ 63 /\ exists t t' p, scaled 64 (send_timeout_ c) 1000 = Ok t /\
    scaled 64 (conn_timeout_ c) 1000 = Ok t' /\ scaled 32 (ping_time_ c) 1000000 = Ok p /\
    (hi - lo) / 1000000 < t /\ (hi - lo) / 1000000 < t';
  rd_size : Z.of_nat (base.size (task_nodes_ c)) < 2 ^ 32;
  rd_names : forall a, a ∈ task_nodes_ c -> fits (String.length a);
  rd_infos : forall a, a ∈ task_nodes_ c -> infos_outcome c a = Ok true;
  rd_policy : forall a, a ∈ task_nodes_ c -> servers_of c a ⊆ task_nodes_ c ∖ {[a]} /\ clients_of c a ⊆ task_nodes_ c;
  rd_service : forall a conns, a ∈ task_nodes_ c ->
    exists srv, start_server (B:=MsgQueue.queue) ices false (own_info SSL_TYPE c a) (task_id_ c) conns = Ok srv;
  rd_clients : forall b via, b ∈ task_nodes_ c -> via_info_of SSL_TYPE c b = Some via ->
    forall now, exists cl, make_BaseClient icec t0 now via (task_id_ c) = Ok cl /\ target (stub_ cl) = b }.

Lemma servers_clients a b : a ∈ task_nodes_ c -> b ∈ task_nodes_ c -> a <> b -> b ∈ servers_of c a <-> a ∈ clients_of c b.
Proof.
  intros Ha Hb Hne. unfold servers_of, clients_of. case_decide; [set_solver|]. rewrite elem_of_dom. split.
  - destruct (map_policy_ c !! a) as [s|] eqn:E; [|done]. cbn. intros Hin. exists s. by apply map_lookup_filter_Some.
  - intros [s [E [_ Hin]]%map_lookup_filter_Some]. by rewrite E.
Qed.
Lemma not_own_client a : a ∉ clients_of c a.
Proof.
  unfold clients_of. case_decide; [set_solver|]. rewrite elem_of_dom. intros [s [_ [Hne _]]%map_lookup_filter_Some]. by destruct Hne.
Qed.

Lemma ready_coherent {SC SA CC Stub} (ices : IceServer SC SA) (icec : IceClient CC Stub) target t0 lo hi :
  config_wf SSL_TYPE c -> task_ready ices icec target t0 lo hi ->
  coherent ices icec target c t0 (own_info SSL_TYPE c) server_infos (clients_of c) lo hi (task_nodes_ c).
Proof.
  intros Hwf [Ht Hsz Hn Hi Hp Hs Hcl].
  assert (forall a, a ∈ task_nodes_ c -> dom (server_infos a) = servers_of c a) as Hd.
  { intros a Ha. by apply dom_via_table, infos_outcome_ok, Hi. }
  split; [done|done| | | |].
  - intros a k v Ha Hv. unfold server_infos in Hv. rewrite lookup_via_table in Hv. case_decide as Hk; [|done].
    split; [by eapply via_info_id|]. apply Hcl; [|done]. destruct (Hp a Ha). set_solver.
  - intros a Ha. split_and!.
    + by apply own_info_run.
    + split; [done|]. split; [by apply Hn|done].
    + destruct (Hp a Ha) as [_ Hsub]. apply subseteq_size in Hsub. lia.
  - intros a b Ha. rewrite Hd by done. intros Hb. destruct (Hp a Ha) as [Hsub _]. apply Hsub in Hb as Hb'.
    assert (b ∈ task_nodes_ c /\ a <> b) as [? ?] by set_solver. split; [done|]. split; [done|]. by apply servers_clients.
  - intros a b Ha Hb. destruct (Hp a Ha) as [_ Hsub]. apply Hsub in Hb as Hb'. split; [done|]. rewrite Hd by done.
    apply servers_clients; [done..| |done]. intros ->. by eapply not_own_client.
Qed.
End document.

(** * Property *)

(** C3: A task starts.  Every node reads the same document and runs its [init]; their
    rounds interleave in any way, requests and answers are lost and repeated.  Asked
    for is what [task_ready] says: the time the start takes is shorter than the
    timeouts of the document, every node has peers, which are described nodes of the
    task, ids are short enough to be sent, and Ice starts the services and makes the
    clients.  Then no [init] throws, however the nodes interleave: a refused or lost
    request is tried again, a flag that has not come is waited for.  And the start
    ends: in each round of every node that is awake and would be answered, some node
    finishes an action.  No wait is timed out, since there is less time than that.
    After as many rounds as there are actions every node is done,
    with a client object for each of its servers and, when it has clients, a service
    with a connection for each.  A node that sleeps on a connection need not go on
    before it is notified. *)
Theorem task_starts STATIC_CALL `{IceStreamLaws} {SC SA CC Stub : Type} (ices : IceServer SC SA) (icec : IceClient CC Stub)
    check (target : Stub -> string) (order : gset string -> list string) SSL_TYPE open_file Parse reader text c t0 junk lo hi :
  (forall m, check m m = Ok tt) -> (forall s, order s ≡ₚ elements s) ->
  make_ChannelConfig SSL_TYPE open_file Parse reader text = Ok c -> task_ready SSL_TYPE c ices icec target t0 lo hi ->
  let s0 : @Task SC SA Stub := task_init order c (own_info SSL_TYPE c) (server_infos SSL_TYPE c) (clients_of c) (task_nodes_ c) in
  let run := task_run STATIC_CALL ices icec check target c t0 junk s0 in
  (forall tks, timely lo hi tks -> no_fault (run tks)) /\
  (forall rounds, timely lo hi (concat rounds) ->
    fair STATIC_CALL ices icec check target c t0 junk (task_nodes_ c) s0 rounds ->
    (remaining (task_nodes_ c) s0 <= length rounds)%nat ->
    all_started order c (server_infos SSL_TYPE c) (clients_of c) (task_nodes_ c) (run (concat rounds))).
Proof.
  intros Hck Ho Hc Hready s0 run. destruct (make_ChannelConfig_ok _ _ _ _ _ _ Hc) as (Hwf & _).
  pose proof (ready_coherent SSL_TYPE c ices icec target t0 lo hi Hwf Hready) as co.
  destruct (co_time _ _ _ _ _ _ _ _ _ _ _ co) as (Hlo & _).
  pose proof (inv_init (Stub:=Stub) (SC:=SC) (SA:=SA) target order c (own_info SSL_TYPE c) (server_infos SSL_TYPE c) (clients_of c) (task_nodes_ c) lo lo : inv target order c _ _ _ _ lo lo s0) as Hinit.
  split.
  - intros tks Ht a nd Ha.
    destruct (run_steps STATIC_CALL ices icec check Hck target order Ho c t0 junk _ _ _ _ lo hi co lo s0 tks Hinit)
      as (now & _ & Hinv & _); [lia|lia|done|]. by apply (iv_runs _ _ _ _ _ _ _ _ _ _ Hinv a nd Ha).
  - intros rounds Ht Hf Hn.
    destruct (rounds_start STATIC_CALL ices icec check Hck target order Ho c t0 junk _ _ _ _ lo hi co lo s0 rounds Hinit)
      as (now & Hinv & Hr); [lia|lia|done|done|].
    eapply (remaining_none ices icec target order Ho c t0); [done|exact Hinv|]. unfold run. lia.
Qed.

(** Nodes "a" and "b" of a document that asks for synchronisation, four actions each. *)
Definition sync_doc : list (string * json) := sample_doc [JString "b"] ++ [("CONNECT_SYNC", JBool true)].
Definition sync_doc_config : ChannelConfig :=
  value_of ChannelConfig_default (make_ChannelConfig 0 (fun _ => None) (fun _ => Some (JObject sync_doc)) "a" "{}").
Definition sample_target (proxy : string) : string :=
  if decide (proxy = "IoChannel_t_b:tcp -h 1 -p 2") then "b" else "a".
Definition sample_init : @Task unit unit string :=
  task_init elements sync_doc_config (own_info 0 sync_doc_config) (server_infos 0 sync_doc_config) (clients_of sync_doc_config) (task_nodes_ sync_doc_config).
(** A round of both; the first request of "b" is lost, and so is an answer to "a". *)
Definition sample_round (now : Z) : list tick :=
  [mkTick "a" now (AnswerLost "reset") NoTimeout; mkTick "b" now (Lost "refused") NoTimeout;
   mkTick "b" now Answered NoTimeout; mkTick "a" now Answered NoTimeout].
Definition sample_rounds : list (list tick) := sample_round <$> [1; 2; 3; 4; 5; 6; 7; 8].
Abbreviation sample_run := (task_run (H:=Encoding11.encoding) false accepting_server accepting_client (fun _ _ => Ok tt)
  sample_target sync_doc_config 0 x00 sample_init).

Lemma sample_nodes a : a ∈ task_nodes_ sync_doc_config -> a = "a" \/ a = "b".
Proof. assert (task_nodes_ sync_doc_config = {["a"; "b"]}) as -> by (vm_compute; done). set_solver. Qed.
Lemma sample_ready : task_ready 0 sync_doc_config accepting_server accepting_client sample_target 0 0 8.
Proof.
  split.
  - split; [lia|]. split; [lia|]. do 3 eexists. split; [vm_compute; reflexivity|]. split; [vm_compute; reflexivity|].
    split; [vm_compute; reflexivity|]. by split.
  - vm_compute. reflexivity.
  - intros a [-> | ->]%sample_nodes; vm_compute; done.
  - intros a [-> | ->]%sample_nodes; vm_compute; done.
  - intros a [-> | ->]%sample_nodes; split; apply (bool_decide_unpack _); vm_compute; done.
  - intros a conns [-> | ->]%sample_nodes; eexists; vm_compute; reflexivity.
  - intros b via [-> | ->]%sample_nodes Hv; vm_compute in Hv; injection Hv as <-; eexists; (split; [vm_compute; reflexivity|vm_compute; done]).
Qed.
Lemma sample_fair rounds s :
  fair (H:=Encoding11.encoding) false accepting_server accepting_client (fun _ _ => Ok tt) sample_target sync_doc_config 0 x00
    (task_nodes_ sync_doc_config) s (sample_round <$> rounds).
Proof.
  revert s. induction rounds as [|now rounds IH]; intros s; [done|]. split; [|apply IH].
  intros a [-> | ->]%sample_nodes; right.
  - exists (mkTick "a" now Answered NoTimeout). split; [unfold sample_round; set_solver|done].
  - exists (mkTick "b" now Answered NoTimeout). split; [unfold sample_round; set_solver|done].
Qed.

Lemma task_starts_witness :
  remaining (task_nodes_ sync_doc_config) sample_init = 8%nat /\
  no_fault (sample_run (concat sample_rounds)) /\
  all_started elements sync_doc_config (server_infos 0 sync_doc_config) (clients_of sync_doc_config) (task_nodes_ sync_doc_config)
    (sample_run (concat sample_rounds)).
Proof.
  assert (remaining (task_nodes_ sync_doc_config) sample_init = 8%nat) as E by (vm_compute; reflexivity).
  assert (timely 0 8 (concat sample_rounds)) as Ht by (cbn; repeat split; lia).
  split; [exact E|].
  destruct (task_starts false accepting_server accepting_client (fun _ _ => Ok tt) sample_target elements 0 (fun _ => None)
    (fun _ => Some (JObject sync_doc)) "a" "{}" sync_doc_config 0 x00 0 8) as [Hno Hall];
    [done|done|vm_compute; reflexivity|exact sample_ready|].
  split; [exact (Hno _ Ht)|]. apply Hall; [exact Ht|apply sample_fair|].
  unfold sample_init in E |- *. rewrite E. cbn. lia.
Defined.
