(* ===== verification/Heap.v ===== *)
(** C memory: blocks at addresses, with [new], [delete], loads and stores, and a
    small separation logic to reason about who owns which block.

    An access to an address that holds no block, a second [delete] among them, is
    undefined behaviour.  A triple is total and has the frame built in: the call
    returns, and the rest of the heap is as it was.  [alloc] picks the address of a
    new block; all that is known of it is that the address is free. *)
From S2P Require Import Prelude.

Create HintDb heap.
Abbreviation addr := nat.

Section heap.
Context {V : Type}.
Abbreviation heap := (gmap addr V).
Abbreviation hM := (M heap).
Context (alloc : heap -> addr).

Definition new_block (b : V) : hM addr := fun h => let p := alloc h in (Ok p, <[p := b]> h).
Definition load (p : addr) : hM V := fun h =>
  match h !! p with
  | Some b => (Ok b, h)
  | None => (Err (UndefinedBehaviour "load from a freed block"), h)
  end.
Definition store (p : addr) (b : V) : hM unit := fun h =>
  match h !! p with
  | Some _ => (Ok tt, <[p := b]> h)
  | None => (Err (UndefinedBehaviour "store to a freed block"), h)
  end.
Definition delete_block (p : addr) : hM unit := fun h =>
  match h !! p with
  | Some _ => (Ok tt, delete p h)
  | None => (Err (UndefinedBehaviour "delete of a freed block"), h)
  end.

(** * Assertions on the owned part of the heap *)
Definition hprop := heap -> Prop.
Definition emp : hprop := fun h => h = ∅.
Definition pts (p : addr) (b : V) : hprop := fun h => h = {[p := b]}.
Definition sep (P Q : hprop) : hprop := fun h =>
  exists h1 h2, h = h1 ∪ h2 /\ h1 ##ₘ h2 /\ P h1 /\ Q h2.
Definition ex {A} (P : A -> hprop) : hprop := fun h => exists a, P a h.
Definition pure (F : Prop) : hprop := fun h => F /\ h = ∅.
Fixpoint seps (Ps : list hprop) : hprop :=
  match Ps with [] => emp | P :: Ps' => sep P (seps Ps') end.

#[global] Instance hprop_equiv : Equiv hprop := fun P Q => forall h, P h <-> Q h.
#[global] Instance hprop_equivalence : Equivalence (≡@{hprop}).
Proof. split; intros P; [done|intros Q H h; by rewrite (H h)|intros Q R H1 H2 h; by rewrite (H1 h)]. Qed.
#[global] Instance hprop_equiv_pointwise : subrelation (≡@{hprop}) (pointwise_relation heap iff).
Proof. by intros P Q H h. Qed.
#[global] Instance sep_proper : Proper ((≡) ==> (≡) ==> (≡@{hprop})) sep.
Proof.
  intros P P' HP Q Q' HQ h. split; intros (h1 & h2 & ? & ? & ? & ?); exists h1, h2; repeat split; try done;
    first [by apply HP | by apply HQ].
Qed.
#[global] Instance sep_comm : Comm (≡@{hprop}) sep.
Proof.
  intros P Q h. split; intros (h1 & h2 & -> & ? & ? & ?); exists h2, h1; rewrite map_union_comm by done; done.
Qed.
#[global] Instance sep_assoc : Assoc (≡@{hprop}) sep.
Proof.
  intros P Q R h. split.
  - intros (h1 & h23 & -> & Hd & HP & h2 & h3 & -> & Hd2 & HQ & HR).
    apply map_disjoint_union_r in Hd as [? ?].
    exists (h1 ∪ h2), h3. rewrite map_union_assoc. split; [done|]. split; [by apply map_disjoint_union_l|].
    split; [by exists h1, h2|done].
  - intros (h12 & h3 & -> & Hd & (h1 & h2 & -> & Hd2 & HP & HQ) & HR).
    apply map_disjoint_union_l in Hd as [? ?].
    exists h1, (h2 ∪ h3). rewrite map_union_assoc. split; [done|]. split; [by apply map_disjoint_union_r|].
    split; [done|by exists h2, h3].
Qed.
#[global] Instance emp_left_id : LeftId (≡@{hprop}) emp sep.
Proof.
  intros P h. split.
  - intros (h1 & h2 & -> & _ & -> & HP). by rewrite map_empty_union.
  - intros HP. exists ∅, h. rewrite map_empty_union. repeat split; [apply map_disjoint_empty_l|done].
Qed.
#[global] Instance emp_right_id : RightId (≡@{hprop}) emp sep.
Proof. intros P. rewrite (comm sep). apply left_id, _. Qed.

Lemma sep_ex_l {A} (P : A -> hprop) Q : sep (ex P) Q ≡ ex (fun a => sep (P a) Q).
Proof.
  intros h. split.
  - intros (h1 & h2 & ? & ? & [a ?] & ?). exists a, h1, h2. done.
  - intros (a & h1 & h2 & ? & ? & ? & ?). exists h1, h2. split_and!; [done..|by exists a|done].
Qed.
#[global] Instance ex_proper {A} : Proper (pointwise_relation A (≡) ==> (≡@{hprop})) ex.
Proof. intros P Q H h. split; intros [a Ha]; exists a; by apply H. Qed.
Lemma sep_pure_l F Q h : sep (pure F) Q h <-> F /\ Q h.
Proof.
  split.
  - intros (h1 & h2 & -> & _ & [? ->] & ?). by rewrite map_empty_union.
  - intros [? ?]. exists ∅, h. rewrite map_empty_union. split; [done|]. split; [apply map_disjoint_empty_l|done].
Qed.
Lemma seps_app Ps Qs : seps (Ps ++ Qs) ≡ sep (seps Ps) (seps Qs).
Proof.
  induction Ps as [|P Ps IH]; cbn; [by rewrite (left_id emp sep)|]. by rewrite IH, (assoc sep).
Qed.
Lemma seps_perm Ps Qs : Ps ≡ₚ Qs -> seps Ps ≡ seps Qs.
Proof.
  induction 1 as [|P Ps Qs _ IH|P Q Ps|Ps Qs Rs _ IH1 _ IH2]; cbn.
  - done.
  - by rewrite IH.
  - by rewrite !(assoc sep), (comm sep P Q).
  - by rewrite IH1.
Qed.

Lemma seps_snoc Ps Q : sep (seps Ps) Q ≡ seps (Ps ++ [Q]).
Proof. rewrite seps_app. cbn. by rewrite (right_id emp sep). Qed.
(** A list inside a list. *)
Lemma seps_nest Ps Qs : seps (Ps ++ [seps Qs]) ≡ seps (Ps ++ Qs).
Proof. by rewrite <- seps_snoc, seps_app. Qed.
Lemma hprop_conv (P Q : hprop) h : P ≡ Q -> P h -> Q h.
Proof. intros HPQ. apply HPQ. Qed.

(** * Triples *)
Definition htriple {A} (P : hprop) (m : hM A) (Q : A -> hprop) : Prop :=
  forall h hf, P h -> h ##ₘ hf -> exists a h', m (h ∪ hf) = (Ok a, h' ∪ hf) /\ h' ##ₘ hf /\ Q a h'.

#[global] Instance htriple_proper {A} :
  Proper ((≡) ==> (=) ==> pointwise_relation A (≡) ==> iff) (htriple (A:=A)).
Proof.
  intros P P' HP m ? <- Q Q' HQ. split; intros H h hf Hh Hd;
    (destruct (H h hf) as (a & h' & ? & ? & ?); [by apply HP|done|]; exists a, h'; split_and!; [done..|by apply HQ]).
Qed.

Lemma htriple_conseq {A} (P P' : hprop) (m : hM A) (Q Q' : A -> hprop) :
  (forall h, P h -> P' h) -> (forall a h, Q' a h -> Q a h) -> htriple P' m Q' -> htriple P m Q.
Proof.
  intros HP HQ Hm h hf Hh Hd. destruct (Hm h hf (HP _ Hh) Hd) as (a & h' & ? & ? & ?).
  exists a, h'. split_and!; auto.
Qed.
Lemma htriple_ret {A} (a : A) Q : htriple (Q a) (mret a) Q.
Proof. intros h hf ? ?. by exists a, h. Qed.
Lemma htriple_ret_eq {A} (a : A) P : htriple P (mret a) (fun x => sep (pure (x = a)) P).
Proof. intros h hf ? ?. exists a, h. split_and!; [done..|by apply sep_pure_l]. Qed.
Lemma htriple_bind {A B} P (m : hM A) (R : A -> hprop) (f : A -> hM B) Q :
  htriple P m R -> (forall a, htriple (R a) (f a) Q) -> htriple P (m ≫= f) Q.
Proof.
  intros Hm Hf h hf HP Hd. destruct (Hm h hf HP Hd) as (a & h1 & E & Hd1 & HR).
  destruct (Hf a h1 hf HR Hd1) as (b & h2 & E2 & Hd2 & HQ).
  exists b, h2. split; [|done]. cbv [mbind M_bind]. by rewrite E.
Qed.
Lemma htriple_frame {A} R P (m : hM A) Q : htriple P m Q -> htriple (sep P R) m (fun a => sep (Q a) R).
Proof.
  intros Hm h hf (h1 & h2 & -> & Hd12 & HP & HR) [Hd1 Hd2]%map_disjoint_union_l.
  destruct (Hm h1 (h2 ∪ hf)) as (a & h1' & E & [? ?]%map_disjoint_union_r & HQ); [done|by apply map_disjoint_union_r|].
  exists a, (h1' ∪ h2). rewrite <- (map_union_assoc h1 h2 hf), <- (map_union_assoc h1' h2 hf). split; [done|].
  split; [by apply map_disjoint_union_l|]. by exists h1', h2.
Qed.
Lemma htriple_ex {A B} (P : B -> hprop) (m : hM A) Q : (forall b, htriple (P b) m Q) -> htriple (ex P) m Q.
Proof. intros H h hf [b Hb]. by apply (H b). Qed.
Lemma htriple_pure {A} F P (m : hM A) Q : (F -> htriple P m Q) -> htriple (sep (pure F) P) m Q.
Proof. intros H h hf [HF HP]%sep_pure_l. by apply H. Qed.
(** Call with only part of what is owned. *)
Lemma htriple_call {A B} R P P' (m : hM A) Q (f : A -> hM B) Q' :
  htriple P' m Q -> P ≡ sep P' R -> (forall a, htriple (sep (Q a) R) (f a) Q') -> htriple P (m ≫= f) Q'.
Proof. intros Hm -> Hf. eapply htriple_bind; [by apply htriple_frame|done]. Qed.

Lemma pts_disjoint p (b : V) hf : ({[p := b]} : heap) ##ₘ hf -> hf !! p = None.
Proof. by intros ?%map_disjoint_singleton_l. Qed.

(** Calls on some of the owned assertions, kept as a list. *)
Lemma htriple_step {A B} Ps P Rs (m : hM A) Q (f : A -> hM B) Q' :
  htriple P m Q -> Ps ≡ₚ P :: Rs -> (forall a, htriple (seps (Q a :: Rs)) (f a) Q') ->
  htriple (seps Ps) (m ≫= f) Q'.
Proof. intros Hm HPs Hf. eapply (htriple_call (seps Rs)); [exact Hm|by rewrite (seps_perm _ _ HPs)|exact Hf]. Qed.
Lemma htriple_alloc {A B} Ps (m : hM A) Q (f : A -> hM B) Q' :
  htriple emp m Q -> (forall a, htriple (seps (Q a :: Ps)) (f a) Q') -> htriple (seps Ps) (m ≫= f) Q'.
Proof. intros Hm Hf. eapply (htriple_call (seps Ps)); [exact Hm|by rewrite (left_id emp sep)|exact Hf]. Qed.
Lemma htriple_last {A} Ps P Rs (m : hM A) Q Q' :
  htriple P m Q -> Ps ≡ₚ P :: Rs -> (forall a h, seps (Q a :: Rs) h -> Q' a h) -> htriple (seps Ps) m Q'.
Proof.
  intros Hm HPs HQ. rewrite (seps_perm _ _ HPs). eapply htriple_conseq; [done|exact HQ|]. by apply htriple_frame.
Qed.
Lemma htriple_returns {A} Ps (a : A) Q : (forall h, seps Ps h -> Q a h) -> htriple (seps Ps) (mret a) Q.
Proof. intros H h hf Hh Hd. exists a, h. split_and!; [done..|by apply H]. Qed.
Lemma htriple_exs {A B} Ps (P : B -> hprop) Rs (m : hM A) Q :
  Ps ≡ₚ ex P :: Rs -> (forall b, htriple (seps (P b :: Rs)) m Q) -> htriple (seps Ps) m Q.
Proof. intros HPs H. rewrite (seps_perm _ _ HPs). cbn. rewrite sep_ex_l. by apply htriple_ex. Qed.
Lemma htriple_pures {A} Ps F Rs (m : hM A) Q :
  Ps ≡ₚ pure F :: Rs -> (F -> htriple (seps Rs) m Q) -> htriple (seps Ps) m Q.
Proof. intros HPs H. rewrite (seps_perm _ _ HPs). cbn. by apply htriple_pure. Qed.
Lemma htriple_headed {A} F P Rs (m : hM A) Q :
  (F -> htriple (seps (P :: Rs)) m Q) -> htriple (seps (sep (pure F) P :: Rs)) m Q.
Proof. intros H. cbn. rewrite <- (assoc sep). by apply htriple_pure. Qed.
Lemma htriple_unsep {A} P P' Rs (m : hM A) Q :
  htriple (seps (P :: P' :: Rs)) m Q -> htriple (seps (sep P P' :: Rs)) m Q.
Proof. cbn. by rewrite (assoc sep). Qed.
Lemma htriple_emp {A} Rs (m : hM A) Q : htriple (seps Rs) m Q -> htriple (seps (emp :: Rs)) m Q.
Proof. cbn. by rewrite (left_id emp sep). Qed.
Lemma htriple_pures_head {A} F Rs (m : hM A) Q : (F -> htriple (seps Rs) m Q) -> htriple (seps (pure F :: Rs)) m Q.
Proof. apply htriple_pure. Qed.
Lemma htriple_seps {A} Ps P Rs (m : hM A) Q :
  Ps ≡ₚ seps P :: Rs -> htriple (seps (P ++ Rs)) m Q -> htriple (seps Ps) m Q.
Proof. intros HPs H. rewrite (seps_perm _ _ HPs). cbn. by rewrite <- seps_app. Qed.

Lemma lookup_own p (b : V) (hf : heap) : ({[p := b]} ∪ hf) !! p = Some b.
Proof. by apply lookup_union_Some_l, lookup_singleton_eq. Qed.

Lemma htriple_load p b : htriple (pts p b) (load p) (fun a => sep (pure (a = b)) (pts p b)).
Proof.
  intros h hf Hh Hd. hnf in Hh. subst h. exists b, {[p := b]}. unfold load.
  rewrite lookup_own. split; [done|]. split; [done|]. by apply sep_pure_l.
Qed.
Lemma htriple_store p b b' : htriple (pts p b) (store p b') (fun _ => pts p b').
Proof.
  intros h hf Hh Hd. hnf in Hh. subst h. exists tt, {[p := b']}. unfold store.
  rewrite lookup_own. rewrite insert_union_l, insert_singleton_eq. split; [done|].
  split; [|done]. apply map_disjoint_singleton_l. by eapply pts_disjoint.
Qed.
Lemma htriple_delete p b : htriple (pts p b) (delete_block p) (fun _ => emp).
Proof.
  intros h hf Hh Hd. hnf in Hh. subst h. exists tt, ∅. unfold delete_block.
  rewrite lookup_own. split; [|split; [apply map_disjoint_empty_l|done]].
  rewrite <- insert_union_singleton_l, delete_insert_id by (by eapply pts_disjoint). by rewrite map_empty_union.
Qed.

Hypothesis alloc_free : forall h, h !! alloc h = None.
Lemma htriple_new b : htriple emp (new_block b) (fun p => pts p b).
Proof.
  intros h hf Hh _. hnf in Hh. subst h. rewrite map_empty_union. exists (alloc hf), {[alloc hf := b]}. unfold new_block.
  rewrite <- insert_union_singleton_l. split; [done|]. split; [|done]. by apply map_disjoint_singleton_l.
Qed.
End heap.

#[export] Hint Resolve htriple_load htriple_store htriple_delete htriple_new : heap.

(** [l] without its first [x]. *)
Ltac without x l :=
  lazymatch l with
  | x :: ?l' => l'
  | ?y :: ?l' => let r := without x l' in constr:(y :: r)
  end.
Ltac owned :=
  lazymatch goal with |- htriple (seps ?Ps) _ _ => Ps end.
(** The next call uses the assertion [P]. *)
Tactic Notation "use_own" constr(P) uconstr(lem) :=
  let Ps := owned in let Rs := without P Ps in
  eapply (htriple_step Ps P Rs); [apply lem|solve_Permutation|cbv beta].
Tactic Notation "use_own_last" constr(P) uconstr(lem) :=
  let Ps := owned in let Rs := without P Ps in
  eapply (htriple_last Ps P Rs); [apply lem|solve_Permutation|cbv beta].
(** The goal has the assertions of [H] in another order. *)
Ltac from_own H :=
  lazymatch type of H with seps ?Ps _ => eapply (hprop_conv (seps Ps)); [apply seps_perm; solve_Permutation|exact H] end.
Ltac open_ex P :=
  let Ps := owned in let Rs := without (ex P) Ps in
  apply (htriple_exs Ps P Rs); [solve_Permutation|].
