(* ===== verification/TcpChannel.v ===== *)
(** TcpChannel (tcp_channel.h/.cc): the node ids it hands out as C structures, kept
    in process-wide caches and freed by the destructor.

    The heap of the C structures is explicit (Heap.v).  A channel is the address of
    its object, the key of the caches; a getter, and each part of the destructor,
    runs under the mutex of its cache and is one step.  [Recv] and [Send] are in
    Channel.v. *)
From S2P Require Import Prelude StdMap Json ConfigData Heap.
From Stdlib Require Import Strings.Byte Ascii.

Inductive block :=
  | BChars (l : list byte)                          (* char[] *)
  | BPtrs (l : list (option addr))                  (* char*[], NodeIDPair*[]; None: not yet assigned *)
  | BVec (node_count : Z) (node_ids : option addr)  (* NodeIDVec *)
  | BPair (node_id : option addr) (party_id : Z)    (* NodeIDPair *)
  | BMap (node_count : Z) (pairs : option addr).    (* NodeIDMap *)
Abbreviation heap := (gmap addr block).
Abbreviation hM := (M heap).

Definition bad_pointer {A} : hM A := lift (Err (UndefinedBehaviour "bad pointer")).

Section encode.
Context (alloc : heap -> addr).

(** [new char[size + 1]], [memset], [memcpy] *)
Definition encode_string (str : string) : hM addr :=
  let data := String.list_byte_of_string str in
  chars ← lift (memcpy (replicate (length data + 1) x00) 0 data 0 (Z.of_nat (length data)));
  new_block alloc (BChars chars).

(** [a[i] = p] and [a[i]] *)
Definition store_elem (arr : addr) (i : nat) (p : addr) : hM unit :=
  b ← load arr;
  match b with
  | BPtrs l => if (i <? length l)%nat then store arr (BPtrs (<[i := Some p]> l)) else bad_pointer
  | _ => bad_pointer
  end.
Definition load_elem (arr : addr) (i : nat) : hM addr :=
  b ← load arr;
  match b with
  | BPtrs l => match l !! i with Some (Some p) => mret p | _ => bad_pointer end
  | _ => bad_pointer
  end.
(** [node_count] and the array of a NodeIDVec or a NodeIDMap. *)
Definition load_array (p : addr) : hM (Z * addr) :=
  b ← load p;
  match b with
  | BVec n (Some arr) | BMap n (Some arr) => mret (n, arr)
  | _ => bad_pointer
  end.

(** [for (i = 0; ...; i++) { ... }] over the elements of a container. *)
Fixpoint fill {A} (assign : nat -> A -> hM unit) (i : nat) (l : list A) : hM unit :=
  match l with
  | [] => mret tt
  | x :: l' => _ ← assign i x; fill assign (S i) l'
  end.

Definition assign_id (res : addr) (i : nat) (s : string) : hM unit :=
  p ← encode_string s;
  a ← load_array res;
  store_elem a.2 i p.
Definition encode_vector (vec : list string) : hM addr :=
  let n := to_int32 (Z.of_nat (length vec)) in
  res ← new_block alloc (BVec 0 None);
  _ ← store res (BVec n None);
  arr ← new_block alloc (BPtrs (replicate (length vec) None));
  _ ← store res (BVec n (Some arr));
  _ ← fill (assign_id res) 0 vec;
  mret res.

Definition assign_pair (pointer : addr) (i : nat) (v : string * Z) : hM unit :=
  pair ← new_block alloc (BPair None 0);
  a ← load_array pointer;
  _ ← store_elem a.2 i pair;
  p ← encode_string v.1;
  _ ← store pair (BPair (Some p) 0);
  store pair (BPair (Some p) v.2).
(** The elements come in ascending order of the ids. *)
Definition encode_map (m : gmap string Z) : hM addr :=
  let n := to_int32 (Z.of_nat (base.size m)) in
  pointer ← new_block alloc (BMap 0 None);
  _ ← store pointer (BMap n None);
  arr ← new_block alloc (BPtrs (replicate (base.size m) None));
  _ ← store pointer (BMap n (Some arr));
  _ ← fill (assign_pair pointer) 0 (iter_map m);
  mret pointer.

(** The [delete]s of the destructor's parts. *)
Definition free_string (p : addr) : hM unit := delete_block p.
Definition free_id (res : addr) (i : nat) : hM unit :=
  a ← load_array res;
  p ← load_elem a.2 i;
  free_string p.
Definition free_pair (res : addr) (i : nat) : hM unit :=
  a ← load_array res;
  pair ← load_elem a.2 i;
  b ← load pair;
  match b with
  | BPair (Some p) _ => _ ← free_string p; delete_block pair
  | _ => bad_pointer
  end.
Definition free_array (free_elem : addr -> nat -> hM unit) (res : addr) : hM unit :=
  a ← load_array res;
  _ ← for_each (free_elem res) (seq 0 (Z.to_nat a.1));
  a ← load_array res;
  _ ← delete_block a.2;
  delete_block res.
Definition free_vector (res : addr) : hM unit := free_array free_id res.
Definition free_map (res : addr) : hM unit := free_array free_pair res.

(** * What the structures own *)
Definition chars_of (s : string) : list byte := String.list_byte_of_string s ++ [x00].
Definition string_at (p : addr) (s : string) : hprop := pts p (BChars (chars_of s)).
Definition pair_at (p : addr) (v : string * Z) : hprop :=
  ex (fun q => sep (pts p (BPair (Some q) v.2)) (string_at q v.1)).
(** An array of pointers at [arr] whose elements are [ps], each at its [P]. *)
Definition array_at {A} (P : addr -> A -> hprop) (arr : addr) (l : list A) : hprop :=
  ex (fun ps => seps [pure (length ps = length l); pts arr (BPtrs (Some <$> ps)); seps (zip_with P ps l)]).
Definition vector_at (p : addr) (vec : list string) : hprop :=
  ex (fun arr => seps [pts p (BVec (Z.of_nat (length vec)) (Some arr)); array_at string_at arr vec]).
Definition map_at (p : addr) (m : gmap string Z) : hprop :=
  ex (fun arr => seps [pts p (BMap (Z.of_nat (base.size m)) (Some arr)); array_at pair_at arr (iter_map m)]).

(** ** The array accesses *)
Lemma htriple_load_eq {A} (m : hM A) p b (f : block -> hM A) Q :
  m = (b ← load p; f b) -> htriple (pts p b) (f b) Q -> htriple (pts p b) m Q.
Proof.
  intros -> Hf. eapply htriple_bind; [apply htriple_load|]. intros b'. by apply htriple_pure; intros ->.
Qed.

Lemma store_elem_spec arr l i p :
  (i < length l)%nat ->
  htriple (pts arr (BPtrs l)) (store_elem arr i p) (fun _ => pts arr (BPtrs (<[i := Some p]> l))).
Proof.
  intros Hi. eapply htriple_load_eq; [reflexivity|]. cbv beta iota.
  rewrite (proj2 (Nat.ltb_lt i (length l)) Hi). apply htriple_store.
Qed.
Lemma load_elem_spec arr l i p :
  l !! i = Some (Some p) ->
  htriple (pts arr (BPtrs l)) (load_elem arr i) (fun a => sep (pure (a = p)) (pts arr (BPtrs l))).
Proof.
  intros Hi. eapply htriple_load_eq; [reflexivity|]. cbv beta iota. rewrite Hi.
  apply htriple_ret_eq.
Qed.

(** [b] is a NodeIDVec or a NodeIDMap with [n] elements at [arr]. *)
Definition header (b : block) (n : Z) (arr : addr) : Prop := b = BVec n (Some arr) \/ b = BMap n (Some arr).
Lemma load_array_spec p b n arr :
  header b n arr -> htriple (pts p b) (load_array p) (fun a => sep (pure (a = (n, arr))) (pts p b)).
Proof.
  intros Hb. eapply htriple_load_eq; [reflexivity|].
  destruct Hb as [-> | ->]; apply htriple_ret_eq.
Qed.

Lemma encode_string_spec s :
  (forall h, h !! alloc h = None) -> htriple emp (encode_string s) (fun p => string_at p s).
Proof.
  intros Ha. unfold encode_string. rewrite memcpy_ok by (rewrite ?length_replicate; lia).
  replace (splice _ _ _) with (chars_of s); [by apply htriple_new|].
  unfold splice, chars_of. cbn [Z.to_nat Nat.add]. rewrite Nat2Z.id, drop_0, firstn_all, take_0.
  by rewrite drop_replicate, Nat.add_comm, Nat.add_sub.
Qed.
Hypothesis alloc_free : forall h, h !! alloc h = None.

(** ** The loops *)
Lemma fill_spec {A} (assign : nat -> A -> hM unit) (P : addr -> A -> hprop) res b arr :
  (forall i x l, (i < length l)%nat ->
     htriple (seps [pts res b; pts arr (BPtrs l)]) (assign i x)
       (fun _ => ex (fun p => seps [pts res b; pts arr (BPtrs (<[i := Some p]> l)); P p x]))) ->
  forall vec (ps0 : list addr),
    htriple (seps [pts res b; pts arr (BPtrs ((Some <$> ps0) ++ replicate (length vec) None))])
      (fill assign (length ps0) vec)
      (fun _ => ex (fun ps => seps [pure (length ps = length vec); pts res b; pts arr (BPtrs (Some <$> ps0 ++ ps));
                                    seps (zip_with P ps vec)])).
Proof.
  intros Hassign. induction vec as [|x vec IH]; intros ps0; cbn [fill length replicate].
  - apply htriple_returns. intros h Hh. exists []. rewrite app_nil_r in *.
    apply sep_pure_l. split; [done|]. eapply hprop_conv; [|exact Hh]. cbn. by rewrite !(right_id emp sep).
  - eapply htriple_bind.
    { apply Hassign. rewrite length_app, length_fmap. cbn. lia. }
    intros []. cbv beta. apply htriple_ex. intros p.
    rewrite insert_app_r_alt by (by rewrite length_fmap). rewrite length_fmap, Nat.sub_diag. cbn [insert list_insert].
    specialize (IH (ps0 ++ [p])). rewrite length_app, Nat.add_1_r in IH.
    rewrite fmap_app, <- app_assoc in IH. cbn [fmap list_fmap app] in IH.
    eapply htriple_conseq; [| |apply (htriple_frame (P p x)), IH].
    + intros h. apply hprop_conv. cbn. by rewrite !(right_id emp sep), (assoc sep).
    + intros u h. cbv beta. intros [ps Hh]%sep_ex_l. exists (p :: ps).
      apply (hprop_conv _ _ _ (seps_snoc _ _)), sep_pure_l in Hh as [Hl Hh].
      apply sep_pure_l. split; [cbn; by rewrite Hl|]. rewrite <- app_assoc in Hh. eapply hprop_conv; [|exact Hh].
      transitivity (seps ([pts res b; pts arr (BPtrs (Some <$> ps0 ++ [p] ++ ps)); P p x] ++ [seps (zip_with P ps vec)])).
      * apply (seps_perm [_; _; _; _] [_; _; _; _]). solve_Permutation.
      * rewrite seps_nest. symmetry. apply (seps_nest [_; _]).
Qed.

Lemma assign_id_spec res n arr i s l :
  (i < length l)%nat ->
  htriple (seps [pts res (BVec n (Some arr)); pts arr (BPtrs l)]) (assign_id res i s)
    (fun _ => ex (fun p => seps [pts res (BVec n (Some arr)); pts arr (BPtrs (<[i := Some p]> l)); string_at p s])).
Proof.
  intros Hi. unfold assign_id.
  eapply htriple_alloc; [by apply encode_string_spec|]. intros p. cbv beta.
  use_own (pts res (BVec n (Some arr))) load_array_spec; [by left|]. intros a.
  apply htriple_headed. intros ->. cbn [snd].
  use_own_last (pts arr (BPtrs l)) store_elem_spec; [done|].
  intros u h Hh. exists p. from_own Hh.
Qed.

Lemma assign_pair_spec res n arr i v l :
  (i < length l)%nat ->
  htriple (seps [pts res (BMap n (Some arr)); pts arr (BPtrs l)]) (assign_pair res i v)
    (fun _ => ex (fun p => seps [pts res (BMap n (Some arr)); pts arr (BPtrs (<[i := Some p]> l)); pair_at p v])).
Proof.
  intros Hi. unfold assign_pair.
  eapply htriple_alloc; [by apply htriple_new|]. intros pair. cbv beta.
  use_own (pts res (BMap n (Some arr))) load_array_spec; [by right|]. intros a.
  apply htriple_headed. intros ->. cbn [snd].
  use_own (pts arr (BPtrs l)) store_elem_spec; [done|]. intros [].
  eapply htriple_alloc; [by apply encode_string_spec|]. intros p. cbv beta.
  use_own (pts pair (BPair None 0)) htriple_store. intros [].
  use_own_last (pts pair (BPair (Some p) 0)) htriple_store.
  intros u h Hh. exists pair.
  eapply hprop_conv; [apply (seps_perm [pair_at pair v; pts res (BMap n (Some arr)); pts arr (BPtrs (<[i:=Some pair]> l))]); solve_Permutation|].
  apply sep_ex_l. exists p. eapply hprop_conv; [apply (assoc sep)|].
  change (seps [pts pair (BPair (Some p) v.2); string_at p v.1; pts res (BMap n (Some arr)); pts arr (BPtrs (<[i:=Some pair]> l))] h).
  from_own Hh.
Qed.
(** ** The structures *)
Lemma array_unfold {A} (P : addr -> A -> hprop) H arr l :
  seps [H; array_at P arr l] ≡
  ex (fun ps => seps [pure (length ps = length l); H; pts arr (BPtrs (Some <$> ps)); seps (zip_with P ps l)]).
Proof.
  rewrite (seps_perm [H; _] [array_at P arr l; H]) by solve_Permutation. cbn [seps].
  unfold array_at at 1. rewrite sep_ex_l. apply ex_proper. intros ps.
  rewrite (right_id emp sep), seps_snoc. apply (seps_perm [_; _; _; _] [_; _; _; _]). solve_Permutation.
Qed.
Lemma encode_array_spec {A} (mk : Z -> option addr -> block) (assign : addr -> nat -> A -> hM unit) P n (l : list A) :
  (forall res arr i x ptrs, (i < length ptrs)%nat ->
     htriple (seps [pts res (mk n (Some arr)); pts arr (BPtrs ptrs)]) (assign res i x)
       (fun _ => ex (fun p => seps [pts res (mk n (Some arr)); pts arr (BPtrs (<[i := Some p]> ptrs)); P p x]))) ->
  htriple emp
    (res ← new_block alloc (mk 0 None);
     _ ← store res (mk n None);
     arr ← new_block alloc (BPtrs (replicate (length l) None));
     _ ← store res (mk n (Some arr));
     _ ← fill (assign res) 0 l;
     mret res)
    (fun p => ex (fun arr => seps [pts p (mk n (Some arr)); array_at P arr l])).
Proof.
  intros Hassign. change emp with (seps (V:=block) []).
  eapply htriple_alloc; [by apply htriple_new|]. intros res. cbv beta.
  use_own (pts res (mk 0 None)) htriple_store. intros [].
  eapply htriple_alloc; [by apply htriple_new|]. intros arr. cbv beta.
  use_own (pts res (mk n None)) htriple_store. intros [].
  eapply htriple_bind.
  { apply (fill_spec (assign res) P res (mk n (Some arr)) arr) with (ps0 := []). intros. by apply Hassign. }
  intros []. cbv beta. apply htriple_ex. intros ps. apply htriple_returns. intros h Hh. exists arr.
  apply array_unfold. by exists ps.
Qed.

Lemma encode_vector_spec vec :
  Z.of_nat (length vec) <= INT32_MAX -> htriple emp (encode_vector vec) (fun p => vector_at p vec).
Proof.
  intros Hl. unfold encode_vector, vector_at. rewrite to_int32_id by (unfold INT32_MIN, INT32_MAX in *; lia).
  apply (encode_array_spec BVec). intros. by apply assign_id_spec.
Qed.
Lemma encode_map_spec m :
  Z.of_nat (base.size m) <= INT32_MAX -> htriple emp (encode_map m) (fun p => map_at p m).
Proof.
  intros Hl. unfold encode_map, map_at. rewrite to_int32_id by (unfold INT32_MIN, INT32_MAX in *; lia).
  rewrite <- (length_iter_map m). apply (encode_array_spec BMap). intros. by apply assign_pair_spec.
Qed.

Lemma free_id_spec res n arr i ptrs p s :
  ptrs !! i = Some (Some p) ->
  htriple (seps [pts res (BVec n (Some arr)); pts arr (BPtrs ptrs); string_at p s]) (free_id res i)
    (fun _ => seps [pts res (BVec n (Some arr)); pts arr (BPtrs ptrs)]).
Proof.
  intros Hi. unfold free_id, free_string.
  use_own (pts res (BVec n (Some arr))) load_array_spec; [by left|]. intros a. apply htriple_headed. intros ->. cbn [snd].
  use_own (pts arr (BPtrs ptrs)) load_elem_spec; [done|]. intros a. apply htriple_headed. intros ->.
  use_own_last (string_at p s) htriple_delete. intros u h Hh. cbn [seps] in Hh.
  eapply hprop_conv; [|exact Hh]. rewrite (left_id emp sep). apply (seps_perm [_; _] [_; _]). solve_Permutation.
Qed.
Lemma free_pair_spec res n arr i ptrs p v :
  ptrs !! i = Some (Some p) ->
  htriple (seps [pts res (BMap n (Some arr)); pts arr (BPtrs ptrs); pair_at p v]) (free_pair res i)
    (fun _ => seps [pts res (BMap n (Some arr)); pts arr (BPtrs ptrs)]).
Proof.
  intros Hi. unfold free_pair, free_string.
  use_own (pts res (BMap n (Some arr))) load_array_spec; [by right|]. intros a. apply htriple_headed. intros ->. cbn [snd].
  use_own (pts arr (BPtrs ptrs)) load_elem_spec; [done|]. intros a. apply htriple_headed. intros ->.
  unfold pair_at. open_ex (fun q => sep (pts p (BPair (Some q) v.2)) (string_at q v.1)). intros q.
  apply htriple_unsep.
  use_own (pts p (BPair (Some q) v.2)) htriple_load. intros b. apply htriple_headed. intros ->.
  use_own (string_at q v.1) htriple_delete. intros []. apply htriple_emp.
  use_own_last (pts p (BPair (Some q) v.2)) htriple_delete. intros u h Hh. cbn [seps] in Hh.
  eapply hprop_conv; [|exact Hh]. rewrite (left_id emp sep). apply (seps_perm [_; _] [_; _]). solve_Permutation.
Qed.

(** The loop of a destructor frees the elements. *)
Lemma free_loop_spec {A} (P : addr -> A -> hprop) (body : nat -> hM unit) H arr (ps : list addr) :
  (forall i p x, ps !! i = Some p ->
     htriple (seps [H; pts arr (BPtrs (Some <$> ps)); P p x]) (body i) (fun _ => seps [H; pts arr (BPtrs (Some <$> ps))])) ->
  forall l ps1 ps0, ps = ps0 ++ ps1 -> length ps1 = length l ->
    htriple (seps [H; pts arr (BPtrs (Some <$> ps)); seps (zip_with P ps1 l)])
      (for_each body (seq (length ps0) (length l))) (fun _ => seps [H; pts arr (BPtrs (Some <$> ps))]).
Proof.
  intros Hbody. induction l as [|x l IH]; intros [|p ps1] ps0 Hps Hl; try done; cbn [length seq for_each zip_with].
  - apply htriple_returns. intros h Hh. eapply hprop_conv; [|exact Hh]. cbn. by rewrite !(right_id emp sep).
  - eapply (htriple_bind _ _ (fun _ => seps [H; pts arr (BPtrs (Some <$> ps)); seps (zip_with P ps1 l)])).
    + eapply htriple_conseq; [| |apply (htriple_frame (seps (zip_with P ps1 l))), (Hbody (length ps0) p x)].
      * intros h Hh. eapply hprop_conv; [|exact Hh]. 
        etrans; [apply (seps_nest [_; _] (P p x :: zip_with P ps1 l))|].
        symmetry. etrans; [apply seps_snoc|]. apply (seps_nest [_; _; _]).
      * intros u h Hh. eapply hprop_conv; [|exact Hh]. apply (seps_snoc [_; _]).
      * subst ps. by rewrite lookup_app_r, Nat.sub_diag by lia.
    + intros []. replace (S (length ps0)) with (length (ps0 ++ [p])) by (rewrite length_app; cbn; lia).
      apply IH; [by rewrite <- app_assoc|]. by injection Hl.
Qed.

Lemma free_array_spec {A} (mk : Z -> option addr -> block) (free_elem : addr -> nat -> hM unit) P n (l : list A) p :
  (forall arr, header (mk n (Some arr)) n arr) -> n = Z.of_nat (length l) ->
  (forall arr i ptrs q x, ptrs !! i = Some (Some q) ->
     htriple (seps [pts p (mk n (Some arr)); pts arr (BPtrs ptrs); P q x]) (free_elem p i)
       (fun _ => seps [pts p (mk n (Some arr)); pts arr (BPtrs ptrs)])) ->
  htriple (ex (fun arr => seps [pts p (mk n (Some arr)); array_at P arr l])) (free_array free_elem p) (fun _ => emp).
Proof.
  intros Hh Hn Hfree. apply htriple_ex. intros arr. rewrite array_unfold. apply htriple_ex. intros ps.
  apply htriple_pures_head. intros Hl. unfold free_array.
  use_own (pts p (mk n (Some arr))) load_array_spec; [apply Hh|]. intros a. apply htriple_headed. intros ->. cbn [fst].
  rewrite Hn, Nat2Z.id, <- Hn. eapply htriple_bind.
  { eapply htriple_conseq; [|intros u h Hu; exact Hu|apply (free_loop_spec P (free_elem p) (pts p (mk n (Some arr))) arr ps) with (ps0 := []) (ps1 := ps) (l := l)].
    - intros h Hs. from_own Hs.
    - intros i q x Hi. apply Hfree. by rewrite list_lookup_fmap, Hi.
    - done.
    - done. }
  intros []. cbv beta.
  use_own (pts p (mk n (Some arr))) load_array_spec; [apply Hh|]. intros a. apply htriple_headed. intros ->. cbn [snd].
  use_own (pts arr (BPtrs (Some <$> ps))) htriple_delete. intros []. apply htriple_emp.
  use_own_last (pts p (mk n (Some arr))) htriple_delete. intros u h Hs. eapply hprop_conv; [|exact Hs].
  cbn. by rewrite (left_id emp sep).
Qed.

Lemma free_vector_spec p vec : htriple (vector_at p vec) (free_vector p) (fun _ => emp).
Proof.
  apply (free_array_spec BVec); [by left|done|]. intros. by apply free_id_spec.
Qed.
Lemma free_map_spec p m : htriple (map_at p m) (free_map p) (fun _ => emp).
Proof.
  unfold map_at. rewrite <- length_iter_map. apply (free_array_spec BMap); [by right|done|].
  intros. by apply free_pair_spec.
Qed.
Lemma free_string_spec p s : htriple (string_at p s) (free_string p) (fun _ => emp).
Proof. apply htriple_delete. Qed.
End encode.

(** * What a caller reads *)
Definition read_string (h : heap) (p : addr) : option string :=
  match h !! p with Some (BChars l) => Some (c_str (String.string_of_list_byte l)) | _ => None end.
Definition read_pair (h : heap) (p : addr) : option (string * Z) :=
  match h !! p with
  | Some (BPair (Some q) party) => s ← read_string h q; Some (s, party)
  | _ => None
  end.
Definition read_array {A} (read_elem : heap -> addr -> option A) (h : heap) (p : addr) : option (list A) :=
  match h !! p with
  | Some (BVec n (Some arr)) | Some (BMap n (Some arr)) =>
      match h !! arr with
      | Some (BPtrs l) => mapM (fun q => q ≫= read_elem h) (take (Z.to_nat n) l)
      | _ => None
      end
  | _ => None
  end.
Definition read_vector : heap -> addr -> option (list string) := read_array read_string.
Definition read_map : heap -> addr -> option (list (string * Z)) := read_array read_pair.

Lemma c_str_chars s : c_str (String.string_of_list_byte (chars_of s)) = c_str s.
Proof.
  unfold chars_of. induction s as [|c s IH]; [done|]. cbn. rewrite Ascii.ascii_of_byte_of_ascii.
  destruct (Ascii.eqb c "000"%char); [done|]. f_equal. exact IH.
Qed.

Lemma pts_in p (b : block) h H : pts p b h -> h ⊆ H -> H !! p = Some b.
Proof. intros Hp Hs. hnf in Hp. subst h. eapply lookup_weaken; [apply lookup_singleton_eq|done]. Qed.
Lemma sep_in (P Q : @hprop block) h H : sep P Q h -> h ⊆ H -> exists h1 h2, (P h1 /\ h1 ⊆ H) /\ (Q h2 /\ h2 ⊆ H).
Proof.
  intros (h1 & h2 & -> & Hd & HP & HQ) Hs. exists h1, h2. split; (split; [done|]).
  - transitivity (h1 ∪ h2); [apply map_union_subseteq_l|done].
  - transitivity (h1 ∪ h2); [by apply map_union_subseteq_r|done].
Qed.

Lemma read_string_at p s h H : string_at p s h -> h ⊆ H -> read_string H p = Some (c_str s).
Proof. intros Hp Hs. unfold read_string. rewrite (pts_in _ _ _ _ Hp Hs). by rewrite c_str_chars. Qed.
Lemma read_pair_at p v h H : pair_at p v h -> h ⊆ H -> read_pair H p = Some (c_str v.1, v.2).
Proof.
  intros [q Hq] Hs. destruct (sep_in _ _ _ _ Hq Hs) as (h1 & h2 & [H1 ?] & [H2 ?]).
  unfold read_pair. rewrite (pts_in _ _ _ _ H1) by done. by rewrite (read_string_at _ _ _ _ H2).
Qed.
Lemma read_array_at {A B} (P : addr -> A -> hprop) (rd : heap -> addr -> option B) (f : A -> B) p b n arr l h H :
  (forall q x h, P q x h -> h ⊆ H -> rd H q = Some (f x)) -> header b n arr -> n = Z.of_nat (length l) ->
  seps [pts p b; array_at P arr l] h -> h ⊆ H -> read_array rd H p = Some (f <$> l).
Proof.
  intros Hrd Hb -> [ps [Hl Hr]%sep_pure_l]%array_unfold Hs.
  destruct (sep_in _ _ _ _ Hr Hs) as (h1 & h2 & [H1 ?] & [H2 Hs2]).
  destruct (sep_in _ _ _ _ H2 Hs2) as (h3 & h4 & [H3 ?] & [H4 Hs4]).
  destruct (sep_in _ _ _ _ H4 Hs4) as (h5 & h6 & [HZ Hs5] & _).
  unfold read_array. rewrite (pts_in _ _ _ _ H1) by done.
  assert (mapM (fun q => q ≫= rd H) (take (length l) (Some <$> ps)) = Some (f <$> l)) as E.
  { rewrite take_ge by (rewrite length_fmap; lia). clear - Hrd Hl HZ Hs5. revert ps h5 Hl HZ Hs5.
    induction l as [|x l IH]; intros [|q ps] h Hl Hh Hs; try done.
    destruct (sep_in _ _ _ _ Hh Hs) as (h1 & h2 & [H1 ?] & [H2 ?]). cbn.
    rewrite (Hrd _ _ _ H1) by done. cbn. rewrite (IH ps h2); [done| |done..]. by injection Hl. }
  destruct Hb as [-> | ->]; rewrite (pts_in _ _ _ _ H3) by done; by rewrite Nat2Z.id.
Qed.
Lemma read_vector_at p vec h H : vector_at p vec h -> h ⊆ H -> read_vector H p = Some (c_str <$> vec).
Proof.
  intros [arr Ha] Hs. eapply read_array_at; [..|exact Ha|done]; [|by left|done].
  intros q x h' Hq Hs'. by eapply read_string_at.
Qed.
Lemma read_map_at p m h H :
  map_at p m h -> h ⊆ H -> read_map H p = Some ((fun v => (c_str v.1, v.2)) <$> iter_map m).
Proof.
  intros [arr Ha] Hs. eapply read_array_at; [..|exact Ha|done]; [|by right|by rewrite length_iter_map].
  intros q x h' Hq Hs'. by eapply read_pair_at.
Qed.

(** * The channel object and the caches *)
Inductive cache := CCurrent | CData | CComputation | CResult | CConnected.
#[global] Instance cache_eq_dec : EqDecision cache.
Proof. solve_decision. Defined.

(** The heap and the five global maps, from a channel to the structure it handed out. *)
Record globals := mkGlobals {
  g_heap : heap;
  g_current_node_map : gmap addr addr;
  g_data_node_map : gmap addr addr;
  g_computation_node_map : gmap addr addr;
  g_result_node_map : gmap addr addr;
  g_connected_node_map : gmap addr addr }.

Definition table (k : cache) (g : globals) : gmap addr addr :=
  match k with
  | CCurrent => g_current_node_map g
  | CData => g_data_node_map g
  | CComputation => g_computation_node_map g
  | CResult => g_result_node_map g
  | CConnected => g_connected_node_map g
  end.
Definition set_table (k : cache) (m : gmap addr addr) (g : globals) : globals :=
  match k with
  | CCurrent => mkGlobals (g_heap g) m (g_data_node_map g) (g_computation_node_map g) (g_result_node_map g) (g_connected_node_map g)
  | CData => mkGlobals (g_heap g) (g_current_node_map g) m (g_computation_node_map g) (g_result_node_map g) (g_connected_node_map g)
  | CComputation => mkGlobals (g_heap g) (g_current_node_map g) (g_data_node_map g) m (g_result_node_map g) (g_connected_node_map g)
  | CResult => mkGlobals (g_heap g) (g_current_node_map g) (g_data_node_map g) (g_computation_node_map g) m (g_connected_node_map g)
  | CConnected => mkGlobals (g_heap g) (g_current_node_map g) (g_data_node_map g) (g_computation_node_map g) (g_result_node_map g) m
  end.
Definition set_heap (h : heap) (g : globals) : globals :=
  mkGlobals h (g_current_node_map g) (g_data_node_map g) (g_computation_node_map g)
    (g_result_node_map g) (g_connected_node_map g).
Definition on_heap {A} (m : hM A) : M globals A := fun g =>
  let '(r, h) := m (g_heap g) in (r, set_heap h g).

Section channel.
Context {IO : Type}.   (* the BasicIO object *)
Record TcpChannel := mkTcp {
  _net_io : option IO;
  channel_config_ : option ChannelConfig;
  self_node_info_ : NodeInfo;
  connected_nodes_ : list string }.

Definition make_TcpChannel (net_io : option IO) (config : option ChannelConfig) (node_info : NodeInfo) : TcpChannel :=
  mkTcp net_io config node_info [].
Definition SetConnectedNodeIDs (connected_nodes : list string) (ch : TcpChannel) : TcpChannel :=
  mkTcp (_net_io ch) (channel_config_ ch) (self_node_info_ ch) connected_nodes.

Definition config_of (ch : TcpChannel) : result ChannelConfig :=
  match channel_config_ ch with Some c => Ok c | None => Err (UndefinedBehaviour "null config") end.
Definition getDataNodeIDs (ch : TcpChannel) : result (list string) := data_nodes_ <$> config_of ch.
Definition getComputationNodeIDs (ch : TcpChannel) : result (gmap string Z) := compute_nodes_ <$> config_of ch.
Definition getResultNodeIDs (ch : TcpChannel) : result (list string) := result_nodes_ <$> config_of ch.
Definition getCurrentNodeID (ch : TcpChannel) : string := ni_id (self_node_info_ ch).
Definition getConnectedNodeIDs (ch : TcpChannel) : list string := connected_nodes_ ch.

Context (alloc : heap -> addr).

(** The body the five getters share: look the channel up; encode and remember. *)
Definition cached (k : cache) (this : addr) (encode : hM addr) : M globals addr :=
  found ← gets (fun g => table k g !! this);
  match found with
  | Some p => mret p
  | None =>
      nodes ← on_heap encode;
      _ ← modify (fun g => set_table k (<[this := nodes]> (table k g)) g);
      mret nodes
  end.
Definition GetDataNodeIDs (this : addr) (ch : TcpChannel) : M globals addr :=
  cached CData this (ids ← lift (getDataNodeIDs ch); encode_vector alloc ids).
Definition GetComputationNodeIDs (this : addr) (ch : TcpChannel) : M globals addr :=
  cached CComputation this (ids ← lift (getComputationNodeIDs ch); encode_map alloc ids).
Definition GetResultNodeIDs (this : addr) (ch : TcpChannel) : M globals addr :=
  cached CResult this (ids ← lift (getResultNodeIDs ch); encode_vector alloc ids).
Definition GetCurrentNodeID (this : addr) (ch : TcpChannel) : M globals addr :=
  cached CCurrent this (encode_string alloc (getCurrentNodeID ch)).
Definition GetConnectedNodeIDs (this : addr) (ch : TcpChannel) : M globals addr :=
  cached CConnected this (encode_vector alloc (getConnectedNodeIDs ch)).

(** The body the five parts of the destructor share. *)
Definition uncached (k : cache) (this : addr) (free : addr -> hM unit) : M globals unit :=
  found ← gets (fun g => table k g !! this);
  match found with
  | Some p =>
      _ ← on_heap (free p);
      modify (fun g => set_table k (delete this (table k g)) g)
  | None => mret tt
  end.
Definition DestroyCurrentNode (this : addr) : M globals unit := uncached CCurrent this free_string.
Definition DestroyDataNodes (this : addr) : M globals unit := uncached CData this free_vector.
Definition DestroyComputationNodes (this : addr) : M globals unit := uncached CComputation this free_map.
Definition DestroyResultNodes (this : addr) : M globals unit := uncached CResult this free_vector.
Definition DestroyConnectedNodes (this : addr) : M globals unit := uncached CConnected this free_vector.

Definition destroy_TcpChannel (this : addr) : M globals unit :=
  _ ← DestroyCurrentNode this;
  _ ← DestroyDataNodes this;
  _ ← DestroyComputationNodes this;
  _ ← DestroyResultNodes this;
  DestroyConnectedNodes this.

(** * Calls of several channels, in any order *)
Inductive call := Get (k : cache) (this : addr) | Destroy (k : cache) (this : addr).

(** The objects behind the addresses. *)
Context (chans : addr -> TcpChannel).
Definition get (k : cache) (this : addr) : M globals addr :=
  match k with
  | CCurrent => GetCurrentNodeID this (chans this)
  | CData => GetDataNodeIDs this (chans this)
  | CComputation => GetComputationNodeIDs this (chans this)
  | CResult => GetResultNodeIDs this (chans this)
  | CConnected => GetConnectedNodeIDs this (chans this)
  end.
Definition destroy (k : cache) (this : addr) : M globals unit :=
  match k with
  | CCurrent => DestroyCurrentNode this
  | CData => DestroyDataNodes this
  | CComputation => DestroyComputationNodes this
  | CResult => DestroyResultNodes this
  | CConnected => DestroyConnectedNodes this
  end.
Definition perform (c : call) : M globals unit :=
  match c with
  | Get k this => _ ← get k this; mret tt
  | Destroy k this => destroy k this
  end.

(** The getter [k] of [this] was called, and the structure not freed since. *)
Fixpoint held_by (k : cache) (this : addr) (cs : list call) (b : bool) : bool :=
  match cs with
  | [] => b
  | Get k' c :: cs' => held_by k this cs' (if decide (k' = k /\ c = this) then true else b)
  | Destroy k' c :: cs' => held_by k this cs' (if decide (k' = k /\ c = this) then false else b)
  end.

(** What a caller of getter [k] reads behind its pointer: ids are cut at a NUL. *)
Definition exposes (k : cache) (ch : TcpChannel) (h : heap) (p : addr) : Prop :=
  match k with
  | CCurrent => read_string h p = Some (c_str (ni_id (self_node_info_ ch)))
  | CData => exists c, channel_config_ ch = Some c /\ read_vector h p = Some (c_str <$> data_nodes_ c)
  | CComputation => exists c, channel_config_ ch = Some c /\
      read_map h p = Some ((fun v => (c_str v.1, v.2)) <$> iter_map (compute_nodes_ c))
  | CResult => exists c, channel_config_ ch = Some c /\ read_vector h p = Some (c_str <$> result_nodes_ c)
  | CConnected => read_vector h p = Some (c_str <$> connected_nodes_ ch)
  end.

(** A configured channel whose lists can be counted by an [int]. *)
Definition countable_ids (ch : TcpChannel) : Prop :=
  Z.of_nat (length (connected_nodes_ ch)) <= INT32_MAX /\
  exists c, channel_config_ ch = Some c /\
    Z.of_nat (length (data_nodes_ c)) <= INT32_MAX /\ Z.of_nat (base.size (compute_nodes_ c)) <= INT32_MAX /\
    Z.of_nat (length (result_nodes_ c)) <= INT32_MAX.

Hypothesis alloc_free : forall h, h !! alloc h = None.
Hypothesis chans_ok : forall this, countable_ids (chans this).

(** What the structure of a getter owns. *)
Definition holds (k : cache) (ch : TcpChannel) (p : addr) : hprop :=
  match k, channel_config_ ch with
  | CCurrent, _ => string_at p (ni_id (self_node_info_ ch))
  | CData, Some c => vector_at p (data_nodes_ c)
  | CComputation, Some c => map_at p (compute_nodes_ c)
  | CResult, Some c => vector_at p (result_nodes_ c)
  | CConnected, _ => vector_at p (connected_nodes_ ch)
  | _, None => emp
  end.

Lemma holds_exposes k this p h H : holds k (chans this) p h -> h ⊆ H -> exposes k (chans this) H p.
Proof.
  destruct (chans_ok this) as (_ & c & Hc & _). destruct k; cbn; rewrite ?Hc; intros Hh Hs.
  - by eapply read_string_at.
  - exists c. split; [done|by eapply read_vector_at].
  - exists c. split; [done|by eapply read_map_at].
  - exists c. split; [done|by eapply read_vector_at].
  - by eapply read_vector_at.
Qed.

Definition encoder (k : cache) (ch : TcpChannel) : hM addr :=
  match k with
  | CCurrent => encode_string alloc (getCurrentNodeID ch)
  | CData => ids ← lift (getDataNodeIDs ch); encode_vector alloc ids
  | CComputation => ids ← lift (getComputationNodeIDs ch); encode_map alloc ids
  | CResult => ids ← lift (getResultNodeIDs ch); encode_vector alloc ids
  | CConnected => encode_vector alloc (getConnectedNodeIDs ch)
  end.
Definition freer (k : cache) : addr -> hM unit :=
  match k with CCurrent => free_string | CComputation => free_map | _ => free_vector end.
Lemma get_cached k this : get k this = cached k this (encoder k (chans this)).
Proof. by destruct k. Qed.
Lemma destroy_uncached k this : destroy k this = uncached k this (freer k).
Proof. by destruct k. Qed.

Lemma encoder_spec k this : htriple emp (encoder k (chans this)) (fun p => holds k (chans this) p).
Proof.
  destruct (chans_ok this) as (Hn & c & Hc & Hd & Hm & Hr).
  destruct k; unfold encoder, holds, getDataNodeIDs, getComputationNodeIDs, getResultNodeIDs, config_of; rewrite ?Hc.
  - by apply encode_string_spec.
  - by apply (encode_vector_spec alloc).
  - by apply (encode_map_spec alloc).
  - by apply (encode_vector_spec alloc).
  - by apply encode_vector_spec.
Qed.
Lemma freer_spec k this p : htriple (holds k (chans this) p) (freer k p) (fun _ => emp).
Proof.
  destruct (chans_ok this) as (_ & c & Hc & _). destruct k; cbn; rewrite ?Hc.
  - apply free_string_spec.
  - apply free_vector_spec.
  - apply free_map_spec.
  - apply free_vector_spec.
  - apply free_vector_spec.
Qed.

(** ** Who owns the heap *)
Definition cell (k : cache) (g : globals) : hprop :=
  seps ((fun '(this, p) => holds k (chans this) p) <$> map_to_list (table k g)).
Definition all_caches : list cache := [CCurrent; CData; CComputation; CResult; CConnected].
Definition other_caches (k : cache) : list cache :=
  match k with
  | CCurrent => [CData; CComputation; CResult; CConnected]
  | CData => [CCurrent; CComputation; CResult; CConnected]
  | CComputation => [CCurrent; CData; CResult; CConnected]
  | CResult => [CCurrent; CData; CComputation; CConnected]
  | CConnected => [CCurrent; CData; CComputation; CResult]
  end.
Definition others (k : cache) (g : globals) : hprop :=
  seps ((fun k' => cell k' g) <$> other_caches k).
(** The heap is what the cached structures own and [h0], which nothing here touches. *)
Definition owned_heap (h0 : heap) (g : globals) : Prop :=
  exists h, g_heap g = h ∪ h0 /\ h ##ₘ h0 /\ seps ((fun k => cell k g) <$> all_caches) h.

Lemma owned_split k g : seps ((fun k => cell k g) <$> all_caches) ≡ sep (cell k g) (others k g).
Proof.
  change (sep (cell k g) (others k g)) with (seps (cell k g :: ((fun k' => cell k' g) <$> other_caches k))).
  apply seps_perm. destruct k; cbn [fmap list_fmap other_caches all_caches]; solve_Permutation.
Qed.
Lemma table_set k k' m g : table k' (set_table k m g) = if decide (k = k') then m else table k' g.
Proof. by destruct k, k'. Qed.
Lemma table_heap k h g : table k (set_heap h g) = table k g.
Proof. by destruct k. Qed.
Lemma heap_set k m g : g_heap (set_table k m g) = g_heap g.
Proof. by destruct k. Qed.
Lemma others_step k m h g : others k (set_table k m (set_heap h g)) ≡ others k g.
Proof. by destruct k. Qed.

Lemma cell_insert k this p m h g :
  table k g !! this = None -> m = <[this := p]> (table k g) ->
  cell k (set_table k m (set_heap h g)) ≡ sep (holds k (chans this) p) (cell k g).
Proof.
  intros Hn ->. unfold cell. rewrite table_set, decide_True by done.
  by rewrite (seps_perm _ _ (fmap_Permutation _ _ _ (map_to_list_insert _ _ _ Hn))).
Qed.
Lemma cell_delete k this p m h g :
  table k g !! this = Some p -> m = delete this (table k g) ->
  cell k g ≡ sep (holds k (chans this) p) (cell k (set_table k m (set_heap h g))).
Proof.
  intros Hs ->. unfold cell. rewrite table_set, decide_True by done.
  by rewrite <- (seps_perm _ _ (fmap_Permutation _ _ _ (map_to_list_delete _ _ _ Hs))).
Qed.

(** Take one structure out of what is owned. *)
Lemma owned_cell k this p h g :
  table k g !! this = Some p ->
  seps ((fun k => cell k g) <$> all_caches) ≡
  sep (holds k (chans this) p) (seps ((fun k' => cell k' (set_table k (delete this (table k g)) (set_heap h g))) <$> all_caches)).
Proof.
  intros E. rewrite (owned_split k g), (owned_split k (set_table _ _ _)), (assoc sep).
  by rewrite (cell_delete k this p _ h g E eq_refl), others_step.
Qed.

Lemma get_step h0 k this g :
  owned_heap h0 g -> exists p g', get k this g = (Ok p, g') /\ owned_heap h0 g' /\
    table k g' = <[this := p]> (table k g) /\
    (forall k', k' <> k -> table k' g' = table k' g) /\ (table k g !! this = Some p -> g' = g) /\
    (forall p', table k g !! this = Some p' -> p = p').
Proof.
  intros (h & Hh & Hd & Ho). rewrite get_cached. unfold cached, gets. cbv [mbind M_bind].
  destruct (table k g !! this) as [p|] eqn:E.
  - exists p, g. split; [done|]. split; [by exists h|]. rewrite insert_id by done. naive_solver.
  - destruct (encoder_spec k this ∅ (g_heap g)) as (p & hn & En & Hdn & Hp); [done|apply map_disjoint_empty_l|].
    rewrite map_empty_union in En. unfold on_heap. rewrite En. unfold modify. cbn.
    eexists p, _. split; [done|]. rewrite table_heap.
    split; [|split; [by rewrite table_set, decide_True|split; [|done]]].
    + exists (hn ∪ h). rewrite heap_set. cbn. rewrite Hh in Hdn |- *. apply map_disjoint_union_r in Hdn as [? ?].
      split; [by rewrite map_union_assoc|]. split; [by apply map_disjoint_union_l|].
      eapply hprop_conv; [symmetry; apply (owned_split k)|].
      eapply hprop_conv; [symmetry; apply sep_proper; [by apply (cell_insert k this p)|apply others_step]|].
      eapply hprop_conv; [apply (assoc sep)|]. exists hn, h. split_and!; [done..|].
      eapply hprop_conv; [apply (owned_split k)|exact Ho].
    + intros k' Hk. by rewrite table_set, decide_False, table_heap.
Qed.

Lemma destroy_step h0 k this g :
  owned_heap h0 g -> exists g', destroy k this g = (Ok tt, g') /\ owned_heap h0 g' /\
    table k g' = delete this (table k g) /\ forall k', k' <> k -> table k' g' = table k' g.
Proof.
  intros (h & Hh & Hd & Ho). rewrite destroy_uncached. unfold uncached, gets. cbv [mbind M_bind].
  destruct (table k g !! this) as [p|] eqn:E.
  - eapply hprop_conv in Ho; [|by apply (owned_cell k this p (g_heap g))].
    destruct Ho as (h1 & h2 & -> & Hd12 & H1 & H2). apply map_disjoint_union_l in Hd as [? ?].
    destruct (freer_spec k this p h1 (h2 ∪ h0)) as ([] & hn & En & _ & Hn); [done|by apply map_disjoint_union_r|].
    hnf in Hn. subst hn. rewrite map_empty_union, map_union_assoc, <- Hh in En.
    unfold on_heap. rewrite En. unfold modify. eexists. split; [done|]. rewrite table_heap.
    split; [|split; [by rewrite table_set, decide_True|]].
    + exists h2. rewrite heap_set. split; [done|]. split; [done|].
      eapply hprop_conv; [|exact H2]. apply seps_perm. by destruct k.
    + intros k' Hk. by rewrite table_set, decide_False, table_heap.
  - exists g. split; [done|]. split; [by exists h|]. by rewrite delete_id.
Qed.

Lemma owned_exposes h0 g k this p :
  owned_heap h0 g -> table k g !! this = Some p -> exposes k (chans this) (g_heap g) p.
Proof.
  intros (h & Hh & Hd & Ho) E. eapply hprop_conv in Ho; [|by apply (owned_cell k this p (g_heap g))].
  assert (h ⊆ g_heap g) as Hs by (rewrite Hh; apply map_union_subseteq_l).
  destruct (sep_in _ _ _ _ Ho Hs) as (h1 & _ & [H1 Hs1] & _). by eapply holds_exposes.
Qed.

Lemma owned_nothing h0 g : owned_heap h0 g -> (forall k, table k g = ∅) -> g_heap g = h0.
Proof.
  intros (h & -> & _ & Ho) Ht. cut (h = ∅); [intros ->; apply map_empty_union|].
  cut (emp h); [done|]. eapply hprop_conv; [|exact Ho]. cbn. unfold cell. rewrite !Ht, map_to_list_empty.
  cbn. by rewrite !(right_id emp sep).
Qed.

Definition table_held (k : cache) (this : addr) (b : bool) (g : globals) : Prop :=
  is_Some (table k g !! this) <-> b = true.
Lemma calls_run h0 cs g : owned_heap h0 g -> exists g', for_each perform cs g = (Ok tt, g') /\ owned_heap h0 g' /\
  forall k this b, table_held k this b g -> table_held k this (held_by k this cs b) g'.
Proof.
  revert g. induction cs as [|c cs IH]; intros g Hg; [by exists g|].
  cut (exists g1, perform c g = (Ok tt, g1) /\ owned_heap h0 g1 /\
    forall k this b, table_held k this b g -> table_held k this (held_by k this [c] b) g1).
  { intros (g1 & E & Hg1 & Ht). destruct (IH g1 Hg1) as (g' & E' & Hg' & Ht'). exists g'.
    split; [cbn; cbv [mbind M_bind]; by rewrite E|]. split; [done|]. intros k this b Hb.
    specialize (Ht' k this _ (Ht k this b Hb)). by destruct c. }
  clear IH. destruct c as [k this|k this]; cbn [perform held_by].
  - destruct (get_step h0 k this g Hg) as (p & g1 & E & Hg1 & Ht & Hts & _).
    exists g1. cbv [mbind M_bind]. rewrite E. split; [done|]. split; [done|]. intros k' c b Hb. unfold table_held.
    destruct (decide (k = k' /\ this = c)) as [[<- <-]|Hne].
    + rewrite Ht, lookup_insert_eq. naive_solver.
    + destruct (decide (k = k')) as [<-|Hk]; [|by rewrite Hts].
      rewrite Ht, lookup_insert_ne by naive_solver. exact Hb.
  - destruct (destroy_step h0 k this g Hg) as (g1 & E & Hg1 & Ht & Hts).
    exists g1. split; [done|]. split; [done|]. intros k' c b Hb. unfold table_held.
    destruct (decide (k = k' /\ this = c)) as [[<- <-]|Hne].
    + rewrite Ht, lookup_delete_eq. split; [by intros [? [=]]|done].
    + destruct (decide (k = k')) as [<-|Hk]; [|by rewrite Hts].
      rewrite Ht, lookup_delete_ne by naive_solver. exact Hb.
Qed.

Lemma destroy_TcpChannel_calls this g :
  destroy_TcpChannel this g = for_each perform ((fun k => Destroy k this) <$> all_caches) g.
Proof.
  unfold destroy_TcpChannel, all_caches. cbn [fmap list_fmap for_each perform destroy]. cbv [mbind M_bind mret M_ret].
  destruct (DestroyCurrentNode this g) as [[[]|e] g1]; [|done].
  destruct (DestroyDataNodes this g1) as [[[]|e] g2]; [|done].
  destruct (DestroyComputationNodes this g2) as [[[]|e] g3]; [|done].
  destruct (DestroyResultNodes this g3) as [[[]|e] g4]; [|done].
  by destruct (DestroyConnectedNodes this g4) as [[[]|e] g5].
Qed.

Lemma held_by_app k this cs1 cs2 b : held_by k this (cs1 ++ cs2) b = held_by k this cs2 (held_by k this cs1 b).
Proof. clear; revert b; induction cs1 as [|[k' c|k' c] cs1 IH]; intros b; cbn; [done|apply IH..]. Qed.
Lemma held_by_absent k this cs :
  (forall k', Get k' this ∉ cs) -> held_by k this cs false = false.
Proof.
  clear. induction cs as [|[k' c|k' c] cs IH]; intros Hn; cbn; [done|..].
  - rewrite decide_False; [apply IH; intros k2 ?; apply (Hn k2); set_solver|].
    intros [-> ->]. apply (Hn k). set_solver.
  - case_decide; apply IH; intros k2 ?; apply (Hn k2); set_solver.
Qed.
(** The destructor's steps, for each channel of [l]. *)
Definition destructors (l : list addr) : list call := l ≫= fun this => (fun k => Destroy k this) <$> all_caches.
Lemma held_by_destructors k this l b :
  held_by k this (destructors l) b = if decide (this ∈ l) then false else b.
Proof.
  clear. revert b. induction l as [|c l IH]; intros b; [done|].
  change (destructors (c :: l)) with (((fun k => Destroy k c) <$> all_caches) ++ destructors l).
  rewrite held_by_app, IH. destruct (decide (this ∈ l)).
  - rewrite decide_True by set_solver. done.
  - destruct (decide (c = this)) as [->|Hc].
    + rewrite decide_True by set_solver. destruct k; cbn; repeat case_decide; naive_solver.
    + rewrite decide_False by set_solver. cbn. repeat case_decide; naive_solver.
Qed.
Lemma destructors_run l g :
  for_each destroy_TcpChannel l g = for_each perform (destructors l) g.
Proof.
  revert g. induction l as [|c l IH]; intros g; [done|].
  change (destructors (c :: l)) with (((fun k => Destroy k c) <$> all_caches) ++ destructors l).
  rewrite for_each_app. cbn [for_each]. cbv [mbind M_bind]. rewrite destroy_TcpChannel_calls.
  by destruct (for_each perform _ g) as [[[]|e] g1].
Qed.
Lemma globals_eq g1 g2 : g_heap g1 = g_heap g2 -> (forall k, table k g1 = table k g2) -> g1 = g2.
Proof.
  intros H Ht. destruct g1, g2. pose proof (Ht CCurrent). pose proof (Ht CData). pose proof (Ht CComputation).
  pose proof (Ht CResult). pose proof (Ht CConnected). cbn in *. congruence.
Qed.
Lemma table_held_start k this g : table k g = ∅ -> table_held k this false g.
Proof. intros Ht. unfold table_held. rewrite Ht, lookup_empty. by split; [intros [? [=]]|]. Qed.
Lemma owned_start g : (forall k, table k g = ∅) -> owned_heap (g_heap g) g.
Proof.
  intros Ht. exists ∅. rewrite map_empty_union. split_and!; [done|apply map_disjoint_empty_l|].
  eapply hprop_conv; [|exact (eq_refl : emp (∅ : heap))]. cbn. unfold cell. rewrite !Ht, map_to_list_empty.
  cbn. by rewrite !(right_id emp sep).
Qed.
End channel.
Arguments TcpChannel : clear implicits.

(** * Properties *)

(** C18: Whatever getters and destructor parts of whatever channels run, in whatever
    order, none of them touches freed memory or frees a block twice.  Afterwards a
    structure is cached exactly when its getter ran and it was not freed since; the
    getter returns that same pointer again and changes nothing, and behind it a caller
    reads the ids of the channel (each up to its first NUL). *)
Theorem node_ids_memory_safe {IO} (alloc : heap -> addr) (chans : addr -> TcpChannel IO) cs g0 :
  (forall h, h !! alloc h = None) -> (forall this, countable_ids (chans this)) -> (forall k, table k g0 = ∅) ->
  exists g, for_each (perform alloc chans) cs g0 = (Ok tt, g) /\
    (forall k this, is_Some (table k g !! this) <-> held_by k this cs false = true) /\
    forall k this p, table k g !! this = Some p ->
      get alloc chans k this g = (Ok p, g) /\ exposes k (chans this) (g_heap g) p.
Proof.
  intros Ha Hc Ht. destruct (calls_run alloc chans Ha Hc (g_heap g0) cs g0 (owned_start chans g0 Ht)) as (g & E & Hg & Hh).
  exists g. split; [done|]. split.
  - intros k this. apply Hh, table_held_start, Ht.
  - intros k this p Hp. split; [|by eapply owned_exposes].
    destruct (get_step alloc chans Ha Hc (g_heap g0) k this g Hg) as (p' & g' & Eg & _ & _ & _ & Hsame & Hp').
    pose proof (Hp' p Hp) as ->. by rewrite Eg, Hsame.
Qed.

(** C19: The destructor leaks nothing: when every channel whose getters ran is
    destroyed, the heap and the five caches are exactly what they were at first. *)
Theorem destructors_restore_memory {IO} (alloc : heap -> addr) (chans : addr -> TcpChannel IO) cs l g0 :
  (forall h, h !! alloc h = None) -> (forall this, countable_ids (chans this)) -> (forall k, table k g0 = ∅) ->
  (forall k this, Get k this ∈ cs -> this ∈ l) ->
  (_ ← for_each (perform alloc chans) cs; for_each destroy_TcpChannel l) g0 = (Ok tt, g0).
Proof.
  intros Ha Hc Ht Hl.
  destruct (calls_run alloc chans Ha Hc (g_heap g0) (cs ++ destructors l) g0 (owned_start chans g0 Ht)) as (g & E & Hg & Hh).
  rewrite for_each_app in E. cbv [mbind M_bind] in E |- *.
  destruct (for_each (perform alloc chans) cs g0) as [[[]|e] g1]; [|done].
  rewrite (destructors_run alloc chans), E.
  assert (forall k, table k g = ∅) as Hg0.
  { intros k. apply map_eq. intros this. rewrite lookup_empty. apply eq_None_not_Some.
    intros Hs%(proj1 (Hh k this false (table_held_start k this g0 (Ht k)))). revert Hs.
    rewrite held_by_app, held_by_destructors. case_decide as Hi; [done|].
    rewrite (held_by_absent k this cs); [done|]. intros k' ?%Hl. done. }
  f_equal. apply globals_eq; [by eapply owned_nothing|]. intros k. by rewrite Hg0, Ht.
Qed.

(** Two channels and an allocator that takes the first free address. *)
Definition first_free (h : heap) : addr := fresh (dom h : gset addr).
Definition two_nodes : ChannelConfig :=
  set_data_nodes ["d0"; "d1"] (set_compute_nodes {["c0" := 0; "c1" := 1]} ChannelConfig_default).
Definition sample_info : NodeInfo :=
  mkNodeInfo "d0" "1:1" "" "" IcePlugCfg_default IcePlugCfg_default "" "" "" "" "" "" "" "" "" "" "" "" "" "" "".
Definition sample_channel : TcpChannel unit :=
  SetConnectedNodeIDs ["d1"] (make_TcpChannel None (Some two_nodes) sample_info).
Definition no_globals : globals := mkGlobals {[7%nat := BChars [x00]]} ∅ ∅ ∅ ∅ ∅.
Lemma first_free_free h : h !! first_free h = None.
Proof. apply (not_elem_of_dom (D:=gset addr)), (is_fresh (dom h : gset addr)). Defined.
Definition sample_calls : list call :=
  [Get CData 1; Get CComputation 2; Get CData 2; Destroy CData 1; Get CCurrent 1; Get CData 1; Get CConnected 2].

Lemma node_ids_memory_safe_witness :
  exists g, for_each (perform first_free (fun _ => sample_channel)) sample_calls no_globals = (Ok tt, g) /\
    exists p, table CComputation g !! 2%nat = Some p /\ read_map (g_heap g) p = Some [("c0", 0); ("c1", 1)].
Proof.
  destruct (node_ids_memory_safe first_free (fun _ => sample_channel) sample_calls no_globals) as (g & E & Hh & Hr).
  - apply first_free_free.
  - intros _. split; [by vm_compute|]. exists two_nodes. split; [done|]. by vm_compute.
  - by intros [].
  - exists g. split; [exact E|]. destruct (proj2 (Hh CComputation 2%nat) eq_refl) as [p Hp].
    exists p. split; [exact Hp|]. destruct (Hr _ _ _ Hp) as [_ (c & [= <-] & ->)]. by vm_compute.
Defined.

Lemma destructors_restore_memory_witness :
  (_ ← for_each (perform first_free (fun _ => sample_channel)) sample_calls; for_each destroy_TcpChannel [1%nat; 2%nat])
    no_globals = (Ok tt, no_globals).
Proof.
  apply (destructors_restore_memory first_free (fun _ => sample_channel) sample_calls [1%nat; 2%nat] no_globals).
  - apply first_free_free.
  - intros _. split; [by vm_compute|]. exists two_nodes. split; [done|]. by vm_compute.
  - by intros [].
  - intros k this. unfold sample_calls. set_solver.
Defined.
