(* ===== verification/Channel.v ===== *)
(** The library's entry points: IoChannelImpl (io_channel_impl.h/.cc), which creates
    channels, the sends and receives of TcpChannel, and the APIManager that the Python
    module exports (pybind11/api_manager.h).

    [GetPolicy] is in Policy.v, the getters and the destructor of TcpChannel in
    TcpChannel.v.  Node and message ids cross this layer as C strings. *)
From S2P Require Import Prelude StdMap Timer Events CycleBuffer Connection Json ConfigData Config.
From S2P Require Import ConfigSpec Policy Wire Servant Generated Client Server Rendezvous AsyncNode NetIO Startup Heap TcpChannel.
From Stdlib Require Import Strings.Byte.
#[local] Open Scope Z_scope.

Section channel.
Context {B : Type} `{MsgBuffer B} (USE_BUFFER STATIC_CALL ASYNC_SERVER : bool) `{IceStream}.
Context {SC SA CC Stub W : Type} (ices : IceServer SC SA) (icec : IceClient CC Stub).
Context (serve : Stub -> Current -> bytes -> W -> result bytes * W).
Context (order : gset string -> list string).
Abbreviation io_t := (@ViaNetIO B SC SA Stub).
Abbreviation tcp_t := (TcpChannel io_t).

Definition set_net_io (io : io_t) (ch : tcp_t) : tcp_t :=
  mkTcp (Some io) (channel_config_ ch) (self_node_info_ ch) (connected_nodes_ ch).

(** A call on the BasicIO of the channel, which the caller has checked. *)
Definition on_net_io {A} (m : M (io_t * W) A) : M (tcp_t * W) A := fun '(ch, w) =>
  match _net_io ch with
  | None => (Err (UndefinedBehaviour "null BasicIO"), (ch, w))
  | Some io => let '(r, (io', w')) := m (io, w) in (r, (set_net_io io' ch, w'))
  end.

(** * TcpChannel::Recv and TcpChannel::Send; [data] is [None] for a null pointer. *)
Definition Recv (env : Env) (remote_node_id msg_id : string) (data : option bytes) (length timeout : Z)
  : M (tcp_t * W) (Z * option bytes) :=
  no_io ← gets (fun '(ch, _) => bool_decide (_net_io ch = None));
  if no_io : bool then mret (0, data)
  else match data with
       | None => mret (0, data)
       | Some d =>
           '(ret, d') ← on_net_io (net_recv env remote_node_id msg_id d length timeout);
           mret (ret, Some d')
       end.

Definition Send (env : Env) (remote_node_id msg_id : string) (data : bytes) (length timeout : Z) : M (tcp_t * W) Z :=
  no_io ← gets (fun '(ch, _) => bool_decide (_net_io ch = None));
  if no_io : bool then mret 0
  else on_net_io (net_send STATIC_CALL serve env remote_node_id msg_id data length timeout).

(** * IoChannelImpl *)
Record IoChannelImpl := mkImpl { io_channel_ : option tcp_t }.
Abbreviation implM := (M (IoChannelImpl * W)).

(** A call on the channel [io_channel_] points to. *)
Definition on_channel {A} (none : A) (m : M (tcp_t * W) A) : implM A := fun '(impl, w) =>
  match io_channel_ impl with
  | None => (Ok none, (impl, w))   (* "io channel is nullptr." *)
  | Some ch => let '(r, (ch', w')) := m (ch, w) in (r, (mkImpl (Some ch'), w'))
  end.

(** The result of the receive is not looked at. *)
Definition impl_Recv (env : Env) (remote_node_id : string) (recv_len : Z) : implM bytes :=
  let str := replicate (Z.to_nat recv_len) x00 in
  on_channel []
    ('(_, str') ← Recv env (c_str remote_node_id) "" (Some str) recv_len 0; mret (default str str')).
Definition impl_Send (env : Env) (remote_node_id : string) (data : bytes) : implM Z :=
  on_channel 0 (Send env (c_str remote_node_id) "" data (Z.of_nat (length data)) 0).

(** [error_callback] may be null; it is only called when [init] returns [false]. *)
Definition CreateViaChannel (env : Env) (junk : char) (node_info : NodeInfo) (config : ChannelConfig)
    (remote_server_infos : via_set) (clientNodeIds : gset string) (error_callback : bool) : implM (option tcp_t) :=
  fun '(impl, w) =>
    match init USE_BUFFER STATIC_CALL ASYNC_SERVER ices icec serve order env config junk
            (make_ViaNetIO node_info remote_server_infos clientNodeIds, w) with
    | (Err e, (_, w')) => (Err e, (impl, w'))
    | (Ok true, (net_io, w')) =>
        let tcp_channel := SetConnectedNodeIDs (iter_set clientNodeIds)
                             (make_TcpChannel (Some net_io) (Some config) node_info) in
        (Ok (Some tcp_channel), (mkImpl (Some tcp_channel), w'))
    | (Ok false, (_, w')) =>
        (if error_callback then Ok None else Err (UndefinedBehaviour "null error_callback"), (impl, w'))
    end.

Section create.
Context (SSL_TYPE : Z) (open_file : string -> option string) (Parse : string -> option json).

Definition CreateIoChannel (env : Env) (junk : char) (self_node_id config_str : string) (error_cb : bool)
  : implM (option tcp_t) :=
  config ← lift (make_ChannelConfig SSL_TYPE open_file Parse self_node_id config_str);
  node ← lift (GetNode self_node_id config);
  let '(copied, config1) := CopyNodeInfo SSL_TYPE NodeInfo_default node config in
  node_info ← lift copied;
  let '(found, (config2, clientNodeIds, remote_server_infos)) :=
    GetNodeInfos SSL_TYPE self_node_id (config1, ∅, ∅) in
  _ ← lift found;
  CreateViaChannel env junk node_info config2 remote_server_infos clientNodeIds error_cb.

(** [~IoChannelImpl] deletes the channel [io_channel_] points to: what that does to the
    node ids that were handed out.  The clients and the service of its [_net_io] go with
    it; that part is [destroy_ViaNetIO]. *)
Definition destroy_IoChannelImpl (io_channel : option addr) : M globals (option addr) :=
  match io_channel with
  | Some p => _ ← destroy_TcpChannel p; mret None
  | None => mret None
  end.

(** * APIManager: the calls Python makes, with [process_error] as callback. *)
Definition api_GetPolicy (config_str : string) : result string := GetPolicy SSL_TYPE open_file Parse config_str.
Definition create_channel (env : Env) (junk : char) (node_id config_str : string) : implM (option tcp_t) :=
  CreateIoChannel env junk node_id config_str true.
Definition api_Recv (env : Env) (node_id : string) (recv_len : Z) : implM bytes := impl_Recv env node_id recv_len.
Definition api_Send (env : Env) (node_id : string) (data : bytes) : implM Z := impl_Send env node_id data.
End create.
End channel.
Arguments IoChannelImpl B SC SA Stub : clear implicits.

(** * The identity of a channel *)
Section identity.
Context {B : Type} `{MsgBuffer B} (STATIC_CALL : bool) `{IceStream} {SC SA Stub W : Type}.
Context (serve : Stub -> Current -> bytes -> W -> result bytes * W).
Abbreviation io_t := (@ViaNetIO B SC SA Stub).
Abbreviation tcp_t := (TcpChannel io_t).

(** What makes a channel the one it is; its BasicIO changes as it is used. *)
Definition identity (ch : tcp_t) : option ChannelConfig * NodeInfo * list string :=
  (channel_config_ ch, self_node_info_ ch, connected_nodes_ ch).

(** A call on the channel keeps its identity. *)
Definition keeps_identity {A} (m : M (tcp_t * W) A) : Prop :=
  forall ch w r s', m (ch, w) = (r, s') -> identity s'.1 = identity ch.
Lemma keeps_bind {A A'} (m : M (tcp_t * W) A) (f : A -> M (tcp_t * W) A') :
  keeps_identity m -> (forall a, keeps_identity (f a)) -> keeps_identity (m ≫= f).
Proof.
  intros Hm Hf ch w r s'. cbv [mbind M_bind]. destruct (m (ch, w)) as [[a|e] [ch1 w1]] eqn:E.
  - intros E2. rewrite (Hf a _ _ _ _ E2). exact (Hm _ _ _ _ E).
  - intros [= <- <-]. exact (Hm _ _ _ _ E).
Qed.
Lemma keeps_ret {A} (a : A) : keeps_identity (mret a).
Proof. by intros ch w r s' [= <- <-]. Qed.
Lemma keeps_gets {A} (f : tcp_t * W -> A) : keeps_identity (gets f).
Proof. by intros ch w r s' [= <- <-]. Qed.
Lemma keeps_net_io {A} (m : M (io_t * W) A) : keeps_identity (on_net_io m).
Proof.
  intros ch w r s'. unfold on_net_io. destruct (_net_io ch) as [io|]; [|by intros [= <- <-]].
  destruct (m (io, w)) as [o [io' w']]. by intros [= <- <-].
Qed.
#[local] Hint Resolve keeps_bind keeps_ret keeps_gets keeps_net_io : core.

Lemma keeps_Send env nid msgid data len t : keeps_identity (Channel.Send STATIC_CALL serve env nid msgid data len t).
Proof. unfold Channel.Send. apply keeps_bind; [done|]. by intros []. Qed.
Lemma keeps_Recv env nid msgid data len t : keeps_identity (Channel.Recv (B:=B) (SC:=SC) (SA:=SA) (Stub:=Stub) env nid msgid data len t).
Proof.
  unfold Channel.Recv. apply keeps_bind; [done|]. intros []; [done|]. destruct data as [d|]; [|done].
  apply keeps_bind; [done|]. by intros [].
Qed.

End identity.

(** * Properties *)
#[global] Instance conn_sync_same : Proper (same_config ==> eq) conn_sync_.
Proof. intros ??. by apply same_field. Qed.
#[global] Instance cfg_buffer_size_same : Proper (same_config ==> eq) cfg_buffer_size_.
Proof. intros ??. by apply same_field. Qed.
#[global] Instance clients_of_same : Proper (same_config ==> eq ==> eq) clients_of.
Proof. intros c c' H ? self <-. unfold clients_of. by rewrite !(map_policy_same _ _ H), (task_nodes_same _ _ H). Qed.
#[global] Instance servers_of_same : Proper (same_config ==> eq ==> eq) servers_of.
Proof. intros c c' H ? self <-. unfold servers_of. by rewrite !(map_policy_same _ _ H), (task_nodes_same _ _ H). Qed.

Lemma reads_keeps {A} (m : M ChannelConfig A) f c : reads m f -> triple (same_config c) m (fun _ => same_config c).
Proof. intros Hm c1 a c2 H E. destruct (Hm c1) as (c3 & E3 & ?). rewrite E in E3. injection E3 as _ ->. by etrans. Qed.
Lemma CopyNodeInfo_keeps SSL_TYPE ni n c copied c1 :
  CopyNodeInfo SSL_TYPE ni n c = (Ok copied, c1) -> same_config c c1 /\ ni_id copied = NODE_ID n.
Proof.
  intros E. split.
  - assert (triple (same_config c) (CopyNodeInfo SSL_TYPE ni n) (fun _ => same_config c)) as H; [|by eapply H].
    unfold CopyNodeInfo. keeps using (eapply reads_keeps; solve [auto with channel]).
  - revert E. unfold CopyNodeInfo. intros (? & ? & _ & H)%M_bind_Ok.
    repeat (apply M_bind_Ok in H as (? & ? & _ & H)). by injection H as <- _.
Qed.

Lemma infos_outcome_true c self b : infos_outcome c self = Ok b -> b = true.
Proof.
  unfold infos_outcome. destruct (check_known c _); [|done]. case_decide; [|by intros [= <-]].
  destruct (handle_event_any C_EVENT_CODE_NEITHER_CLIENT_SERVER "" [VaStr self]) as [e Ee]. by rewrite Ee.
Qed.
Lemma init_true B `{MsgBuffer B} USE_BUFFER STATIC_CALL ASYNC_SERVER `{IceStream} {SC SA CC Stub W : Type}
    (ices : IceServer SC SA) (icec : IceClient CC Stub) (serve : Stub -> Current -> bytes -> W -> result bytes * W)
    order env config junk (s s' : @ViaNetIO B SC SA Stub * W) b :
  init USE_BUFFER STATIC_CALL ASYNC_SERVER ices icec serve order env config junk s = (Ok b, s') -> b = true.
Proof. unfold init. intros Hrun. repeat (apply M_bind_Ok in Hrun as (? & ? & _ & Hrun)). by injection Hrun as <- _. Qed.

(** C1: The channel a node gets is the one the document describes.  When
    [CreateIoChannel] returns, the node is one of the task, the channel has a
    connection for exactly its clients and a client object for exactly its servers
    under the policy, [GetConnectedNodeIDs] lists its clients in order, every server
    answered, with connection synchronisation every client's flag has arrived, and
    the process-wide channel is this one.  It never returns a null pointer. *)
Theorem created_channel_follows_policy B `{MsgBufferLaws B} (USE_BUFFER STATIC_CALL ASYNC_SERVER : bool) `{IceStream} {SC SA CC Stub W : Type}
    (ices : IceServer SC SA) (icec : IceClient CC Stub) (serve : Stub -> Current -> bytes -> W -> result bytes * W)
    (order : gset string -> list string) SSL_TYPE open_file Parse (env : Env) junk self text cb impl w r impl' w' :
  (forall s, order s ≡ₚ elements s) ->
  (forall nid, writes_ok (e_arrived env nid) /\ Forall (fun t => writes_ok (turn_writes t)) (e_turns env nid)) ->
  (forall c, make_ChannelConfig SSL_TYPE open_file Parse self text = Ok c ->
     mb_size_ok (if USE_BUFFER then cfg_buffer_size_ c else 1024 * 8) /\ Z.of_nat (base.size (clients_of c self)) < 2 ^ 32) ->
  CreateIoChannel USE_BUFFER STATIC_CALL ASYNC_SERVER ices icec serve order SSL_TYPE open_file Parse env junk self text cb (impl, w)
    = (Ok r, (impl', w')) ->
  exists c ch io, make_ChannelConfig SSL_TYPE open_file Parse self text = Ok c /\
    r = Some ch /\ io_channel_ impl' = Some ch /\ _net_io ch = Some io /\ self ∈ task_nodes_ c /\
    dom (client_conn_map_ io) = clients_of c self /\ dom (client_obj_map_ io) = servers_of c self /\
    connected_nodes_ ch = iter_set (clients_of c self) /\
    (forall nid, nid ∈ servers_of c self -> answered env nid) /\
    (conn_sync_ c = true -> forall nid, nid ∈ clients_of c self -> flag_arrived env nid).
Proof.
  intros Ho Ha Hsz. unfold CreateIoChannel.
  intros (c & s1 & [= Hc <-] & Hrun)%M_bind_Ok. apply M_bind_Ok in Hrun as (n & s1 & [= Hn <-] & Hrun).
  destruct (Hsz c Hc) as [Hb Hcl]. clear Hsz.
  destruct (CopyNodeInfo SSL_TYPE NodeInfo_default n c) as [copied c1] eqn:Ecopy.
  apply M_bind_Ok in Hrun as (ni & s1 & [= -> <-] & Hrun).
  destruct (CopyNodeInfo_keeps _ _ _ _ _ _ Ecopy) as [Hsame _].
  destruct (node_infos_run SSL_TYPE c1 self) as (c2 & cl & sv & Einfo & Hsame2 & Hsets). rewrite Einfo in Hrun.
  apply M_bind_Ok in Hrun as (found & s1 & Hf & Hrun). injection Hf as Hok <-.
  assert (found = true) as -> by (by eapply infos_outcome_true).
  destruct (Hsets Hok) as [-> ->]. unfold CreateViaChannel in Hrun.
  destruct (init _ _ _ _ _ _ _ _ _ _ _) as [[b|e] [io w1]] eqn:Einit; [|done].
  assert (b = true) as -> by (by eapply init_true). injection Hrun as <- <- <-.
  assert (same_config c c2) as Hsame12 by (by etrans).
  rewrite (clients_of_same _ _ Hsame _ _ eq_refl) in Hcl.
  rewrite (cfg_buffer_size_same _ _ Hsame12) in Hb.
  pose proof (dom_via_table SSL_TYPE c1 _ (infos_outcome_ok c1 self Hok)) as Hdom.
  destruct (init_run USE_BUFFER STATIC_CALL ASYNC_SERVER ices icec serve order Ho env c2 junk Hb Ha ni
    (via_table SSL_TYPE c1 (servers_of c1 self)) (clients_of c1 self) w true io w1) as ([Hd1 Hd2] & Hans & Hflag).
  - intros k v. rewrite lookup_via_table. case_decide; [apply via_info_id|done].
  - done.
  - exact Einit.
  - rewrite Hdom in Hd2, Hans. exists c, (SetConnectedNodeIDs (iter_set (clients_of c1 self)) (make_TcpChannel (Some io) (Some c2) ni)), io.
    rewrite (clients_of_same _ _ Hsame _ _ eq_refl), (servers_of_same _ _ Hsame _ _ eq_refl), (conn_sync_same _ _ Hsame12).
    split_and!; try done.
    destruct (make_ChannelConfig_ok _ _ _ _ _ _ Hc) as (Hwf & _).
    rewrite (GetNode_run SSL_TYPE c self Hwf) in Hn. case_decide; [done|].
    destruct (handle_event_any C_EVENT_CODE_NO_FIND_NID (task_id_ c) [VaStr self]) as [e Ee]. by rewrite Ee in Hn.
Qed.

(** Node "a" of the sample document. *)
Abbreviation sample_create :=
  (CreateIoChannel (B:=MsgQueue.queue) (H0:=Encoding11.encoding) false false false accepting_server accepting_client
    (fun (_ : string) _ _ (w : unit) => (Ok [], w)) elements 0 (fun _ => None)
    (fun _ => Some (JObject (sample_doc [JString "b"]))) sync_env x00 "a" "{}" true (mkImpl None, tt)).

Lemma created_channel_follows_policy_witness :
  exists ch io impl w, sample_create = (Ok (Some ch), (impl, w)) /\ _net_io ch = Some io /\
    dom (client_conn_map_ io) = {["b"]} /\ dom (client_obj_map_ io) = {["b"]} /\ connected_nodes_ ch = ["b"] /\
    answered sync_env "b".
Proof.
  destruct sample_create as [[r|e] [impl w]] eqn:E; [|apply (f_equal (fun x => match x.1 with Ok _ => true | Err _ => false end)) in E; vm_compute in E; discriminate].
  destruct (created_channel_follows_policy MsgQueue.queue (H1:=Encoding11.encoding) false false false accepting_server accepting_client
    (fun (_ : string) _ _ (w : unit) => (Ok [], w)) elements 0 (fun _ => None)
    (fun _ => Some (JObject (sample_doc [JString "b"]))) sync_env x00 "a" "{}" true (mkImpl None) tt r impl w)
    as (c & ch & io & Hc & -> & _ & Hio & _ & Hconn & Hobj & Hids & Hans & _); [done| | |exact E|].
  - intros nid. split; [constructor|]. repeat constructor. by vm_compute.
  - intros c Hc. vm_compute in Hc. injection Hc as <-. split; [done|by vm_compute].
  - exists ch, io, impl, w. vm_compute in Hc. injection Hc as <-.
    split; [reflexivity|]. split; [exact Hio|]. split; [rewrite Hconn; vm_compute; reflexivity|].
    split; [rewrite Hobj; vm_compute; reflexivity|]. split; [rewrite Hids; vm_compute; reflexivity|].
    apply Hans. vm_compute. done.
Defined.

(** Reading the document leaves what a start depends on as it was. *)
Lemma favourable_same STATIC_CALL ASYNC_SERVER `{IceStream} {SC SA CC Stub W : Type} (ices : IceServer SC SA) (icec : IceClient CC Stub)
    (serve : Stub -> Current -> bytes -> W -> result bytes * W) env c c' alive ni infos ids :
  same_config c c' -> favourable STATIC_CALL ASYNC_SERVER ices icec serve env c alive ni infos ids ->
  favourable STATIC_CALL ASYNC_SERVER ices icec serve env c' alive ni infos ids.
Proof.
  intros Hs [Ht Hsv Hcl Hf].
  rewrite (same_field send_timeout_ c c' (fun _ => eq_refl) Hs), (same_field conn_timeout_ c c' (fun _ => eq_refl) Hs),
    (same_field ping_time_ c c' (fun _ => eq_refl) Hs), (conn_sync_same _ _ Hs) in Ht.
  rewrite (task_id_same _ _ Hs) in Hsv. rewrite (conn_sync_same _ _ Hs) in Hf.
  split; [done|done| |done]. by setoid_rewrite (task_id_same _ _ Hs) in Hcl.
Qed.

(** C2: How a channel comes about, for every document the constructor accepts.  A node
    the task does not have is answered by an event.  So is one with a server that the
    document does not describe, or with neither clients nor servers while there is a
    policy ([infos_outcome]).  Any other node gets its channel when
    the surroundings are favourable: the timeouts are numbers of milliseconds, Ice
    starts the service and makes the clients, every server answers before the time is
    spent and every client's flag comes before the wait for it is timed out.  Then
    [CreateIoChannel] of the default build returns a channel: it neither raises nor
    blocks. *)
Theorem channel_is_created STATIC_CALL ASYNC_SERVER `{IceStream} {SC SA CC Stub W : Type}
    (ices : IceServer SC SA) (icec : IceClient CC Stub) (serve : Stub -> Current -> bytes -> W -> result bytes * W)
    (order : gset string -> list string) SSL_TYPE open_file Parse (env : Env) junk self text cb impl w (alive : W -> Prop) c :
  (forall s, order s ≡ₚ elements s) ->
  make_ChannelConfig SSL_TYPE open_file Parse self text = Ok c -> Z.of_nat (base.size (clients_of c self)) < 2 ^ 32 ->
  let create := CreateIoChannel (B:=MsgQueue.queue) false STATIC_CALL ASYNC_SERVER ices icec serve order
    SSL_TYPE open_file Parse env junk self text cb (impl, w) in
  (self ∉ task_nodes_ c -> create = (HANDLE_EXCEPTION_EVENT C_EVENT_CODE_NO_FIND_NID (task_id_ c) [VaStr self], (impl, w))) /\
  (self ∈ task_nodes_ c -> forall e, infos_outcome c self = Err e -> create = (Err e, (impl, w))) /\
  (self ∈ task_nodes_ c -> forall found, infos_outcome c self = Ok found ->
    favourable STATIC_CALL ASYNC_SERVER ices icec serve env c alive (own_info SSL_TYPE c self)
      (via_table SSL_TYPE c (servers_of c self)) (clients_of c self) ->
    alive w ->
    exists ch impl' w', create = (Ok (Some ch), (impl', w')) /\ io_channel_ impl' = Some ch /\ alive w').
Proof.
  intros Ho Hc Hsz create. subst create. destruct (make_ChannelConfig_ok _ _ _ _ _ _ Hc) as (Hwf & _).
  unfold CreateIoChannel, lift. cbv [mbind M_bind]. rewrite Hc. split.
  { intros Hself. rewrite (proj1 (GetNode_exact SSL_TYPE c self Hwf)), decide_False by done.
    destruct (handle_event_any C_EVENT_CODE_NO_FIND_NID (task_id_ c) [VaStr self]) as [e He]. by rewrite !He. }
  destruct (decide (self ∈ task_nodes_ c)) as [Hself|]; [|done].
  destruct (own_info_run SSL_TYPE c self Hwf Hself) as (_ & n & c1 & -> & Hcopy). rewrite Hcopy.
  destruct (CopyNodeInfo_keeps _ _ _ _ _ _ Hcopy) as [Hsame _].
  destruct (node_infos_run SSL_TYPE c1 self) as (c2 & cl & sv & Einfo & Hsame2 & Hsets). rewrite Einfo.
  rewrite <- (infos_outcome_same _ _ Hsame self self eq_refl) in *. split; [by intros _ e ->|]. intros _ found Eo.
  rewrite Eo, (infos_outcome_true _ _ _ Eo) in *. destruct (Hsets eq_refl) as [-> ->]. intros Hfav Hw.
  rewrite <- (clients_of_same _ _ Hsame self self eq_refl), <- (servers_of_same _ _ Hsame self self eq_refl).
  assert (via_table SSL_TYPE c1 (servers_of c self) = via_table SSL_TYPE c (servers_of c self)) as ->.
  { apply map_eq. intros k. rewrite !lookup_via_table. by rewrite (via_info_of_same _ _ _ Hsame k k eq_refl). }
  destruct (init_succeeds STATIC_CALL ASYNC_SERVER ices icec serve order env c2 junk alive Ho (own_info SSL_TYPE c self)
    (via_table SSL_TYPE c (servers_of c self)) (clients_of c self) Hsz) with (w := w) as (io & w' & E & Hw').
  { eapply favourable_same; [|done]. by etrans. } { done. }
  unfold CreateViaChannel. rewrite E. do 3 eexists. split; [reflexivity|done].
Qed.

(** Node "a" of the sample document starts. *)
Definition config_at_a : ChannelConfig := sample_at "a".

Lemma sample_favourable :
  favourable (H:=Encoding11.encoding) false false accepting_server accepting_client (fun (_ : string) _ _ (w : unit) => (Ok [], w))
    sync_env config_at_a (fun _ => True) (own_info 0 config_at_a "a") (via_table 0 config_at_a (servers_of config_at_a "a")) (clients_of config_at_a "a").
Proof.
  assert (forall conns : gmap string (ClientConnection MsgQueue.queue),
    exists srv, start_server accepting_server false (own_info 0 config_at_a "a") (task_id_ config_at_a) conns = Ok srv) as Hs
    by (intros conns; eexists; vm_compute; reflexivity).
  revert Hs. generalize (own_info 0 config_at_a "a"). intros ni Hs.
  assert (servers_of config_at_a "a" = {["b"]} /\ clients_of config_at_a "a" = {["b"]}) as [-> ->] by (vm_compute; done).
  split.
  - do 3 eexists. do 3 (split; [vm_compute; reflexivity|]). intros k _.
    exists [mkAttempt (Lost "refused") 1], 1000000001, []. split; [reflexivity|]. repeat constructor.
  - exact Hs.
  - intros k v Hk. split.
    { rewrite lookup_via_table in Hk. case_decide; [by eapply via_info_id|done]. }
    rewrite lookup_via_table in Hk. case_decide as Hb; [|done]. apply elem_of_singleton in Hb as ->.
    vm_compute in Hk. injection Hk as <-. eexists. split; [vm_compute; reflexivity|]. by split.
  - intros _ k _. exists 1%nat, (mkTurn 5 [] Timeout), x31, []. split; [by repeat constructor|done].
Qed.

Lemma channel_is_created_witness :
  exists ch impl w', sample_create = (Ok (Some ch), (impl, w')) /\ io_channel_ impl = Some ch /\ True.
Proof.
  apply (channel_is_created false false accepting_server accepting_client (fun (_ : string) _ _ (w : unit) => (Ok [], w)) elements
    0 (fun _ => None) (fun _ => Some (JObject (sample_doc [JString "b"]))) sync_env x00 "a" "{}" true (mkImpl None) tt
    (fun _ => True) config_at_a ltac:(done) ltac:(vm_compute; reflexivity) ltac:(vm_compute; reflexivity)) with (found := true).
  - assert (task_nodes_ config_at_a = {["a"; "b"]}) as -> by (vm_compute; reflexivity). set_solver.
  - vm_compute. reflexivity.
  - exact sample_favourable.
  - done.
Defined.

(** ** A send and a receive through the whole stack *)
Section through.
Context {B : Type} `{MsgBuffer B} {SC SA Stub W : Type}.
Implicit Types (impl : IoChannelImpl B SC SA Stub) (env : Env).

(** [Send] to a server of this node is the [send] of its client object. *)
Lemma impl_Send_run STATIC_CALL `{IceStream} (serve : Stub -> Current -> bytes -> W -> result bytes * W)
    env b data impl ch io cl w :
  io_channel_ impl = Some ch -> _net_io ch = Some io -> client_obj_map_ io !! b = Some cl -> no_nul b = true ->
  exists f, impl_Send STATIC_CALL serve env b data (impl, w) =
    let '(o, w', cl') := send STATIC_CALL (serve (stub_ cl)) cl (e_now env) (ni_id (node_info_ io)) b "" data
      (Z.of_nat (length data)) 0 (e_attempts env b) w in (o, (f cl', w')).
Proof.
  intros Hi Hn Hcl Hb. unfold impl_Send, on_channel, Send, gets, on_net_io.
  cbv [mbind M_bind]. rewrite Hi, bool_decide_eq_false_2 by (by rewrite Hn). rewrite Hn.
  unfold net_send, gets. cbv [mbind M_bind]. rewrite c_str_id, bool_decide_eq_true_2 by (done || by eexists).
  unfold client_send, gets, on_client. cbv [mbind M_bind]. rewrite Hcl.
  exists (fun cl' => mkImpl (Some (set_net_io (set_clients (<[b := cl']> (client_obj_map_ io)) io) ch))).
  by destruct (send _ _ _ _ _ _ _ _ _ _ _ _) as [[o w'] cl'].
Qed.

(** [Recv] from a client of this node is the [recv] of its connection, its result dropped. *)
Lemma impl_Recv_run env a n impl ch io conn (w : W) ret d c' :
  io_channel_ impl = Some ch -> _net_io ch = Some io -> client_conn_map_ io !! a = Some conn -> no_nul a = true ->
  e_arrived env a = [] ->
  recv (e_now env) conn "" (replicate (Z.to_nat n) x00) n 0 (e_turns env a) = Ok (Some (ret, d), c') ->
  impl_Recv env a n (impl, w) =
    (Ok d, (mkImpl (Some (set_net_io (set_conns (<[a := c']> (client_conn_map_ io)) io) ch)), w)).
Proof.
  intros Hi Hn Hc Ha Harr Hr. unfold impl_Recv, on_channel, Recv, gets, on_net_io. cbv [mbind M_bind].
  rewrite Hi, bool_decide_eq_false_2 by (by rewrite Hn). rewrite Hn.
  unfold net_recv, gets. cbv [mbind M_bind]. rewrite c_str_id by done.
  rewrite bool_decide_eq_true_2 by (by eexists). unfold on_connection. rewrite Hc, Harr.
  cbn [conn_writes]. cbv [mbind result_bind]. by rewrite Hr.
Qed.
End through.

(** In the default build the oldest waiting message fills the front of the block. *)
Lemma impl_Recv_front {SC SA Stub W} env a n (impl : IoChannelImpl MsgQueue.queue SC SA Stub) ch io conn (w : W) t turns d q :
  io_channel_ impl = Some ch -> _net_io ch = Some io -> client_conn_map_ io !! a = Some conn -> no_nul a = true ->
  e_arrived env a = [] -> e_turns env a = t :: turns -> pending conn "" = d :: q -> Z.of_nat (length d) <= n ->
  exists s, impl_Recv env a n (impl, w) = (Ok (d ++ replicate (Z.to_nat n - length d) x00), s).
Proof.
  intros Hi Hn Hc Ha Harr Ht Hp Hl. eexists. eapply impl_Recv_run; [done..|]. rewrite Ht. unfold recv. cbn [recv_loop].
  rewrite (queue_iter_front _ _ _ _ _ _ d q), memcpy_whole.
  - cbn. unfold splice. rewrite take_0, drop_replicate. reflexivity.
  - rewrite length_replicate. lia.
  - unfold pending in Hp. destruct (mapbuffer_ conn !! ""); cbn in Hp; [by rewrite Hp|done].
Qed.

(** C4: A message reaches the peer.  When the [Send] of one node returns, it returns
    the length of the data; and when no other message of that node was waiting or
    arrives before, the [Recv] of the other node, asked for that many bytes, returns
    exactly the data, whatever happened to the attempts in between. *)
Theorem sent_message_is_received STATIC_CALL `{IceStreamLaws} check {SC SA Stub SC' SA' Stub' W : Type} (envA envB : Env)
    a b data (implA : IoChannelImpl MsgQueue.queue SC SA Stub) chA ioA cl
    (chB : TcpChannel (@ViaNetIO MsgQueue.queue SC' SA' Stub')) ioB conns conn t turns n implA' conns' (w : W) :
  (forall m, check m m = Ok tt) -> data_fits (mkData "" a data) -> no_nul a = true -> no_nul b = true ->
  io_channel_ implA = Some chA -> _net_io chA = Some ioA -> ni_id (node_info_ ioA) = a -> client_obj_map_ ioA !! b = Some cl ->
  conns !! a = Some conn -> pending conn "" = [] -> e_arrived envB a = [] -> e_turns envB a = t :: turns ->
  impl_Send STATIC_CALL (fun _ => servant_serve check STATIC_CALL) envA b data (implA, conns) = (Ok n, (implA', conns')) ->
  n = Z.of_nat (length data) /\
  exists s, impl_Recv envB a n (mkImpl (Some (set_net_io (set_conns conns' ioB) chB)), w) = (Ok data, s).
Proof.
  intros Hck Hf Ha Hb HiA HnA Hself Hcl Hconn Hpend Harr Hturns Hsend.
  destruct (impl_Send_run STATIC_CALL (fun _ => servant_serve check STATIC_CALL) envA b data implA chA ioA cl conns HiA HnA Hcl Hb) as [f Er].
  rewrite Hself in Er. rewrite Er in Hsend. destruct (send _ _ _ _ _ _ _ _ _ _ _ _) as [[o conns1] cl1] eqn:E.
  injection Hsend as -> _ <-.
  destruct (sent_pending STATIC_CALL check Hck cl _ _ _ _ _ _ _ _ _ _ _ _ Hf Hconn Hpend E) as (-> & conn' & k & Hc' & Hp).
  split; [done|].
  destruct (impl_Recv_front envB a (Z.of_nat (length data)) (mkImpl (Some (set_net_io (set_conns conns1 ioB) chB)))
    (set_net_io (set_conns conns1 ioB) chB) (set_conns conns1 ioB) conn' w t turns data (replicate k data)) as [s Hs]; [done..|lia|].
  exists s. by rewrite Hs, Nat2Z.id, Nat.sub_diag, app_nil_r.
Qed.

(** Node "a" sends, and an answer is lost; node "b" then receives. *)
Definition lossy_env : Env :=
  mkEnv 0 0 (fun _ => [mkAttempt (AnswerLost "timeout") 1; mkAttempt Answered 1000000001]) (fun _ => []) (fun _ => [mkTurn 0 [] Timeout]).
Definition client_of_b : BaseClient unit := mkClient "t" tt 5000 "b" (start 0).
Definition chan_of (io : @ViaNetIO MsgQueue.queue unit unit unit) : TcpChannel ViaNetIO := make_TcpChannel (Some io) None info_a.

Lemma sent_message_is_received_witness :
  exists implA' conns' s,
    impl_Send (H0:=Encoding11.encoding) true (fun _ => servant_serve (fun _ _ => Ok tt) true) lossy_env "b" [x05; x06]
      (mkImpl (Some (chan_of (set_clients {["b" := client_of_b]} (make_ViaNetIO info_a ∅ ∅)))), {["a" := make_ClientConnection 0 "a"]})
      = (Ok 2, (implA', conns')) /\
    impl_Recv lossy_env "a" 2 (mkImpl (Some (set_net_io (set_conns conns' (make_ViaNetIO info_a ∅ ∅)) (chan_of (make_ViaNetIO info_a ∅ ∅)))), tt)
      = (Ok [x05; x06], s).
Proof.
  destruct (impl_Send (H0:=Encoding11.encoding) true (fun _ => servant_serve (fun _ _ => Ok tt) true) lossy_env "b" [x05; x06]
      (mkImpl (Some (chan_of (set_clients {["b" := client_of_b]} (make_ViaNetIO info_a ∅ ∅)))), {["a" := make_ClientConnection 0 "a"]}))
    as [[n|e] [implA' conns']] eqn:E; [|apply (f_equal (fun x => match x.1 with Ok _ => true | Err _ => false end)) in E; vm_compute in E; discriminate].
  destruct (sent_message_is_received true (fun _ _ => Ok tt) lossy_env lossy_env "a" "b" [x05; x06]
    (mkImpl (Some (chan_of (set_clients {["b" := client_of_b]} (make_ViaNetIO info_a ∅ ∅)))))
    (chan_of (set_clients {["b" := client_of_b]} (make_ViaNetIO info_a ∅ ∅)))
    (set_clients {["b" := client_of_b]} (make_ViaNetIO info_a ∅ ∅)) client_of_b
    (chan_of (make_ViaNetIO info_a ∅ ∅)) (make_ViaNetIO info_a ∅ ∅) {["a" := make_ClientConnection 0 "a"]} (make_ClientConnection 0 "a") (mkTurn 0 [] Timeout) [] n implA' conns' tt
    ltac:(done) ltac:(by repeat split) eq_refl eq_refl eq_refl eq_refl eq_refl eq_refl eq_refl eq_refl eq_refl eq_refl E) as [-> [s Hs]].
  exists implA', conns', s. split; [reflexivity|exact Hs].
Defined.

(** C5: A message reaches an asynchronous peer.  When the [Send] of one node to a node of
    the ASYNC_SERVER build that is in service returns, it returns the length of the data
    although the message may still be queued.  And when no other message of that node
    was stored or queued, none arrives before, and the workers have run, the [Recv] of
    the other node, asked for that many bytes, returns exactly the data.  In service is
    a node whose requests so far were of its clients, and that is not shutting down. *)
Theorem sent_to_async_is_received `{IceStreamLaws} `{!IceSlices} check {SC SA Stub SC' SA' Stub' W : Type} (envA envB : Env)
    a b data (implA : IoChannelImpl MsgQueue.queue SC SA Stub) chA ioA cl
    (chB : TcpChannel (@ViaNetIO MsgQueue.queue SC' SA' Stub')) ioB conns tr s conn t turns n implA' s' (w : W) :
  (forall m, check m m = Ok tt) -> data_fits (mkData "" a data) -> no_nul a = true -> no_nul b = true ->
  io_channel_ implA = Some chA -> _net_io chA = Some ioA -> ni_id (node_info_ ioA) = a -> client_obj_map_ ioA !! b = Some cl ->
  node_steps (node_init conns) tr s -> Forall (in_service conns) tr -> is_Some (conns !! a) ->
  flush s !! a = Some conn -> pending conn "" = [] -> e_arrived envB a = [] -> e_turns envB a = t :: turns ->
  impl_Send true (fun _ => async_serve check) envA b data (implA, s) = (Ok n, (implA', s')) ->
  n = Z.of_nat (length data) /\
  exists workers s2, node_steps s' ((fun nid => Worker nid []) <$> workers) s2 /\
    exists st, impl_Recv envB a n (mkImpl (Some (set_net_io (set_conns (n_conns s2) ioB) chB)), w) = (Ok data, st).
Proof.
  intros Hck Hf Ha Hb HiA HnA Hself Hcl Hst Htr Hin Hconn Hpend Harr Hturns Hsend.
  destruct (impl_Send_run true (fun _ => async_serve check) envA b data implA chA ioA cl s HiA HnA Hcl Hb) as [f Er].
  rewrite Hself in Er. rewrite Er in Hsend. destruct (send _ _ _ _ _ _ _ _ _ _ _ _) as [[o s1] cl1] eqn:E.
  injection Hsend as -> _ <-. destruct (node_simulated _ _ _ Hst Htr) as [Hv _].
  destruct (send_alike check conns cl _ _ _ _ _ _ _ _ _ _ _ Hck Hf Hin Hv E) as [Hv1 E1].
  destruct (sent_pending true check Hck cl _ _ _ _ _ _ _ _ _ _ _ _ Hf Hconn Hpend E1) as (-> & conn' & k & Hc' & Hp).
  split; [done|]. destruct (workers_finish conns s1 Hv1) as (workers & s2 & Hst2 & Hconns & _).
  exists workers, s2. split; [done|]. rewrite <- Hconns in Hc'.
  destruct (impl_Recv_front envB a (Z.of_nat (length data)) (mkImpl (Some (set_net_io (set_conns (n_conns s2) ioB) chB)))
    (set_net_io (set_conns (n_conns s2) ioB) chB) (set_conns (n_conns s2) ioB) conn' w t turns data (replicate k data)) as [st Hs]; [done..|lia|].
  exists st. by rewrite Hs, Nat2Z.id, Nat.sub_diag, app_nil_r.
Qed.

(** Node "a" sends to an asynchronous node "b". *)
Definition conns_at_b : gmap string (ClientConnection MsgQueue.queue) := {["a" := make_ClientConnection 0 "a"]}.
Definition io_at_a : @ViaNetIO MsgQueue.queue unit unit unit := set_clients {["b" := client_of_b]} (make_ViaNetIO info_a ∅ ∅).

Lemma sent_to_async_is_received_witness :
  exists implA' s' workers s2 st,
    impl_Send (H0:=Encoding11.encoding) true (fun _ => async_serve (fun _ _ => Ok tt)) lossy_env "b" [x05; x06]
      (mkImpl (Some (chan_of io_at_a)), node_init conns_at_b) = (Ok 2, (implA', s')) /\
    node_steps s' ((fun nid => Worker nid []) <$> workers) s2 /\
    impl_Recv lossy_env "a" 2 (mkImpl (Some (set_net_io (set_conns (n_conns s2) (make_ViaNetIO info_a ∅ ∅)) (chan_of (make_ViaNetIO info_a ∅ ∅)))), tt)
      = (Ok [x05; x06], st).
Proof.
  destruct (impl_Send (H0:=Encoding11.encoding) true (fun _ => async_serve (fun _ _ => Ok tt)) lossy_env "b" [x05; x06]
      (mkImpl (Some (chan_of io_at_a)), node_init conns_at_b))
    as [[n|e] [implA' s']] eqn:E; [|apply (f_equal (fun x => match x.1 with Ok _ => true | Err _ => false end)) in E; vm_compute in E; discriminate].
  destruct (sent_to_async_is_received (fun _ _ => Ok tt) lossy_env lossy_env "a" "b" [x05; x06]
    (mkImpl (Some (chan_of io_at_a))) (chan_of io_at_a) io_at_a client_of_b
    (chan_of (make_ViaNetIO info_a ∅ ∅)) (make_ViaNetIO info_a ∅ ∅) conns_at_b [] (node_init conns_at_b)
    (make_ClientConnection 0 "a") (mkTurn 0 [] Timeout) [] n implA' s' tt
    ltac:(done) ltac:(by repeat split) eq_refl eq_refl eq_refl eq_refl eq_refl eq_refl
    (node_steps_refl _) (Forall_nil_2 _) ltac:(by eexists) eq_refl eq_refl eq_refl eq_refl E)
    as (-> & workers & s2 & Hst & st & Hs).
  exists implA', s', workers, s2, st. split; [reflexivity|]. split; [exact Hst|exact Hs].
Defined.

(** C38: [Recv] cannot report that nothing came.  It drops the result of the receive and
    returns its block: after a timeout that is as many zero bytes as were asked for, as
    if the peer had sent them; and a message shorter than that is padded with zeros. *)
Theorem recv_pads_with_zeros {SC SA Stub W} env a n (impl : IoChannelImpl MsgQueue.queue SC SA Stub) ch io conn (w : W) now wake turns :
  io_channel_ impl = Some ch -> _net_io ch = Some io -> client_conn_map_ io !! a = Some conn -> no_nul a = true ->
  e_arrived env a = [] -> e_turns env a = mkTurn now [] wake :: turns ->
  match pending conn "" with
  | [] => wake = Timeout -> exists s, impl_Recv env a n (impl, w) = (Ok (replicate (Z.to_nat n) x00), s)
  | d :: _ => Z.of_nat (length d) <= n ->
      exists s, impl_Recv env a n (impl, w) = (Ok (d ++ replicate (Z.to_nat n - length d) x00), s)
  end.
Proof.
  intros Hi Hn Hc Ha Harr Ht. destruct (pending conn "") as [|d q] eqn:Hp; intros Hw; [|by eapply impl_Recv_front].
  eexists. eapply (impl_Recv_run _ _ _ _ _ _ conn); [done..|]. rewrite Ht, Hw. unfold recv. cbn [recv_loop].
  assert (forall beg now block len, recv_iter beg now conn "" block len = Ok (RecvWait (recv_remain beg now conn), conn)) as ->.
  { intros. unfold recv_iter. unfold pending in Hp. destruct (mapbuffer_ conn !! "") as [b|]; cbn in Hp; [by subst b|done]. }
  cbn. reflexivity.
Qed.

(** Asked for three bytes: nothing comes. *)
Lemma recv_pads_with_zeros_witness :
  exists s, impl_Recv lossy_env "a" 3 (mkImpl (Some (chan_of (set_conns conns_at_b io_at_a))), tt) = (Ok [x00; x00; x00], s).
Proof.
  exact (recv_pads_with_zeros lossy_env "a" 3 (mkImpl (Some (chan_of (set_conns conns_at_b io_at_a))))
    (chan_of (set_conns conns_at_b io_at_a)) (set_conns conns_at_b io_at_a) (make_ClientConnection 0 "a") tt 0 Timeout []
    eq_refl eq_refl eq_refl eq_refl eq_refl eq_refl eq_refl).
Defined.
