(* ===== verification/Interface.v ===== *)
(** The interface IChannel (IChannel.h), which the users of a channel program against,
    and TcpChannel as its implementation.

    A program is a list of calls of the interface.  [IChannelIds] says what the getters
    promise it: a pointer that is handed out stays the answer, whatever else is called.
    The theorem on programs is proved from that promise, which TcpChannel keeps. *)
From S2P Require Import Prelude StdMap Timer Events CycleBuffer Connection Json ConfigData Config.
From S2P Require Import Wire Servant Generated Client Server NetIO Heap TcpChannel Channel.
From Stdlib Require Import Strings.Byte.
#[local] Open Scope Z_scope.

(** The virtual methods, over the state [S] of the implementation.  [env] is what happens
    around a call; a callback is [None] for a null pointer, and so is [data]. *)
Class IChannel (S : Type) := {
  SetErrorCallback : option nat -> M S unit;
  Recv : Env -> string -> string -> option bytes -> Z -> Z -> M S (Z * option bytes);
  Send : Env -> string -> string -> bytes -> Z -> Z -> M S Z;
  Flush : M S unit;
  GetDataNodeIDs : M S addr;
  GetComputationNodeIDs : M S addr;
  GetResultNodeIDs : M S addr;
  GetCurrentNodeID : M S addr;
  GetConnectedNodeIDs : M S addr }.

(** * Programs *)
Inductive channel_call :=
  | CallSetErrorCallback (error_cb : option nat)
  | CallRecv (env : Env) (node_id id : string) (data : option bytes) (length timeout : Z)
  | CallSend (env : Env) (node_id id : string) (data : bytes) (length timeout : Z)
  | CallFlush
  | CallGet (k : cache).
Inductive channel_value :=
  | ValNone
  | ValReceived (n : Z) (data : option bytes)
  | ValSent (n : Z)
  | ValIds (p : addr).

Section programs.
Context {S : Type} `{IChannel S}.

Definition apply_call (c : channel_call) : M S channel_value :=
  match c with
  | CallSetErrorCallback error_cb => _ ← SetErrorCallback error_cb; mret ValNone
  | CallRecv env node_id id data length timeout =>
      got ← Recv env node_id id data length timeout; mret (ValReceived got.1 got.2)
  | CallSend env node_id id data length timeout => n ← Send env node_id id data length timeout; mret (ValSent n)
  | CallFlush => _ ← Flush; mret ValNone
  | CallGet k =>
      p ← match k with
          | CCurrent => GetCurrentNodeID
          | CData => GetDataNodeIDs
          | CComputation => GetComputationNodeIDs
          | CResult => GetResultNodeIDs
          | CConnected => GetConnectedNodeIDs
          end;
      mret (ValIds p)
  end.

(** An exception ends a call, not the program. *)
Fixpoint program (cs : list channel_call) (s : S) : list (result channel_value) * S :=
  match cs with
  | [] => ([], s)
  | c :: cs' =>
      let '(v, s1) := apply_call c s in
      let '(vs, s2) := program cs' s1 in
      (v :: vs, s2)
  end.
End programs.

(** What the getters promise: in a state that is sound ([ids_ok]) each answers; and an
    answer [p] stays the answer, while messages come and go and other ids are asked for. *)
Class IChannelIds (S : Type) `{IChannel S} := {
  ids_ok : S -> Prop;
  answers : S -> cache -> addr -> Prop;
  call_ok c s v s' : ids_ok s -> apply_call c s = (v, s') -> ids_ok s' /\ forall k p, answers s k p -> answers s' k p;
  get_answers k s v s' : ids_ok s -> apply_call (CallGet k) s = (v, s') -> exists p, v = Ok (ValIds p) /\ answers s' k p }.

Lemma program_answers {S} `{IChannelIds S} cs s vs s' : ids_ok s -> program cs s = (vs, s') ->
  ids_ok s' /\ (forall k p, answers s k p -> answers s' k p) /\
  forall i k, cs !! i = Some (CallGet k) -> exists p, vs !! i = Some (Ok (ValIds p)) /\ answers s' k p.
Proof.
  revert s vs. induction cs as [|c cs IH]; intros s vs Hs; cbn [program].
  { intros [= <- <-]. by split_and!. }
  destruct (apply_call c s) as [v s1] eqn:E. destruct (program cs s1) as [vs1 s2] eqn:E1. intros [= <- <-].
  destruct (call_ok c s v s1 Hs E) as [Hs1 Ha1]. destruct (IH s1 vs1 Hs1 E1) as (Hs2 & Ha2 & Hg).
  split; [done|]. split; [by eauto|]. intros [|i] k; [|apply Hg]. intros [= ->].
  destruct (get_answers k s v s1 Hs E) as (p & -> & Hp). exists p. by eauto.
Qed.

(** * TcpChannel *)
Section tcp.
Context {B : Type} `{MsgBuffer B} (STATIC_CALL : bool) `{IceStream} {SC SA Stub W : Type}.
Context (serve : Stub -> Current -> bytes -> W -> result bytes * W) (alloc : heap -> addr) (this : addr).
Abbreviation io_t := (@ViaNetIO B SC SA Stub).
Abbreviation tcp_t := (TcpChannel io_t).

(** The object, the world behind its BasicIO, and the process-wide caches. *)
Record tcp_state := mkState { st_channel : tcp_t; st_world : W; st_globals : globals }.

Definition on_messages {A} (m : M (tcp_t * W) A) : M tcp_state A := fun s =>
  let '(r, (ch, w)) := m (st_channel s, st_world s) in (r, mkState ch w (st_globals s)).
Definition on_caches {A} (m : tcp_t -> M globals A) : M tcp_state A := fun s =>
  let '(r, g) := m (st_channel s) (st_globals s) in (r, mkState (st_channel s) (st_world s) g).

#[local] Instance TcpChannel_IChannel : IChannel tcp_state := {
  SetErrorCallback _ := mret tt;
  Recv env node_id id data length timeout := on_messages (Channel.Recv env node_id id data length timeout);
  Send env node_id id data length timeout := on_messages (Channel.Send STATIC_CALL serve env node_id id data length timeout);
  Flush := mret tt;
  GetDataNodeIDs := on_caches (TcpChannel.GetDataNodeIDs alloc this);
  GetComputationNodeIDs := on_caches (TcpChannel.GetComputationNodeIDs alloc this);
  GetResultNodeIDs := on_caches (TcpChannel.GetResultNodeIDs alloc this);
  GetCurrentNodeID := on_caches (TcpChannel.GetCurrentNodeID alloc this);
  GetConnectedNodeIDs := on_caches (TcpChannel.GetConnectedNodeIDs alloc this) }.

(** The channel whose ids are asked for: a call on it changes its BasicIO at most. *)
Context (alloc_free : forall h, h !! alloc h = None) (ch0 : tcp_t) (ch0_ok : countable_ids ch0) (h0 : heap).
Definition sound (s : tcp_state) : Prop :=
  identity (st_channel s) = identity ch0 /\ owned_heap (fun _ => ch0) h0 (st_globals s).
Definition answered_by (s : tcp_state) (k : cache) (p : addr) : Prop := table k (st_globals s) !! this = Some p.

Lemma on_messages_sound {A} (m : M (tcp_t * W) A) s r s' : keeps_identity m -> sound s -> on_messages m s = (r, s') ->
  sound s' /\ st_globals s' = st_globals s.
Proof.
  intros Hm [Hi Hg]. unfold on_messages. destruct (m (st_channel s, st_world s)) as [o [ch w]] eqn:E. intros [= <- <-].
  split; [|done]. split; [|done]. cbn. by rewrite (Hm _ _ _ _ E : identity ch = _).
Qed.

Lemma on_caches_run (m : tcp_t -> M globals addr) s :
  (p ← on_caches m; mret (ValIds p)) s =
    let '(r, g) := m (st_channel s) (st_globals s) in
    (match r with Ok p => Ok (ValIds p) | Err e => Err e end, mkState (st_channel s) (st_world s) g).
Proof. unfold on_caches. cbv [mbind M_bind mret M_ret]. by destruct (m _ _) as [[] g]. Qed.

(** A getter of the interface is the getter of the channel it was at first. *)
Lemma get_call k s : sound s ->
  apply_call (CallGet k) s = let '(r, g) := get alloc (fun _ => ch0) k this (st_globals s) in
    (match r with Ok p => Ok (ValIds p) | Err e => Err e end, mkState (st_channel s) (st_world s) g).
Proof.
  intros [Hi _]. destruct s as [[io config info nodes] w g]. cbn in Hi. injection Hi as Hc Hn Hl.
  cut (apply_call (CallGet k) (mkState (mkTcp io config info nodes) w g) =
    let '(r, g') := get alloc (fun _ => mkTcp io config info nodes) k this g in
    (match r with Ok p => Ok (ValIds p) | Err e => Err e end, mkState (mkTcp io config info nodes) w g')).
  - intros ->. cbn [st_globals st_channel st_world]. subst config info nodes. by destruct k.
  - destruct k; [apply (on_caches_run (TcpChannel.GetCurrentNodeID alloc this))
      | apply (on_caches_run (TcpChannel.GetDataNodeIDs alloc this))
      | apply (on_caches_run (TcpChannel.GetComputationNodeIDs alloc this))
      | apply (on_caches_run (TcpChannel.GetResultNodeIDs alloc this))
      | apply (on_caches_run (TcpChannel.GetConnectedNodeIDs alloc this))].
Qed.

Lemma tcp_get k s v s' : sound s -> apply_call (CallGet k) s = (v, s') ->
  sound s' /\ (exists p, v = Ok (ValIds p) /\ answered_by s' k p) /\ forall k' p, answered_by s k' p -> answered_by s' k' p.
Proof.
  intros Hs. rewrite get_call by done. destruct Hs as [Hi Hg].
  destruct (get_step alloc (fun _ => ch0) alloc_free (fun _ => ch0_ok) h0 k this (st_globals s) Hg) as (p & g & -> & Hg' & Ht & Hts & _ & Hsame).
  intros [= <- <-]. split; [done|]. unfold answered_by. cbn. split.
  - exists p. by rewrite Ht, lookup_insert_eq.
  - intros k' p' Hp. destruct (decide (k' = k)) as [->|Hk]; [|by rewrite Hts].
    rewrite Ht, lookup_insert_eq. by rewrite (Hsame p' Hp).
Qed.

Lemma tcp_call c s v s' : sound s -> apply_call c s = (v, s') ->
  sound s' /\ forall k p, answered_by s k p -> answered_by s' k p.
Proof.
  intros Hs. destruct c as [cb|env nid id data len t|env nid id data len t| |k].
  - by intros [= <- <-].
  - cbn [apply_call]. unfold Recv. cbn [TcpChannel_IChannel]. cbv [mbind M_bind].
    destruct (on_messages _ s) as [r s1] eqn:E. apply on_messages_sound in E as [Hs1 Eg]; [|apply keeps_Recv|done].
    intros Hr. assert (s' = s1) as -> by (by destruct r; injection Hr). unfold answered_by. by rewrite Eg.
  - cbn [apply_call]. unfold Send. cbn [TcpChannel_IChannel]. cbv [mbind M_bind].
    destruct (on_messages _ s) as [r s1] eqn:E. apply on_messages_sound in E as [Hs1 Eg]; [|apply keeps_Send|done].
    intros Hr. assert (s' = s1) as -> by (by destruct r; injection Hr). unfold answered_by. by rewrite Eg.
  - by intros [= <- <-].
  - intros E. by destruct (tcp_get k s v s' Hs E) as (? & _ & ?).
Qed.

Lemma tcp_get_answers k s v s' : sound s -> apply_call (CallGet k) s = (v, s') -> exists p, v = Ok (ValIds p) /\ answered_by s' k p.
Proof. intros Hs E. by destruct (tcp_get k s v s' Hs E) as (_ & ? & _). Qed.
#[local] Instance TcpChannel_ids : IChannelIds tcp_state :=
  {| ids_ok := sound; answers := answered_by; call_ok := tcp_call; get_answers := tcp_get_answers |}.
End tcp.
Arguments tcp_state B SC SA Stub W : clear implicits.

(** * Property *)

(** C22: Programs over the interface can read the node ids.  Take any program of calls on a
    configured channel (its lists counted by an [int]), in any order, its sends and
    receives failing or not: every getter call returns a pointer, and at the end of the
    program that pointer is still the cached one, the same for every call of that
    getter, and behind it are the ids the channel had at the start. *)
Theorem program_reads_ids B `{MsgBuffer B} STATIC_CALL `{IceStream} {SC SA Stub W : Type}
    (serve : Stub -> Current -> bytes -> W -> result bytes * W) alloc this cs (s : tcp_state B SC SA Stub W) vs s' :
  (forall h, h !! alloc h = None) -> countable_ids (st_channel s) -> (forall k, table k (st_globals s) = ∅) ->
  program (H := TcpChannel_IChannel STATIC_CALL serve alloc this) cs s = (vs, s') ->
  forall i k, cs !! i = Some (CallGet k) -> exists p,
    vs !! i = Some (Ok (ValIds p)) /\ table k (st_globals s') !! this = Some p /\
    exposes k (st_channel s) (g_heap (st_globals s')) p.
Proof.
  intros Ha Hc Ht E i k Hi.
  destruct (program_answers (H0 := TcpChannel_ids STATIC_CALL serve alloc this Ha (st_channel s) Hc (g_heap (st_globals s))) cs s vs s')
    as ([_ Hg] & _ & Hget); [split; [done|by apply owned_start]|exact E|].
  destruct (Hget i k Hi) as (p & Ev & Hp). exists p. split; [done|]. split; [exact Hp|].
  exact (owned_exposes (fun _ => st_channel s) (fun _ => Hc) _ _ k this p Hg Hp).
Qed.

(** The ids of a channel that has no network side are read around a send that fails. *)
Definition ids_program : list channel_call :=
  [CallGet CData; CallSend sync_env "b" "" [x01] 1 0; CallGet CCurrent; CallFlush; CallGet CData].
Definition ids_state : tcp_state MsgQueue.queue unit unit string unit :=
  mkState (mkTcp None (Some two_nodes) sample_info ["b"]) tt no_globals.
Abbreviation ids_run := (program (H := TcpChannel_IChannel (H0 := Encoding11.encoding) false
  (fun (_ : string) _ _ (w : unit) => (Ok [], w)) first_free 3) ids_program ids_state).

Lemma program_reads_ids_witness : exists vs s' p, ids_run = (vs, s') /\
  vs !! 0%nat = Some (Ok (ValIds p)) /\ vs !! 4%nat = Some (Ok (ValIds p)) /\ read_vector (g_heap (st_globals s')) p = Some (data_nodes_ two_nodes).
Proof.
  destruct ids_run as [vs s'] eqn:E.
  assert (countable_ids (st_channel ids_state)) as Hc by (split; [by vm_compute|exists two_nodes; split; [done|by vm_compute]]).
  assert (forall k, table k (st_globals ids_state) = ∅) as Ht by (by intros []).
  pose proof (program_reads_ids MsgQueue.queue (H0 := Encoding11.encoding) false (fun (_ : string) _ _ (w : unit) => (Ok [], w))
    first_free 3 ids_program ids_state vs s' first_free_free Hc Ht E) as Hr.
  destruct (Hr 0%nat CData eq_refl) as (p & Ev & Hp & c & [= <-] & Hx). destruct (Hr 4%nat CData eq_refl) as (p' & Ev' & Hp' & _).
  rewrite Hp in Hp'. injection Hp' as <-. exists vs, s', p. split; [reflexivity|]. split; [exact Ev|]. split; [exact Ev'|].
  rewrite Hx. by vm_compute.
Defined.
