(* ===== verification/Session.v ===== *)
(** A Python process that uses the library: the module [pyio] (pybind11/io_channel.cc)
    with the class APIManager, over the one IoChannelImpl of the process.

    A session is a list of calls.  A C++ exception becomes a Python one, which the
    program may catch: the next call sees the state the failed one left. *)
From S2P Require Import Prelude StdMap Timer Events CycleBuffer Connection Json ConfigData Config.
From S2P Require Import ConfigSpec Policy Wire Servant Client Server NetIO Heap TcpChannel Channel.
From Stdlib Require Import Strings.Byte.
#[local] Open Scope Z_scope.

Section session.
Context {B : Type} `{MsgBuffer B} (USE_BUFFER STATIC_CALL ASYNC_SERVER : bool) `{IceStream}.
Context {SC SA CC Stub W : Type} (ices : IceServer SC SA) (icec : IceClient CC Stub).
Context (serve : Stub -> Current -> bytes -> W -> result bytes * W).
Context (order : gset string -> list string).
Context (SSL_TYPE : Z) (open_file : string -> option string) (Parse : string -> option json).
Abbreviation io_t := (@ViaNetIO B SC SA Stub).
Abbreviation tcp_t := (TcpChannel io_t).
Abbreviation impl_t := (IoChannelImpl B SC SA Stub).

(** The methods the module exports, with what happens around each call. *)
Inductive py_call :=
  | GetPolicy (config_str : string)
  | create_channel (env : Env) (junk : char) (node_id config_str : string)
  | Recv (env : Env) (node_id : string) (recv_len : Z)
  | Send (env : Env) (node_id : string) (data : bytes).
Inductive py_value :=
  | PyStr (s : string)
  | PyChannel (ch : option tcp_t)
  | PyBytes (d : bytes)
  | PyInt (n : Z).

(** [def(name, method)] *)
Definition py_method (c : py_call) : string :=
  match c with
  | GetPolicy _ => "GetPolicy"
  | create_channel _ _ _ _ => "create_channel"
  | Recv _ _ _ => "Recv"
  | Send _ _ _ => "Send"
  end.

Definition py_apply (c : py_call) : M (impl_t * W) py_value :=
  match c with
  | GetPolicy config_str => s ← lift (api_GetPolicy SSL_TYPE open_file Parse config_str); mret (PyStr s)
  | create_channel env junk node_id config_str =>
      ch ← Channel.create_channel USE_BUFFER STATIC_CALL ASYNC_SERVER ices icec serve order
             SSL_TYPE open_file Parse env junk node_id config_str;
      mret (PyChannel ch)
  | Recv env node_id recv_len => d ← api_Recv env node_id recv_len; mret (PyBytes d)
  | Send env node_id data => n ← api_Send STATIC_CALL serve env node_id data; mret (PyInt n)
  end.

(** [static IoChannelImpl impl] *)
Definition Instance : impl_t := mkImpl None.

Fixpoint session (cs : list py_call) (s : impl_t * W) : list (result py_value) * (impl_t * W) :=
  match cs with
  | [] => ([], s)
  | c :: cs' =>
      let '(v, s1) := py_apply c s in
      let '(vs, s2) := session cs' s1 in
      (v :: vs, s2)
  end.

(** * Which channel the process uses *)

Definition created (v : result py_value) : option tcp_t :=
  match v with Ok (PyChannel (Some ch)) => Some ch | _ => None end.
Definition last_created (vs : list (result py_value)) : option tcp_t := last (omap created vs).

Lemma on_channel_keeps {A} (none : A) (m : M (tcp_t * W) A) impl w r impl' w' :
  keeps_identity m -> on_channel none m (impl, w) = (r, (impl', w')) ->
  identity <$> io_channel_ impl' = identity <$> io_channel_ impl /\
  (io_channel_ impl = None -> r = Ok none /\ w' = w).
Proof.
  intros Hm. unfold on_channel. destruct (io_channel_ impl) as [ch|] eqn:E; [|by intros [= <- <- <-]; rewrite E].
  destruct (m (ch, w)) as [o [ch' w1]] eqn:Em. intros [= <- <- <-]. cbn.
  split; [|done]. f_equal. exact (Hm _ _ _ _ Em).
Qed.

(** Creating a channel replaces the process's one, or leaves it. *)
Lemma create_replaces env junk nid text cb impl w r impl' w' :
  CreateIoChannel USE_BUFFER STATIC_CALL ASYNC_SERVER ices icec serve order SSL_TYPE open_file Parse env junk nid text cb (impl, w)
    = (r, (impl', w')) ->
  match r with Ok (Some ch) => io_channel_ impl' = Some ch | _ => impl' = impl end.
Proof.
  unfold CreateIoChannel, lift. cbv [mbind M_bind].
  destruct (make_ChannelConfig _ _ _ _ _) as [c|]; [|by intros [= <- <- <-]].
  destruct (GetNode _ _) as [n|]; [|by intros [= <- <- <-]].
  destruct (CopyNodeInfo _ _ _ _) as [[ni|] c1]; [|by intros [= <- <- <-]].
  destruct (GetNodeInfos _ _ _) as [[found|] [[c2 ids] infos]]; [|by intros [= <- <- <-]].
  unfold CreateViaChannel. destruct (init _ _ _ _ _ _ _ _ _ _ _) as [[[]|] [io w1]]; intros E; simplify_eq; [done| |done].
  by destruct cb.
Qed.

Lemma py_apply_channel c impl w v impl' w' :
  py_apply c (impl, w) = (v, (impl', w')) ->
  identity <$> io_channel_ impl' =
    match created v with Some ch => Some (identity ch) | None => identity <$> io_channel_ impl end /\
  (io_channel_ impl = None ->
   match c with
   | Send _ _ _ => v = Ok (PyInt 0) /\ w' = w
   | Recv _ _ _ => v = Ok (PyBytes []) /\ w' = w
   | _ => True
   end).
Proof.
  destruct c as [text|env junk nid text|env nid len|env nid data]; cbn [py_apply]; cbv [mbind M_bind].
  - unfold lift. destruct (api_GetPolicy _ _ _ _); by intros [= <- <- <-].
  - unfold Channel.create_channel. destruct (CreateIoChannel _ _ _ _ _ _ _ _ _ _ _ _ _ _ _ _) as [o [impl1 w1]] eqn:E.
    apply create_replaces in E. destruct o as [[ch|]|]; intros [= <- <- <-]; cbn; by rewrite E.
  - unfold api_Recv, impl_Recv. destruct (on_channel _ _ _) as [o [impl1 w1]] eqn:E.
    apply on_channel_keeps in E as [Ei En]; [|apply keeps_bind; [apply keeps_Recv|intros []; apply keeps_ret]].
    destruct o; intros [= <- <- <-]; (split; [done|]); intros Hn; destruct (En Hn); by simplify_eq.
  - unfold api_Send, impl_Send. destruct (on_channel _ _ _) as [o [impl1 w1]] eqn:E.
    apply on_channel_keeps in E as [Ei En]; [|apply keeps_Send].
    destruct o; intros [= <- <- <-]; (split; [done|]); intros Hn; destruct (En Hn); by simplify_eq.
Qed.

Lemma last_cons_default {A} (x : A) l : last (x :: l) = Some (default x (last l)).
Proof. rewrite last_cons. by destruct (last l). Qed.

Lemma session_run cs impl w vs impl' w' :
  session cs (impl, w) = (vs, (impl', w')) ->
  identity <$> io_channel_ impl' =
    match last_created vs with Some ch => Some (identity ch) | None => identity <$> io_channel_ impl end /\
  (io_channel_ impl = None -> last_created vs = None ->
   Forall2 (fun c v => match c with
                       | Send _ _ _ => v = Ok (PyInt 0)
                       | Recv _ _ _ => v = Ok (PyBytes [])
                       | _ => True end) cs vs).
Proof.
  revert impl w vs. induction cs as [|c cs IH]; intros impl w vs; cbn.
  { intros [= <- <- <-]. split; [done|]. constructor. }
  destruct (py_apply c (impl, w)) as [v [impl1 w1]] eqn:Ea.
  destruct (session cs (impl1, w1)) as [vs2 [impl2 w2]] eqn:Es. intros [= <- <- <-].
  apply py_apply_channel in Ea as [Ei En]. apply IH in Es as [Ei2 En2].
  unfold last_created in *. cbn [omap list_omap]. destruct (created v) as [ch|] eqn:Ec.
  - rewrite last_cons_default. split; [|by intros _ [=]].
    rewrite Ei2. destruct (last (omap created vs2)); [done|]. by rewrite Ei.
  - split; [by rewrite Ei2, Ei|]. intros Hn Hl.
    rewrite Hn in Ei. apply fmap_None in Ei. constructor; [|by apply En2].
    specialize (En Hn). destruct c; naive_solver.
Qed.
End session.

(** * The channel objects of the process
    [create_channel] sets [io_channel_] to the new object; what happens to the objects is
    a sequence of such creations and of the calls of TcpChannel.v. *)
Inductive process_step := Created (tcp_channel : addr) | Called (c : call).

Section process.
Context {IO : Type} (alloc : heap -> addr) (chans : addr -> TcpChannel IO).

Definition process (st : process_step) : M (option addr * globals) unit := fun '(io_channel, g) =>
  match st with
  | Created tcp_channel => (Ok tt, (Some tcp_channel, g))
  | Called c => let '(r, g') := perform alloc chans c g in (r, (io_channel, g'))
  end.

(** The channel created last, and the calls. *)
Fixpoint current (io_channel : option addr) (sts : list process_step) : option addr :=
  match sts with
  | [] => io_channel
  | Created p :: sts' => current (Some p) sts'
  | Called _ :: sts' => current io_channel sts'
  end.
Definition calls_of (sts : list process_step) : list call :=
  omap (fun st => match st with Called c => Some c | Created _ => None end) sts.

Lemma process_run sts cur g g' :
  for_each (perform alloc chans) (calls_of sts) g = (Ok tt, g') ->
  for_each process sts (cur, g) = (Ok tt, (current cur sts, g')).
Proof.
  revert cur g. induction sts as [|[p|c] sts IH]; intros cur g.
  - by intros [= <-].
  - apply (IH (Some p)).
  - cbn [for_each calls_of omap list_omap current]. cbv [mbind M_bind].
    cbn [process]. destruct (perform alloc chans c g) as [[[]|e] g1]; [apply IH|done].
Qed.

Lemma destroy_impl_run cur g :
  destroy_IoChannelImpl cur g =
    let '(r, g') := for_each (perform alloc chans) (destructors (option_list cur)) g in
    match r with Ok _ => (Ok None, g') | Err e => (Err e, g') end.
Proof.
  rewrite <- (destructors_run alloc chans). destruct cur as [p|]; [|done]. cbn. cbv [mbind M_bind mret M_ret].
  by destruct (destroy_TcpChannel p g) as [[[]|e] g1].
Qed.
End process.

(** * Properties *)

(** C21: The process uses the channel it created last.  Through any session of calls,
    failing ones included, the channel behind [Send] and [Recv] is the one the last
    successful [create_channel] returned, with its configuration, node and connected
    ids; and as long as none was created, [Send] reports 0 and [Recv] returns nothing. *)
Theorem session_uses_last_channel B `{MsgBuffer B} (USE_BUFFER STATIC_CALL ASYNC_SERVER : bool) `{IceStream} {SC SA CC Stub W : Type}
    (ices : IceServer SC SA) (icec : IceClient CC Stub) (serve : Stub -> Current -> bytes -> W -> result bytes * W)
    order SSL_TYPE open_file Parse cs w vs impl' w' :
  session USE_BUFFER STATIC_CALL ASYNC_SERVER ices icec serve order SSL_TYPE open_file Parse cs (Instance (B:=B), w) = (vs, (impl', w')) ->
  identity <$> io_channel_ impl' = identity <$> last_created vs /\
  (last_created vs = None ->
   Forall2 (fun c v => match c with
                       | Send _ _ _ => v = Ok (PyInt 0)
                       | Recv _ _ _ => v = Ok (PyBytes [])
                       | _ => True end) cs vs).
Proof.
  intros Hs. apply session_run in Hs as [Hi Hn]. split; [|by apply Hn].
  rewrite Hi. by destruct (last_created vs).
Qed.

(** A send before there is a channel, then one is created at node "a". *)
Abbreviation sample_session :=
  (session (B:=MsgQueue.queue) (H0:=Encoding11.encoding) false false false accepting_server accepting_client
    (fun (_ : string) _ _ (w : unit) => (Ok [], w)) elements 0 (fun _ => None)
    (fun _ => Some (JObject (sample_doc [JString "b"])))
    [Send sync_env "b" [x01]; create_channel sync_env x00 "a" "{}"] (Instance, tt)).

Lemma session_uses_last_channel_witness :
  exists v1 v2 impl w, sample_session = ([v1; v2], (impl, w)) /\ v1 = Ok (PyInt 0) /\
    identity <$> io_channel_ impl = identity <$> last_created [v1; v2] /\ is_Some (io_channel_ impl).
Proof.
  destruct sample_session as [vs [impl w]] eqn:E.
  assert (exists v2, vs = [Ok (PyInt 0); v2] /\ is_Some (created v2)) as (v2 & -> & Hv).
  { apply (f_equal fst) in E. vm_compute in E. subst vs. by repeat eexists. }
  exists (Ok (PyInt 0)), v2, impl, w. split; [reflexivity|]. split; [reflexivity|].
  destruct (session_uses_last_channel MsgQueue.queue (H0:=Encoding11.encoding) false false false accepting_server accepting_client
    (fun (_ : string) _ _ (w : unit) => (Ok [], w)) elements 0 (fun _ => None)
    (fun _ => Some (JObject (sample_doc [JString "b"])))
    [Send sync_env "b" [x01]; create_channel sync_env x00 "a" "{}"] tt _ _ _ E) as [Hi _].
  split; [exact Hi|]. destruct Hv as [ch Hv]. unfold last_created in Hi. cbn [omap list_omap] in Hi. cbn [created] in Hi.
  rewrite Hv in Hi. cbn in Hi. destruct (io_channel_ impl); [by eexists|discriminate].
Defined.

(** C20: Only the channel created last is destroyed.  However channels were created and
    their getters called, the end of the process runs the destructor of the last one
    without touching freed memory.  What stays behind is exactly the structures that
    the getters of the replaced channels handed out: the heap is what it was at first
    and what the caches still point to, which is those structures, still readable; and
    to run the destructors of the replaced channels, which nothing does, would give
    back the heap and the caches of the start.  Creating a channel overwrites the
    pointer to the one before, and nothing else refers to it. *)
Theorem replaced_channels_leak {IO} (alloc : heap -> addr) (chans : addr -> TcpChannel IO) sts g0 :
  (forall h, h !! alloc h = None) -> (forall this, countable_ids (chans this)) -> (forall k, table k g0 = ∅) ->
  exists g g', for_each (process alloc chans) sts (None, g0) = (Ok tt, (current None sts, g)) /\
    destroy_IoChannelImpl (current None sts) g = (Ok None, g') /\
    (forall k this, is_Some (table k g' !! this) <->
       held_by k this (calls_of sts) false = true /\ current None sts <> Some this) /\
    (forall k this p, table k g' !! this = Some p -> exposes k (chans this) (g_heap g') p) /\
    owned_heap chans (g_heap g0) g' /\
    forall l, (forall k this, Get k this ∈ calls_of sts -> this ∈ l \/ current None sts = Some this) ->
      for_each destroy_TcpChannel l g' = (Ok tt, g0).
Proof.
  intros Ha Hc Ht.
  destruct (calls_run alloc chans Ha Hc (g_heap g0) (calls_of sts ++ destructors (option_list (current None sts))) g0
    (owned_start chans g0 Ht)) as (g' & E & Hg & Hh).
  rewrite for_each_app in E. cbv [mbind M_bind] in E.
  destruct (for_each (perform alloc chans) (calls_of sts) g0) as [[[]|e] g1] eqn:E1; [|done].
  exists g1, g'. split; [by apply process_run|]. split; [by rewrite (destroy_impl_run alloc chans), E|]. split.
  - intros k this. etrans; [exact (Hh k this false (table_held_start k this g0 (Ht k)))|].
    rewrite held_by_app, held_by_destructors. destruct (current None sts) as [p|]; cbn; case_decide; set_solver.
  - split; [intros k this p Hp; by eapply owned_exposes|]. split; [done|]. intros l Hl.
    destruct (calls_run alloc chans Ha Hc (g_heap g0) (destructors l) g' Hg) as (g2 & E2 & Hg2 & Hh2).
    rewrite (destructors_run alloc chans), E2. f_equal.
    assert (forall k, table k g2 = ∅) as Hg0; [|apply globals_eq; [by eapply owned_nothing|intros k; by rewrite Hg0, Ht]].
    intros k. apply map_eq. intros this. rewrite lookup_empty. apply eq_None_not_Some.
    intros Hs%(proj1 (Hh2 k this _ (Hh k this false (table_held_start k this g0 (Ht k))))). revert Hs.
    rewrite held_by_app, !held_by_destructors. case_decide as Hi; [done|]. case_decide as Hlast; [done|].
    rewrite (held_by_absent k this (calls_of sts)); [done|]. intros k' [?|Hcur]%Hl; [done|].
    apply Hlast. rewrite Hcur. by left.
Qed.

(** Two channels are created, each one's node id is asked for, and the process ends. *)
Definition two_channels : list process_step :=
  [Created 1%nat; Called (Get CCurrent 1); Created 2%nat; Called (Get CCurrent 2)].

Lemma replaced_channels_leak_witness :
  exists g g' p, for_each (process first_free (fun _ => sample_channel)) two_channels (None, no_globals) = (Ok tt, (Some 2%nat, g)) /\
    destroy_IoChannelImpl (Some 2%nat) g = (Ok None, g') /\ table CCurrent g' !! 1%nat = Some p /\
    read_string (g_heap g') p = Some "d0" /\ destroy_TcpChannel 1%nat g' = (Ok tt, no_globals).
Proof.
  destruct (replaced_channels_leak first_free (fun _ => sample_channel) two_channels no_globals) as (g & g' & E & Ed & Hh & Hr & _ & Hl).
  - apply first_free_free.
  - intros _. split; [by vm_compute|]. exists two_nodes. split; [done|]. by vm_compute.
  - by intros [].
  - destruct (proj2 (Hh CCurrent 1%nat)) as [p Hp]; [by vm_compute|].
    exists g, g', p. split; [exact E|]. split; [exact Ed|]. split; [exact Hp|]. split; [exact (Hr _ _ _ Hp)|].
    specialize (Hl [1%nat]). cbn in Hl. cbv [mbind M_bind mret M_ret] in Hl. destruct (destroy_TcpChannel 1 g') as [[[]|e] g2].
    + apply Hl. intros k this. cbn. rewrite !elem_of_cons. intros [[= _ ->]|[[= _ ->]|[]%elem_of_nil]]; [left; by left|by right].
    + discriminate Hl. intros k this. cbn. rewrite !elem_of_cons. intros [[= _ ->]|[[= _ ->]|[]%elem_of_nil]]; [left; by left|by right].
Defined.
